(* ===== verification/_CoqProject ===== *)
-Q . S2P
Prelude.v
LinkedList.v
CString.v
Common.v
OS.v
Utils.v
DirSpec.v
SyncInfo.v
Client.v
Transfer.v
JobSink.v
JobQueue.v
PoolSteps.v
PoolRefine.v
PoolAgree.v
Worker.v
Manager.v
ManagerSpec.v
EndToEnd.v
Directory.v
ConfigFile.v
ManagerLife.v
ManagerTypes.v
Console.v
Programs.v
Replay.v
Fate.v
Protocol.v
Network.v
NetReplay.v
NetInv.v
NetNode.v
NetRuns.v
NetGrowth.v
NetFiles.v
NetLive.v
NetTerm.v
NetDelivers.v
NetRoom.v
NetExec.v
PoolJobs.v
System.v
Driver.v
Recorder.v
SystemDirectory.v
ManagerSystem.v
NetDemo.v
