(* ===== verification/Prelude.v ===== *)
(** * NFS-System: a verification development of the distributed file synchroniser

    ** The program

    The repository (C, under [src/]) keeps directories of one machine copied
    to another.  It has three processes:

    - [nfs_client] serves files of its machine: LIST, PULL and PUSH on TCP
      connections, one at a time ([src/src/nfs_client_logic.c],
      [src/src/nfs_client.c]);
    - [nfs_manager] keeps the pairs of directories in a store
      ([src/src/sync_info.c]), asks the source client of a pair for its file
      names and makes a job of each ([src/src/nfs_manager_logic.c],
      [src/src/nfs_manager.c]); a pool of worker threads
      ([src/src/thread_pool.c]) takes the jobs from a bounded queue and moves
      each file with a PULL at the source and a PUSH session at the target;
    - [nfs_console] reads commands of a user and sends them to the manager
      ([src/src/nfs_console.c]).

    [src/src/utils.c] has what they share: sockets, logging, the parsing of
    directory specifications.

    ** How it is modelled

    A C function is a function of the state monad [M] below: it returns a
    value and a new state, or does something C leaves undefined ([UB], with
    its kind: overflow of an array, use of a freed block, ...), or blocks.
    What the kernel and the peers decide is a script in the state, over which
    the theorems quantify: which calls fail, how many bytes a [send], [read]
    or [recv] moves, in which portions the bytes of a connection arrive, what
    [select] reports, when a signal comes.  [wp] is total correctness, [wlp]
    allows blocking; both exclude undefined behaviour and running out of fuel.

    - [Prelude]: outcomes, the monad, integers, weakest preconditions.
    - [LinkedList]: blocks linked by a [next] field, for the two lists of the
      program; the interface is the class [Linked].
    - [CString]: byte strings and the C library's functions on them ([strtok],
      [sscanf], [snprintf], [atoi], ...), with arrays of a given size.
    - [Common]: constants and structures of [include/common.h], timestamps.
    - [OS]: descriptors, sockets, files, and the system calls.
    - [Utils], [DirSpec]: [utils.c].
    - [SyncInfo]: [sync_info.c] on a heap of typed blocks with a mutex; the
      module [Spec] is the store as a list of entries.
    - [Client]: [nfs_client_logic.c] and [nfs_client.c], including the static
      variable [current_fd].
    - [Transfer]: [sync_single_file] of [thread_pool.c]; [Worker]: the loop
      [worker_thread] around it.
    - [JobSink]: what the manager relies on of the pool, as a class with laws.
      [JobQueue]: the queue of [thread_pool.c] as one caller runs it, the
      other threads being a script of what they do during its waits; the
      instance [queue_sink] of [JobSink].
    - [PoolSteps]: the same functions as threads in a step relation, cut at the
      points where the scheduler may change threads, with wakeups by signal,
      by broadcast and without cause.  It uses the queue assignments
      ([link_job], [unlink_job], ...) of [JobQueue].
    - [PoolRefine]: a bounded channel with a crew of workers, and the
      simulation of it by the threads of [PoolSteps].  [PoolAgree]: a thread
      of [PoolSteps] that is not disturbed runs the function of [JobQueue].
    - [Manager]: [nfs_manager_logic.c] and [nfs_manager.c], for any [JobSink];
      [ManagerSpec] (pairs and commands), [ConfigFile], [ManagerLife] (start,
      console connection, end), [ManagerTypes] have its theorems.
    - [EndToEnd]: source client, worker and target client put together for a
      file; [Directory]: clients, manager and workers for a directory;
      [Fate]: the same for a job that may also fail, because the source has
      not its file or nobody listens at one of its addresses.
    - [Console]: [nfs_console.c], and its agreement with the manager.

    The functions above run one thread on a scripted peer.  The following
    files put any number of workers and clients together on shared queues:

    - [Programs]: [sync_single_file] and [handle_client_connection] as
      programs that stop at each call on a connection, and that they are the
      functions of [Transfer] and [Client].  [Replay]: a thread's run so far,
      replayed on a script of what it has received.  [Protocol]: the shapes
      the two programs can have, and what each may do next.
    - [Network]: links with a queue in each direction, the steps of workers
      and clients; [NetExec]: the steps as functions, and a scheduler.
    - [NetReplay], [NetInv], [NetNode], [NetRuns]: the invariant of the
      network, which says of every thread that it replays its function.
    - [NetGrowth], [NetFiles], [NetLive], [NetTerm]: runs on longer scripts;
      what a job's source has said and its target has stored at any time; who
      can wait for whom; a measure that every step decreases.
      [NetDelivers], [NetRoom]: what follows for all jobs, with queues that
      hold everything and with queues of any capacity.
    - [PoolJobs], [System]: the pool of [PoolSteps] and the network as one
      transition system; [SystemDirectory]: a directory copied by it.
      [Driver]: its main thread makes a sequence of calls; [Recorder]: an
      instance of [JobSink] that writes down the calls [Manager] makes;
      [ManagerSystem]: the two together.  [NetDemo]: examples that the kernel
      runs.

    Names of definitions are those of the C functions; a function that is
    long in C is cut into the definitions named after its blocks.

    ** What is shown

    - The whole system, in every interleaving of the pool's threads, the
      transfers and the clients: [manager_copies_directory] (from the listing
      of a source to the last file at the target), [requests_carried_out]
      (whatever the manager is asked), [driver_synchronises] (any calls),
      [system_synchronises] and [directory_delivered] (from where the pool is
      being destroyed); its network alone:
      [network_delivers] (every run ends, every file that the sources have
      arrives, and a job that fails harms no other), [bounded_queues_deliver]
      (the same for any capacity of the queues, if workers do not share a
      target) and [network_refines_scripts] (what the threads have done is
      what the functions below do on what the peers have sent), the latter
      for queues of any capacity; [threads_are_functions].
    - Composition of one run of each process: [directory_synchronised], [file_synchronised],
      [portions_equivalent], [console_manager_agree], [config_file_loads].
      The processes run their own code, and the network hands on what was
      sent; which message boundaries must survive is said in each statement.
    - The pool, in every interleaving: [pool_safe], [pool_fifo],
      [pool_refines_channel], [threads_run_functions], [pool_deadlock_free], [pool_makes_progress],
      [destroy_terminates], [destroy_drains]; and as one caller sees it:
      [enqueue_correct], [dequeue_correct], [worker_drains_queue].
    - The store: [store_refines_spec], [destroy_frees_everything].
    - The manager: what each command does and leaves alone
      ([directory_sync_jobs], [add_command_outcome], [cancel_only_marks]), a
      type invariant over any requests ([manager_well_typed]), the run of
      [main] ([main_runs], [shutdown_ends_server], [cleanup_releases]).
    - The client's commands ([pull_sends_file], [push_chunk_stored],
      [list_sends_names], [connection_ends]), the transfer of a file
      ([sync_relays_file], [sync_closes_connections]), the console
      ([console_main_returns]), and the parser of specifications against its
      grammar.
    - Where the code does not do what it means to, the theorem says what it
      does: [crossed_connections_deadlock], [failed_creation_deadlocks], [failed_pool_double_free],
      [failed_add_stays_registered], [joined_messages_corrupt],
      [split_listing_loses_names], [console_input_undefined], and the
      theorems whose name ends in [_overflow].

    ** Bounds and fuel

    Loops that are not structural take fuel, and every function that calls
    one chooses it: the number of blocks of the heap for a walk over a list
    (a chain never visits a block twice); the bytes that have not arrived,
    and one more, for a loop around [recv]; the answers scripted for [send],
    and one more, for a loop around [send]; the bytes of the file for a loop
    around [read] or [fgets]; the length of the buffer for [strtok].  [wp] and
    [wlp] are false of a run that is out of fuel, so that each theorem about
    such a function shows that its fuel is enough.  The fuel of
    [worker_thread] is the number of jobs it takes, an argument of its
    theorems.  Sums of [int] are checked ([int_result]); [atoi], [htons] and
    the casts wrap as the machine does.

    ** What is not modelled

    - Output on the standard streams, except that printing an array that was
      never written is undefined behaviour.
    - The 64-bit overflow of [total_transferred]: files of more than
      [long_max] bytes are excluded by hypothesis where it matters.  A [size]
      that a source announces is compared as the code does.
    - Failure of [strdup], read errors of [fgets], SIGPIPE, and a second
      signal after the handler has restored the default, which kills the
      process.
    - The blocks of the pool structure itself and of its array of threads;
      the destruction of mutexes and condition variables.
    - The two waits of the pool are condition variables as POSIX describes
      them; the mutex is fair only in that some waiting thread can take it.
    - The processes of [Directory] and [EndToEnd] run one after the other on
      what the other has sent; how they run at the same time is the subject of
      [Network] and the files after it.  There a [send] puts its bytes on the
      queue as one message and a [recv] takes at most one message, or the part
      of it that fits, and a connection is refused where no client listens:
      partial sends, joined messages, resets and clients that come and go are
      left to the scripts of the single threads ([sync_closes_connections] and
      [connection_ends] hold for any).
      [network_delivers] and the theorems of [System] take queues that hold
      as many bytes as are sent; what happens with less say
      [bounded_queues_deliver] and [crossed_connections_deadlock].
      Every worker has a table of descriptors of its own; what the program
      does with a descriptor does not depend on its number.
    - The manager runs as a function ([Manager]) on a pool that answers at
      once, and its calls are made again, one after the other, by the main
      thread of [Driver].  The two fit because the manager looks only at
      whether a job was created and whether [enqueue_sync_job] returned 0,
      which the pool answers alike in every interleaving; in
      [manager_copies_directory] and [requests_carried_out] memory for the
      jobs is always found, and the files of the clients are those at the
      time when the calls are made.  A run
      of [Driver] may have any number of spurious wakeups, but an infinite
      one with infinitely many is not excluded.
    - [tests/], [acutest.h], the Makefile and [test_script.sh]. *)
From stdpp Require Import gmap strings list.
From Stdlib Require Import Ascii ZArith Lia.

(** ** Outcomes and the state monad

    A C function is a function from the state of its component to an
    [outcome]: it returns a value and the new state, or it performs an
    operation C leaves undefined, or it blocks in a system call for which the
    environment script holds no further event, or the fuel of a loop runs out
    (which the termination theorems exclude). *)

Inductive ub_kind :=
| BufferOverflow      (* a write past the end of a character array *)
| UninitialisedRead   (* a read of a variable that was never assigned *)
| UseAfterFree        (* a dereference or free of a block that was freed *)
| NullDereference     (* a dereference of NULL *)
| SignedOverflow      (* an int sum or difference outside the int range *)
| RelockedMutex.      (* a thread locks a default mutex it holds *)

Inductive outcome (S A : Type) : Type :=
| Ret (a : A) (s : S)
| UB (k : ub_kind)
| Blocked
| NoFuel.
Arguments Ret {S A} a s.
Arguments UB {S A} k.
Arguments Blocked {S A}.
Arguments NoFuel {S A}.

Definition M (S A : Type) : Type := S → outcome S A.

Definition ret {S A} (a : A) : M S A := λ s, Ret a s.

Definition bind {S A B} (c : M S A) (f : A → M S B) : M S B := λ s,
  match c s with
  | Ret a s' => f a s'
  | UB k => UB k
  | Blocked => Blocked
  | NoFuel => NoFuel
  end.

Definition undef {S A} (k : ub_kind) : M S A := λ _, UB k.
Definition blocked {S A} : M S A := λ _, Blocked.
Definition no_fuel {S A} : M S A := λ _, NoFuel.
Definition get {S} : M S S := λ s, Ret s s.
Definition gets {S A} (f : S → A) : M S A := λ s, Ret (f s) s.
Definition modify {S} (f : S → S) : M S unit := λ s, Ret tt (f s).

(** A computation on a part of the state, run on the whole. *)
Definition zoom {S T A} (view : S → T) (update : T → S → S) (c : M T A) : M S A := λ s,
  match c (view s) with
  | Ret a t => Ret a (update t s)
  | UB k => UB k
  | Blocked => Blocked
  | NoFuel => NoFuel
  end.

Declare Scope prog_scope.
Delimit Scope prog_scope with prog.
Notation "x <- c1 ;; c2" := (bind c1 (λ x, c2))
  (at level 100, c1 at next level, right associativity) : prog_scope.
Notation "c1 ;;; c2" := (bind c1 (λ _, c2))
  (at level 100, right associativity) : prog_scope.
#[global] Open Scope prog_scope.

(** Pointers that may be NULL. *)
Abbreviation ptr := option.
Abbreviation NULL := None.

(** Addresses of heap blocks. *)
Abbreviation loc := positive.

(** ** Machine integers *)

Definition int_min : Z := - 2 ^ 31.
Definition int_max : Z := 2 ^ 31 - 1.
Definition long_min : Z := - 2 ^ 63.
Definition long_max : Z := 2 ^ 63 - 1.

(** Conversion of a wider signed value to [int]. *)
Definition int_of (z : Z) : Z := (z + 2 ^ 31) mod 2 ^ 32 - 2 ^ 31.

(** The result of an [int] sum or difference: out of range is undefined. *)
Definition int_result {S} (z : Z) : M S Z :=
  if decide (int_min ≤ z ≤ int_max)%Z then ret z else undef SignedOverflow.

Lemma int_of_id z : (int_min ≤ z ≤ int_max)%Z → int_of z = z.
Proof.
  unfold int_min, int_max, int_of; intros. rewrite Z.mod_small; lia.
Qed.

Lemma int_of_range z : (int_min ≤ int_of z ≤ int_max)%Z.
Proof.
  unfold int_min, int_max, int_of.
  pose proof (Z.mod_pos_bound (z + 2 ^ 31) (2 ^ 32)). lia.
Qed.

(** ** Weakest preconditions

    [wpb b c Q s]: run from [s], [c] does nothing undefined and does not run
    out of fuel; it blocks only if [b]; if it returns, [Q] holds.  [wp] is
    total correctness, [wlp] leaves room for blocking. *)
Definition wpb {S A} (b : Prop) (c : M S A) (Q : A → S → Prop) (s : S) : Prop :=
  match c s with
  | Ret a s' => Q a s'
  | UB _ => False
  | Blocked => b
  | NoFuel => False
  end.

Abbreviation wp := (wpb False).
Abbreviation wlp := (wpb True).

Section wp_rules.
Context {S : Type}.
Implicit Types (b : Prop) (s : S).

Lemma wpb_ret {A} b (a : A) Q s : Q a s → wpb b (ret a) Q s.
Proof. done. Qed.

Lemma wpb_bind {A B} b (c : M S A) (f : A → M S B) Q s :
  wpb b c (λ a s', wpb b (f a) Q s') s → wpb b (bind c f) Q s.
Proof. unfold wpb, bind. by destruct (c s). Qed.

Lemma wpb_bind_inv {A B} b (c : M S A) (f : A → M S B) Q s :
  wpb b (bind c f) Q s → wpb b c (λ a s', wpb b (f a) Q s') s.
Proof. unfold wpb, bind. by destruct (c s). Qed.

Lemma wpb_mono {A} b (c : M S A) (P Q : A → S → Prop) s :
  wpb b c P s → (∀ a s', P a s' → Q a s') → wpb b c Q s.
Proof. unfold wpb. destruct (c s); auto. Qed.

Lemma wpb_gets {A} b (f : S → A) Q s : Q (f s) s → wpb b (gets f) Q s.
Proof. done. Qed.

Lemma wpb_get b (Q : S → S → Prop) s : Q s s → wpb b get Q s.
Proof. done. Qed.

Lemma wpb_modify b (f : S → S) Q s : Q tt (f s) → wpb b (modify f) Q s.
Proof. done. Qed.

Lemma wpb_blocked {A} (Q : A → S → Prop) s : wlp blocked Q s.
Proof. done. Qed.

Lemma wpb_int_result b z (Q : Z → S → Prop) s :
  (int_min ≤ z ≤ int_max)%Z → Q z s → wpb b (int_result z) Q s.
Proof. intros Hz HQ. unfold int_result. by case_decide. Qed.

Lemma wpb_zoom {T A} b (view : S → T) (update : T → S → S) (c : M T A) Q s :
  wpb b c (λ a t, Q a (update t s)) (view s) → wpb b (zoom view update c) Q s.
Proof. unfold wpb, zoom. by destruct (c (view s)). Qed.

Lemma wp_returns {A} (c : M S A) Q s :
  wp c Q s ↔ ∃ a s', c s = Ret a s' ∧ Q a s'.
Proof. unfold wpb. destruct (c s) as [a s'| | |]; split; try done;
    [by eauto|by intros (? & ? & [= -> ->] & ?)|by intros (? & ? & ? & ?)..].
Qed.

Lemma bind_Ret {A B} (c : M S A) (f : A → M S B) s a s' :
  c s = Ret a s' → bind c f s = f a s'.
Proof. unfold bind. by intros ->. Qed.

Lemma bind_assoc {A B C} (c : M S A) (f : A → M S B) (g : B → M S C) s :
  bind (bind c f) g s = bind c (λ a, bind (f a) g) s.
Proof. unfold bind. by destruct (c s). Qed.
End wp_rules.

(** The weakest precondition respects pointwise implication of postconditions. *)
#[global] Instance wpb_proper {S A} (b : Prop) (c : M S A) :
  Proper (pointwise_relation A (pointwise_relation S impl) ==> eq ==> impl) (wpb b c).
Proof.
  intros P Q HPQ s ? <- H. eapply wpb_mono; [exact H|]. intros a s'. apply HPQ.
Qed.

Create HintDb nfs.
#[export] Hint Resolve wpb_ret wpb_gets wpb_get wpb_modify wpb_blocked : nfs.

(** One step of symbolic execution of a program under [wpb]. *)
Ltac wp_step :=
  lazymatch goal with
  | |- wpb _ (bind _ _) _ _ => apply wpb_bind
  | |- wpb _ (ret _) _ _ => apply wpb_ret
  | |- wpb _ (gets _) _ _ => apply wpb_gets
  | |- wpb _ get _ _ => apply wpb_get
  | |- wpb _ (modify _) _ _ => apply wpb_modify
  | |- wpb _ blocked _ _ => apply wpb_blocked
  | |- wpb _ (zoom _ _ _) _ _ => apply wpb_zoom
  | |- wpb _ (match ?x with _ => _ end) _ _ => destruct x eqn:?
  end.
Ltac wp_run := repeat (wp_step; simpl).

(** ** Lists *)

Lemma length_take_le {A} n (l : list A) : length (take n l) ≤ n.
Proof. rewrite length_take. lia. Qed.

Lemma last_snoc_inv {A} (l : list A) x : last (l ++ [x]) = Some x.
Proof. by rewrite last_snoc. Qed.

Lemma concat_snoc {A} (ll : list (list A)) l : concat (ll ++ [l]) = concat ll ++ l.
Proof. rewrite concat_app. simpl. by rewrite app_nil_r. Qed.

Lemma drop_past {A} (l : list A) x r : drop (S (length l)) (l ++ x :: r) = r.
Proof. induction l as [|y l IH]; [done|]. apply IH. Qed.

Lemma take_before {A} (l : list A) r : take (length l) (l ++ r) = l.
Proof. apply take_app_length. Qed.

Lemma fmap_sublist {A B} (f : A → B) (l1 l2 : list A) :
  sublist l1 l2 → sublist (f <$> l1) (f <$> l2).
Proof. induction 1; simpl; by constructor. Qed.
