(* ===== verification/LinkedList.v ===== *)
(** * Singly linked lists on a typed heap

    The list of pairs in [sync_info.c] and the job queue of [thread_pool.c]
    are chains of blocks linked by a [next] field.  [Linked] is the interface
    of such a block; [seg] and [chain] relate a heap and a pointer to the list
    of the blocks met, and the lemmas say what the assignments the two
    components make do to that list. *)
From S2P Require Import Prelude.
From stdpp Require Import gmap list.
From Stdlib Require Import Lia.

Class Linked (N : Type) := {
  next : N → ptr loc;
  set_next : ptr loc → N → N;
  next_set_next p n : next (set_next p n) = p
}.

Section chains.
Context {N : Type} `{!Linked N}.
Implicit Types (m : gmap loc N) (p q : ptr loc) (l : list (loc * N)).

(** [seg m p q l]: following [next] from [p] to [q] meets the blocks of [l]. *)
Fixpoint seg m p q l : Prop :=
  match l with
  | [] => p = q
  | (a, n) :: l' => p = Some a ∧ m !! a = Some n ∧ seg m (next n) q l'
  end.

Definition chain m p l : Prop := seg m p NULL l.

Lemma seg_app m p q l1 l2 :
  seg m p q (l1 ++ l2) ↔ ∃ r, seg m p r l1 ∧ seg m r q l2.
Proof.
  revert p. induction l1 as [|[a n] l1 IH]; intros p; simpl.
  - split; [by eauto|]. by intros (r & -> & ?).
  - rewrite IH. split.
    + intros (-> & ? & r & ? & ?). eauto 6.
    + intros (r & (-> & ? & ?) & ?). eauto 6.
Qed.

Lemma seg_insert m p q l a n : a ∉ l.*1 → seg m p q l → seg (<[a := n]> m) p q l.
Proof.
  revert p. induction l as [|[b nb] l IH]; intros p Ha; simpl; [done|].
  apply not_elem_of_cons in Ha as [Hne Ha]. simpl in *.
  intros (-> & Hb & Hs). split_and!; [done|by rewrite lookup_insert_ne|by apply IH].
Qed.

Lemma seg_delete m p q l a : a ∉ l.*1 → seg m p q l → seg (delete a m) p q l.
Proof.
  revert p. induction l as [|[b nb] l IH]; intros p Ha; simpl; [done|].
  apply not_elem_of_cons in Ha as [Hne Ha]. simpl in *.
  intros (-> & Hb & Hs). split_and!; [done|by rewrite lookup_delete_ne|by apply IH].
Qed.

Lemma seg_lookup m p q l a n : seg m p q l → (a, n) ∈ l → m !! a = Some n.
Proof.
  revert p. induction l as [|[b nb] l IH]; intros p; simpl; [by intros _ ?%elem_of_nil|].
  intros (_ & Hb & Hs) [[= -> ->]|Hin]%elem_of_cons; [done|by eapply IH].
Qed.

Lemma seg_dom m p q l a : seg m p q l → a ∈ l.*1 → is_Some (m !! a).
Proof.
  intros Hs ([a' n] & -> & Hin)%list_elem_of_fmap. simpl. eexists. by eapply seg_lookup.
Qed.

Lemma chain_NULL m l : chain m NULL l → l = [].
Proof. destruct l as [|[a n] l]; [done|]. by intros [? _]. Qed.

Lemma chain_unique m p l1 l2 : chain m p l1 → chain m p l2 → l1 = l2.
Proof.
  revert p l2. induction l1 as [|[a n] l1 IH]; intros p l2 H1 H2.
  - unfold chain in H1. simpl in H1. subst. symmetry. by eapply chain_NULL.
  - destruct H1 as (-> & Ha & H1). destruct l2 as [|[b nb] l2]; [done|].
    destruct H2 as ([= <-] & Hb & H2). rewrite Ha in Hb. injection Hb as <-.
    f_equal. by eapply IH.
Qed.

(** A chain that ends never meets a block twice. *)
Lemma chain_NoDup m p l : chain m p l → NoDup l.*1.
Proof.
  revert p. induction l as [|[a n] l IH]; intros p H; simpl; [constructor|].
  pose proof H as (-> & Ha & Hl). constructor; [|by eapply IH].
  intros ([a' n'] & Heq & Hin)%list_elem_of_fmap. simpl in Heq. subst a'.
  apply list_elem_of_split in Hin as (x & y & ->).
  apply seg_app in Hl as (r & _ & Hy). pose proof Hy as (-> & _ & _).
  pose proof (chain_unique _ _ _ _ H Hy) as E. apply (f_equal length) in E.
  simpl in E. rewrite length_app in E. simpl in E. lia.
Qed.

Lemma chain_size m p l : chain m p l → length l ≤ size m.
Proof.
  intros H. pose proof (chain_NoDup _ _ _ H) as Hnd.
  assert (list_to_set l.*1 ⊆@{gset loc} dom m) as Hsub.
  { intros a. rewrite elem_of_list_to_set, elem_of_dom. by eapply seg_dom. }
  apply subseteq_size in Hsub. by rewrite size_list_to_set, size_dom, length_fmap in Hsub.
Qed.

(** A new block in front. *)
Lemma chain_cons m p l a n :
  chain m p l → a ∉ l.*1 → next n = p → chain (<[a := n]> m) (Some a) ((a, n) :: l).
Proof.
  intros H Ha <-. split_and!; [done|by rewrite lookup_insert_eq|by apply seg_insert].
Qed.

(** The block [b] that precedes [a] is made to point past [a], and [a] is freed. *)
Lemma chain_unlink m p l b nb a n r :
  chain m p (l ++ (b, nb) :: (a, n) :: r) →
  chain (delete a (<[b := set_next (next n) nb]> m)) p (l ++ (b, set_next (next n) nb) :: r).
Proof.
  intros H. pose proof (chain_NoDup _ _ _ H) as Hnd.
  rewrite fmap_app in Hnd. simpl in Hnd.
  apply NoDup_app in Hnd as (_ & Hl & Hnd).
  apply NoDup_cons in Hnd as [Hb Hnd]. apply NoDup_cons in Hnd as [Ha _].
  apply not_elem_of_cons in Hb as [Hba Hbr].
  apply seg_app in H as (x & Hseg & -> & Hmb & Hnb & Hma & Hr). unfold chain. rewrite seg_app.
  exists (Some b). split.
  - apply seg_delete, seg_insert; [intros Hin|intros Hin|done]; destruct (Hl _ Hin); set_solver.
  - simpl. rewrite next_set_next. split_and!; [done| |by apply seg_delete, seg_insert].
    by rewrite lookup_delete_ne, lookup_insert_eq.
Qed.

(** The first block is dropped from the chain and freed. *)
Lemma chain_tail m p a n r :
  chain m p ((a, n) :: r) → chain (delete a m) (next n) r.
Proof.
  intros H. pose proof (chain_NoDup _ _ _ H) as [Ha _]%NoDup_cons.
  destruct H as (_ & _ & Hr). by apply seg_delete.
Qed.

(** The last block [t] is made to point to the fresh last block [j]. *)
Lemma chain_snoc m p l t nt j nj :
  chain m p (l ++ [(t, nt)]) → m !! j = Some nj → next nj = NULL → j ∉ (l ++ [(t, nt)]).*1 →
  chain (<[t := set_next (Some j) nt]> m) p (l ++ [(t, set_next (Some j) nt); (j, nj)]).
Proof.
  intros H Hj Hnj Hnot. pose proof (chain_NoDup _ _ _ H) as Hnd.
  rewrite fmap_app in Hnd, Hnot. simpl in *. apply NoDup_app in Hnd as (_ & Hl & _).
  apply not_elem_of_app in Hnot as [Hjl Hjt]. apply not_elem_of_cons in Hjt as [Hjt _].
  apply seg_app in H as (x & Hseg & -> & Ht & _). unfold chain. rewrite seg_app.
  exists (Some t). split.
  - apply seg_insert; [|done]. intros Hin. apply (Hl _ Hin). set_solver.
  - simpl. rewrite next_set_next, lookup_insert_eq, lookup_insert_ne by done. done.
Qed.

(** A field other than the link is assigned. *)
Lemma chain_update m p l1 a n n' l2 :
  chain m p (l1 ++ (a, n) :: l2) → next n' = next n →
  chain (<[a := n']> m) p (l1 ++ (a, n') :: l2).
Proof.
  intros H Hn. pose proof (chain_NoDup _ _ _ H) as Hnd.
  rewrite fmap_app in Hnd. apply NoDup_app in Hnd as (_ & Hl & Hnd).
  apply NoDup_cons in Hnd as [Ha _].
  apply seg_app in H as (x & Hseg & -> & Hma & Hr). unfold chain. rewrite seg_app.
  exists (Some a). split.
  - apply seg_insert; [|done]. intros Hin. apply (Hl _ Hin). by left.
  - simpl. rewrite Hn, lookup_insert_eq. split_and!; [done..|by apply seg_insert].
Qed.
End chains.
