(* ===== verification/CString.v ===== *)
(** * The C library functions the program calls, on byte strings

    A [bytes] is the content of a character array up to, and without, its
    terminating NUL; a byte block received from a socket or read from a file
    is a [bytes] that may hold NULs, and [cstr] is the string C sees in it.
    Reads of [<string.h>], [<ctype.h>], [<stdlib.h>] and of the conversions of
    [<stdio.h>] that the sources use are defined here. *)
From S2P Require Import Prelude.
From stdpp Require Import gmap strings list.
From Stdlib Require Import Ascii ZArith Lia.
From Stdlib Require String.

Abbreviation bytes := (list ascii).

Definition lit (s : string) : bytes := String.list_ascii_of_string s.
Definition NUL : ascii := "000"%char.
Definition NL : ascii := "010"%char.
Definition SP : ascii := " "%char.

(** ** Strings *)

(** The C string at the start of a block: what precedes the first NUL. *)
Fixpoint cstr (b : bytes) : bytes :=
  match b with
  | [] => []
  | c :: b' => if decide (c = NUL) then [] else c :: cstr b'
  end.

(** [strchr]: the offset of the first occurrence. *)
Fixpoint strchr (s : bytes) (c : ascii) : option nat :=
  match s with
  | [] => None
  | x :: s' => if decide (x = c) then Some 0 else S <$> strchr s' c
  end.

(** [strncmp (s, p, strlen (p)) == 0] *)
Fixpoint starts_with (p s : bytes) : bool :=
  match p, s with
  | [], _ => true
  | c :: p', d :: s' => bool_decide (c = d) && starts_with p' s'
  | _ :: _, [] => false
  end.

(** [strncpy (dst, src, n - 1); dst[n - 1] = 0], as a string. *)
Definition strncpy_z (n : nat) (src : bytes) : bytes := take (n - 1) src.

(** [snprintf (dst, n, ...)] for [n > 0], given the whole formatted text. *)
Definition snprintf (n : nat) (text : bytes) : bytes := take (n - 1) text.

(** [while ( *p == ' ') p++] *)
Fixpoint skip_spaces (s : bytes) : bytes :=
  match s with
  | c :: s' => if decide (c = SP) then skip_spaces s' else s
  | [] => []
  end.

(** ** Character classes *)

Definition code (c : ascii) : Z := Z.of_N (N_of_ascii c).

Definition isspace (c : ascii) : bool :=
  bool_decide (code c = 32)%Z || bool_decide (9 ≤ code c ≤ 13)%Z.

Definition isdigit (c : ascii) : bool := bool_decide (48 ≤ code c ≤ 57)%Z.

Fixpoint skip_ws (s : bytes) : bytes :=
  match s with
  | c :: s' => if isspace c then skip_ws s' else s
  | [] => []
  end.

(** The longest prefix without white space, and the rest. *)
Fixpoint word (s : bytes) : bytes * bytes :=
  match s with
  | [] => ([], [])
  | c :: s' => if isspace c then ([], s) else let '(w, r) := word s' in (c :: w, r)
  end.

(** ** Decimal numbers *)

Definition digit (d : Z) : ascii := ascii_of_N (Z.to_N (48 + d)).

(** The digits of [n], most significant first, before [acc]. *)
Fixpoint dec_digits (fuel : nat) (n : Z) (acc : bytes) : bytes :=
  match fuel with
  | 0 => acc
  | S f =>
      if decide (n < 10)%Z then digit n :: acc
      else dec_digits f (n / 10)%Z (digit (n mod 10) :: acc)
  end.

(** What [%d], [%ld], [%zd] and [%zu] print. *)
Definition dec (z : Z) : bytes :=
  if decide (z < 0)%Z then "-"%char :: dec_digits (S (Z.to_nat (Z.log2 (- z)))) (- z) []
  else dec_digits (S (Z.to_nat (Z.log2 z))) z [].

(** The value of the leading digits, and the rest. *)
Fixpoint digits_val (s : bytes) (acc : Z) : Z * bytes :=
  match s with
  | c :: s' => if isdigit c then digits_val s' (10 * acc + (code c - 48))%Z else (acc, s)
  | [] => (acc, [])
  end.

Definition clamp_long (z : Z) : Z := Z.max long_min (Z.min long_max z).

(** [strtol] in base 10 after white space: the value, clamped to [long], and
    the rest; [None] when there is no digit to convert. *)
Definition strtol_at (s : bytes) : option (Z * bytes) :=
  let '(neg, s1) :=
    match s with
    | "-"%char :: s' => (true, s')
    | "+"%char :: s' => (false, s')
    | _ => (false, s)
    end in
  match s1 with
  | c :: _ =>
      if isdigit c then
        let '(v, r) := digits_val s1 0 in
        Some (clamp_long (if neg : bool then - v else v)%Z, r)
      else None
  | [] => None
  end.

Definition atol (s : bytes) : Z :=
  match strtol_at (skip_ws s) with Some (v, _) => v | None => 0 end.

(** The library's [atoi] is [(int) strtol (...)]. *)
Definition atoi (s : bytes) : Z := int_of (atol s).

(** ** [sscanf] *)

Inductive directive := DLit (c : ascii) | DSpace | DStr | DInt.
Inductive sval := VStr (s : bytes) | VInt (z : Z).

Fixpoint parse_fmt (f : bytes) : list directive :=
  match f with
  | "%"%char :: "s"%char :: f' => DStr :: parse_fmt f'
  | "%"%char :: "d"%char :: f' => DInt :: parse_fmt f'
  | c :: f' => (if isspace c then DSpace else DLit c) :: parse_fmt f'
  | [] => []
  end.

(** End of input: [EOF] when nothing has been converted. *)
Definition scan_eof (acc : list sval) : Z * list sval :=
  ((if decide (acc = []) then -1 else Z.of_nat (length acc))%Z, acc).

Definition scan_stop (acc : list sval) : Z * list sval := (Z.of_nat (length acc), acc).

#[global] Instance sval_eq_dec : EqDecision sval.
Proof. solve_decision. Defined.

(** The return value of [sscanf] and the values stored through its arguments. *)
Fixpoint scan (ds : list directive) (s : bytes) (acc : list sval) : Z * list sval :=
  match ds with
  | [] => scan_stop acc
  | DSpace :: ds' => scan ds' (skip_ws s) acc
  | DLit c :: ds' =>
      match s with
      | [] => scan_eof acc
      | c' :: s' => if decide (c = c') then scan ds' s' acc else scan_stop acc
      end
  | DStr :: ds' =>
      match skip_ws s with
      | [] => scan_eof acc
      | s1 => let '(w, r) := word s1 in scan ds' r (acc ++ [VStr w])
      end
  | DInt :: ds' =>
      match skip_ws s with
      | [] => scan_eof acc
      | s1 =>
          match strtol_at s1 with
          | None => scan_stop acc
          | Some (v, r) => scan ds' r (acc ++ [VInt (int_of v)])
          end
      end
  end.

(** Every string stored fits the array it is stored in, NUL included. *)
Fixpoint fits (sizes : list nat) (vs : list sval) : bool :=
  match sizes, vs with
  | n :: sizes', VStr s :: vs' => bool_decide (length s < n) && fits sizes' vs'
  | _ :: sizes', VInt _ :: vs' => fits sizes' vs'
  | _, _ => true
  end.

(** [sscanf (s, fmt, a1, a2, ...)] where [a1, a2, ...] point to objects of
    the given sizes: [%s] writes the whole word whatever the size. *)
Definition sscanf {S} (s : bytes) (fmt : string) (sizes : list nat) : M S (Z * list sval) :=
  let r := scan (parse_fmt (lit fmt)) s [] in
  if fits sizes r.2 then ret r else undef BufferOverflow.

(** ** [strtok] *)

Fixpoint skip_char (d : ascii) (s : bytes) : bytes :=
  match s with
  | c :: s' => if decide (c = d) then skip_char d s' else s
  | [] => []
  end.

Fixpoint until_char (d : ascii) (s : bytes) : bytes * bytes :=
  match s with
  | [] => ([], [])
  | c :: s' => if decide (c = d) then ([], s') else let '(w, r) := until_char d s' in (c :: w, r)
  end.

(** One call: the next token and what the scanner keeps for the next call. *)
Definition strtok (d : ascii) (s : bytes) : option (bytes * bytes) :=
  match skip_char d s with
  | [] => None
  | s1 => Some (until_char d s1)
  end.

(** ** Properties *)

Lemma cstr_no_nul b : NUL ∉ cstr b.
Proof. induction b as [|c b IH]; simpl; [set_solver|]. case_decide; set_solver. Qed.

Lemma cstr_id b : NUL ∉ b → cstr b = b.
Proof.
  induction b as [|c b IH]; simpl; intros H; [done|].
  rewrite decide_False by set_solver. f_equal. apply IH. set_solver.
Qed.

Lemma cstr_app b1 b2 : NUL ∉ b1 → cstr (b1 ++ b2) = b1 ++ cstr b2.
Proof.
  induction b1 as [|c b IH]; simpl; intros H; [done|].
  rewrite decide_False by set_solver. f_equal. apply IH. set_solver.
Qed.

Lemma length_cstr b : length (cstr b) ≤ length b.
Proof. induction b as [|c b IH]; simpl; [done|]. case_decide; simpl; lia. Qed.

Lemma cstr_prefix b : (cstr b) `prefix_of` b.
Proof.
  induction b as [|c b [k Hk]]; simpl; [done|].
  case_decide; [by apply prefix_nil|]. exists k. simpl. by rewrite <-Hk.
Qed.

Lemma strchr_app s c r : c ∉ s → strchr (s ++ c :: r) c = Some (length s).
Proof.
  induction s as [|x s IH]; simpl; intros H; [by rewrite decide_True|].
  rewrite decide_False by set_solver. rewrite IH by set_solver. done.
Qed.

Lemma strchr_None s c : strchr s c = None ↔ c ∉ s.
Proof.
  induction s as [|x s IH]; simpl; [set_solver|].
  case_decide; subst; [set_solver|].
  destruct (strchr s c) eqn:E; simpl; [|set_solver].
  split; [done|]. intros Hn. assert (c ∉ s) by set_solver. by apply IH in H0.
Qed.

Lemma strchr_Some s c n :
  strchr s c = Some n → s = (take n s ++ c :: drop (S n) s) ∧ (c ∉ take n s) ∧ length (take n s) = n.
Proof.
  revert n. induction s as [|x s IH]; simpl; intros n; [done|].
  case_decide; subst.
  - intros [= <-]. simpl. rewrite drop_0. set_solver.
  - intros (m & Hm & ->)%fmap_Some. simpl.
    destruct (IH _ Hm) as (Hs & Hnot & Hlen). split_and!; [by f_equal|set_solver|by f_equal].
Qed.

Lemma strchr_lt s c n : strchr s c = Some n → n < length s.
Proof.
  intros (Hs & _ & Hl)%strchr_Some. apply (f_equal length) in Hs.
  rewrite length_app in Hs. simpl in Hs. lia.
Qed.

Lemma starts_with_app p s : starts_with p (p ++ s) = true.
Proof. induction p as [|c p IH]; simpl; [done|]. by rewrite bool_decide_true. Qed.

Lemma starts_with_spec p s : starts_with p s = true ↔ (p `prefix_of` s).
Proof.
  revert s. induction p as [|c p IH]; simpl; intros s.
  - split; [|done]. intros _. apply prefix_nil.
  - destruct s as [|d s]; simpl.
    + split; [done|]. intros ?%prefix_nil_inv. done.
    + rewrite andb_true_iff, bool_decide_eq_true, IH.
      split; [by intros [-> ?]; apply prefix_cons|].
      intros Hp. split; [by eapply prefix_cons_inv_1|by eapply prefix_cons_inv_2].
Qed.

Lemma skip_ws_word c s : isspace c = false → skip_ws (c :: s) = c :: s.
Proof. simpl. by intros ->. Qed.

(** [plain w]: a nonempty sequence without white space, which [%s] reads whole. *)
Definition plain (w : bytes) : Prop := w ≠ [] ∧ Forall (λ c, isspace c = false) w.

#[global] Instance plain_dec w : Decision (plain w).
Proof. unfold plain. apply _. Defined.

Lemma word_plain w r :
  Forall (λ c, isspace c = false) w →
  (∀ c r', r = c :: r' → isspace c = true) → word (w ++ r) = (w, r).
Proof.
  intros Hw Hr. induction Hw as [|c w Hc _ IH]; simpl.
  - destruct r as [|c r]; [done|]. simpl. by rewrite (Hr c r).
  - by rewrite Hc, IH.
Qed.

Lemma word_all_plain s w r : word s = (w, r) → Forall (λ c, isspace c = false) w.
Proof.
  revert w r. induction s as [|c s IH]; simpl; intros w r.
  - intros [= <- <-]. constructor.
  - destruct (isspace c) eqn:Hc; [intros [= <- <-]; constructor|].
    destruct (word s) as [w' r'] eqn:Hw. intros [= <- <-]. constructor; eauto.
Qed.

(** What [skip_ws] returns does not start with white space. *)
Lemma skip_ws_head s c r : skip_ws s = c :: r → isspace c = false.
Proof.
  induction s as [|x s IH]; simpl; [done|].
  destruct (isspace x) eqn:Hx; [done|]. by intros [= -> ->].
Qed.

Lemma word_skip_plain s w r : skip_ws s ≠ [] → word (skip_ws s) = (w, r) → plain w.
Proof.
  intros Hne Hw. split; [|by eapply word_all_plain].
  destruct (skip_ws s) as [|c s1] eqn:Hs; [done|].
  apply skip_ws_head in Hs. simpl in Hw. rewrite Hs in Hw.
  destruct (word s1). by injection Hw as <- <-.
Qed.

(** ** Decimal printing and parsing *)

Lemma code_digit d : (0 ≤ d < 10)%Z → code (digit d) = (48 + d)%Z.
Proof. intros Hd. unfold code, digit. rewrite N_ascii_embedding; lia. Qed.

Lemma isdigit_digit d : (0 ≤ d < 10)%Z → isdigit (digit d) = true.
Proof. intros Hd. unfold isdigit. rewrite code_digit by done. apply bool_decide_true. lia. Qed.

Lemma isdigit_isspace c : isdigit c = true → isspace c = false.
Proof.
  unfold isdigit, isspace. rewrite bool_decide_eq_true. intros H.
  rewrite !bool_decide_false by lia. done.
Qed.

Lemma mod_10 n : (0 ≤ n mod 10 < 10)%Z.
Proof. by apply Z.mod_pos_bound. Qed.
#[export] Hint Resolve mod_10 : nfs.

Lemma div_10_lt n f : (0 ≤ n < 10 ^ Z.of_nat (S f))%Z → (0 ≤ n / 10 < 10 ^ Z.of_nat f)%Z.
Proof.
  intros [H0 H1]. rewrite Nat2Z.inj_succ, Z.pow_succ_r in H1 by lia.
  split; [apply Z.div_pos; lia|apply Z.div_lt_upper_bound; lia].
Qed.

Lemma digits_val_dec f n acc :
  (0 ≤ n < 10 ^ Z.of_nat f)%Z → digits_val (dec_digits f n acc) 0 = digits_val acc n.
Proof.
  revert n acc. induction f as [|f IH]; intros n acc Hn; simpl in *.
  - by replace n with 0%Z by lia.
  - case_decide as Hlt; simpl.
    + rewrite isdigit_digit, code_digit by lia. f_equal. lia.
    + rewrite IH by (by apply div_10_lt). simpl.
      rewrite isdigit_digit, code_digit by apply mod_10. f_equal.
      pose proof (Z.div_mod n 10). lia.
Qed.

Lemma dec_digits_all f n acc :
  (0 ≤ n)%Z → Forall (λ c, isdigit c = true) acc →
  Forall (λ c, isdigit c = true) (dec_digits f n acc).
Proof.
  revert n acc. induction f as [|f IH]; intros n acc Hn Hacc; simpl; [done|].
  case_decide.
  - constructor; [|done]. apply isdigit_digit. lia.
  - apply IH; [by apply Z.div_pos|]. constructor; [|done]. apply isdigit_digit, mod_10.
Qed.

Lemma dec_digits_app f n acc r : dec_digits f n acc ++ r = dec_digits f n (acc ++ r).
Proof.
  revert n acc. induction f as [|f IH]; intros n acc; simpl; [done|].
  case_decide; [done|]. by rewrite IH.
Qed.

Lemma dec_digits_head f n acc :
  (0 ≤ n)%Z → ∃ c s, dec_digits (S f) n acc = c :: s ∧ isdigit c = true.
Proof.
  revert n acc. induction f as [|f IH]; intros n acc Hn; simpl; case_decide.
  - eexists _, _. split; [done|]. apply isdigit_digit. lia.
  - eexists _, _. split; [done|]. apply isdigit_digit, mod_10.
  - eexists _, _. split; [done|]. apply isdigit_digit. lia.
  - simpl in IH. apply IH. by apply Z.div_pos.
Qed.

Lemma dec_fuel n : (0 ≤ n)%Z → (0 ≤ n < 10 ^ Z.of_nat (S (Z.to_nat (Z.log2 n))))%Z.
Proof.
  intros Hn. split; [done|].
  rewrite Nat2Z.inj_succ, Z2Nat.id by apply Z.log2_nonneg.
  destruct (decide (n = 0)%Z) as [->|]; [done|].
  pose proof (Z.log2_spec n ltac:(lia)) as [_ H].
  eapply Z.lt_le_trans; [exact H|]. apply Z.pow_le_mono_l. lia.
Qed.

(** The rest [r] of the input stops the conversion of a number. *)
Definition stops (r : bytes) : Prop := ∀ c r', r = c :: r' → isdigit c = false.

Lemma digits_val_stop r n : stops r → digits_val r n = (n, r).
Proof. intros H. destruct r as [|c r]; simpl; [done|]. by rewrite (H c r). Qed.

Lemma digits_val_nonneg n r :
  (0 ≤ n)%Z → stops r → digits_val (dec n ++ r) 0 = (n, r).
Proof.
  intros Hn Hr. unfold dec. rewrite decide_False, dec_digits_app by lia.
  rewrite digits_val_dec by (by apply dec_fuel). by apply digits_val_stop.
Qed.

Lemma dec_nonneg_digits n : (0 ≤ n)%Z → Forall (λ c, isdigit c = true) (dec n).
Proof.
  intros Hn. unfold dec. rewrite decide_False by lia. by apply dec_digits_all.
Qed.

Lemma dec_nonneg_head n : (0 ≤ n)%Z → ∃ c s, dec n = c :: s ∧ isdigit c = true.
Proof. intros Hn. unfold dec. rewrite decide_False by lia. by apply dec_digits_head. Qed.

Lemma dec_neg n : (n < 0)%Z → dec n = "-"%char :: dec (- n).
Proof.
  intros Hn. unfold dec. rewrite decide_True by done. rewrite decide_False by lia. done.
Qed.

Lemma strtol_at_digit c s :
  isdigit c = true →
  strtol_at (c :: s) = let '(v, r) := digits_val (c :: s) 0 in Some (clamp_long v, r).
Proof.
  intros Hc. unfold strtol_at.
  destruct (decide (c = "-"%char)) as [->|H1]; [done|].
  destruct (decide (c = "+"%char)) as [->|H2]; [done|].
  assert ((match c :: s with
    | "-"%char :: s' => (true, s')
    | "+"%char :: s' => (false, s')
    | _ => (false, c :: s)
    end) = (false, c :: s)) as ->.
  { destruct c as [[] [] [] [] [] [] [] []]; try done; by vm_compute in Hc. }
  rewrite Hc. done.
Qed.

Lemma strtol_at_dec z r :
  (long_min ≤ z ≤ long_max)%Z → stops r → strtol_at (dec z ++ r) = Some (z, r).
Proof.
  unfold long_min, long_max. intros Hz Hr.
  assert (Hpos : ∀ n, (0 ≤ n)%Z → strtol_at (dec n ++ r) = Some (clamp_long n, r)).
  { intros n Hn. pose proof (digits_val_nonneg n r Hn Hr) as Hv.
    destruct (dec_nonneg_head n Hn) as (c & s & Hd & Hc). rewrite Hd in *.
    rewrite <-app_comm_cons in *. rewrite strtol_at_digit by done. by rewrite Hv. }
  destruct (decide (z < 0)%Z).
  - rewrite dec_neg by done. pose proof (digits_val_nonneg (- z) r ltac:(lia) Hr) as Hv.
    destruct (dec_nonneg_head (- z) ltac:(lia)) as (c & s & Hd & Hc). rewrite Hd in *.
    rewrite <-!app_comm_cons in *. unfold strtol_at. rewrite Hc, Hv.
    do 2 f_equal. unfold clamp_long, long_min, long_max. lia.
  - rewrite Hpos by lia. do 2 f_equal. unfold clamp_long, long_min, long_max. lia.
Qed.

(** A printed number holds no white space, NUL, colon or at sign. *)
Lemma dec_chars z : Forall (λ c, isdigit c = true ∨ c = "-"%char) (dec z).
Proof.
  destruct (decide (z < 0)%Z).
  - rewrite dec_neg by done. constructor; [by right|].
    eapply Forall_impl; [apply dec_nonneg_digits; lia|]. by left.
  - eapply Forall_impl; [apply dec_nonneg_digits; lia|]. by left.
Qed.

Lemma dec_nonempty z : dec z ≠ [].
Proof.
  destruct (decide (z < 0)%Z); [by rewrite dec_neg|].
  destruct (dec_nonneg_head z ltac:(lia)) as (c & s & -> & _). done.
Qed.

Lemma dec_plain z : plain (dec z).
Proof.
  split; [apply dec_nonempty|]. eapply Forall_impl; [apply dec_chars|].
  intros c [?%isdigit_isspace| ->]; done.
Qed.

Lemma dec_not_in z c : isdigit c = false → c ≠ "-"%char → c ∉ dec z.
Proof.
  intros H1 H2 Hin. pose proof (dec_chars z) as Hf. rewrite Forall_forall in Hf.
  destruct (Hf c Hin); congruence.
Qed.

Lemma skip_ws_plain w r : plain w → skip_ws (w ++ r) = w ++ r.
Proof.
  intros [Hne Hw]. destruct w as [|c w]; [done|]. inversion_clear Hw as [|? ? Hc].
  rewrite <-app_comm_cons. by apply skip_ws_word.
Qed.

Lemma atol_dec z r : (long_min ≤ z ≤ long_max)%Z → stops r → atol (dec z ++ r) = z.
Proof.
  intros Hz Hr. unfold atol.
  by rewrite (skip_ws_plain _ _ (dec_plain z)), strtol_at_dec.
Qed.

Lemma atoi_dec z r : (int_min ≤ z ≤ int_max)%Z → stops r → atoi (dec z ++ r) = z.
Proof.
  intros Hz Hr. unfold atoi.
  rewrite atol_dec; [by apply int_of_id| |done].
  unfold int_min, int_max, long_min, long_max in *. lia.
Qed.

Lemma stops_nil : stops [].
Proof. by intros ? ?. Qed.
Lemma stops_cons c r : isdigit c = false → stops (c :: r).
Proof. by intros H ? ? [= <- <-]. Qed.
#[export] Hint Resolve stops_nil : nfs.

Lemma atoi_range s : (int_min ≤ atoi s ≤ int_max)%Z.
Proof. apply int_of_range. Qed.

(** ** [sscanf] on words *)

(** A string that ends the word before it: empty or starting with white space. *)
Definition ends_word (r : bytes) : Prop := ∀ c r', r = c :: r' → isspace c = true.

Lemma ends_word_nil : ends_word [].
Proof. by intros ? ?. Qed.
Lemma ends_word_cons c r : isspace c = true → ends_word (c :: r).
Proof. by intros H ? ? [= <- <-]. Qed.
#[export] Hint Resolve ends_word_nil : nfs.

Lemma scan_str ds w r acc :
  plain w → ends_word r → scan (DStr :: ds) (w ++ r) acc = scan ds r (acc ++ [VStr w]).
Proof.
  intros Hw Hr. cbn [scan]. rewrite (skip_ws_plain _ _ Hw).
  destruct (w ++ r) as [|c s] eqn:E.
  - destruct Hw as [Hne _]. by destruct w.
  - rewrite <-E. by rewrite (word_plain w r (proj2 Hw) Hr).
Qed.

Lemma scan_int ds z r acc :
  (int_min ≤ z ≤ int_max)%Z → stops r →
  scan (DInt :: ds) (dec z ++ r) acc = scan ds r (acc ++ [VInt z]).
Proof.
  intros Hz Hr. cbn [scan]. rewrite (skip_ws_plain _ _ (dec_plain z)).
  destruct (dec z ++ r) as [|c s] eqn:E.
  - by apply app_nil in E as [?%dec_nonempty _].
  - rewrite <-E, strtol_at_dec; [|unfold int_min, int_max, long_min, long_max in *; lia|done].
    by rewrite int_of_id.
Qed.

(** Every string [scan] stores is a word. *)
Definition sval_plain (v : sval) : Prop :=
  match v with VStr w => plain w | VInt z => (int_min ≤ z ≤ int_max)%Z end.

Lemma scan_values ds s acc r :
  Forall sval_plain acc → scan ds s acc = r →
  Forall sval_plain r.2 ∧ (r.1 = -1 ∧ r.2 = [] ∨ r.1 = Z.of_nat (length r.2))%Z.
Proof.
  revert s acc r. induction ds as [|[c| | |] ds IH]; intros s acc r Hacc; cbn [scan].
  - intros <-. simpl. auto.
  - destruct s as [|c' s]; [|case_decide]; intros <-; simpl; try (eapply IH; by eauto).
    + unfold scan_eof. simpl. case_decide; auto.
    + auto.
  - by apply IH.
  - destruct (skip_ws s) as [|c' s1] eqn:E.
    { intros <-. unfold scan_eof. simpl. case_decide; auto. }
    destruct (word (c' :: s1)) as [w r1] eqn:Hw. apply IH.
    apply Forall_app; split; [done|]. constructor; [|constructor].
    rewrite <-E in Hw. eapply word_skip_plain; [|done]. by rewrite E.
  - destruct (skip_ws s) as [|c' s1] eqn:E.
    { intros <-. unfold scan_eof. simpl. case_decide; auto. }
    destruct (strtol_at (c' :: s1)) as [[v r1]|] eqn:Hv; [|by intros <-; auto].
    apply IH. apply Forall_app; split; [done|]. constructor; [|constructor].
    apply int_of_range.
Qed.

Lemma scan_extends ds s acc : ∃ more, (scan ds s acc).2 = acc ++ more.
Proof.
  assert (∃ more, acc = acc ++ more) as Hnil by (exists []; by rewrite app_nil_r).
  assert (∀ v ds' s', (∃ more, (scan ds' s' (acc ++ [v])).2 = (acc ++ [v]) ++ more) →
    ∃ more, (scan ds' s' (acc ++ [v])).2 = acc ++ more) as Hmore.
  { intros v ds' s' [more ->]. exists (v :: more). by rewrite <-app_assoc. }
  revert s acc Hnil Hmore. induction ds as [|[c| | |] ds IH]; intros s acc Hnil Hmore; cbn [scan].
  - done.
  - destruct s; [done|]. case_decide; [by apply IH|done].
  - by apply IH.
  - destruct (skip_ws s) as [|c' s1]; [done|]. destruct (word (c' :: s1)).
    apply Hmore, IH; [by exists []; rewrite app_nil_r|]. intros v ds' s' [more ->].
    exists (v :: more). by rewrite <-app_assoc.
  - destruct (skip_ws s) as [|c' s1]; [done|]. destruct (strtol_at (c' :: s1)) as [[v r]|]; [|done].
    apply Hmore, IH; [by exists []; rewrite app_nil_r|]. intros v' ds' s' [more ->].
    exists (v' :: more). by rewrite <-app_assoc.
Qed.

(** A word too long for the array it is stored in. *)
Lemma sscanf_overflow {S} (st : S) (w r : bytes) (fmt : string) ds (n : nat) sizes :
  plain w → ends_word r → parse_fmt (lit fmt) = DStr :: ds → n ≤ length w →
  sscanf (w ++ r) fmt (n :: sizes) st = UB BufferOverflow.
Proof.
  intros Hw Hr Hf Hn. unfold sscanf. rewrite Hf, (scan_str _ _ _ _ Hw Hr).
  destruct (scan_extends ds r ([] ++ [VStr w])) as [more ->]. simpl.
  by rewrite bool_decide_false by lia.
Qed.

Lemma scan_space ds s acc : scan (DSpace :: ds) s acc = scan ds (skip_ws s) acc.
Proof. done. Qed.

Lemma skip_ws_blank c s : isspace c = true → skip_ws (c :: s) = skip_ws s.
Proof. simpl. by intros ->. Qed.

(** Two words read by ["%s %s"]. *)
Lemma sscanf_two {S} (w1 w2 r : bytes) (n1 n2 : nat) :
  plain w1 → plain w2 → ends_word r → length w1 < n1 → length w2 < n2 →
  sscanf (S := S) (w1 ++ SP :: w2 ++ r) "%s %s" [n1; n2] = ret (2%Z, [VStr w1; VStr w2]).
Proof.
  intros H1 H2 Hr Hl1 Hl2. unfold sscanf.
  change (parse_fmt (lit "%s %s")) with [DStr; DSpace; DStr].
  rewrite (scan_str [DSpace; DStr] w1) by (by try apply ends_word_cons).
  rewrite scan_space, skip_ws_blank, (skip_ws_plain w2 r H2) by done.
  rewrite (scan_str [] w2 r) by done. simpl.
  rewrite !bool_decide_true by done. done.
Qed.
