(* ===== verification/Common.v ===== *)
(** * Shared constants, data types and timestamps

    The constants and structures of [include/common.h] and the timestamp
    formatting of [src/utils.c]. *)
From S2P Require Import Prelude.
From S2P Require Import CString.
From stdpp Require Import gmap strings list.
From Stdlib Require Import Ascii ZArith Lia.

(** ** Constants *)

Definition MAX_PATH : nat := 1024.
Definition MAX_BUFFER_SIZE : nat := Z.to_nat 8192.
Definition MAX_COMMAND_SIZE : nat := Z.to_nat 4096.
Definition MAX_CONNECTIONS : Z := 10.
Definition DEFAULT_WORKERS : Z := 5.
Definition MAX_FILENAME : nat := 256.
Definition MAX_HOST_SIZE : nat := 256.

Definition CMD_ADD : bytes := lit "add".
Definition CMD_CANCEL : bytes := lit "cancel".
Definition CMD_SHUTDOWN : bytes := lit "shutdown".
Definition CMD_LIST : bytes := lit "LIST".
Definition CMD_PULL : bytes := lit "PULL".
Definition CMD_PUSH : bytes := lit "PUSH".

(** ** Structures *)

(** A synchronisation job; character arrays hold the strings they contain. *)
Record sync_job := SyncJob {
  job_source_host : bytes;
  job_source_port : Z;
  job_source_dir : bytes;
  job_target_host : bytes;
  job_target_port : Z;
  job_target_dir : bytes;
  job_filename : bytes;
  job_next : ptr loc
}.

(** A tracked source and target pair. *)
Record sync_info := SyncInfo {
  source_host : bytes;
  source_port : Z;
  source_dir : bytes;
  target_host : bytes;
  target_port : Z;
  target_dir : bytes;
  active : Z;
  last_sync_time : Z;
  error_count : Z;
  info_next : ptr loc
}.

#[global] Instance sync_job_eq_dec : EqDecision sync_job.
Proof. solve_decision. Defined.
#[global] Instance sync_info_eq_dec : EqDecision sync_info.
Proof. solve_decision. Defined.

(** What [create_sync_job] and [create_sync_info] make of their arguments:
    every array holds a string shorter than the array. *)
Definition job_fits (j : sync_job) : Prop :=
  length (job_source_host j) < MAX_HOST_SIZE ∧ length (job_source_dir j) < MAX_PATH ∧
  length (job_target_host j) < MAX_HOST_SIZE ∧ length (job_target_dir j) < MAX_PATH ∧
  length (job_filename j) < MAX_FILENAME.

Definition info_fits (i : sync_info) : Prop :=
  length (source_host i) < MAX_HOST_SIZE ∧ length (source_dir i) < MAX_PATH ∧
  length (target_host i) < MAX_HOST_SIZE ∧ length (target_dir i) < MAX_PATH.

#[global] Instance job_fits_dec j : Decision (job_fits j).
Proof. unfold job_fits. apply _. Defined.
#[global] Instance info_fits_dec i : Decision (info_fits i).
Proof. unfold info_fits. apply _. Defined.

(** ** Time *)

(** The broken-down local time that [localtime] yields. *)
Record tm := Tm { tm_year : Z; tm_mon : Z; tm_mday : Z; tm_hour : Z; tm_min : Z; tm_sec : Z }.

Definition pad2 (z : Z) : bytes := if decide (z < 10)%Z then "0"%char :: dec z else dec z.

(** [strftime] with [TIMESTAMP_FORMAT], "%Y-%m-%d %H:%M:%S". *)
Definition strftime (t : tm) : bytes :=
  dec (1900 + tm_year t) ++ lit "-" ++ pad2 (1 + tm_mon t) ++ lit "-" ++ pad2 (tm_mday t) ++
  lit " " ++ pad2 (tm_hour t) ++ lit ":" ++ pad2 (tm_min t) ++ lit ":" ++ pad2 (tm_sec t).

(** [get_timestamp]; the text is cut only if [size] is too small for it. *)
Definition get_timestamp (now : tm) (size : nat) : ptr bytes :=
  if decide (length (strftime now) < size) then Some (strftime now) else None.

(** The line [log_message] writes: the message goes through a buffer of
    [MAX_BUFFER_SIZE] bytes; a timestamp always fits its 32 bytes. *)
Definition log_line (now : tm) (message : bytes) : bytes :=
  lit "[" ++ strftime now ++ lit "] " ++ snprintf MAX_BUFFER_SIZE message ++ [NL].

(** Years of four digits and the ranges [localtime] keeps to. *)
Definition tm_ok (t : tm) : Prop :=
  (-900 ≤ tm_year t ≤ 8099 ∧ 0 ≤ tm_mon t ≤ 11 ∧ 1 ≤ tm_mday t ≤ 31 ∧
   0 ≤ tm_hour t ≤ 23 ∧ 0 ≤ tm_min t ≤ 59 ∧ 0 ≤ tm_sec t ≤ 60)%Z.

#[global] Instance tm_ok_dec t : Decision (tm_ok t).
Proof. unfold tm_ok. apply _. Defined.

(** ** Properties *)

Lemma length_dec_digits f n acc k :
  (10 ^ Z.of_nat k ≤ n < 10 ^ Z.of_nat (S k))%Z → k < f →
  length (dec_digits f n acc) = S k + length acc.
Proof.
  revert n acc k. induction f as [|f IH]; intros n acc k Hn Hk; [lia|]. simpl.
  assert (H1 : (1 ≤ 10 ^ Z.of_nat k)%Z) by (pose proof (Z.pow_pos_nonneg 10 (Z.of_nat k)); lia).
  case_decide as Hlt.
  - destruct k as [|k]; [done|].
    rewrite Nat2Z.inj_succ, Z.pow_succ_r in Hn by lia.
    pose proof (Z.pow_pos_nonneg 10 (Z.of_nat k)). lia.
  - destruct k as [|k]; [simpl in Hn; lia|].
    rewrite (IH _ _ k); [simpl; lia| |lia].
    rewrite !Nat2Z.inj_succ, !Z.pow_succ_r in * by lia.
    split; [apply Z.div_le_lower_bound; lia|apply Z.div_lt_upper_bound; lia].
Qed.

Lemma length_dec z k :
  (10 ^ Z.of_nat k ≤ z < 10 ^ Z.of_nat (S k))%Z → length (dec z) = S k.
Proof.
  intros Hz. pose proof (Z.pow_pos_nonneg 10 (Z.of_nat k)) as Hp. unfold dec.
  rewrite decide_False by lia. rewrite (length_dec_digits _ _ _ k); [simpl; lia|done|].
  pose proof (dec_fuel z ltac:(lia)) as [_ Hf].
  destruct (decide (k < S (Z.to_nat (Z.log2 z)))) as [|Hge]; [done|].
  pose proof (Z.pow_le_mono_r 10 (Z.of_nat (S (Z.to_nat (Z.log2 z)))) (Z.of_nat k)). lia.
Qed.

Lemma length_dec_1 z : (0 ≤ z < 10)%Z → length (dec z) = 1.
Proof.
  intros Hz. destruct (decide (z = 0)%Z) as [->|]; [done|]. apply (length_dec z 0). simpl. lia.
Qed.

Lemma length_pad2 z : (0 ≤ z < 100)%Z → length (pad2 z) = 2.
Proof.
  intros Hz. unfold pad2. case_decide.
  - simpl. by rewrite length_dec_1 by lia.
  - apply (length_dec z 1). change (10 ^ Z.of_nat 1)%Z with 10%Z. simpl. lia.
Qed.

Lemma length_strftime t : tm_ok t → length (strftime t) = 19.
Proof.
  intros Ht. unfold tm_ok in Ht. unfold strftime. rewrite !length_app.
  rewrite !length_pad2 by lia.
  rewrite (length_dec _ 3); [done|].
  change (10 ^ Z.of_nat 3)%Z with 1000%Z. change (10 ^ Z.of_nat 4)%Z with 10000%Z. lia.
Qed.

Lemma length_strncpy_z n src : 0 < n → length (strncpy_z n src) < n.
Proof. intros. unfold strncpy_z. rewrite length_take. lia. Qed.

Lemma strncpy_z_id n src : length src < n → strncpy_z n src = src.
Proof. intros. unfold strncpy_z. apply take_ge. lia. Qed.

Lemma length_snprintf n text : 0 < n → length (snprintf n text) < n.
Proof. intros. unfold snprintf. rewrite length_take. lia. Qed.

Lemma snprintf_id n text : length text < n → snprintf n text = text.
Proof. intros. unfold snprintf. apply take_ge. lia. Qed.
