(* ===== verification/OS.v ===== *)
(** * The operating system the processes run on

    Descriptors, connected sockets and files, and the system calls the
    sources make.  What the kernel and the peers decide is a script in the
    state: which calls fail, how much of a buffer a call takes, what arrives
    on a connection and in which portions, whether a peer accepts a
    connection.  Theorems quantify over the scripts.

    These calls are not code of the repository: the definitions state their
    documented behaviour. *)
From S2P Require Import Prelude.
From S2P Require Import CString.
From S2P Require Import Common.
From stdpp Require Import gmap strings list.
From Stdlib Require Import Ascii ZArith Lia.

(** How much of the request a [send], [read] or [write] serves. *)
Inductive io_ans := IoAll | IoSome (n : nat) | IoErr.

(** A connected socket: the portions still to arrive, what follows the last
    of them (a reset, or an orderly end), the portions sent so far, and the
    answers to the coming [send] calls ([IoAll] when the script is over). *)
Record sock := Sock {
  rx : list bytes;
  rx_reset : bool;
  tx : list bytes;
  tx_script : list io_ans
}.

Inductive fdobj :=
| FRaw                                   (* socket, not connected or bound *)
| FListen (port : Z)                     (* listening socket *)
| FSock (s : sock)                       (* connected socket *)
| FFile (path : bytes) (off : nat)       (* regular file and its offset *)
| FDir (path : bytes).                   (* directory opened for reading *)

Record os := Os {
  fds : gmap Z fdobj;
  files : gmap bytes bytes;              (* contents of the regular files *)
  dirs : gmap bytes (list bytes);        (* entries of the directories *)
  sys : list bool;                       (* do the coming calls succeed? *)
  dials : list (option sock);            (* answers to the coming connects *)
  dialled : list (bytes * Z);            (* the addresses connected to *)
  io : list io_ans;                      (* answers to reads and writes *)
  now : tm;                              (* local time *)
  errtext : bytes;                       (* strerror (errno) *)
  closed : list sock                     (* history: the connections closed, in order *)
}.

Definition set_fds f o := Os (f (fds o)) (files o) (dirs o) (sys o) (dials o) (dialled o) (io o) (now o) (errtext o) (closed o).
Definition set_files f o := Os (fds o) (f (files o)) (dirs o) (sys o) (dials o) (dialled o) (io o) (now o) (errtext o) (closed o).
Definition set_sys f o := Os (fds o) (files o) (dirs o) (f (sys o)) (dials o) (dialled o) (io o) (now o) (errtext o) (closed o).
Definition set_dial f g o := Os (fds o) (files o) (dirs o) (sys o) (f (dials o)) (g (dialled o)) (io o) (now o) (errtext o) (closed o).
Definition set_io f o := Os (fds o) (files o) (dirs o) (sys o) (dials o) (dialled o) (f (io o)) (now o) (errtext o) (closed o).

(** ** Descriptors *)

(** The lowest unused descriptor. *)
Fixpoint low_fd (fuel : nat) (m : gmap Z fdobj) (n : Z) : Z :=
  match fuel with
  | 0 => n
  | S f => match m !! n with None => n | Some _ => low_fd f m (n + 1)%Z end
  end.

Definition new_fd (m : gmap Z fdobj) : Z := low_fd (size m) m 0.

Definition open_fd (x : fdobj) : M os Z := λ o,
  let fd := new_fd (fds o) in Ret fd (set_fds <[fd := x]> o).

Definition close_fd (fd : Z) (o : os) : os :=
  Os (delete fd (fds o)) (files o) (dirs o) (sys o) (dials o) (dialled o) (io o) (now o) (errtext o)
    (match fds o !! fd with Some (FSock s) => closed o ++ [s] | _ => closed o end).

Definition sys_close (fd : Z) : M os unit := modify (close_fd fd).

(** The next call succeeds unless the script says otherwise. *)
Definition sys_ok : M os bool := λ o,
  match sys o with [] => Ret true o | b :: l => Ret b (set_sys (λ _, l) o) end.

Definition next_io : M os io_ans := λ o,
  match io o with [] => Ret IoAll o | a :: l => Ret a (set_io (λ _, l) o) end.

(** ** Sockets *)

Definition sys_socket : M os Z :=
  ok <- sys_ok ;; if ok : bool then open_fd FRaw else ret (-1)%Z.

(** [setsockopt], [bind]: only success or failure matters. *)
Definition sys_status : M os Z := ok <- sys_ok ;; ret (if ok : bool then 0 else -1)%Z.

Definition sys_listen (fd port : Z) : M os Z :=
  ok <- sys_ok ;;
  if ok : bool then modify (set_fds <[fd := FListen port]>) ;;; ret 0%Z else ret (-1)%Z.

Definition sys_connect (fd : Z) (addr : bytes) (port : Z) : M os Z := λ o,
  let o1 := set_dial tail (λ l, l ++ [(addr, port)]) o in
  match dials o with
  | Some s :: _ => Ret 0%Z (set_fds <[fd := FSock s]> o1)
  | _ => Ret (-1)%Z o1
  end.

Definition get_sock (fd : Z) : M os (option sock) :=
  gets (λ o, match fds o !! fd with Some (FSock s) => Some s | _ => None end).

Definition put_sock (fd : Z) (s : sock) : M os unit := modify (set_fds <[fd := FSock s]>).

(** What [send] takes of [data] under an answer; [None] is an error. *)
Definition served (a : io_ans) (data : bytes) : option bytes :=
  match a with IoAll => Some data | IoSome n => Some (take n data) | IoErr => None end.

Definition sent (s : sock) (data : bytes) : sock :=
  Sock (rx s) (rx_reset s) (if decide (data = []) then tx s else tx s ++ [data]) (tail (tx_script s)).

Definition send_ans (s : sock) : io_ans := default IoAll (head (tx_script s)).

Definition sys_send (fd : Z) (data : bytes) : M os Z :=
  os <- get_sock fd ;;
  match os with
  | None => ret (-1)%Z
  | Some s =>
      match served (send_ans s) data with
      | None => put_sock fd (sent s []) ;;; ret (-1)%Z
      | Some d => put_sock fd (sent s d) ;;; ret (Z.of_nat (length d))
      end
  end.

(** What a [recv] of at most [n] bytes delivers: the error or end of the
    stream, or the start of the next portion. *)
Definition delivered (n : nat) (s : sock) : option bytes * sock :=
  match rx s with
  | [] => (if rx_reset s then None else Some [], s)
  | p :: l =>
      (Some (take n p),
       Sock (if decide (length p ≤ n) then l else drop n p :: l) (rx_reset s) (tx s) (tx_script s))
  end.

(** [recv]: the return value and the bytes stored. *)
Definition sys_recv (fd : Z) (n : nat) : M os (Z * bytes) :=
  os <- get_sock fd ;;
  match os with
  | None => ret (-1, [])%Z
  | Some s =>
      let '(r, s') := delivered n s in
      put_sock fd s' ;;;
      match r with
      | None => ret (-1, [])%Z
      | Some d => ret (Z.of_nat (length d), d)
      end
  end.

(** ** Files *)

(** [open] for reading. *)
Definition open_read (path : bytes) : M os Z :=
  ok <- sys_ok ;;
  o <- get ;;
  match ok, files o !! path, dirs o !! path with
  | true, Some _, _ => open_fd (FFile path 0)
  | true, None, Some _ => open_fd (FDir path)
  | _, _, _ => ret (-1)%Z
  end.

(** [open] with [O_WRONLY | O_CREAT | O_TRUNC]. *)
Definition open_trunc (path : bytes) : M os Z :=
  ok <- sys_ok ;;
  o <- get ;;
  match ok, dirs o !! path with
  | true, None => modify (set_files <[path := []]>) ;;; open_fd (FFile path 0)
  | _, _ => ret (-1)%Z
  end.

(** The content of a file; files in use exist. *)
Definition content (o : os) (path : bytes) : bytes := default [] (files o !! path).

(** [fstat]: the size; a directory has some size, here that of its entry list. *)
Definition sys_fstat (fd : Z) : M os (option Z) :=
  ok <- sys_ok ;;
  o <- get ;;
  match ok, fds o !! fd with
  | true, Some (FFile p _) => ret (Some (Z.of_nat (length (content o p))))
  | true, Some (FDir p) => ret (Some (Z.of_nat (length (default [] (dirs o !! p)))))
  | _, _ => ret None
  end.

(** [read]: the return value and the bytes stored; a directory cannot be read. *)
Definition sys_read (fd : Z) (n : nat) : M os (Z * bytes) :=
  o <- get ;;
  match fds o !! fd with
  | Some (FFile p off) =>
      a <- next_io ;;
      match served a (take n (drop off (content o p))) with
      | Some d =>
          modify (set_fds <[fd := FFile p (off + length d)]>) ;;;
          ret (Z.of_nat (length d), d)
      | None => ret (-1, [])%Z
      end
  | _ => ret (-1, [])%Z
  end.

(** Overwriting [old] from [off]; a gap reads as NULs. *)
Definition patch (old : bytes) (off : nat) (data : bytes) : bytes :=
  take off (old ++ replicate (off - length old) NUL) ++ data ++ drop (off + length data) old.

Definition write_at (fd : Z) (p : bytes) (off : nat) (d : bytes) (o : os) : os :=
  set_fds <[fd := FFile p (off + length d)]> (set_files <[p := patch (content o p) off d]> o).

Definition sys_write (fd : Z) (data : bytes) : M os Z :=
  o <- get ;;
  match fds o !! fd with
  | Some (FFile p off) =>
      a <- next_io ;;
      match served a data with
      | Some d => modify (write_at fd p off d) ;;; ret (Z.of_nat (length d))
      | None => ret (-1)%Z
      end
  | _ => ret (-1)%Z
  end.

(** [opendir]/[readdir]: the names in the order they are returned. *)
Definition sys_opendir (path : bytes) : M os (option (list bytes)) :=
  ok <- sys_ok ;;
  gets (λ o, if ok : bool then dirs o !! path else None).

(** [stat (path) == 0 && S_ISREG (st_mode)] *)
Definition stat_regular (path : bytes) : M os bool :=
  ok <- sys_ok ;;
  gets (λ o, ok && bool_decide (is_Some (files o !! path))).

(** [fprintf] then [fflush] on a stream opened on descriptor [fd]. *)
Definition append_log (fd : Z) (text : bytes) : M os unit := modify (λ o,
  match fds o !! fd with
  | Some (FFile p off) => write_at fd p off text o
  | _ => o
  end).

(** ** Properties *)

Lemma low_fd_nonneg f m n : (0 ≤ n)%Z → (0 ≤ low_fd f m n)%Z.
Proof.
  revert n. induction f as [|f IH]; simpl; intros n Hn; [done|].
  destruct (m !! n); [|done]. apply IH. lia.
Qed.

Lemma low_fd_fresh f (m : gmap Z fdobj) n :
  (∀ i, (0 ≤ i < n)%Z → is_Some (m !! i)) → (0 ≤ n)%Z → size m = Z.to_nat n + f →
  m !! low_fd f m n = None.
Proof.
  revert n. induction f as [|f IH]; simpl; intros n Hlow Hn Hsz.
  - destruct (m !! n) eqn:E; [|done]. exfalso.
    set (ks := (λ i, Z.of_nat i) <$> seq 0 (S (Z.to_nat n))).
    assert (Hnd : NoDup ks) by (apply NoDup_fmap_2, NoDup_seq; intros ??; lia).
    assert (Hsub : list_to_set ks ⊆@{gset Z} dom m).
    { intros i. rewrite elem_of_list_to_set. intros (j & -> & Hj)%list_elem_of_fmap.
      apply elem_of_seq in Hj. apply elem_of_dom.
      destruct (decide (Z.of_nat j = n)) as [->|]; [by eauto|]. apply Hlow. lia. }
    apply subseteq_size in Hsub. rewrite size_list_to_set, size_dom in Hsub by done.
    unfold ks in Hsub. rewrite length_fmap, length_seq in Hsub. lia.
  - destruct (m !! n) eqn:E; [|done]. apply IH; [|lia..].
    intros i Hi. destruct (decide (i = n)) as [->|]; [by eauto|]. apply Hlow. lia.
Qed.

Lemma new_fd_nonneg m : (0 ≤ new_fd m)%Z.
Proof. by apply low_fd_nonneg. Qed.

Lemma new_fd_fresh m : m !! new_fd m = None.
Proof. unfold new_fd. apply low_fd_fresh; [lia|done|lia]. Qed.

Lemma patch_append (old : bytes) data : patch old (length old) data = old ++ data.
Proof.
  unfold patch. rewrite Nat.sub_diag. simpl. rewrite app_nil_r, take_ge, drop_ge by lia.
  by rewrite app_nil_r.
Qed.

Lemma served_prefix a d x : served a d = Some x → x `prefix_of` d.
Proof.
  destruct a; simpl; intros [= <-]; [done|].
  exists (drop n d). by rewrite take_drop.
Qed.

Lemma concat_tx_sent s d : concat (tx (sent s d)) = concat (tx s) ++ d.
Proof.
  simpl. case_decide; subst; [by rewrite app_nil_r|]. by rewrite concat_snoc.
Qed.

(** A [recv] moves a prefix of the stream from the connection to the caller. *)
Lemma delivered_stream n s d s' :
  delivered n s = (Some d, s') → d ++ concat (rx s') = concat (rx s) ∧ length d ≤ n.
Proof.
  unfold delivered. destruct (rx s) as [|p l] eqn:E.
  - destruct (rx_reset s); intros [= <- <-]. rewrite E. simpl. split; [done|lia].
  - intros [= <- <-]. split; [|rewrite length_take; lia]. simpl.
    case_decide; simpl; [by rewrite take_ge by lia|]. by rewrite app_assoc, take_drop.
Qed.
