(* ===== verification/Utils.v ===== *)
(** * Sockets and logging of [src/utils.c]

    [create_server_socket], [connect_to_server], [cleanup_socket],
    [send_command], [receive_response] and [log_message] over the operating
    system state of [OS.v].  Diagnostics on the standard streams are not
    part of the state. *)
From S2P Require Import Prelude.
From S2P Require Import CString.
From S2P Require Import Common.
From S2P Require Import OS.
From stdpp Require Import gmap strings list.
From Stdlib Require Import Ascii ZArith Lia.

(** [htons]: a port is sent as 16 bits. *)
Definition htons (port : Z) : Z := (port mod 2 ^ 16)%Z.

(** [inet_pton] for [AF_INET]: four numbers up to 255, without leading
    zeros, separated by dots. *)
Fixpoint inet4 (s : bytes) (octets : nat) (saw : bool) (cur : Z) : bool :=
  match s with
  | [] => bool_decide (octets = 4)
  | c :: s' =>
      if isdigit c then
        let v := (10 * cur + (code c - 48))%Z in
        if saw && bool_decide (cur = 0)%Z then false
        else if decide (255 < v)%Z then false
        else if saw then inet4 s' octets true v
        else if decide (octets = 4) then false else inet4 s' (S octets) true v
      else if bool_decide (c = "."%char) && saw then
        if decide (octets = 4) then false else inet4 s' octets false 0
      else false
  end.

Definition inet_pton (host : bytes) : Z := if inet4 host 0 false 0 then 1 else 0.

Definition create_server_socket (port : Z) : M os Z :=
  sockfd <- sys_socket ;;
  if decide (sockfd < 0)%Z then ret (-1)%Z else
  r <- sys_status ;;
  if decide (r < 0)%Z then sys_close sockfd ;;; ret (-1)%Z else
  r <- sys_status ;;
  if decide (r < 0)%Z then sys_close sockfd ;;; ret (-1)%Z else
  r <- sys_listen sockfd (htons port) ;;
  if decide (r < 0)%Z then sys_close sockfd ;;; ret (-1)%Z else
  ret sockfd.

Definition connect_to_server (host : ptr bytes) (port : Z) : M os Z :=
  match host with
  | NULL => ret (-1)%Z
  | Some host =>
      sockfd <- sys_socket ;;
      if decide (sockfd < 0)%Z then ret (-1)%Z else
      if decide (inet_pton host <= 0)%Z then sys_close sockfd ;;; ret (-1)%Z else
      r <- sys_connect sockfd host (htons port) ;;
      if decide (r < 0)%Z then sys_close sockfd ;;; ret (-1)%Z else
      ret sockfd
  end.

Definition cleanup_socket (sockfd : Z) : M os unit :=
  if decide (0 ≤ sockfd)%Z then sys_close sockfd else ret tt.

Definition send_command (sockfd : Z) (command : ptr bytes) : M os Z :=
  match command with
  | NULL => ret (-1)%Z
  | Some command =>
      let len := Z.of_nat (length command) in
      sent <- sys_send sockfd command ;;
      if decide (sent < 0)%Z then ret (-1)%Z else
      if decide (sent ≠ len) then ret (-1)%Z else
      ret 0%Z
  end.

(** The value returned and, if the call succeeds, the string left in the buffer. *)
Definition receive_response (sockfd : Z) (buffer_size : nat) : M os (Z * bytes) :=
  r <- sys_recv sockfd (buffer_size - 1) ;;
  let '(received, data) := r in
  if decide (received < 0)%Z then ret (-1, [])%Z else ret (received, cstr data).

Definition log_message (logfile : ptr Z) (message : bytes) : M os unit :=
  now <- gets now ;;
  match logfile with
  | Some fd => append_log fd (log_line now message)
  | NULL => ret tt
  end.

(** ** Properties *)

(** Nothing but the scripts of the environment changed. *)
Record only_scripts (o o' : os) : Prop := {
  os_fds : fds o' = fds o;
  os_files : files o' = files o;
  os_dirs : dirs o' = dirs o
}.

#[global] Instance only_scripts_refl : Reflexive only_scripts.
Proof. by intros o. Qed.

#[global] Instance only_scripts_trans : Transitive only_scripts.
Proof. intros o1 o2 o3 [] []. split; congruence. Qed.

#[export] Hint Extern 0 (only_scripts _ _) => reflexivity : nfs.

Lemma sys_ok_spec b Q o :
  (∀ ok o', only_scripts o o' → Q ok o') → wpb b sys_ok Q o.
Proof. intros HQ. unfold wpb, sys_ok. destruct (sys o); by apply HQ. Qed.

Lemma delete_insert_fresh {A} (m : gmap Z A) (k : Z) (x y : A) :
  m !! k = None → delete k (<[k := x]> m) = m ∧ delete k (<[k := y]> (<[k := x]> m)) = m.
Proof. intros Hk. rewrite insert_insert_eq, !delete_insert_id by done. done. Qed.

(** Only the descriptor [fd] changed, and scripts. *)
Record only_fd (fd : Z) (x : fdobj) (o o' : os) : Prop := {
  of_fds : fds o' = <[fd := x]> (fds o);
  of_files : files o' = files o;
  of_dirs : dirs o' = dirs o
}.

Lemma only_fd_then fd x y o o' :
  only_fd fd x o o' → only_fd fd y o (set_fds <[fd := y]> o').
Proof. intros [E1 E2 E3]. split; simpl; [by rewrite E1, insert_insert_eq|done..]. Qed.

Lemma only_fd_scripts fd x o o1 o' : only_fd fd x o o1 → only_scripts o1 o' → only_fd fd x o o'.
Proof. intros [] []. split; congruence. Qed.

Lemma only_fd_close fd x o o' :
  fds o !! fd = None → only_fd fd x o o' → only_scripts o (close_fd fd o').
Proof. intros Hf [E1 E2 E3]. split; simpl; [by rewrite E1, delete_insert_id|done..]. Qed.

Lemma sys_socket_spec b Q o :
  (∀ o', only_scripts o o' → Q (-1)%Z o') →
  (∀ fd o', (0 ≤ fd)%Z → fds o !! fd = None → only_fd fd FRaw o o' →
     dials o' = dials o → dialled o' = dialled o → Q fd o') →
  wpb b sys_socket Q o.
Proof.
  intros Hfail Hok. unfold sys_socket. apply wpb_bind.
  unfold wpb at 1, sys_ok. pose proof (new_fd_nonneg (fds o)). pose proof (new_fd_fresh (fds o)).
  destruct (sys o) as [|[] l] eqn:Hs; simpl; [by apply Hok|by apply Hok|by apply Hfail].
Qed.

Lemma sys_status_spec b Q o :
  (∀ r o', only_scripts o o' → Q r o') → wpb b sys_status Q o.
Proof. intros HQ. apply wpb_bind, sys_ok_spec. intros ok o' Ho. by apply HQ. Qed.

Lemma sys_listen_spec b fd port Q o :
  (∀ o', only_scripts o o' → Q (-1)%Z o') →
  (∀ o1, only_scripts o o1 → Q 0%Z (set_fds <[fd := FListen port]> o1)) →
  wpb b (sys_listen fd port) Q o.
Proof.
  intros Hfail Hok. apply wpb_bind, sys_ok_spec. intros [] o' Ho; simpl; [|by apply Hfail].
  by apply Hok.
Qed.

Lemma sys_connect_spec b fd host port Q o :
  (∀ o', only_scripts o o' → Q (-1)%Z o') →
  (∀ s o1, only_scripts o o1 → dialled o1 = dialled o ++ [(host, port)] →
     Q 0%Z (set_fds <[fd := FSock s]> o1)) →
  wpb b (sys_connect fd host port) Q o.
Proof.
  intros Hfail Hok. unfold wpb, sys_connect.
  destruct (dials o) as [|[s|] d]; [by apply Hfail|by apply Hok|by apply Hfail].
Qed.

Lemma connect_to_server_spec b host port Q o :
  (∀ o', only_scripts o o' → Q (-1)%Z o') →
  (∀ fd s o', (0 ≤ fd)%Z → fds o !! fd = None → only_fd fd (FSock s) o o' →
     dialled o' = dialled o ++ [(default [] host, htons port)] → Q fd o') →
  wpb b (connect_to_server host port) Q o.
Proof.
  intros Hfail Hok. unfold connect_to_server. destruct host as [host|]; [|by apply Hfail].
  apply wpb_bind, sys_socket_spec.
  { intros o' Ho. by apply Hfail. }
  intros fd o1 Hfd Hfresh H1 Hd1 Hd2. rewrite decide_False by lia. case_decide.
  { by eapply Hfail, only_fd_close. }
  apply wpb_bind, sys_connect_spec.
  - intros o2 H2. by eapply Hfail, only_fd_close, only_fd_scripts.
  - intros s o2 H2 Hd. apply (Hok _ s); [done..| |simpl; by rewrite Hd, Hd2].
    by eapply only_fd_then, only_fd_scripts.
Qed.

Lemma connect_ok host port s l o :
  sys o = [] → inet_pton host = 1%Z → dials o = Some s :: l →
  connect_to_server (Some host) port o =
    Ret (new_fd (fds o))
      (set_fds <[new_fd (fds o) := FSock s]> (set_dial tail (λ d, d ++ [(host, htons port)]) o)).
Proof.
  intros Hs Hh Hd. unfold connect_to_server, sys_socket, sys_ok, bind, open_fd, sys_connect.
  rewrite Hs. pose proof (new_fd_nonneg (fds o)).
  rewrite decide_False by lia. rewrite Hh, decide_False by lia. simpl. rewrite Hd. simpl.
  unfold set_fds, set_dial; simpl. by rewrite insert_insert_eq.
Qed.

Lemma create_server_socket_spec b port Q o :
  (∀ o', only_scripts o o' → Q (-1)%Z o') →
  (∀ fd o', (0 ≤ fd)%Z → fds o !! fd = None → only_fd fd (FListen (htons port)) o o' → Q fd o') →
  wpb b (create_server_socket port) Q o.
Proof.
  intros Hfail Hok. unfold create_server_socket.
  apply wpb_bind, sys_socket_spec; [by intros o' Ho; apply Hfail|].
  intros fd o1 Hfd Hfresh H1 _ _. rewrite decide_False by lia.
  apply wpb_bind, sys_status_spec. intros r1 o2 H2. pose proof (only_fd_scripts _ _ _ _ _ H1 H2) as H12.
  case_decide as Hr; clear Hr; [by eapply Hfail, only_fd_close|].
  apply wpb_bind, sys_status_spec. intros r2 o3 H3.
  assert (only_fd fd FRaw o o3) as H13 by (by eapply only_fd_scripts).
  case_decide as Hr; clear Hr; [by eapply Hfail, only_fd_close|].
  apply wpb_bind, sys_listen_spec.
  - intros o4 H4. by eapply Hfail, only_fd_close, only_fd_scripts.
  - intros o4 H4. simpl. apply Hok; [done..|]. by eapply only_fd_then, only_fd_scripts.
Qed.

Lemma create_server_ok port o :
  sys o = [] →
  create_server_socket port o =
    Ret (new_fd (fds o)) (set_fds <[new_fd (fds o) := FListen (htons port)]> o).
Proof.
  intros Hs. pose proof (new_fd_nonneg (fds o)). unfold create_server_socket.
  erewrite bind_Ret by (unfold sys_socket, bind, sys_ok, open_fd; rewrite Hs; reflexivity).
  rewrite decide_False by lia. set (o1 := set_fds _ o).
  assert (sys o1 = []) as Hs1 by done.
  do 2 (erewrite bind_Ret by (unfold sys_status, bind, sys_ok, ret; rewrite Hs1; reflexivity);
    rewrite decide_False by done).
  erewrite bind_Ret by (unfold sys_listen, bind, sys_ok, modify, ret; rewrite Hs1; reflexivity).
  rewrite decide_False by done. unfold ret, o1, set_fds. simpl. by rewrite insert_insert_eq.
Qed.

(** The effect of a [send] on a connected socket. *)
Lemma sys_send_spec b fd data s Q o :
  fds o !! fd = Some (FSock s) →
  (∀ d, d `prefix_of` data → Q (Z.of_nat (length d)) (set_fds <[fd := FSock (sent s d)]> o)) →
  (Q (-1)%Z (set_fds <[fd := FSock (sent s [])]> o)) →
  wpb b (sys_send fd data) Q o.
Proof.
  intros Hfd Hok Herr. unfold sys_send, get_sock. apply wpb_bind, wpb_gets. rewrite Hfd.
  destruct (served (send_ans s) data) as [d|] eqn:Hd; simpl; [|done].
  apply Hok. by eapply served_prefix.
Qed.

Lemma sys_send_all fd data s o :
  fds o !! fd = Some (FSock s) → tx_script s = [] →
  sys_send fd data o = Ret (Z.of_nat (length data)) (set_fds <[fd := FSock (sent s data)]> o).
Proof.
  intros Hfd Hs. unfold sys_send, get_sock, gets, bind, send_ans. rewrite Hfd, Hs. done.
Qed.

Lemma send_command_all fd data s o :
  fds o !! fd = Some (FSock s) → tx_script s = [] →
  send_command fd (Some data) o = Ret 0%Z (set_fds <[fd := FSock (sent s data)]> o).
Proof.
  intros Hfd Hs. unfold send_command. erewrite bind_Ret by (by apply sys_send_all).
  rewrite decide_False by lia. by rewrite decide_False by auto.
Qed.

(** [connect_to_server] leaves no descriptor open when it fails, and when
    it succeeds it returns a new descriptor connected to the host, at the
    port modulo 2^16 whatever positive number was asked for; nothing else
    changes. *)
Theorem connect_to_server_clean (host : ptr bytes) (port : Z) (o : os) :
  ∃ r o', connect_to_server host port o = Ret r o' ∧ files o' = files o ∧ dirs o' = dirs o ∧
    (r = (-1)%Z ∧ fds o' = fds o ∨
     (0 ≤ r)%Z ∧ fds o !! r = None ∧ (∃ s, fds o' = <[r := FSock s]> (fds o)) ∧
     dialled o' = dialled o ++ [(default [] host, (port mod 65536)%Z)]).
Proof.
  apply wp_returns, connect_to_server_spec.
  - intros o' []. auto.
  - intros fd s o' Hfd Hf [] Hd. split_and!; [done..|]. right. split_and!; [done|done|by exists s|done].
Qed.

(** [create_server_socket] leaves no descriptor open when it fails, and
    when it succeeds it returns a new listening descriptor, bound to the port
    modulo 2^16. *)
Theorem create_server_socket_clean (port : Z) (o : os) :
  ∃ r o', create_server_socket port o = Ret r o' ∧ files o' = files o ∧ dirs o' = dirs o ∧
    (r = (-1)%Z ∧ fds o' = fds o ∨
     (0 ≤ r)%Z ∧ fds o !! r = None ∧ fds o' = <[r := FListen (port mod 65536)]> (fds o)).
Proof.
  apply wp_returns, create_server_socket_spec.
  - intros o' []. auto.
  - intros fd o' Hfd Hf []. split_and!; [done..|]. right. by split_and!.
Qed.

(** [send_command] reports success exactly when the whole command was
    taken by the connection; otherwise a proper prefix of it was, or none. *)
Theorem send_command_exact (fd : Z) (command : bytes) (s : sock) (o : os)
    (Hfd : fds o !! fd = Some (FSock s)) :
  ∃ r d, send_command fd (Some command) o = Ret r (set_fds <[fd := FSock (sent s d)]> o) ∧
    d `prefix_of` command ∧ (r = 0%Z ∧ d = command ∨ r = (-1)%Z ∧ (d = command → d = [])).
Proof.
  unfold send_command. assert (wp (sys_send fd command) (λ r o', ∃ d,
    o' = set_fds <[fd := FSock (sent s d)]> o ∧ d `prefix_of` command ∧
    (r = Z.of_nat (length d) ∨ r = (-1)%Z ∧ d = [])) o) as (r & o' & E & d & -> & Hd & Hr)%wp_returns.
  { eapply sys_send_spec; [done|by eauto|]. exists []. split_and!; [done|apply prefix_nil|by auto]. }
  erewrite bind_Ret by exact E. destruct Hr as [->|[-> ->]].
  - rewrite decide_False by lia. case_decide as Hl.
    + exists (-1)%Z, d. split_and!; [done|done|]. right. split; [done|]. intros ->. lia.
    + exists 0%Z, d. split_and!; [done|done|]. left. split; [done|].
      apply prefix_length_eq; [done|lia].
  - exists (-1)%Z, []. split_and!; [done|apply prefix_nil|by auto].
Qed.

(** A connection that takes four bytes of the first message. *)
Definition demo_os : os :=
  Os {[3%Z := FSock (Sock [] false [] [IoSome 4])]} ∅ ∅ [] [] [] [] (Tm 125 0 1 0 0 0) [] [].

Lemma send_command_exact_witness :
  ∃ r d, send_command 3 (Some (lit "LIST /a")) demo_os =
      Ret r (set_fds <[3%Z := FSock (sent (Sock [] false [] [IoSome 4]) d)]> demo_os) ∧
    (r = 0%Z ∧ d = lit "LIST /a" ∨ r = (-1)%Z ∧ (d = lit "LIST /a" → d = [])).
Proof.
  destruct (send_command_exact 3 (lit "LIST /a") (Sock [] false [] [IoSome 4]) demo_os)
    as (r & d & E & _ & H); [reflexivity|]. by exists r, d.
Defined.
