(* ===== verification/DirSpec.v ===== *)
(** * Directory specifications: [parse_directory_spec] and [parse_config_line]

    The parsing half of [src/utils.c].  A specification has the form
    [/path@host:port]; the abstract grammar is [spec_of] below and
    [parse_directory_spec] is shown to decide it. *)
From S2P Require Import Prelude.
From S2P Require Import CString.
From S2P Require Import Common.
From stdpp Require Import gmap strings list.
From Stdlib Require Import Ascii ZArith Lia.

(** The objects the three output arguments point to: a host buffer of
    [MAX_HOST_SIZE] bytes, an int and a directory buffer of [MAX_PATH]
    bytes; [None] is an object that was never assigned. *)
Record spec_out := SpecOut {
  out_host : option bytes;
  out_port : option Z;
  out_dir : option bytes
}.

Definition no_out : spec_out := SpecOut None None None.

(** The return value and the output objects afterwards; [NULL] stands for a
    call in which one of the output pointers is NULL. *)
Definition parse_directory_spec (spec : ptr bytes) (out : ptr spec_out) : Z * ptr spec_out :=
  match spec, out with
  | Some spec, Some out =>
      match strchr spec "@" with
      | None => (-1, Some out)%Z
      | Some at_pos =>
          let dir_len := at_pos in
          if decide (MAX_PATH ≤ dir_len) then (-1, Some out)%Z else
          let out := SpecOut (out_host out) (out_port out) (Some (take dir_len spec)) in
          let after_at := drop (S at_pos) spec in
          match strchr after_at ":" with
          | None => (-1, Some out)%Z
          | Some host_len =>
              if decide (MAX_HOST_SIZE ≤ host_len) then (-1, Some out)%Z else
              let port := atoi (drop (S host_len) after_at) in
              let out := SpecOut (Some (take host_len after_at)) (Some port) (out_dir out) in
              if decide (port <= 0)%Z then (-1, Some out)%Z else (0, Some out)%Z
          end
      end
  | _, _ => (-1, out)%Z
  end.

(** [parse_config_line]: both words go to arrays of [MAX_PATH] bytes. *)
Definition parse_config_line {S} (line : ptr bytes) (source target : ptr spec_out) :
    M S (Z * ptr spec_out * ptr spec_out) :=
  match line, source, target with
  | Some line, Some _, Some _ =>
      r <- sscanf line "%s %s" [MAX_PATH; MAX_PATH] ;;
      match r with
      | (2%Z, [VStr source_spec; VStr target_spec]) =>
          let '(rs, source') := parse_directory_spec (Some source_spec) source in
          if decide (rs ≠ 0)%Z then ret (-1, source', target)%Z else
          let '(rt, target') := parse_directory_spec (Some target_spec) target in
          if decide (rt ≠ 0)%Z then ret (-1, source', target')%Z else
          ret (0, source', target')%Z
      | _ => ret (-1, source, target)%Z
      end
  | _, _, _ => ret (-1, source, target)%Z
  end.

(** ** The grammar *)

(** [spec_of s host port dir]: [s] is a specification of [dir] on [host] at
    [port]; the path ends at the first at sign, the host at the first colon
    after it, and the rest must begin with a positive number. *)
Definition spec_of (s host : bytes) (port : Z) (dir : bytes) : Prop :=
  ∃ rest, s = dir ++ "@"%char :: host ++ ":"%char :: rest ∧ ("@"%char ∉ dir) ∧ (":"%char ∉ host) ∧
    length dir < MAX_PATH ∧ length host < MAX_HOST_SIZE ∧ port = atoi rest ∧ (0 < port)%Z.

(** The text a specification is written as. *)
Definition print_spec (host : bytes) (port : Z) (dir : bytes) : bytes :=
  dir ++ lit "@" ++ host ++ lit ":" ++ dec port.

(** The triples that can be written and read back. *)
Definition spec_ok (host : bytes) (port : Z) (dir : bytes) : Prop :=
  ("@"%char ∉ dir) ∧ (":"%char ∉ host) ∧
  length dir < MAX_PATH ∧ length host < MAX_HOST_SIZE ∧ (0 < port ≤ int_max)%Z.

#[global] Instance spec_ok_dec host port dir : Decision (spec_ok host port dir).
Proof. unfold spec_ok. apply _. Defined.

(** ** Properties *)

Lemma parse_spec_complete s out host port dir :
  spec_of s host port dir →
  parse_directory_spec (Some s) (Some out) = (0%Z, Some (SpecOut (Some host) (Some port) (Some dir))).
Proof.
  intros (rest & -> & Hdir & Hhost & Hld & Hlh & -> & Hp). unfold parse_directory_spec.
  rewrite strchr_app by done. rewrite decide_False by lia.
  rewrite drop_past, strchr_app by done. rewrite decide_False by lia.
  rewrite !take_before, drop_past. rewrite decide_False by lia. done.
Qed.

Lemma parse_spec_sound s out out' :
  parse_directory_spec (Some s) (Some out) = (0%Z, out') →
  ∃ host port dir, spec_of s host port dir ∧
    out' = Some (SpecOut (Some host) (Some port) (Some dir)).
Proof.
  unfold parse_directory_spec. destruct (strchr s "@") as [at_pos|] eqn:Hat; [|done].
  case_decide; [done|]. apply strchr_Some in Hat as (Hs & Hdir & Hld).
  destruct (strchr (drop (S at_pos) s) ":") as [hl|] eqn:Hcol; [|done].
  case_decide; [done|]. apply strchr_Some in Hcol as (Hs' & Hhost & Hlh).
  simpl. case_decide; [done|]. intros [= <-].
  do 3 eexists. split; [|done]. eexists. split_and!; [|done|done|lia|lia|done|lia].
  by rewrite <-Hs', <-Hs.
Qed.

(** Whatever it returns, what it stores fits the caller's arrays. *)
Definition out_fits (out : spec_out) : Prop :=
  (∀ h, out_host out = Some h → length h < MAX_HOST_SIZE) ∧
  (∀ d, out_dir out = Some d → length d < MAX_PATH).

Lemma parse_spec_fits s out r out' :
  out_fits out → parse_directory_spec (Some s) (Some out) = (r, Some out') →
  out_fits out' ∧ (r = 0 ∨ r = -1)%Z.
Proof.
  intros Hf. pose proof Hf as [Hh Hd]. unfold parse_directory_spec.
  destruct (strchr s "@") as [at_pos|]; [|intros [= <- <-]; by auto].
  case_decide; [intros [= <- <-]; by auto|].
  assert (length (take at_pos s) < MAX_PATH) by (rewrite length_take; lia).
  destruct (strchr (drop (S at_pos) s) ":") as [hl|].
  2: { intros [= <- <-]. split; [split|by auto]; simpl; [done|]. by intros ? [= <-]. }
  case_decide. { intros [= <- <-]. split; [split|by auto]; simpl; [done|]. by intros ? [= <-]. }
  assert (length (take hl (drop (S at_pos) s)) < MAX_HOST_SIZE) by (rewrite length_take; lia).
  case_decide; intros [= <- <-].
  all: split; [split; simpl; by intros ? [= <-]|by auto].
Qed.

Lemma print_spec_of host port dir :
  spec_ok host port dir → spec_of (print_spec host port dir) host port dir.
Proof.
  intros (Hd & Hh & Hld & Hlh & Hp). exists (dec port).
  split_and!; [done..| |lia].
  pose proof (atoi_dec port []) as Hz. rewrite app_nil_r in Hz. symmetry. apply Hz; [|apply stops_nil].
  unfold int_min. lia.
Qed.

Lemma spec_of_unique s h1 p1 d1 h2 p2 d2 :
  spec_of s h1 p1 d1 → spec_of s h2 p2 d2 → (h1, p1, d1) = (h2, p2, d2).
Proof.
  intros H1%(parse_spec_complete _ no_out) H2%(parse_spec_complete _ no_out). congruence.
Qed.

Lemma parse_spec_error s out :
  (∀ host port dir, ¬ spec_of s host port dir) →
  (parse_directory_spec (Some s) (Some out)).1 = (-1)%Z.
Proof.
  intros Hno. destruct (parse_directory_spec (Some s) (Some out)) as [r out'] eqn:E. simpl.
  assert (r = 0 ∨ r = -1)%Z as [->| ->].
  { revert E. unfold parse_directory_spec. repeat case_match; intros [= <- <-]; auto. }
  - apply parse_spec_sound in E as (h & p & d & Hs & _). by destruct (Hno h p d).
  - done.
Qed.

(** ** Claims *)

(** C34: [parse_directory_spec] accepts exactly the strings of the grammar
    [/path@host:port] whose parts fit the callers' buffers and whose port
    begins with a positive number, and stores exactly the parts. *)
Theorem parse_directory_spec_correct (s : bytes) (out : spec_out) (host : bytes) (port : Z) (dir : bytes) :
  parse_directory_spec (Some s) (Some out) = (0%Z, Some (SpecOut (Some host) (Some port) (Some dir))) ↔
  spec_of s host port dir.
Proof.
  split; [|by apply parse_spec_complete].
  intros (h & p & d & Hs & [= -> -> ->])%parse_spec_sound. done.
Qed.

(** C35: a rejected string is rejected with -1, whatever it holds, and on
    every path what was written to the output objects fits the arrays of
    [MAX_HOST_SIZE] and [MAX_PATH] bytes, terminator included. *)
Theorem parse_directory_spec_bounds (s : ptr bytes) (out out' : spec_out) (r : Z)
  (Hfit : out_fits out) (Hparse : parse_directory_spec s (Some out) = (r, Some out')) :
  out_fits out' ∧ (r = 0 ∨ r = -1)%Z ∧
  (r = 0%Z ↔ ∃ s' host port dir, s = Some s' ∧ spec_of s' host port dir).
Proof.
  destruct s as [s|]; [|injection Hparse as <- <-; split_and!; [done|by right|]].
  - destruct (parse_spec_fits _ _ _ _ Hfit Hparse) as [Hf Hr]. split_and!; [done..|].
    split.
    + intros ->. apply parse_spec_sound in Hparse as (h & p & d & Hs & _). eauto 6.
    + intros (s' & h & p & d & [= <-] & Hs).
      apply (parse_spec_complete _ out) in Hs. rewrite Hparse in Hs. by injection Hs.
  - split; [done|]. by intros (? & ? & ? & ? & ? & _).
Qed.

Definition demo_spec : bytes := lit "/home/test@192.168.1.1:8080".

Lemma parse_directory_spec_bounds_witness :
  out_fits no_out ∧
  let out' := SpecOut (Some (lit "192.168.1.1")) (Some 8080%Z) (Some (lit "/home/test")) in
  parse_directory_spec (Some demo_spec) (Some no_out) = (0%Z, Some out') ∧
  out_fits out' ∧ (0 = 0 ∨ 0 = -1)%Z ∧
  (0%Z = 0%Z ↔ ∃ s' host port dir, Some demo_spec = Some s' ∧ spec_of s' host port dir).
Proof.
  assert (out_fits no_out) as H1 by (split; by intros ? ?).
  assert (parse_directory_spec (Some demo_spec) (Some no_out) =
    (0%Z, Some (SpecOut (Some (lit "192.168.1.1")) (Some 8080%Z) (Some (lit "/home/test"))))) as H2
    by (by vm_compute).
  split; [exact H1|]. split; [exact H2|].
  exact (parse_directory_spec_bounds _ _ _ _ H1 H2).
Defined.

(** Printing and parsing are inverse: a host, port and directory that
    the format can express are read back from the text they are printed as,
    and no other triple is. *)
Theorem print_parse_spec (host : bytes) (port : Z) (dir : bytes) (out : spec_out)
  (Hok : spec_ok host port dir) :
  parse_directory_spec (Some (print_spec host port dir)) (Some out) =
    (0%Z, Some (SpecOut (Some host) (Some port) (Some dir))) ∧
  ∀ h p d, spec_of (print_spec host port dir) h p d → (h, p, d) = (host, port, dir).
Proof.
  pose proof (print_spec_of _ _ _ Hok) as Hs. split; [by apply parse_spec_complete|].
  intros h p d Hs'. by eapply spec_of_unique.
Qed.

Lemma print_parse_spec_witness :
  spec_ok (lit "127.0.0.1") 9000 (lit "/data") ∧
  parse_directory_spec (Some (print_spec (lit "127.0.0.1") 9000 (lit "/data"))) (Some no_out) =
    (0%Z, Some (SpecOut (Some (lit "127.0.0.1")) (Some 9000%Z) (Some (lit "/data")))) ∧
  ∀ h p d, spec_of (print_spec (lit "127.0.0.1") 9000 (lit "/data")) h p d →
    (h, p, d) = (lit "127.0.0.1", 9000%Z, lit "/data").
Proof.
  assert (spec_ok (lit "127.0.0.1") 9000 (lit "/data")) as H
    by (apply (bool_decide_unpack _); by vm_compute).
  split; [exact H|]. exact (print_parse_spec _ _ _ no_out H).
Defined.

(** A configuration line made of two printed specifications separated by
    a blank and ended by a newline is parsed back into both triples; the call
    writes within its two arrays. *)
Theorem parse_config_line_roundtrip (h1 h2 : bytes) (p1 p2 : Z) (d1 d2 : bytes) (o1 o2 : spec_out)
  (Hok1 : spec_ok h1 p1 d1) (Hok2 : spec_ok h2 p2 d2)
  (Hw1 : plain (print_spec h1 p1 d1)) (Hw2 : plain (print_spec h2 p2 d2))
  (Hl1 : length (print_spec h1 p1 d1) < MAX_PATH) (Hl2 : length (print_spec h2 p2 d2) < MAX_PATH) :
  parse_config_line (S := unit)
    (Some (print_spec h1 p1 d1 ++ SP :: print_spec h2 p2 d2 ++ [NL])) (Some o1) (Some o2) tt =
  Ret (0%Z, Some (SpecOut (Some h1) (Some p1) (Some d1)), Some (SpecOut (Some h2) (Some p2) (Some d2))) tt.
Proof.
  unfold parse_config_line. rewrite sscanf_two by (by try apply ends_word_cons).
  unfold bind, ret. rewrite (parse_spec_complete _ _ _ _ _ (print_spec_of _ _ _ Hok1)).
  rewrite decide_False by auto.
  rewrite (parse_spec_complete _ _ _ _ _ (print_spec_of _ _ _ Hok2)).
  by rewrite decide_False by auto.
Qed.

Lemma parse_config_line_roundtrip_witness :
  parse_config_line (S := unit)
    (Some (lit "/source@192.168.1.1:8080 /target@192.168.1.2:9090" ++ [NL]))
    (Some no_out) (Some no_out) tt =
  Ret (0%Z, Some (SpecOut (Some (lit "192.168.1.1")) (Some 8080%Z) (Some (lit "/source"))),
    Some (SpecOut (Some (lit "192.168.1.2")) (Some 9090%Z) (Some (lit "/target")))) tt.
Proof.
  apply (parse_config_line_roundtrip (lit "192.168.1.1") (lit "192.168.1.2") 8080 9090
    (lit "/source") (lit "/target") no_out no_out);
    apply (bool_decide_unpack _); by vm_compute.
Defined.

(** A configuration line whose first word is [MAX_PATH] bytes or longer
    overflows the array [source_spec] of [parse_config_line]: the conversion
    [%s] has no width. *)
Theorem parse_config_line_overflow (w r : bytes) (o1 o2 : spec_out)
  (Hw : plain w) (Hr : ends_word r) (Hlong : MAX_PATH ≤ length w) :
  parse_config_line (S := unit) (Some (w ++ r)) (Some o1) (Some o2) tt = UB BufferOverflow.
Proof.
  unfold parse_config_line, bind.
  by rewrite (sscanf_overflow tt w r "%s %s" [DSpace; DStr] MAX_PATH [MAX_PATH]).
Qed.

Lemma parse_config_line_overflow_witness :
  parse_config_line (S := unit) (Some (replicate MAX_PATH "a"%char ++ lit " /t@h:1"))
    (Some no_out) (Some no_out) tt = UB BufferOverflow.
Proof.
  apply (parse_config_line_overflow (replicate MAX_PATH "a"%char) (lit " /t@h:1") no_out no_out).
  - apply (bool_decide_unpack _). by vm_compute.
  - by apply ends_word_cons.
  - apply Nat.leb_le. by vm_compute.
Defined.
