(* ===== verification/SyncInfo.v ===== *)
(** * The store of synchronisation pairs: [src/sync_info.c]

    The store is a heap block with the head of a linked list of [sync_info]
    blocks, a mutex and a counter.  [rep] relates a heap to the list of the
    entries it holds; the module [Spec] is the abstract store, and the
    lemmas show that every operation implements its abstract counterpart,
    leaves the mutex unlocked and follows no freed pointer. *)
From S2P Require Import Prelude.
From S2P Require Import LinkedList.
From S2P Require Import CString.
From S2P Require Import Common.
From stdpp Require Import gmap strings list.
From Stdlib Require Import Ascii ZArith Lia.

(** ** State *)

Record sync_info_store := Store {
  head : ptr loc;
  mutex : bool;              (* locked? *)
  count : Z
}.

Record sheap := SHeap {
  infos : gmap loc sync_info;
  stores : gmap loc sync_info_store;
  brk : loc;                 (* the address the next block gets *)
  avail : list bool;         (* do the coming allocations and initialisations succeed? *)
  clock : Z                  (* time (NULL) *)
}.

Definition set_infos f h := SHeap (f (infos h)) (stores h) (brk h) (avail h) (clock h).
Definition set_stores f h := SHeap (infos h) (f (stores h)) (brk h) (avail h) (clock h).
Definition set_avail f h := SHeap (infos h) (stores h) (brk h) (f (avail h)) (clock h).
Definition bump h := SHeap (infos h) (stores h) (brk h + 1)%positive (avail h) (clock h).

Definition with_info_next (p : ptr loc) (i : sync_info) : sync_info :=
  SyncInfo (source_host i) (source_port i) (source_dir i) (target_host i) (target_port i)
    (target_dir i) (active i) (last_sync_time i) (error_count i) p.

Definition with_active (v : Z) (i : sync_info) : sync_info :=
  SyncInfo (source_host i) (source_port i) (source_dir i) (target_host i) (target_port i)
    (target_dir i) v (last_sync_time i) (error_count i) (info_next i).

#[export] Instance sync_info_linked : Linked sync_info := {
  next := info_next;
  set_next := with_info_next;
  next_set_next p n := eq_refl
}.

(** ** Memory and mutex *)

Definition lib_ok : M sheap bool := λ h,
  match avail h with [] => Ret true h | b :: l => Ret b (set_avail (λ _, l) h) end.

Definition malloc_info (i : sync_info) : M sheap (ptr loc) :=
  ok <- lib_ok ;;
  h <- get ;;
  if ok : bool then
    modify (λ h, bump (set_infos <[brk h := i]> h)) ;;; ret (Some (brk h))
  else ret NULL.

Definition deref_info (a : loc) : M sheap sync_info :=
  h <- get ;;
  match infos h !! a with Some i => ret i | None => undef UseAfterFree end.

Definition write_info (a : loc) (i : sync_info) : M sheap unit :=
  deref_info a ;;; modify (set_infos <[a := i]>).

Definition deref_store (st : loc) : M sheap sync_info_store :=
  h <- get ;;
  match stores h !! st with Some s => ret s | None => undef UseAfterFree end.

Definition write_store (st : loc) (s : sync_info_store) : M sheap unit :=
  deref_store st ;;; modify (set_stores <[st := s]>).

Definition lock (st : loc) : M sheap unit :=
  s <- deref_store st ;;
  if mutex s then undef RelockedMutex else write_store st (Store (head s) true (count s)).

Definition unlock (st : loc) : M sheap unit :=
  s <- deref_store st ;; write_store st (Store (head s) false (count s)).

(** ** Operations *)

Definition create_sync_info_store : M sheap (ptr loc) :=
  ok <- lib_ok ;;
  if negb ok then ret NULL else
  h <- get ;;
  let store := brk h in
  modify (λ h, bump (set_stores <[store := Store NULL false 0]> h)) ;;;
  ok <- lib_ok ;;
  if negb ok then modify (set_stores (delete store)) ;;; ret NULL else
  ret (Some store).

Definition free_sync_info (info : ptr loc) : M sheap unit :=
  match info with
  | NULL => ret tt
  | Some a => deref_info a ;;; modify (set_infos (delete a))
  end.

Fixpoint free_all (fuel : nat) (current : ptr loc) : M sheap unit :=
  match current, fuel with
  | NULL, _ => ret tt
  | Some _, 0 => no_fuel
  | Some a, S f =>
      i <- deref_info a ;;
      free_sync_info (Some a) ;;;
      free_all f (info_next i)
  end.

Definition destroy_sync_info_store (store : ptr loc) : M sheap unit :=
  match store with
  | NULL => ret tt
  | Some st =>
      lock st ;;;
      s <- deref_store st ;;
      h <- get ;;
      free_all (size (infos h)) (head s) ;;;
      unlock st ;;;
      modify (set_stores (delete st))
  end.

Definition create_sync_info (source_host : ptr bytes) (source_port : Z) (source_dir : ptr bytes)
    (target_host : ptr bytes) (target_port : Z) (target_dir : ptr bytes) : M sheap (ptr loc) :=
  match source_host, source_dir, target_host, target_dir with
  | Some source_host, Some source_dir, Some target_host, Some target_dir =>
      h <- get ;;
      malloc_info (SyncInfo
        (strncpy_z MAX_HOST_SIZE source_host) source_port (strncpy_z MAX_PATH source_dir)
        (strncpy_z MAX_HOST_SIZE target_host) target_port (strncpy_z MAX_PATH target_dir)
        1 (clock h) 0 NULL)
  | _, _, _, _ => ret NULL
  end.

(** The three comparisons of the search loops. *)
Definition has_key (host : bytes) (port : Z) (dir : bytes) (i : sync_info) : bool :=
  bool_decide (source_host i = host) && bool_decide (source_port i = port) &&
  bool_decide (source_dir i = dir).

(** [while (current)]: the first entry with the key. *)
Fixpoint search (fuel : nat) (current : ptr loc) (host : bytes) (port : Z) (dir : bytes) :
    M sheap (ptr loc) :=
  match current, fuel with
  | NULL, _ => ret NULL
  | Some _, 0 => no_fuel
  | Some a, S f =>
      i <- deref_info a ;;
      if has_key host port dir i then ret (Some a) else search f (info_next i) host port dir
  end.

Definition add_sync_info (store info : ptr loc) : M sheap Z :=
  match store, info with
  | Some st, Some a =>
      lock st ;;;
      s <- deref_store st ;;
      i <- deref_info a ;;
      h <- get ;;
      found <- search (size (infos h)) (head s) (source_host i) (source_port i) (source_dir i) ;;
      match found with
      | Some _ => unlock st ;;; ret 1%Z
      | NULL =>
          write_info a (with_info_next (head s) i) ;;;
          n <- int_result (count s + 1) ;;
          write_store st (Store (Some a) (mutex s) n) ;;;
          unlock st ;;;
          ret 0%Z
      end
  | _, _ => ret (-1)%Z
  end.

Definition find_sync_info (store : ptr loc) (host : ptr bytes) (port : Z) (dir : ptr bytes) :
    M sheap (ptr loc) :=
  match store, host, dir with
  | Some st, Some host, Some dir =>
      lock st ;;;
      s <- deref_store st ;;
      h <- get ;;
      found <- search (size (infos h)) (head s) host port dir ;;
      unlock st ;;;
      ret found
  | _, _, _ => ret NULL
  end.

(** The loop of [remove_sync_info]; [prev] trails [current]. *)
Fixpoint remove_loop (fuel : nat) (st : loc) (current prev : ptr loc)
    (host : bytes) (port : Z) (dir : bytes) : M sheap Z :=
  match current, fuel with
  | NULL, _ => unlock st ;;; ret 1%Z
  | Some _, 0 => no_fuel
  | Some a, S f =>
      i <- deref_info a ;;
      if has_key host port dir i then
        match prev with
        | Some b =>
            ib <- deref_info b ;;
            write_info b (with_info_next (info_next i) ib)
        | NULL =>
            s <- deref_store st ;;
            write_store st (Store (info_next i) (mutex s) (count s))
        end ;;;
        s <- deref_store st ;;
        n <- int_result (count s - 1) ;;
        write_store st (Store (head s) (mutex s) n) ;;;
        free_sync_info (Some a) ;;;
        unlock st ;;;
        ret 0%Z
      else remove_loop f st (info_next i) (Some a) host port dir
  end.

Definition remove_sync_info (store : ptr loc) (host : ptr bytes) (port : Z) (dir : ptr bytes) :
    M sheap Z :=
  match store, host, dir with
  | Some st, Some host, Some dir =>
      lock st ;;;
      s <- deref_store st ;;
      h <- get ;;
      remove_loop (size (infos h)) st (head s) NULL host port dir
  | _, _, _ => ret (-1)%Z
  end.

Definition deactivate_sync_info (store : ptr loc) (host : ptr bytes) (port : Z) (dir : ptr bytes) :
    M sheap Z :=
  match store, host, dir with
  | Some st, Some _, Some _ =>
      info <- find_sync_info store host port dir ;;
      match info with
      | NULL => ret 1%Z
      | Some a =>
          lock st ;;;
          i <- deref_info a ;;
          write_info a (with_active 0 i) ;;;
          unlock st ;;;
          ret 0%Z
      end
  | _, _, _ => ret (-1)%Z
  end.

Definition get_sync_info_count (store : ptr loc) : M sheap Z :=
  match store with
  | NULL => ret 0%Z
  | Some st =>
      lock st ;;;
      s <- deref_store st ;;
      unlock st ;;;
      ret (count s)
  end.

(** The text [print_sync_info_store] prints; [localtime] depends on the time
    zone of the host and is a parameter. *)
Section printing.
Variable localtime : Z → tm.

Definition print_entry (index : nat) (i : sync_info) : bytes :=
  dec (Z.of_nat index + 1) ++ lit ". Source: " ++ source_dir i ++ lit "@" ++ source_host i ++
  lit ":" ++ dec (source_port i) ++ [NL] ++
  lit "   Target: " ++ target_dir i ++ lit "@" ++ target_host i ++ lit ":" ++
  dec (target_port i) ++ [NL] ++
  lit "   Active: " ++ (if decide (active i = 0)%Z then lit "No" else lit "Yes") ++
  lit ", Last Sync: " ++ strftime (localtime (last_sync_time i)) ++
  lit ", Errors: " ++ dec (error_count i) ++ [NL] ++ [NL].

Fixpoint print_loop (fuel : nat) (current : ptr loc) (index : nat) (out : bytes) : M sheap bytes :=
  match current, fuel with
  | NULL, _ => ret out
  | Some _, 0 => no_fuel
  | Some a, S f =>
      i <- deref_info a ;;
      print_loop f (info_next i) (S index) (out ++ print_entry index i)
  end.

Definition print_sync_info_store (store : ptr loc) : M sheap bytes :=
  match store with
  | NULL => ret (lit "Sync info store is NULL" ++ [NL])
  | Some st =>
      lock st ;;;
      s <- deref_store st ;;
      h <- get ;;
      out <- print_loop (size (infos h)) (head s) 0
        (lit "=== Sync Info Store (Count: " ++ dec (count s) ++ lit ") ===" ++ [NL]) ;;
      let out := if decide (count s = 0)%Z then out ++ lit "No sync pairs configured." ++ [NL]
        else out in
      unlock st ;;;
      ret (out ++ lit "=====================================" ++ [NL])
  end.
End printing.

(** ** The abstract store *)

Module Spec.

(** The entries in list order, most recent first. *)
Definition store := list sync_info.

Definition find (host : bytes) (port : Z) (dir : bytes) (es : store) : option sync_info :=
  List.find (has_key host port dir) es.

Definition add (e : sync_info) (es : store) : Z * store :=
  match find (source_host e) (source_port e) (source_dir e) es with
  | Some _ => (1%Z, es)
  | None => (0%Z, e :: es)
  end.

Fixpoint remove (host : bytes) (port : Z) (dir : bytes) (es : store) : store :=
  match es with
  | [] => []
  | e :: es' => if has_key host port dir e then es' else e :: remove host port dir es'
  end.

Fixpoint deactivate (host : bytes) (port : Z) (dir : bytes) (es : store) : store :=
  match es with
  | [] => []
  | e :: es' =>
      if has_key host port dir e then with_active 0 e :: es'
      else e :: deactivate host port dir es'
  end.

End Spec.

(** The source of a pair, which identifies it. *)
Definition key_of (i : sync_info) : bytes * Z * bytes := (source_host i, source_port i, source_dir i).

(** The entries of a chain, without their links. *)
Fixpoint entries (ll : list (loc * sync_info)) : list sync_info :=
  match ll with
  | [] => []
  | (_, i) :: ll' => with_info_next NULL i :: entries ll'
  end.

(** [rep h st ll]: the store at [st] is unlocked, its list is [ll], its
    counter is the length of the list, and no two entries share a source. *)
Definition rep (h : sheap) (st : loc) (ll : list (loc * sync_info)) : Prop :=
  ∃ hd, stores h !! st = Some (Store hd false (Z.of_nat (length ll))) ∧
    chain (infos h) hd ll ∧ NoDup (key_of <$> ll.*2) ∧ (Z.of_nat (length ll) ≤ int_max)%Z.

(** The heap holds the abstract store [es] at [st]. *)
Definition holds (h : sheap) (st : loc) (es : Spec.store) : Prop :=
  ∃ ll, rep h st ll ∧ entries ll = es.

(** ** Rules for the primitive operations *)

Lemma wp_deref_info b a i Q h : infos h !! a = Some i → Q i h → wpb b (deref_info a) Q h.
Proof. intros Ha HQ. unfold deref_info. apply wpb_bind, wpb_get. by rewrite Ha. Qed.

Lemma wp_write_info b a i i' Q h :
  infos h !! a = Some i → Q tt (set_infos <[a := i']> h) → wpb b (write_info a i') Q h.
Proof. intros Ha HQ. by eapply wpb_bind, wp_deref_info. Qed.

Lemma wp_deref_store b st s Q h : stores h !! st = Some s → Q s h → wpb b (deref_store st) Q h.
Proof. intros Ha HQ. unfold deref_store. apply wpb_bind, wpb_get. by rewrite Ha. Qed.

Lemma wp_write_store b st s s' Q h :
  stores h !! st = Some s → Q tt (set_stores <[st := s']> h) → wpb b (write_store st s') Q h.
Proof. intros Ha HQ. by eapply wpb_bind, wp_deref_store. Qed.

Lemma wp_free_info b a i Q h :
  infos h !! a = Some i → Q tt (set_infos (delete a) h) → wpb b (free_sync_info (Some a)) Q h.
Proof. intros Ha HQ. by eapply wpb_bind, wp_deref_info. Qed.

Lemma wp_lock b st hd n Q h :
  stores h !! st = Some (Store hd false n) →
  Q tt (set_stores <[st := Store hd true n]> h) → wpb b (lock st) Q h.
Proof.
  intros Ha HQ. eapply wpb_bind, wp_deref_store; [done|]. simpl. by eapply wp_write_store.
Qed.

Lemma wp_unlock b st s Q h :
  stores h !! st = Some s →
  Q tt (set_stores <[st := Store (head s) false (count s)]> h) → wpb b (unlock st) Q h.
Proof.
  intros Ha HQ. eapply wpb_bind, wp_deref_store; [done|]. simpl. by eapply wp_write_store.
Qed.

(** Locking and unlocking restores the heap. *)
Lemma unlock_locked st hd n h :
  stores h !! st = Some (Store hd false n) →
  set_stores <[st := Store hd false n]> (set_stores <[st := Store hd true n]> h) = h.
Proof.
  intros Hs. destruct h; unfold set_stores; simpl in *. f_equal.
  by rewrite insert_insert_eq, insert_id.
Qed.

(** Reads back what was last written to the store or to a block. *)
#[export] Hint Extern 1 (stores _ !! _ = Some _) => apply lookup_insert_eq : nfs.
#[export] Hint Extern 1 (infos _ !! _ = Some _) => apply lookup_insert_eq : nfs.

(** ** The search loop *)

Definition find_key (host : bytes) (port : Z) (dir : bytes) (ll : list (loc * sync_info)) :
    option (loc * sync_info) :=
  List.find (λ p, has_key host port dir p.2) ll.

Lemma wp_search b fuel cur host port dir ll Q h :
  chain (infos h) cur ll → length ll ≤ fuel → Q (fst <$> find_key host port dir ll) h →
  wpb b (search fuel cur host port dir) Q h.
Proof.
  revert cur ll. induction fuel as [|f IH]; intros cur [|[a i] ll] Hc Hf HQ; simpl in Hf; try lia.
  - unfold chain in Hc. simpl in Hc. by subst.
  - unfold chain in Hc. simpl in Hc. by subst.
  - destruct Hc as (-> & Ha & Hc). simpl. eapply wpb_bind, wp_deref_info; [done|].
    unfold find_key in HQ. simpl in HQ. destruct (has_key host port dir i); [done|].
    eapply IH; [done|lia|done].
Qed.

Lemma has_key_strip host port dir i p :
  has_key host port dir (with_info_next p i) = has_key host port dir i.
Proof. done. Qed.

Lemma find_key_entries host port dir ll :
  Spec.find host port dir (entries ll) = with_info_next NULL <$> (snd <$> find_key host port dir ll).
Proof.
  unfold Spec.find, find_key. induction ll as [|[a i] ll IH]; simpl; [done|].
  rewrite has_key_strip. by destruct (has_key host port dir i).
Qed.

Lemma has_key_true host port dir i :
  has_key host port dir i = true ↔ key_of i = (host, port, dir).
Proof.
  unfold has_key, key_of. rewrite !andb_true_iff, !bool_decide_eq_true.
  split; [by intros [[-> ->] ->]|by intros [= -> -> ->]].
Qed.

Lemma find_key_None host port dir ll :
  find_key host port dir ll = None ↔ (host, port, dir) ∉ key_of <$> ll.*2.
Proof.
  unfold find_key. induction ll as [|[a i] ll IH]; simpl.
  - split; [|done]. intros _. by apply not_elem_of_nil.
  - rewrite not_elem_of_cons. destruct (has_key host port dir i) eqn:E.
    + apply has_key_true in E. split; [done|]. by intros [[] _].
    + rewrite IH. assert ((host, port, dir) ≠ key_of i); [|by naive_solver].
      intros Hk. by rewrite (proj2 (has_key_true host port dir i)) in E.
Qed.

Lemma find_key_Some host port dir ll a i :
  find_key host port dir ll = Some (a, i) → (a, i) ∈ ll ∧ key_of i = (host, port, dir).
Proof.
  intros H. unfold find_key in H. apply List.find_some in H as [Hin Hk]. simpl in Hk.
  split; [by apply list_elem_of_In|by apply has_key_true].
Qed.

(** ** [find_sync_info] *)

Lemma wp_find_sync_info b st ll host port dir Q h :
  rep h st ll → Q (fst <$> find_key host port dir ll) h →
  wpb b (find_sync_info (Some st) (Some host) port (Some dir)) Q h.
Proof.
  intros (hd & Hs & Hc & _ & _) HQ. unfold find_sync_info.
  eapply wpb_bind, wp_lock; [done|]. eapply wpb_bind, wp_deref_store; [by auto with nfs|].
  apply wpb_bind, wpb_get. simpl. apply wpb_bind. eapply wp_search; [done|by eapply chain_size|].
  eapply wpb_bind, wp_unlock; [by auto with nfs|]. simpl. rewrite unlock_locked by done.
  by apply wpb_ret.
Qed.

(** ** [add_sync_info] *)

(** What an operation on the store at [st] may change: that store, and blocks
    among [blocks]. *)
Definition only_store (st : loc) (blocks : list loc) (h h' : sheap) : Prop :=
  (∀ x, x ≠ st → stores h' !! x = stores h !! x) ∧
  (∀ a, a ∉ blocks → infos h' !! a = infos h !! a) ∧
  brk h' = brk h ∧ avail h' = avail h ∧ clock h' = clock h.

Lemma wp_add_sync_info b st ll a i Q h :
  rep h st ll → infos h !! a = Some i → a ∉ ll.*1 → (Z.of_nat (S (length ll)) ≤ int_max)%Z →
  (find_key (source_host i) (source_port i) (source_dir i) ll ≠ None → Q 1%Z h) →
  (find_key (source_host i) (source_port i) (source_dir i) ll = None →
   ∀ h' p, rep h' st ((a, with_info_next p i) :: ll) → only_store st [a] h h' → Q 0%Z h') →
  wpb b (add_sync_info (Some st) (Some a)) Q h.
Proof.
  intros (hd & Hs & Hc & Hk & _) Ha Hnot Hmax Hdup Hnew. unfold add_sync_info.
  eapply wpb_bind, wp_lock; [done|]. eapply wpb_bind, wp_deref_store; [by auto with nfs|].
  eapply wpb_bind, wp_deref_info; [done|]. apply wpb_bind, wpb_get. simpl.
  apply wpb_bind. eapply wp_search; [done|by eapply chain_size|].
  destruct (find_key _ _ _ ll) as [[a' i']|] eqn:Hf; simpl.
  - eapply wpb_bind, wp_unlock; [by auto with nfs|]. simpl. rewrite unlock_locked by done.
    by apply Hdup.
  - eapply wpb_bind, wp_write_info; [done|]. apply wpb_bind, wpb_int_result.
    { unfold int_min, int_max in *. lia. }
    eapply wpb_bind, wp_write_store; [by auto with nfs|].
    eapply wpb_bind, wp_unlock; [by auto with nfs|]. simpl. apply wpb_ret.
    apply (Hnew eq_refl _ hd).
    + exists (Some a). split_and!; [| | |done].
      * simpl. rewrite lookup_insert_eq. do 2 f_equal. lia.
      * eapply chain_cons; [exact Hc|done|done].
      * simpl. constructor; [|done]. unfold key_of at 1. simpl. by apply find_key_None.
    + split_and!; [intros x Hx| |done..]; simpl.
      * by rewrite !lookup_insert_ne.
      * intros x Hx%not_elem_of_cons. rewrite lookup_insert_ne; [done|naive_solver].
Qed.

(** ** [remove_sync_info] *)

Lemma entries_app l1 l2 : entries (l1 ++ l2) = entries l1 ++ entries l2.
Proof. induction l1 as [|[a i] l1 IH]; simpl; [done|]. by rewrite IH. Qed.

Lemma keys_entries ll : key_of <$> ll.*2 = key_of <$> entries ll.
Proof. induction ll as [|[a i] ll IH]; simpl; [done|]. by f_equal. Qed.

Lemma remove_entries host port dir l1 a i l2 :
  find_key host port dir l1 = None → has_key host port dir i = true →
  Spec.remove host port dir (entries (l1 ++ (a, i) :: l2)) = entries (l1 ++ l2).
Proof.
  intros Hn Hk. induction l1 as [|[x ix] l1 IH]; simpl.
  - by rewrite has_key_strip, Hk.
  - unfold find_key in Hn. simpl in Hn. rewrite has_key_strip.
    destruct (has_key host port dir ix); [done|]. f_equal. by apply IH.
Qed.

Lemma find_key_snoc host port dir l a i :
  find_key host port dir l = None → has_key host port dir i = false →
  find_key host port dir (l ++ [(a, i)]) = None.
Proof.
  unfold find_key. intros Hl Hi. induction l as [|[x ix] l IH]; simpl in *; [by rewrite Hi|].
  destruct (has_key host port dir ix); [done|by apply IH].
Qed.

(** What [remove_sync_info] leaves: the list [ll'] without the first entry
    with the key, whose block [a] is freed. *)
Definition removed st host port dir (ll : list (loc * sync_info)) h h' : Prop :=
  ∃ hd' ll' a, stores h' !! st = Some (Store hd' false (Z.of_nat (length ll - 1))) ∧
    chain (infos h') hd' ll' ∧
    entries ll' = Spec.remove host port dir (entries ll) ∧
    (∃ l1 l2, ll.*1 = l1 ++ a :: l2 ∧ ll'.*1 = l1 ++ l2) ∧
    dom (infos h') = dom (infos h) ∖ {[a]} ∧ length ll' = length ll - 1 ∧
    only_store st ll.*1 h h'.

(** The block found is taken out of the list: the first one. *)
Lemma wp_unlink_first b st hd a i post host port dir Q h fuel :
  stores h !! st = Some (Store hd true (Z.of_nat (length ((a, i) :: post)))) →
  chain (infos h) hd ((a, i) :: post) → has_key host port dir i = true →
  (Z.of_nat (length ((a, i) :: post)) ≤ int_max)%Z →
  (∀ h', removed st host port dir ((a, i) :: post) h h' → Q 0%Z h') → 0 < fuel →
  wpb b (remove_loop fuel st (Some a) NULL host port dir) Q h.
Proof.
  intros Hs Hc Hi Hmax HQ Hfuel. destruct fuel as [|f]; [lia|].
  assert (infos h !! a = Some i) as Ha by (eapply seg_lookup; [done|set_solver]).
  simpl. eapply wpb_bind, wp_deref_info; [done|]. rewrite Hi. apply wpb_bind.
  eapply wpb_bind, wp_deref_store; [done|]. eapply wp_write_store; [done|].
  eapply wpb_bind, wp_deref_store; [by auto with nfs|]. simpl.
  apply wpb_bind, wpb_int_result. { unfold int_min, int_max in *. simpl in *. lia. }
  eapply wpb_bind, wp_write_store; [by auto with nfs|].
  eapply wpb_bind, wp_free_info; [done|].
  eapply wpb_bind, wp_unlock; [by auto with nfs|]. simpl. apply wpb_ret, HQ.
  exists (info_next i), post, a. simpl in *. split_and!.
  - rewrite lookup_insert_eq. do 2 f_equal. lia.
  - exact (chain_tail _ _ _ _ _ Hc).
  - by rewrite has_key_strip, Hi.
  - by exists [], post.*1.
  - set_solver.
  - lia.
  - split_and!; [| |done..]; simpl.
    + intros x Hx. by rewrite !lookup_insert_ne.
    + intros x [Hx _]%not_elem_of_cons. by rewrite lookup_delete_ne.
Qed.

(** ... and one that follows another. *)
Lemma wp_unlink_next b st hd pre' c nc a i post host port dir Q h fuel (pre := pre' ++ [(c, nc)]) :
  stores h !! st = Some (Store hd true (Z.of_nat (length (pre ++ (a, i) :: post)))) →
  chain (infos h) hd (pre ++ (a, i) :: post) →
  find_key host port dir pre = None → has_key host port dir i = true →
  (Z.of_nat (length (pre ++ (a, i) :: post)) ≤ int_max)%Z →
  (∀ h', removed st host port dir (pre ++ (a, i) :: post) h h' → Q 0%Z h') → 0 < fuel →
  wpb b (remove_loop fuel st (Some a) (Some c) host port dir) Q h.
Proof.
  intros Hs Hc Hpre Hi Hmax HQ Hfuel. destruct fuel as [|f]; [lia|]. subst pre.
  pose proof (chain_NoDup _ _ _ Hc) as Hnd.
  assert (infos h !! a = Some i) as Ha by (eapply seg_lookup; [done|set_solver]).
  simpl. eapply wpb_bind, wp_deref_info; [done|]. rewrite Hi. apply wpb_bind.
  rewrite <-app_assoc in *. simpl in *.
  assert (infos h !! c = Some nc) as Hcn by (eapply seg_lookup; [done|set_solver]).
  eapply wpb_bind, wp_deref_info; [done|].
  eapply wp_write_info; [done|]. eapply wpb_bind, wp_deref_store; [done|]. simpl.
  apply wpb_bind, wpb_int_result. { unfold int_min, int_max in *. lia. }
  eapply wpb_bind, wp_write_store; [done|].
  assert (c ≠ a) as Hca.
  { rewrite fmap_app in Hnd. simpl in Hnd. apply NoDup_app in Hnd as (_ & _ & Hnd).
    apply NoDup_cons in Hnd as [Hnd _]. set_solver. }
  eapply wpb_bind, wp_free_info; [simpl; by rewrite lookup_insert_ne|].
  eapply wpb_bind, wp_unlock; [by auto with nfs|]. simpl. apply wpb_ret, HQ.
  exists hd, (pre' ++ (c, with_info_next (info_next i) nc) :: post), a. split_and!.
  - simpl. rewrite lookup_insert_eq. do 2 f_equal. rewrite length_app. simpl. lia.
  - exact (chain_unlink (infos h) hd pre' c nc a i post Hc).
  - change ((c, nc) :: (a, i) :: post) with ([(c, nc)] ++ (a, i) :: post).
    rewrite app_assoc, remove_entries; [|done|done].
    rewrite <-app_assoc, !entries_app. done.
  - exists (pre' ++ [(c, nc)]).*1, post.*1. by rewrite !fmap_app, <-!app_assoc.
  - simpl. rewrite dom_delete_L, dom_insert_L.
    assert (c ∈ dom (infos h)) by (by apply elem_of_dom). set_solver.
  - rewrite !length_app. simpl. lia.
  - split_and!; [| |done..]; simpl.
    + intros x Hx. by rewrite !lookup_insert_ne.
    + intros x Hx. rewrite fmap_app in Hx. apply not_elem_of_app in Hx as [_ Hx].
      apply not_elem_of_cons in Hx as [Hxc Hx]. apply not_elem_of_cons in Hx as [Hxa _].
      by rewrite lookup_delete_ne, lookup_insert_ne.
Qed.

Lemma wp_unlink b st hd pre a i post host port dir Q h :
  stores h !! st = Some (Store hd true (Z.of_nat (length (pre ++ (a, i) :: post)))) →
  chain (infos h) hd (pre ++ (a, i) :: post) →
  find_key host port dir pre = None → has_key host port dir i = true →
  (Z.of_nat (length (pre ++ (a, i) :: post)) ≤ int_max)%Z →
  (∀ h', removed st host port dir (pre ++ (a, i) :: post) h h' → Q 0%Z h') →
  ∀ prev fuel, prev = fst <$> last pre → 0 < fuel →
  wpb b (remove_loop fuel st (Some a) prev host port dir) Q h.
Proof.
  intros Hs Hc Hpre Hi Hmax HQ prev fuel -> Hfuel. destruct pre as [|[c nc] pre' _] using rev_ind.
  - by eapply wp_unlink_first.
  - rewrite last_snoc. by eapply wp_unlink_next.
Qed.

Lemma wp_remove_loop b fuel st hd pre cur ll host port dir Q h :
  stores h !! st = Some (Store hd true (Z.of_nat (length (pre ++ ll)))) →
  chain (infos h) hd (pre ++ ll) → chain (infos h) cur ll →
  find_key host port dir pre = None → length ll ≤ fuel →
  (Z.of_nat (length (pre ++ ll)) ≤ int_max)%Z →
  (find_key host port dir ll = None →
    Q 1%Z (set_stores <[st := Store hd false (Z.of_nat (length (pre ++ ll)))]> h)) →
  (∀ h', removed st host port dir (pre ++ ll) h h' → Q 0%Z h') →
  wpb b (remove_loop fuel st cur (fst <$> last pre) host port dir) Q h.
Proof.
  revert pre cur ll. induction fuel as [|f IH]; intros pre cur [|[a i] ll] Hs Hc Hcur Hpre Hf Hmax Hno Hyes.
  1, 3: unfold chain in Hcur; simpl in Hcur; subst; simpl;
    eapply wpb_bind, wp_unlock; [done|]; simpl; apply wpb_ret; by apply Hno.
  - simpl in Hf. lia.
  - pose proof Hcur as (-> & Ha & Hcur'). destruct (has_key host port dir i) eqn:Hi.
    { eapply wp_unlink; try done. lia. }
    simpl. eapply wpb_bind, wp_deref_info; [done|]. rewrite Hi.
    replace (Some a) with (fst <$> last (pre ++ [(a, i)])) by (by rewrite last_snoc).
    assert (pre ++ (a, i) :: ll = (pre ++ [(a, i)]) ++ ll) as E by (by rewrite <-app_assoc).
    rewrite E in *. apply (IH (pre ++ [(a, i)]) (info_next i) ll); try done.
    + by apply find_key_snoc.
    + simpl in Hf. lia.
    + intros Hn. apply Hno. unfold find_key in *. simpl. by rewrite Hi.
Qed.

Lemma wp_remove_sync_info b st ll host port dir Q h :
  rep h st ll →
  (find_key host port dir ll = None → Q 1%Z h) →
  (∀ h', removed st host port dir ll h h' → Q 0%Z h') →
  wpb b (remove_sync_info (Some st) (Some host) port (Some dir)) Q h.
Proof.
  intros (hd & Hs & Hc & _ & Hmax) Hno Hyes. unfold remove_sync_info.
  eapply wpb_bind, wp_lock; [done|]. eapply wpb_bind, wp_deref_store; [by auto with nfs|].
  apply wpb_bind, wpb_get. simpl.
  apply (wp_remove_loop _ _ _ hd [] hd ll); simpl; try done.
  - by rewrite lookup_insert_eq.
  - by eapply chain_size.
  - intros Hn. rewrite unlock_locked by done. by apply Hno.
  - intros h' (hd' & ll' & a & H1 & H2 & H3 & H4 & H5 & H6 & (H7 & H8 & H9)). apply Hyes.
    exists hd', ll', a. split_and!; try done. split; [|by split]. intros x Hx. rewrite (H7 x Hx). simpl.
    by rewrite lookup_insert_ne.
Qed.

(** ** [deactivate_sync_info] *)

Lemma deactivate_entries host port dir l1 a i l2 :
  find_key host port dir l1 = None → has_key host port dir i = true →
  Spec.deactivate host port dir (entries (l1 ++ (a, i) :: l2)) =
    entries (l1 ++ (a, with_active 0 i) :: l2).
Proof.
  intros Hn Hk. induction l1 as [|[x ix] l1 IH]; simpl.
  - by rewrite has_key_strip, Hk.
  - unfold find_key in Hn. simpl in Hn. rewrite has_key_strip.
    destruct (has_key host port dir ix); [done|]. f_equal. by apply IH.
Qed.

Lemma find_key_split host port dir ll a i :
  find_key host port dir ll = Some (a, i) →
  ∃ l1 l2, ll = l1 ++ (a, i) :: l2 ∧ find_key host port dir l1 = None ∧ has_key host port dir i = true.
Proof.
  unfold find_key. induction ll as [|[x ix] ll IH]; simpl; [done|].
  destruct (has_key host port dir ix) eqn:E.
  - intros [= -> ->]. by exists [], ll.
  - intros (l1 & l2 & -> & Hl1 & Hi)%IH. exists ((x, ix) :: l1), l2. simpl. by rewrite E.
Qed.

Lemma wp_deactivate_sync_info b st ll host port dir Q h :
  rep h st ll →
  (find_key host port dir ll = None → Q 1%Z h) →
  (∀ a i ll', find_key host port dir ll = Some (a, i) → ll'.*1 = ll.*1 →
     entries ll' = Spec.deactivate host port dir (entries ll) →
     rep (set_infos <[a := with_active 0 i]> h) st ll' →
     Q 0%Z (set_infos <[a := with_active 0 i]> h)) →
  wpb b (deactivate_sync_info (Some st) (Some host) port (Some dir)) Q h.
Proof.
  intros Hrep Hno Hyes. unfold deactivate_sync_info. apply wpb_bind.
  eapply wp_find_sync_info; [done|].
  destruct (find_key host port dir ll) as [[a i]|] eqn:Hf; simpl; [|by apply wpb_ret, Hno].
  destruct Hrep as (hd & Hs & Hc & Hk & Hmax).
  destruct (find_key_split _ _ _ _ _ _ Hf) as (l1 & l2 & -> & Hl1 & Hi).
  assert (infos h !! a = Some i) as Ha by (eapply seg_lookup; [done|set_solver]).
  eapply wpb_bind, wp_lock; [done|]. eapply wpb_bind, wp_deref_info; [done|].
  eapply wpb_bind, wp_write_info; [done|]. eapply wpb_bind, wp_unlock; [by auto with nfs|].
  simpl. apply wpb_ret.
  replace (set_stores _ _) with (set_infos <[a := with_active 0 i]> h).
  2: { rewrite <-(unlock_locked _ _ _ _ Hs) at 1. done. }
  apply (Hyes a i (l1 ++ (a, with_active 0 i) :: l2)); [done|by rewrite !fmap_app| |].
  - by rewrite deactivate_entries.
  - exists hd. split_and!.
    + rewrite length_app in *. done.
    + by eapply chain_update.
    + rewrite !fmap_app in *. done.
    + rewrite length_app in *. done.
Qed.

(** ** Counting, creating, destroying *)

Lemma wp_get_sync_info_count b st ll Q h :
  rep h st ll → Q (Z.of_nat (length ll)) h → wpb b (get_sync_info_count (Some st)) Q h.
Proof.
  intros (hd & Hs & _) HQ. unfold get_sync_info_count.
  eapply wpb_bind, wp_lock; [done|]. eapply wpb_bind, wp_deref_store; [by auto with nfs|].
  eapply wpb_bind, wp_unlock; [by auto with nfs|]. simpl. rewrite unlock_locked by done. done.
Qed.

Lemma wp_free_all b fuel cur ll Q h :
  chain (infos h) cur ll → length ll ≤ fuel →
  (∀ h', stores h' = stores h → brk h' = brk h → avail h' = avail h → clock h' = clock h →
     dom (infos h') = dom (infos h) ∖ list_to_set ll.*1 → Q tt h') →
  wpb b (free_all fuel cur) Q h.
Proof.
  revert cur ll Q h. induction fuel as [|f IH]; intros cur [|[a i] ll] Q h Hc Hf HQ; simpl in Hf; try lia.
  1, 2: unfold chain in Hc; simpl in Hc; subst; apply wpb_ret, HQ; [done..|]; simpl; set_solver.
  pose proof Hc as (-> & Ha & _). simpl. eapply wpb_bind, wp_deref_info; [done|].
  eapply wpb_bind, wp_free_info; [done|]. eapply IH; [exact (chain_tail _ _ _ _ _ Hc)|lia|].
  intros h' H1 H2 H3 H4 H5. apply HQ; try done. rewrite H5. simpl. rewrite dom_delete_L. set_solver.
Qed.

Lemma wp_destroy_sync_info_store b st ll Q h :
  rep h st ll →
  (∀ h', stores h' = delete st (stores h) → brk h' = brk h → avail h' = avail h → clock h' = clock h →
     dom (infos h') = dom (infos h) ∖ list_to_set ll.*1 → Q tt h') →
  wpb b (destroy_sync_info_store (Some st)) Q h.
Proof.
  intros (hd & Hs & Hc & _ & Hmax) HQ. unfold destroy_sync_info_store.
  eapply wpb_bind, wp_lock; [done|]. eapply wpb_bind, wp_deref_store; [by auto with nfs|].
  apply wpb_bind, wpb_get. apply wpb_bind. simpl.
  eapply wp_free_all; [done|by eapply chain_size|]. intros h' H1 H2 H3 H4 H5.
  eapply wpb_bind, wp_unlock; [by rewrite H1; auto with nfs|]. simpl.
  apply HQ; simpl; try done. rewrite H1. simpl. by rewrite insert_insert_eq, delete_insert_eq.
Qed.

Lemma print_loop_total b lt fuel cur index out ll Q h :
  chain (infos h) cur ll → length ll ≤ fuel → (∀ text, Q text h) →
  wpb b (print_loop lt fuel cur index out) Q h.
Proof.
  revert cur ll index out.
  induction fuel as [|f IH]; intros cur [|[a i] ll] index out Hc Hf HQ; simpl in Hf; try lia.
  1, 2: unfold chain in Hc; simpl in Hc; subst; by apply wpb_ret.
  destruct Hc as (-> & Ha & Hc). simpl. eapply wpb_bind, wp_deref_info; [done|].
  eapply IH; [done|lia|done].
Qed.

Lemma wp_print_sync_info_store b lt st ll Q h :
  rep h st ll → (∀ text, Q text h) → wpb b (print_sync_info_store lt (Some st)) Q h.
Proof.
  intros (hd & Hs & Hc & _) HQ. unfold print_sync_info_store.
  eapply wpb_bind, wp_lock; [done|]. eapply wpb_bind, wp_deref_store; [by auto with nfs|].
  apply wpb_bind, wpb_get, wpb_bind. simpl.
  eapply print_loop_total; [done|by eapply chain_size|]. intros text.
  eapply wpb_bind, wp_unlock; [by auto with nfs|]. simpl. rewrite unlock_locked by done. apply HQ.
Qed.

(** ** Calls on a store, and their abstract meaning *)

(** A pair as the manager passes it to [create_sync_info]. *)
Record pair_args := PairArgs {
  pa_shost : bytes; pa_sport : Z; pa_sdir : bytes;
  pa_thost : bytes; pa_tport : Z; pa_tdir : bytes
}.

Inductive call :=
| CAdd (p : pair_args)
| CFind (host : bytes) (port : Z) (dir : bytes)
| CRemove (host : bytes) (port : Z) (dir : bytes)
| CDeactivate (host : bytes) (port : Z) (dir : bytes)
| CCount.

Inductive answer := AInt (z : Z) | AEntry (e : option sync_info).

(** [CAdd] is the sequence of [handle_add_command]: create, add, and free
    the entry when it was not added. *)
Definition run_call (st : loc) (c : call) : M sheap answer :=
  match c with
  | CAdd p =>
      info <- create_sync_info (Some (pa_shost p)) (pa_sport p) (Some (pa_sdir p))
        (Some (pa_thost p)) (pa_tport p) (Some (pa_tdir p)) ;;
      match info with
      | NULL => ret (AInt (-1))
      | Some a =>
          r <- add_sync_info (Some st) (Some a) ;;
          if decide (r ≠ 0)%Z then free_sync_info (Some a) ;;; ret (AInt r) else ret (AInt r)
      end
  | CFind host port dir =>
      found <- find_sync_info (Some st) (Some host) port (Some dir) ;;
      match found with
      | NULL => ret (AEntry None)
      | Some a => i <- deref_info a ;; ret (AEntry (Some (with_info_next NULL i)))
      end
  | CRemove host port dir =>
      r <- remove_sync_info (Some st) (Some host) port (Some dir) ;; ret (AInt r)
  | CDeactivate host port dir =>
      r <- deactivate_sync_info (Some st) (Some host) port (Some dir) ;; ret (AInt r)
  | CCount => n <- get_sync_info_count (Some st) ;; ret (AInt n)
  end.

Fixpoint run_calls (st : loc) (cs : list call) : M sheap (list answer) :=
  match cs with
  | [] => ret []
  | c :: cs' => a <- run_call st c ;; l <- run_calls st cs' ;; ret (a :: l)
  end.

(** The entry [create_sync_info] makes at time [now]. *)
Definition new_entry (now : Z) (p : pair_args) : sync_info :=
  SyncInfo (strncpy_z MAX_HOST_SIZE (pa_shost p)) (pa_sport p) (strncpy_z MAX_PATH (pa_sdir p))
    (strncpy_z MAX_HOST_SIZE (pa_thost p)) (pa_tport p) (strncpy_z MAX_PATH (pa_tdir p)) 1 now 0 NULL.

Definition spec_call (now : Z) (c : call) (es : Spec.store) : answer * Spec.store :=
  match c with
  | CAdd p => let '(r, es') := Spec.add (new_entry now p) es in (AInt r, es')
  | CFind host port dir => (AEntry (Spec.find host port dir es), es)
  | CRemove host port dir =>
      match Spec.find host port dir es with
      | Some _ => (AInt 0, Spec.remove host port dir es)
      | None => (AInt 1, es)
      end
  | CDeactivate host port dir =>
      match Spec.find host port dir es with
      | Some _ => (AInt 0, Spec.deactivate host port dir es)
      | None => (AInt 1, es)
      end
  | CCount => (AInt (Z.of_nat (length es)), es)
  end.

Fixpoint spec_calls (now : Z) (cs : list call) (es : Spec.store) : list answer * Spec.store :=
  match cs with
  | [] => ([], es)
  | c :: cs' =>
      let '(a, es1) := spec_call now c es in
      let '(l, es2) := spec_calls now cs' es1 in (a :: l, es2)
  end.

(** The store at [st] holds [es], owns every entry block of the heap, the
    next address is unused and allocations succeed. *)
Definition owns (h : sheap) (st : loc) (es : Spec.store) : Prop :=
  ∃ ll, rep h st ll ∧ entries ll = es ∧ dom (infos h) = list_to_set ll.*1 ∧
    (∀ a, is_Some (infos h !! a) → (a < brk h)%positive) ∧ avail h = [].

Lemma length_entries ll : length (entries ll) = length ll.
Proof. induction ll as [|[a i] ll IH]; simpl; [done|]. by rewrite IH. Qed.

Lemma spec_find_None host port dir es :
  Spec.find host port dir es = None ↔ (host, port, dir) ∉ key_of <$> es.
Proof.
  unfold Spec.find. induction es as [|e es IH]; simpl.
  - split; [|done]. intros _. by apply not_elem_of_nil.
  - rewrite not_elem_of_cons. destruct (has_key host port dir e) eqn:E.
    + apply has_key_true in E. split; [done|]. by intros [[] _].
    + rewrite IH. split; [|by intros [_ ?]]. intros Hn. split; [|done].
      intros Hk. by rewrite (proj2 (has_key_true host port dir e)) in E.
Qed.

(** The abstract operations keep the sources distinct. *)
Lemma remove_sublist host port dir es : sublist (Spec.remove host port dir es) es.
Proof.
  induction es as [|e es IH]; simpl; [done|].
  destruct (has_key host port dir e); [by apply sublist_cons|by apply sublist_skip].
Qed.

Lemma spec_remove_None host port dir es :
  Spec.find host port dir es = None → Spec.remove host port dir es = es.
Proof.
  unfold Spec.find. induction es as [|e es IH]; simpl; [done|].
  destruct (has_key host port dir e); [done|]. intros Hn. by rewrite IH.
Qed.

Lemma deactivate_keys host port dir es :
  key_of <$> Spec.deactivate host port dir es = key_of <$> es.
Proof.
  induction es as [|e es IH]; simpl; [done|].
  destruct (has_key host port dir e); simpl; [done|]. by f_equal.
Qed.

Lemma wp_create_sync_info b p Q h :
  avail h = [] →
  Q (Some (brk h)) (bump (set_infos <[brk h := new_entry (clock h) p]> h)) →
  wpb b (create_sync_info (Some (pa_shost p)) (pa_sport p) (Some (pa_sdir p))
    (Some (pa_thost p)) (pa_tport p) (Some (pa_tdir p))) Q h.
Proof.
  intros Hav HQ. unfold create_sync_info. apply wpb_bind, wpb_get. unfold malloc_info.
  apply wpb_bind. unfold wpb at 1, lib_ok. rewrite Hav. apply wpb_bind, wpb_get.
  apply wpb_bind, wpb_modify. by apply wpb_ret.
Qed.

Lemma lookup_fresh h a : (∀ a, is_Some (infos h !! a) → (a < brk h)%positive) → (brk h ≤ a)%positive →
  infos h !! a = None.
Proof. intros Hf Ha. apply eq_None_not_Some. intros ?%Hf. lia. Qed.

(** Creating an entry and adding it. *)
Lemma owns_create_add b st p es (Q : loc → Z → sheap → Prop) h :
  owns h st es → (Z.of_nat (S (length es)) ≤ int_max)%Z →
  let e := new_entry (clock h) p in
  (∀ a h', Spec.find (source_host e) (source_port e) (source_dir e) es ≠ None →
     infos h' !! a = Some e → owns (set_infos (delete a) h') st es → clock h' = clock h → Q a 1%Z h') →
  (∀ a h' q, Spec.find (source_host e) (source_port e) (source_dir e) es = None →
     infos h' !! a = Some (with_info_next q e) → owns h' st (e :: es) → clock h' = clock h → Q a 0%Z h') →
  wpb b (create_sync_info (Some (pa_shost p)) (pa_sport p) (Some (pa_sdir p))
      (Some (pa_thost p)) (pa_tport p) (Some (pa_tdir p)))
    (λ r h1, ∃ a, r = Some a ∧ wpb b (add_sync_info (Some st) (Some a)) (Q a) h1) h.
Proof.
  intros (ll & Hrep & <- & Hdom & Hfresh & Hav) Hmax e Hdup Hadd. rewrite length_entries in Hmax.
  apply wp_create_sync_info; [done|]. fold e. eexists. split; [done|]. assert (brk h ∉ ll.*1) as Hnew.
  { intros Hin. assert (brk h ∈ dom (infos h)) as Hd by (rewrite Hdom; by apply elem_of_list_to_set).
    apply elem_of_dom in Hd. specialize (Hfresh _ Hd). lia. }
  assert (infos h !! brk h = None) as Hnone by (apply lookup_fresh; [done|lia]).
  assert (rep (bump (set_infos <[brk h := e]> h)) st ll) as Hrep'.
  { destruct Hrep as (hd & Hs & Hc & Hk & Hm). exists hd. split_and!; try done.
    by apply seg_insert. }
  rewrite find_key_entries in Hdup, Hadd.
  eapply (wp_add_sync_info b st ll (brk h) e); [done|apply lookup_insert_eq|done|done|..].
  - intros Hf. apply Hdup; [|apply lookup_insert_eq| |done].
    { by destruct (find_key _ _ _ ll). }
    exists ll. simpl. rewrite delete_insert_id by done. split_and!; try done.
    + destruct Hrep as (hd & Hs & Hc & Hk & Hm). exists hd. simpl.
      by rewrite delete_insert_id by done.
    + intros a Ha%Hfresh. lia.
  - intros Hf h' q Hr' (Hst & Hinf & Hb & Ha & Hck).
    assert (infos h' !! brk h = Some (with_info_next q e)) as Hbrk.
    { destruct Hr' as (hd & _ & Hc & _). eapply seg_lookup; [exact Hc|by left]. }
    apply (Hadd _ _ q); [by rewrite Hf|done| |done].
    assert (∀ a, a ≠ brk h → infos h' !! a = infos h !! a) as Hother.
    { intros a Hne. rewrite Hinf; [simpl; by rewrite lookup_insert_ne|].
      intros ?%list_elem_of_singleton. done. }
    exists ((brk h, with_info_next q e) :: ll). split_and!; try done.
    + apply set_eq. intros a. simpl. rewrite elem_of_dom, elem_of_union, elem_of_singleton.
      destruct (decide (a = brk h)) as [->|Hne].
      * rewrite Hbrk. split; [by left|by eauto].
      * rewrite Hother by done. rewrite <-elem_of_dom, Hdom. naive_solver.
    + intros a Has. rewrite Hb. simpl. destruct (decide (a = brk h)) as [->|Hne]; [lia|].
      rewrite Hother in Has by done. apply Hfresh in Has. lia.
    + by rewrite Ha.
Qed.

Lemma owns_add b st p es Q h :
  owns h st es → (Z.of_nat (S (length es)) ≤ int_max)%Z →
  (∀ h', owns h' st (Spec.add (new_entry (clock h) p) es).2 → clock h' = clock h →
     Q (AInt (Spec.add (new_entry (clock h) p) es).1) h') →
  wpb b (run_call st (CAdd p)) Q h.
Proof.
  intros Ho Hmax HQ. unfold Spec.add in HQ. simpl. apply wpb_bind.
  eapply wpb_mono; [eapply (owns_create_add b st p es (λ a r h', wpb b
    (if decide (r ≠ 0)%Z then free_sync_info (Some a) ;;; ret (AInt r) else ret (AInt r)) Q h')); [done|done|..]|].
  - intros a h' Hf Ha Ho' Hck. rewrite decide_True by done. apply wpb_bind.
    eapply wp_free_info; [done|]. apply wpb_ret.
    destruct (Spec.find _ _ _ es); [by apply HQ|done].
  - intros a h' q Hf Ha Ho' Hck. rewrite Hf in HQ. by apply wpb_ret, HQ.
  - intros r h1 (a & -> & Hadd). by apply wpb_bind.
Qed.

Lemma owns_find b st host port dir es Q h :
  owns h st es → Q (AEntry (Spec.find host port dir es)) h →
  wpb b (run_call st (CFind host port dir)) Q h.
Proof.
  intros (ll & Hrep & <- & _) HQ. simpl. apply wpb_bind.
  eapply wp_find_sync_info; [done|]. rewrite find_key_entries in HQ.
  destruct (find_key host port dir ll) as [[a i]|] eqn:Hf; simpl in *; [|by apply wpb_ret].
  apply find_key_Some in Hf as [Hin _]. destruct Hrep as (hd & _ & Hc & _).
  eapply wpb_bind, wp_deref_info; [by eapply seg_lookup|]. by apply wpb_ret.
Qed.

Lemma owns_count b st es Q h :
  owns h st es → Q (AInt (Z.of_nat (length es))) h → wpb b (run_call st CCount) Q h.
Proof.
  intros (ll & Hrep & <- & _) HQ. rewrite length_entries in HQ.
  simpl. apply wpb_bind. eapply wp_get_sync_info_count; [done|]. by apply wpb_ret.
Qed.

Lemma owns_deactivate b st host port dir es Q h :
  owns h st es →
  (∀ h', owns h' st (spec_call (clock h) (CDeactivate host port dir) es).2 → clock h' = clock h →
     Q (spec_call (clock h) (CDeactivate host port dir) es).1 h') →
  wpb b (run_call st (CDeactivate host port dir)) Q h.
Proof.
  intros (ll & Hrep & <- & Hdom & Hfresh & Hav) HQ. simpl in *. apply wpb_bind.
  rewrite find_key_entries in HQ. eapply wp_deactivate_sync_info; [done|..].
  - intros Hf. rewrite Hf in HQ. apply wpb_ret, HQ; [|done]. by exists ll.
  - intros a i ll' Hf Hfst Hent Hrep'. rewrite Hf in HQ. apply wpb_ret, HQ; [|done].
    apply find_key_Some in Hf as [Hin _].
    assert (infos h !! a = Some i) as Ha.
    { destruct Hrep as (hd & _ & Hc & _). by eapply seg_lookup. }
    exists ll'. split_and!; try done.
    + simpl. rewrite dom_insert_L, Hdom, Hfst.
      assert (a ∈ dom (infos h)) as Had by (by apply elem_of_dom). rewrite Hdom in Had. set_solver.
    + intros x Hx. simpl in Hx. destruct (decide (x = a)) as [->|Hne]; [by apply Hfresh; eauto|].
      rewrite lookup_insert_ne in Hx by done. by apply Hfresh.
Qed.

Lemma owns_remove b st host port dir es Q h :
  owns h st es →
  (∀ h', owns h' st (spec_call (clock h) (CRemove host port dir) es).2 → clock h' = clock h →
     Q (spec_call (clock h) (CRemove host port dir) es).1 h') →
  wpb b (run_call st (CRemove host port dir)) Q h.
Proof.
  intros (ll & Hrep & <- & Hdom & Hfresh & Hav) HQ. simpl in *. apply wpb_bind.
  rewrite find_key_entries in HQ. eapply wp_remove_sync_info; [done|..].
  - intros Hf. rewrite Hf in HQ. apply wpb_ret, HQ; [|done]. by exists ll.
  - intros h' (hd' & ll' & a & Hs' & Hc' & Hent & (l1 & l2 & E & E') & Hdom' & Hlen & (_ & Hinf & Hbrk & Hav' & Hck)).
    assert (length ll ≠ 0) as Hne.
    { intros H0. apply (f_equal length) in E. rewrite length_fmap, length_app in E. simpl in E. lia. }
    destruct (find_key host port dir ll) as [q|] eqn:Hf; simpl in HQ; apply wpb_ret; last first.
    { exfalso. rewrite spec_remove_None in Hent by (by rewrite find_key_entries, Hf).
      apply (f_equal length) in Hent. rewrite !length_entries in Hent. lia. }
    apply HQ; [|done]. destruct Hrep as (hd & Hs & Hc & Hk & Hm).
    pose proof (chain_NoDup _ _ _ Hc) as Hnd. rewrite E in Hnd, Hdom.
    exists ll'. split_and!; [|done| | |by rewrite Hav'].
    + exists hd'. rewrite Hlen. split_and!; [done|done| |lia].
      rewrite keys_entries, Hent. eapply sublist_NoDup; [by rewrite keys_entries in Hk|].
      apply fmap_sublist, remove_sublist.
    + rewrite Hdom', Hdom, E'. apply NoDup_app in Hnd as (_ & Hl1 & [Ha _]%NoDup_cons).
      assert (a ∉ l1) by (intros Hin; apply (Hl1 _ Hin); by left). set_solver.
    + intros x Hx. rewrite Hbrk. apply Hfresh. apply elem_of_dom. apply elem_of_dom in Hx.
      rewrite Hdom' in Hx. set_solver.
Qed.

(** Every call computes its abstract meaning. *)
Lemma run_call_refines b st c es Q h :
  owns h st es → (Z.of_nat (S (length es)) ≤ int_max)%Z →
  (∀ h', owns h' st (spec_call (clock h) c es).2 → clock h' = clock h →
     Q (spec_call (clock h) c es).1 h') →
  wpb b (run_call st c) Q h.
Proof.
  intros Ho Hm HQ. destruct c as [p|host port dir|host port dir|host port dir|].
  - apply (owns_add _ _ _ _ _ _ Ho Hm). intros h' H1 H2. specialize (HQ h').
    simpl in HQ. destruct (Spec.add _ es); by apply HQ.
  - eapply owns_find; [done|]. by apply HQ.
  - by eapply owns_remove.
  - by eapply owns_deactivate.
  - eapply owns_count; [done|]. by apply HQ.
Qed.

Lemma spec_call_length now c es : length (spec_call now c es).2 ≤ S (length es).
Proof.
  destruct c as [p|host port dir|host port dir|host port dir|]; simpl; try lia.
  - unfold Spec.add. destruct (Spec.find _ _ _ es); simpl; lia.
  - destruct (Spec.find _ _ _ es); simpl; [|lia].
    pose proof (sublist_length _ _ (remove_sublist host port dir es)). lia.
  - destruct (Spec.find _ _ _ es); simpl; [|lia].
    pose proof (f_equal length (deactivate_keys host port dir es)) as E.
    rewrite !length_fmap in E. lia.
Qed.

Lemma run_calls_refine b st cs es Q h :
  owns h st es → (Z.of_nat (length es + length cs) ≤ int_max)%Z →
  (∀ h', owns h' st (spec_calls (clock h) cs es).2 → Q (spec_calls (clock h) cs es).1 h') →
  wpb b (run_calls st cs) Q h.
Proof.
  revert es Q h. induction cs as [|c cs IH]; intros es Q h Ho Hm HQ; simpl in *.
  - by apply wpb_ret, HQ.
  - apply wpb_bind. eapply run_call_refines; [done|lia|]. intros h1 H1 Hck.
    pose proof (spec_call_length (clock h) c es).
    destruct (spec_call (clock h) c es) as [a es1]. simpl in *.
    apply wpb_bind. eapply IH; [done|lia|]. intros h2 H2. apply wpb_ret. rewrite Hck in *.
    destruct (spec_calls (clock h) cs es1) as [l es2]. by apply HQ.
Qed.

(** ** Properties *)

Definition empty_heap (now : Z) : sheap := SHeap ∅ ∅ 1 [] now.

Lemma create_store_empty now :
  ∃ h, create_sync_info_store (empty_heap now) = Ret (Some 1%positive) h ∧
    owns h 1 [] ∧ clock h = now ∧ stores h = {[1%positive := Store NULL false 0]}.
Proof.
  exists (SHeap ∅ {[1%positive := Store NULL false 0]} 2 [] now).
  split; [by cbv -[insert singletonM map_singleton empty]|]. split; [|done].
  exists []. split_and!; try done.
  - exists NULL. split_and!; try done. constructor.
  - intros a [i Hi]. simpl in Hi. by rewrite lookup_empty in Hi.
Qed.

(** C17: from a newly created store, every sequence of add, find, remove,
    deactivate and count calls on the linked list returns exactly what the
    abstract list of entries returns, and leaves the heap holding the
    abstract result, with the mutex unlocked and no entry block outside the
    list. *)
Theorem store_refines_spec (now : Z) (cs : list call)
  (Hlen : (Z.of_nat (length cs) ≤ int_max)%Z) :
  ∃ st h h', create_sync_info_store (empty_heap now) = Ret (Some st) h ∧
    run_calls st cs h = Ret (spec_calls now cs []).1 h' ∧ owns h' st (spec_calls now cs []).2.
Proof.
  destruct (create_store_empty now) as (h & Hcr & Ho & Hck & _).
  assert (wp (run_calls 1 cs) (λ r h', r = (spec_calls now cs []).1 ∧
    owns h' 1 (spec_calls now cs []).2) h) as Hwp.
  { eapply run_calls_refine; [done|simpl; lia|]. rewrite Hck. by auto. }
  apply wp_returns in Hwp as (r & h' & Hrun & -> & Ho'). by exists 1%positive, h, h'.
Qed.

Definition pair_a : pair_args :=
  PairArgs (lit "10.0.0.1") 8001 (lit "/src") (lit "10.0.0.2") 8002 (lit "/dst").
Definition pair_b : pair_args :=
  PairArgs (lit "10.0.0.1") 8001 (lit "/other") (lit "10.0.0.3") 8003 (lit "/dst").

Definition demo_calls : list call :=
  [CAdd pair_a; CAdd pair_b; CAdd pair_a; CDeactivate (lit "10.0.0.1") 8001 (lit "/src");
   CFind (lit "10.0.0.1") 8001 (lit "/src"); CRemove (lit "10.0.0.1") 8001 (lit "/src");
   CRemove (lit "10.0.0.1") 8001 (lit "/src"); CCount].

Lemma store_refines_spec_witness :
  (Z.of_nat (length demo_calls) ≤ int_max)%Z ∧
  (spec_calls 7 demo_calls []).1 =
    [AInt 0; AInt 0; AInt 1; AInt 0; AEntry (Some (with_active 0 (new_entry 7 pair_a)));
     AInt 0; AInt 1; AInt 1] ∧
  ∃ st h h', create_sync_info_store (empty_heap 7) = Ret (Some st) h ∧
    run_calls st demo_calls h = Ret (spec_calls 7 demo_calls []).1 h' ∧
    owns h' st (spec_calls 7 demo_calls []).2.
Proof.
  split; [by vm_compute|]. split; [by vm_compute|].
  apply (store_refines_spec 7 demo_calls). by vm_compute.
Defined.

(** Whatever sequence of calls was made on a store, destroying it
    returns, frees the store and every entry exactly once, and leaves no
    block of either kind on the heap. *)
Theorem destroy_frees_everything (now : Z) (cs : list call)
  (Hlen : (Z.of_nat (length cs) ≤ int_max)%Z) :
  ∃ st h r h1 h2, create_sync_info_store (empty_heap now) = Ret (Some st) h ∧
    run_calls st cs h = Ret r h1 ∧
    destroy_sync_info_store (Some st) h1 = Ret tt h2 ∧
    dom (infos h2) = ∅ ∧ st ∉ dom (stores h2).
Proof.
  destruct (create_store_empty now) as (h & Hcr & Ho & Hck & _).
  assert (wp (run_calls 1 cs) (λ r h', owns h' 1 (spec_calls now cs []).2) h) as Hwp.
  { eapply run_calls_refine; [done|simpl; lia|]. rewrite Hck. by auto. }
  apply wp_returns in Hwp as (r & h1 & Hrun & ll & Hrep & _ & Hdom & _).
  assert (wp (destroy_sync_info_store (Some 1%positive)) (λ _ h2, dom (infos h2) = ∅ ∧
    1%positive ∉ dom (stores h2)) h1) as Hwp.
  { eapply wp_destroy_sync_info_store; [done|]. intros h' Hst _ _ _ Hinf.
    rewrite Hinf, Hst, Hdom, dom_delete_L. split; set_solver. }
  apply wp_returns in Hwp as ([] & h2 & Hd & Hinf & Hst).
  by exists 1%positive, h, r, h1, h2.
Qed.

Lemma destroy_frees_everything_witness :
  (Z.of_nat (length demo_calls) ≤ int_max)%Z ∧
  ∃ st h r h1 h2, create_sync_info_store (empty_heap 7) = Ret (Some st) h ∧
    run_calls st demo_calls h = Ret r h1 ∧
    destroy_sync_info_store (Some st) h1 = Ret tt h2 ∧
    dom (infos h2) = ∅ ∧ st ∉ dom (stores h2).
Proof. split; [by vm_compute|]. apply (destroy_frees_everything 7 demo_calls). by vm_compute. Defined.

(** An entry that [create_sync_info] allocates holds terminated strings
    within its arrays whatever the arguments, and the arguments themselves,
    unabridged, whenever they fit; it is active, without errors and unlinked. *)
Theorem create_sync_info_entry (h : sheap) (p : pair_args) (Hav : avail h = []) :
  ∃ h', create_sync_info (Some (pa_shost p)) (pa_sport p) (Some (pa_sdir p))
      (Some (pa_thost p)) (pa_tport p) (Some (pa_tdir p)) h = Ret (Some (brk h)) h' ∧
    ∃ e, infos h' !! brk h = Some e ∧ info_fits e ∧ active e = 1%Z ∧ error_count e = 0%Z ∧
      info_next e = NULL ∧
      (length (pa_shost p) < MAX_HOST_SIZE → length (pa_sdir p) < MAX_PATH →
       key_of e = (pa_shost p, pa_sport p, pa_sdir p)).
Proof.
  assert (wp (create_sync_info (Some (pa_shost p)) (pa_sport p) (Some (pa_sdir p))
      (Some (pa_thost p)) (pa_tport p) (Some (pa_tdir p)))
    (λ r h', r = Some (brk h) ∧ infos h' !! brk h = Some (new_entry (clock h) p)) h) as Hwp.
  { apply wp_create_sync_info; [done|]. split; [done|]. apply lookup_insert_eq. }
  apply wp_returns in Hwp as (r & h' & Hc & -> & Hl). exists h'. split; [done|].
  eexists. split; [done|]. split_and!; try done.
  - unfold info_fits, new_entry; simpl.
    split_and!; apply length_strncpy_z; unfold MAX_HOST_SIZE, MAX_PATH; lia.
  - intros H1 H2. unfold key_of, new_entry. simpl. by rewrite !strncpy_z_id by done.
Qed.

Lemma create_sync_info_entry_witness :
  avail (empty_heap 7) = [] ∧
  ∃ h', create_sync_info (Some (pa_shost pair_a)) (pa_sport pair_a) (Some (pa_sdir pair_a))
      (Some (pa_thost pair_a)) (pa_tport pair_a) (Some (pa_tdir pair_a)) (empty_heap 7) =
        Ret (Some (brk (empty_heap 7))) h' ∧
    ∃ e, infos h' !! brk (empty_heap 7) = Some e ∧ info_fits e ∧ active e = 1%Z ∧
      error_count e = 0%Z ∧ info_next e = NULL ∧
      (length (pa_shost pair_a) < MAX_HOST_SIZE → length (pa_sdir pair_a) < MAX_PATH →
       key_of e = (pa_shost pair_a, pa_sport pair_a, pa_sdir pair_a)).
Proof. split; [done|]. by apply (create_sync_info_entry (empty_heap 7) pair_a). Defined.
