(* ===== verification/Client.v ===== *)
(** * The client: [src/nfs_client_logic.c] and [src/nfs_client.c]

    A client serves one connection at a time.  [handle_client_connection]
    takes every portion that [recv] delivers as one command line and hands it
    to [handle_list_command], [handle_pull_command] or [handle_push_command];
    the last keeps the descriptor of the file being received in a static
    variable, [current_fd] here, which survives from one command, and from
    one connection, to the next.

    The state is the operating system of [OS.v] with that variable.  The
    loops take fuel; the amounts chosen below are the bytes still to be read
    or received, or the scripted answers of [send], and one more. *)
From S2P Require Import Prelude.
From S2P Require Import CString.
From S2P Require Import Common.
From S2P Require Import OS.
From S2P Require Import Utils.
From stdpp Require Import gmap strings list.
From Stdlib Require Import Ascii ZArith Lia.

Record cst := Cst { cos : os; current_fd : Z }.

Definition in_os {A} (c : M os A) : M cst A := zoom cos (λ o s, Cst o (current_fd s)) c.

Definition set_current (fd : Z) : M cst unit := modify (λ s, Cst (cos s) fd).

(** Paths lose one leading slash. *)
Definition relative_path (path : bytes) : bytes :=
  match path with
  | "/"%char :: p => p
  | _ => path
  end.

(** ** LIST *)

Fixpoint list_entries (client_fd : Z) (relative : bytes) (entries : list bytes) : M os unit :=
  match entries with
  | [] => ret tt
  | d_name :: rest =>
      (if starts_with (lit ".") d_name then ret tt else
       let full_path := snprintf MAX_PATH (relative ++ lit "/" ++ d_name) in
       regular <- stat_regular full_path ;;
       if regular : bool then
         sys_send client_fd (snprintf (MAX_FILENAME + 2) (d_name ++ [NL])) ;;; ret tt
       else ret tt) ;;;
      list_entries client_fd relative rest
  end.

Definition handle_list_command (client_fd : Z) (dir_path : bytes) : M os unit :=
  let relative := relative_path dir_path in
  dir <- sys_opendir relative ;;
  match dir with
  | None => ret tt
  | Some entries =>
      list_entries client_fd relative entries ;;;
      sys_send client_fd (lit "." ++ [NL]) ;;;
      ret tt
  end.

(** ** PULL *)

Definition error_response (o : os) : bytes := snprintf 64 (lit "-1 " ++ errtext o).

(** The answers [send] still has scripted on a descriptor. *)
Definition send_fuel (fd : Z) (o : os) : nat :=
  match fds o !! fd with Some (FSock s) => S (length (tx_script s)) | _ => 1 end.

(** The bytes of a file still to be read. *)
Definition file_left (fd : Z) (o : os) : nat :=
  match fds o !! fd with Some (FFile p off) => length (content o p) - off | _ => 0 end.

(** [while (bytes_sent < bytes_read)]: false when [send] failed. *)
Fixpoint send_rest (fuel : nat) (client_fd : Z) (data : bytes) : M os bool :=
  match data, fuel with
  | [], _ => ret true
  | _, 0 => no_fuel
  | _, S f =>
      sent <- sys_send client_fd data ;;
      if decide (sent < 0)%Z then ret false
      else send_rest f client_fd (drop (Z.to_nat sent) data)
  end.

(** [while ((bytes_read = read (...)) > 0)] *)
Fixpoint send_file (fuel : nat) (client_fd fd : Z) : M os unit :=
  match fuel with
  | 0 => no_fuel
  | S f =>
      r <- sys_read fd MAX_BUFFER_SIZE ;;
      let '(bytes_read, buffer) := r in
      if decide (bytes_read <= 0)%Z then sys_close fd else
      n <- gets (send_fuel client_fd) ;;
      ok <- send_rest n client_fd buffer ;;
      if ok : bool then send_file f client_fd fd else sys_close fd
  end.

Definition handle_pull_command (client_fd : Z) (file_path : bytes) : M os unit :=
  fd <- open_read (relative_path file_path) ;;
  if decide (fd < 0)%Z then
    e <- gets error_response ;;
    sys_send client_fd e ;;;
    ret tt
  else
  size <- sys_fstat fd ;;
  match size with
  | None =>
      e <- gets error_response ;;
      sys_send client_fd e ;;;
      sys_close fd
  | Some size =>
      sys_send client_fd (snprintf 32 (dec size ++ [SP])) ;;;
      n <- gets (file_left fd) ;;
      send_file (S n) client_fd fd
  end.

(** ** PUSH *)

(** The bytes that have not arrived yet. *)
Definition rx_left (fd : Z) (o : os) : nat :=
  match fds o !! fd with Some (FSock s) => length (concat (rx s)) | _ => 0 end.

(** [while (total_received < chunk_size)] *)
Fixpoint receive_chunk (fuel : nat) (client_fd total_received chunk_size : Z) : M cst unit :=
  if decide (chunk_size <= total_received)%Z then ret tt else
  match fuel with
  | 0 => no_fuel
  | S f =>
      let rest := (chunk_size - total_received)%Z in
      let to_receive :=
        if decide (rest < Z.of_nat MAX_BUFFER_SIZE)%Z then rest else Z.of_nat MAX_BUFFER_SIZE in
      r <- in_os (sys_recv client_fd (Z.to_nat to_receive)) ;;
      let '(received, buffer) := r in
      if decide (received <= 0)%Z then ret tt else
      fd <- gets current_fd ;;
      written <- in_os (sys_write fd buffer) ;;
      if decide (written ≠ received) then ret tt else
      total <- int_result (total_received + received) ;;
      receive_chunk f client_fd total chunk_size
  end.

Definition close_current : M cst unit :=
  fd <- gets current_fd ;;
  if decide (0 <= fd)%Z then in_os (sys_close fd) else ret tt.

Definition handle_push_command (client_fd : Z) (file_path : bytes) (chunk_size : Z) : M cst unit :=
  let relative := relative_path file_path in
  if decide (chunk_size = -1)%Z then
    close_current ;;;
    fd <- in_os (open_trunc relative) ;;
    set_current fd
  else if decide (chunk_size = 0)%Z then
    fd <- gets current_fd ;;
    if decide (0 <= fd)%Z then in_os (sys_close fd) ;;; set_current (-1) else ret tt
  else
  fd <- gets current_fd ;;
  if decide (fd < 0)%Z then ret tt else
  s <- get ;;
  receive_chunk (S (rx_left client_fd (cos s))) client_fd 0 chunk_size.

(** ** Connections *)

(** The string in the buffer, up to the first newline. *)
Definition command_line (received : bytes) : bytes :=
  let buffer := cstr received in
  match strchr buffer NL with Some n => take n buffer | None => buffer end.

Definition run_command (client_fd : Z) (buffer : bytes) : M cst unit :=
  if starts_with CMD_LIST buffer then
    in_os (handle_list_command client_fd (skip_spaces (drop (length CMD_LIST) buffer)))
  else if starts_with CMD_PULL buffer then
    in_os (handle_pull_command client_fd (skip_spaces (drop (length CMD_PULL) buffer)))
  else if starts_with CMD_PUSH buffer then
    r <- sscanf buffer "PUSH %s %d" [MAX_PATH; 0] ;;
    match r with
    | (2%Z, [VStr file_path; VInt chunk_size]) => handle_push_command client_fd file_path chunk_size
    | _ => ret tt
    end
  else ret tt.

Fixpoint connection_loop (fuel : nat) (client_fd : Z) : M cst unit :=
  match fuel with
  | 0 => no_fuel
  | S f =>
      r <- in_os (sys_recv client_fd (MAX_COMMAND_SIZE - 1)) ;;
      let '(received, buffer) := r in
      if decide (received <= 0)%Z then ret tt else
      run_command client_fd (command_line buffer) ;;;
      connection_loop f client_fd
  end.

Definition handle_client_connection (client_fd : Z) : M cst unit :=
  s <- get ;;
  connection_loop (S (rx_left client_fd (cos s))) client_fd ;;;
  in_os (sys_close client_fd).

(** [main]: the arguments, and the listening socket the accept loop would
    serve; [None] is an exit with an error. *)
Definition client_port (argv : list bytes) : option Z :=
  match argv with
  | [_; p; port] =>
      if bool_decide (p = lit "-p") then
        let port := atoi port in if decide (port <= 0)%Z then None else Some port
      else None
  | _ => None
  end.

(** The accept loop over the connections that arrive; [None] is an error of
    [accept], after which the loop goes on. *)
Fixpoint serve (connections : list (option sock)) : M cst unit :=
  match connections with
  | [] => blocked
  | None :: l => serve l
  | Some c :: l =>
      client_fd <- in_os (open_fd (FSock c)) ;;
      handle_client_connection client_fd ;;;
      serve l
  end.

Definition client_main (argv : list bytes) (connections : list (option sock)) : M cst Z :=
  match client_port argv with
  | None => ret 1%Z
  | Some port =>
      server_fd <- in_os (create_server_socket port) ;;
      if decide (server_fd < 0)%Z then ret 1%Z else
      serve connections ;;;
      in_os (sys_close server_fd) ;;;
      ret 0%Z
  end.

(** ** Every command returns *)

(** [o'] is [o] after sends on [fd]: what arrives there and everything else
    is as before. *)
Record sent_on (fd : Z) (o o' : os) : Prop := {
  so_files : files o' = files o;
  so_dirs : dirs o' = dirs o;
  so_io : io o' = io o;
  so_fds : fds o' = fds o ∨
    ∃ s s', fds o !! fd = Some (FSock s) ∧ fds o' = <[fd := FSock s']> (fds o) ∧
      rx s' = rx s ∧ rx_reset s' = rx_reset s
}.

#[global] Instance sent_on_refl fd : Reflexive (sent_on fd).
Proof. intros o. split; auto. Qed.

#[global] Instance sent_on_trans fd : Transitive (sent_on fd).
Proof.
  intros o1 o2 o3 [A1 A2 A3 A4] [B1 B2 B3 B4]. split; try congruence.
  destruct A4 as [E|(s & s' & E1 & E2 & E3 & E4)]; [rewrite E in B4; done|].
  destruct B4 as [E|(t & t' & F1 & F2 & F3 & F4)].
  - right. exists s, s'. rewrite E. done.
  - right. exists s, t'. rewrite E2, lookup_insert_eq in F1. injection F1 as <-.
    rewrite F2, E2, insert_insert_eq. split_and!; congruence.
Qed.

Lemma sent_on_file fd o o' k x :
  sent_on fd o o' → fds o !! k = Some x → (∀ s, x ≠ FSock s) → fds o' !! k = Some x.
Proof.
  intros [_ _ _ [->|(s & s' & E1 & -> & _)]] Hk Hx; [done|].
  rewrite lookup_insert_ne; [done|]. intros <-. apply (Hx s). congruence.
Qed.

Lemma sent_on_rx fd o o' k : sent_on fd o o' → rx_left k o' = rx_left k o.
Proof.
  unfold rx_left. intros [_ _ _ [->|(s & s' & E1 & -> & E & _)]]; [done|].
  destruct (decide (fd = k)) as [->|Hne].
  - by rewrite lookup_insert_eq, E1, E.
  - by rewrite lookup_insert_ne.
Qed.

Lemma wp_send_any fd data o Q :
  (∀ r o', sent_on fd o o' → (r < 0)%Z ∨ send_fuel fd o' < send_fuel fd o ∨ r = Z.of_nat (length data) →
     send_fuel fd o' ≤ send_fuel fd o → Q r o') →
  wp (sys_send fd data) Q o.
Proof.
  intros HQ. unfold sys_send. apply wpb_bind, wpb_gets.
  destruct (fds o !! fd) as [[| |s| |]|] eqn:E; try (apply wpb_ret, HQ; [done|lia|done]).
  assert (∀ d, sent_on fd o (set_fds <[fd := FSock (sent s d)]> o)) as Hs.
  { intros d. split; simpl; auto. right. by exists s, (sent s d). }
  assert (∀ d, send_fuel fd (set_fds <[fd := FSock (sent s d)]> o) = S (length (tail (tx_script s)))) as Hf.
  { intros d. unfold send_fuel. simpl. by rewrite lookup_insert_eq. }
  assert (send_fuel fd o = S (length (tx_script s))) as Hf0 by (unfold send_fuel; by rewrite E).
  destruct (served _ _) as [d|] eqn:Hd; apply wpb_bind, wpb_modify, wpb_ret, HQ; try done.
  - rewrite Hf, Hf0. unfold send_ans in Hd. destruct (tx_script s) as [|a l]; simpl in *; [|lia].
    injection Hd as <-. lia.
  - rewrite Hf, Hf0. destruct (tx_script s); simpl; lia.
  - lia.
  - rewrite Hf, Hf0. destruct (tx_script s); simpl; lia.
Qed.

Lemma wp_send_rest fuel fd data o Q :
  send_fuel fd o ≤ fuel → (∀ ok o', sent_on fd o o' → Q ok o') → wp (send_rest fuel fd data) Q o.
Proof.
  revert data o. induction fuel as [|f IH]; intros data o Hf HQ.
  { exfalso. unfold send_fuel in Hf. repeat case_match; lia. }
  destruct data as [|c data]; [by apply wpb_ret, HQ|]. simpl. apply wpb_bind, wp_send_any.
  intros r o1 H1 Hr Hle. case_decide as Hneg; [by apply wpb_ret, HQ|].
  destruct (decide (r = Z.of_nat (length (c :: data)))) as [->|Hr'].
  - rewrite Nat2Z.id, drop_ge by done. destruct f; by apply wpb_ret, HQ.
  - apply IH; [simpl in *; lia|]. intros ok o2 H2. apply HQ. by etrans.
Qed.

(** A file open for reading stays where it is while data is sent. *)
Lemma wp_send_file fuel client_fd fd o p off Q :
  fds o !! fd = Some (FFile p off) → file_left fd o < fuel →
  (∀ o', rx_left client_fd o' ≤ rx_left client_fd o → Q tt o') →
  wp (send_file fuel client_fd fd) Q o.
Proof.
  revert o off. induction fuel as [|f IH]; intros o off Hfd Hf HQ; [lia|]. simpl.
  assert (∀ o1, rx_left client_fd o1 ≤ rx_left client_fd o → wp (sys_close fd) Q o1) as Hclose.
  { intros o1 H1. apply wpb_modify, HQ. etrans; [|exact H1]. unfold rx_left. simpl.
    destruct (decide (fd = client_fd)) as [->|].
    - rewrite lookup_delete_eq. lia.
    - by rewrite lookup_delete_ne. }
  apply wpb_bind. unfold sys_read. apply wpb_bind, wpb_get. rewrite Hfd. apply wpb_bind.
  unfold wpb at 1. assert (∃ a o1, next_io o = Ret a o1 ∧ fds o1 = fds o ∧ files o1 = files o)
    as (a & o1 & -> & Efd & Efi) by (unfold next_io; destruct (io o); eauto).
  assert (rx_left client_fd o1 = rx_left client_fd o) as Erx by (unfold rx_left; by rewrite Efd).
  destruct (served a _) as [d|] eqn:Hd; [|by apply wpb_ret, Hclose; rewrite Erx].
  apply wpb_bind, wpb_modify, wpb_ret.
  assert (length d ≤ length (content o p) - off) as Hlen.
  { apply served_prefix, prefix_length in Hd. rewrite length_take, length_drop in Hd. lia. }
  set (o2 := set_fds _ o1). assert (rx_left client_fd o2 = rx_left client_fd o) as Erx2.
  { unfold rx_left. simpl. destruct (decide (fd = client_fd)) as [->|].
    - by rewrite lookup_insert_eq, Hfd.
    - by rewrite lookup_insert_ne, Efd. }
  case_decide; [by apply Hclose; rewrite Erx2|].
  apply wpb_bind, wpb_gets, wpb_bind, wp_send_rest; [done|]. intros ok o3 H3.
  pose proof (sent_on_rx _ _ _ client_fd H3). destruct ok; [|apply Hclose; lia].
  eapply (IH o3 (off + length d)).
  - eapply sent_on_file; [done| |done]. simpl. by rewrite lookup_insert_eq.
  - unfold file_left in *. rewrite Hfd in Hf. erewrite sent_on_file; [|done|simpl; by rewrite lookup_insert_eq|done].
    destruct H3 as [Ef _ _ _]. unfold content in *. rewrite Ef. simpl. rewrite Efi. lia.
  - intros o' Ho'. apply HQ. lia.
Qed.

(** What a call may do to a connection: nothing new arrives on it. *)
Definition no_more (fd : Z) (o o' : os) : Prop := rx_left fd o' ≤ rx_left fd o.

Lemma no_more_fds fd o o' : fds o' = fds o → no_more fd o o'.
Proof. unfold no_more, rx_left. by intros ->. Qed.

Lemma no_more_insert fd k x o o' :
  fds o' = <[k := x]> (fds o) → (∀ s, x ≠ FSock s) → no_more fd o o'.
Proof.
  unfold no_more, rx_left. intros -> Hx. destruct (decide (k = fd)) as [->|Hne].
  - rewrite lookup_insert_eq. destruct x; try lia. by destruct (Hx s).
  - by rewrite lookup_insert_ne.
Qed.

Lemma no_more_delete fd k o : no_more fd o (close_fd k o).
Proof.
  unfold no_more, rx_left. simpl. destruct (decide (k = fd)) as [->|Hne].
  - rewrite lookup_delete_eq. lia.
  - by rewrite lookup_delete_ne.
Qed.

(** [open] for reading: a new descriptor, or nothing changed. *)
Lemma wp_open_read b path o Q :
  (∀ o', only_scripts o o' → Q (-1)%Z o') →
  (∀ o1 x, only_scripts o o1 →
     (x = FFile path 0 ∧ is_Some (files o !! path) ∨ x = FDir path) →
     Q (new_fd (fds o)) (set_fds <[new_fd (fds o) := x]> o1)) →
  wpb b (open_read path) Q o.
Proof.
  intros Hfail Hok. unfold open_read. apply wpb_bind, sys_ok_spec. intros ok o1 H1.
  pose proof H1 as [E1 E2 E3]. apply wpb_bind, wpb_get. rewrite E2, E3.
  destruct ok; [|by apply wpb_ret, Hfail].
  destruct (files o !! path) eqn:Ef; [|destruct (dirs o !! path); [|by apply wpb_ret, Hfail]].
  all: unfold wpb, open_fd; rewrite E1; apply Hok; eauto.
Qed.

Lemma wp_fstat b fd o Q :
  (∀ r o', only_scripts o o' →
     (∀ z, r = Some z → (∃ p off, fds o !! fd = Some (FFile p off) ∧ z = Z.of_nat (length (content o p))) ∨
        ∃ p, fds o !! fd = Some (FDir p)) → Q r o') →
  wpb b (sys_fstat fd) Q o.
Proof.
  intros HQ. unfold sys_fstat. apply wpb_bind, sys_ok_spec. intros ok o1 H1.
  pose proof H1 as [E1 E2 E3]. apply wpb_bind, wpb_get. rewrite E1.
  destruct ok; [|by apply wpb_ret, HQ].
  destruct (fds o !! fd) as [[]|] eqn:E; apply wpb_ret, HQ; try done.
  - intros z [= <-]. left. eexists _, _. unfold content. by rewrite E2.
  - intros z _. right. by eexists.
Qed.

(** Reading a directory fails at once. *)
Lemma wp_send_file_dir fuel client_fd fd o p Q :
  fds o !! fd = Some (FDir p) → (∀ o', no_more client_fd o o' → Q tt o') →
  wp (send_file (S fuel) client_fd fd) Q o.
Proof.
  intros Hfd HQ. simpl. apply wpb_bind. unfold sys_read. apply wpb_bind, wpb_get. rewrite Hfd.
  apply wpb_ret, wpb_modify, HQ, no_more_delete.
Qed.

Lemma no_more_trans fd o1 o2 o3 : no_more fd o1 o2 → no_more fd o2 o3 → no_more fd o1 o3.
Proof. unfold no_more. lia. Qed.

Lemma no_more_sent fd o o' k : sent_on k o o' → no_more fd o o'.
Proof. unfold no_more. intros H. by rewrite (sent_on_rx _ _ _ _ H). Qed.

Lemma no_more_scripts fd o o' : only_scripts o o' → no_more fd o o'.
Proof. intros []. by apply no_more_fds. Qed.

#[export] Hint Resolve no_more_scripts no_more_sent no_more_delete : nfs.

Lemma wp_pull client_fd path o :
  wp (handle_pull_command client_fd path) (λ _ o', no_more client_fd o o') o.
Proof.
  unfold handle_pull_command. apply wpb_bind, wp_open_read.
  { intros o1 H1. rewrite decide_True by lia. apply wpb_bind, wpb_gets, wpb_bind, wp_send_any.
    intros r o2 H2 _ _. apply wpb_ret. apply (no_more_trans _ _ o1); eauto with nfs. }
  intros o1 x H1 Hx. set (fd := new_fd (fds o)). set (o2 := set_fds _ o1).
  assert (0 ≤ fd)%Z as Hfd by apply new_fd_nonneg. rewrite decide_False by lia.
  assert (∀ s, x ≠ FSock s) as Hxs by (intros s; destruct Hx as [[-> _]| ->]; done).
  assert (no_more client_fd o o2) as N2.
  { eapply no_more_insert; [|exact Hxs]. simpl. by destruct H1 as [-> _ _]. }
  apply wpb_bind, wp_fstat. intros r o3 H3 Hr. pose proof (os_fds _ _ H3) as E3.
  assert (no_more client_fd o o3) as N3 by (apply (no_more_trans _ _ o2); eauto with nfs).
  destruct r as [size|].
  - apply wpb_bind, wp_send_any. intros z o4 H4 _ _. apply wpb_bind, wpb_gets.
    assert (fds o4 !! fd = Some x) as Ex.
    { eapply sent_on_file; [done|rewrite E3; simpl; apply lookup_insert_eq|done]. }
    assert (no_more client_fd o o4) as N4 by (apply (no_more_trans _ _ o3); eauto with nfs).
    destruct Hx as [[-> _]| ->].
    + eapply wp_send_file; [done|lia|]. intros o5 H5. exact (no_more_trans _ _ _ _ N4 H5).
    + eapply wp_send_file_dir; [done|]. intros o5 H5. exact (no_more_trans _ _ _ _ N4 H5).
  - apply wpb_bind, wpb_gets, wpb_bind, wp_send_any. intros z o4 H4 _ _. apply wpb_modify.
    eapply no_more_trans; [exact N3|]. apply (no_more_trans _ _ o4); eauto with nfs.
Qed.

Lemma wp_list_entries client_fd rel entries o :
  wp (list_entries client_fd rel entries) (λ _ o', no_more client_fd o o') o.
Proof.
  revert o. induction entries as [|d l IH]; intros o; simpl; [by apply wpb_ret, no_more_fds|].
  apply wpb_bind.
  assert (wp (if starts_with (lit ".") d then ret tt else
    (regular <- stat_regular (snprintf MAX_PATH (rel ++ lit "/" ++ d)) ;;
     if regular : bool then
       sys_send client_fd (snprintf (MAX_FILENAME + 2) (d ++ [NL])) ;;; ret tt
     else ret tt)) (λ _ o', no_more client_fd o o') o) as H.
  { destruct (starts_with _ d); [by apply wpb_ret, no_more_fds|].
    apply wpb_bind. unfold stat_regular. apply wpb_bind, sys_ok_spec. intros ok o1 H1.
    apply wpb_gets. destruct (ok && _); [|apply wpb_ret; eauto with nfs].
    apply wpb_bind, wp_send_any. intros r o2 H2 _ _. apply wpb_ret.
    apply (no_more_trans _ _ o1); eauto with nfs. }
  eapply wpb_mono; [exact H|]. intros ? o1 H1. eapply wpb_mono; [apply IH|].
  intros ? o2 H2. exact (no_more_trans _ _ _ _ H1 H2).
Qed.

Lemma wp_list client_fd path o :
  wp (handle_list_command client_fd path) (λ _ o', no_more client_fd o o') o.
Proof.
  unfold handle_list_command, sys_opendir. apply wpb_bind, wpb_bind, sys_ok_spec.
  intros ok o1 H1. apply wpb_gets.
  assert (wp (ret tt) (λ _ o', no_more client_fd o o') o1) as Hdone by (apply wpb_ret; eauto with nfs).
  destruct ok; [|done]. destruct (dirs o1 !! relative_path path) as [l|]; [|done].
  apply wpb_bind. eapply wpb_mono; [apply wp_list_entries|]. intros ? o2 H2.
  apply wpb_bind, wp_send_any. intros r o3 H3 _ _. apply wpb_ret.
  apply (no_more_trans _ _ o1); [by apply no_more_scripts|]. apply (no_more_trans _ _ o2); eauto with nfs.
Qed.

(** ** Sessions: outcomes *)

(** [wpo c Q s]: [c] returns with [Q], or overflows a buffer. *)
Definition wpo {S A} (c : M S A) (Q : A → S → Prop) (s : S) : Prop :=
  match c s with
  | Ret a s' => Q a s'
  | UB k => k = BufferOverflow
  | Blocked | NoFuel => False
  end.

Lemma wpo_bind {S A B} (c : M S A) (f : A → M S B) Q s :
  wpo c (λ a s', wpo (f a) Q s') s → wpo (bind c f) Q s.
Proof. unfold wpo, bind. by destruct (c s). Qed.

Lemma wpo_wp {S A} (c : M S A) Q s : wp c Q s → wpo c Q s.
Proof. unfold wpb, wpo. by destruct (c s). Qed.

Lemma wpo_mono {S A} (c : M S A) (P Q : A → S → Prop) s :
  wpo c P s → (∀ a s', P a s' → Q a s') → wpo c Q s.
Proof. unfold wpo. destruct (c s); auto. Qed.

Lemma wpb_in_os {A} b (c : M os A) Q s :
  wpb b c (λ a o, Q a (Cst o (current_fd s))) (cos s) → wpb b (in_os c) Q s.
Proof. intros H. by apply wpb_zoom. Qed.

(** [recv] takes what arrived out of the connection. *)
Lemma wp_recv b fd n o Q :
  (∀ r d o', r = (-1, [])%Z ∨ r = (Z.of_nat (length d), d) ∧ length d ≤ n ∧
     rx_left fd o' + length d = rx_left fd o → no_more fd o o' →
     (∀ k, k ≠ fd → fds o' !! k = fds o !! k) → Q r o') →
  wpb b (sys_recv fd n) Q o.
Proof.
  intros HQ. unfold sys_recv, get_sock. apply wpb_bind, wpb_gets.
  destruct (fds o !! fd) as [[| |s| |]|] eqn:E.
  all: try (apply wpb_ret, (HQ _ []); [by left|by apply no_more_fds|done]).
  destruct (delivered n s) as [r s'] eqn:Hd. apply wpb_bind, wpb_modify.
  set (o1 := set_fds _ o). assert (rx_left fd o = length (concat (rx s))) as E0.
  { unfold rx_left. by rewrite E. }
  assert (rx_left fd o1 = length (concat (rx s'))) as E1.
  { unfold rx_left. simpl. by rewrite lookup_insert_eq. }
  assert (∀ k, k ≠ fd → fds o1 !! k = fds o !! k) as Hoth by (intros k Hk; by apply lookup_insert_ne).
  destruct r as [d|].
  - pose proof Hd as [Hs Hl]%delivered_stream. apply (f_equal length) in Hs. rewrite length_app in Hs.
    apply wpb_ret, (HQ _ d); [right; split_and!; [done|done|lia]|unfold no_more; lia|done].
  - apply wpb_ret, (HQ _ []); [by left| |done]. unfold no_more. rewrite E0, E1.
    unfold delivered in Hd. destruct (rx s) eqn:Er; [|done].
    destruct (rx_reset s); [|done]. injection Hd as <-. by rewrite Er.
Qed.

Lemma wp_write b fd data client_fd o Q :
  (∀ r o', no_more client_fd o o' → Q r o') → wpb b (sys_write fd data) Q o.
Proof.
  intros HQ. unfold sys_write. apply wpb_bind, wpb_get.
  destruct (fds o !! fd) as [[| | |p off|]|] eqn:E; try (by apply wpb_ret, HQ, no_more_fds).
  apply wpb_bind. unfold wpb at 1.
  assert (∃ a o1, next_io o = Ret a o1 ∧ fds o1 = fds o) as (a & o1 & -> & E1)
    by (unfold next_io; destruct (io o); eauto).
  destruct (served a data) as [d|]; [|by apply wpb_ret, HQ, no_more_fds].
  apply wpb_bind, wpb_modify, wpb_ret, HQ. eapply no_more_insert; [simpl; by rewrite E1|done].
Qed.

Lemma wp_receive_chunk fuel client_fd total chunk s :
  (0 ≤ total)%Z → (chunk ≤ int_max)%Z → rx_left client_fd (cos s) < fuel →
  wp (receive_chunk fuel client_fd total chunk)
    (λ _ s', no_more client_fd (cos s) (cos s')) s.
Proof.
  revert total s. induction fuel as [|f IH]; intros total s Ht Hc Hf; [lia|]. simpl.
  case_decide as Hlt; [by apply wpb_ret, no_more_fds|].
  apply wpb_bind, wpb_in_os, wp_recv. intros r d o1 Hr N1 _.
  destruct Hr as [->|(-> & Hd & El)]; [by apply wpb_ret|].
  destruct (decide (Z.of_nat (length d) <= 0)%Z) as [|Hpos]; [by apply wpb_ret|].
  apply wpb_bind, wpb_gets, wpb_bind, wpb_in_os, (wp_write _ _ _ client_fd). simpl. intros w o2 N2.
  pose proof (no_more_trans _ _ _ _ N1 N2) as N.
  destruct (decide (w ≠ Z.of_nat (length d))); [by apply wpb_ret|].
  assert (Z.of_nat (length d) ≤ chunk - total)%Z as Hle by (case_decide; lia).
  apply wpb_bind, wpb_int_result; [unfold int_min, int_max in *; lia|].
  eapply wpb_mono; [apply IH; simpl|].
  - lia.
  - done.
  - unfold no_more in N2. lia.
  - intros ? s3 N3. exact (no_more_trans _ _ _ _ N N3).
Qed.

Lemma wp_close_current client_fd s :
  wp close_current (λ _ s', no_more client_fd (cos s) (cos s')) s.
Proof.
  unfold close_current. apply wpb_bind, wpb_gets. case_decide; [|by apply wpb_ret, no_more_fds].
  apply wpb_in_os, wpb_modify. simpl. auto with nfs.
Qed.

Lemma wp_open_trunc b path o Q :
  (∀ o', only_scripts o o' → Q (-1)%Z o') →
  (∀ o1, only_scripts o o1 → dirs o !! path = None →
     Q (new_fd (fds o)) (set_fds <[new_fd (fds o) := FFile path 0]> (set_files <[path := []]> o1))) →
  wpb b (open_trunc path) Q o.
Proof.
  intros Hfail Hok. unfold open_trunc. apply wpb_bind, sys_ok_spec. intros ok o1 H1.
  pose proof H1 as [E1 E2 E3]. apply wpb_bind, wpb_get. rewrite E3.
  destruct ok; [|by apply wpb_ret, Hfail].
  destruct (dirs o !! path) eqn:Ed; [by apply wpb_ret, Hfail|].
  apply wpb_bind, wpb_modify. unfold wpb, open_fd. simpl. rewrite E1. by apply Hok.
Qed.

Lemma wp_push client_fd path chunk s :
  (chunk ≤ int_max)%Z →
  wp (handle_push_command client_fd path chunk) (λ _ s', no_more client_fd (cos s) (cos s')) s.
Proof.
  intros Hc. unfold handle_push_command. destruct (decide (chunk = -1)%Z).
  { apply wpb_bind. eapply wpb_mono; [apply (wp_close_current client_fd)|]. intros [] s1 N1.
    apply wpb_bind, wpb_in_os, wp_open_trunc.
    - intros o2 H2. apply wpb_modify. simpl. apply (no_more_trans _ _ (cos s1)); auto with nfs.
    - intros o2 H2 _. apply wpb_modify. simpl. apply (no_more_trans _ _ (cos s1)); [done|].
      eapply no_more_insert; [simpl; by destruct H2 as [-> _ _]|done]. }
  destruct (decide (chunk = 0)%Z).
  { apply wpb_bind, wpb_gets. case_decide; [|by apply wpb_ret, no_more_fds].
    apply wpb_bind, wpb_in_os, wpb_modify, wpb_modify. simpl. auto with nfs. }
  apply wpb_bind, wpb_gets. case_decide; [by apply wpb_ret, no_more_fds|].
  apply wpb_bind, wpb_get. apply wp_receive_chunk; [done|done|lia].
Qed.

Lemma wpo_run_command client_fd line s :
  wpo (run_command client_fd line) (λ _ s', no_more client_fd (cos s) (cos s')) s.
Proof.
  unfold run_command. destruct (starts_with CMD_LIST line).
  { apply wpo_wp, wpb_in_os. eapply wpb_mono; [apply wp_list|]. done. }
  destruct (starts_with CMD_PULL line).
  { apply wpo_wp, wpb_in_os. eapply wpb_mono; [apply wp_pull|]. done. }
  destruct (starts_with CMD_PUSH line); [|by apply wpo_wp, wpb_ret, no_more_fds].
  apply wpo_bind. unfold sscanf.
  destruct (scan_values (parse_fmt (lit "PUSH %s %d")) line [] _ (Forall_nil_2 _) eq_refl) as [Hv _].
  destruct (scan _ _ _) as [z vs]. simpl in Hv. destruct (fits _ _); [|done].
  assert (wpo (ret tt) (λ _ s', no_more client_fd (cos s) (cos s')) s) as Hret
    by (by apply wpo_wp, wpb_ret, no_more_fds).
  change (wpo (match (z, vs) with
    | (2%Z, [VStr file_path; VInt chunk_size]) => handle_push_command client_fd file_path chunk_size
    | _ => ret tt
    end) (λ _ s', no_more client_fd (cos s) (cos s')) s).
  repeat case_match; try done. simplify_eq.
  apply wpo_wp, wp_push. by apply Forall_cons in Hv as [_ [[_ ?] _]%Forall_cons].
Qed.

Lemma wpo_connection_loop fuel client_fd s :
  rx_left client_fd (cos s) < fuel →
  wpo (connection_loop fuel client_fd) (λ _ s', no_more client_fd (cos s) (cos s')) s.
Proof.
  revert s. induction fuel as [|f IH]; intros s Hf; [lia|]. simpl.
  apply wpo_bind, wpo_wp, wpb_in_os, wp_recv. intros r d o1 Hr N1 _.
  destruct Hr as [->|(-> & Hd & El)]; [done|].
  cbn beta iota. destruct (decide (Z.of_nat (length d) <= 0)%Z) as [Hle|Hpos]; [done|].
  apply wpo_bind. eapply wpo_mono; [apply wpo_run_command|].
  intros ? s2 N2. simpl in N2. pose proof (no_more_trans _ _ _ _ N1 N2) as N.
  eapply wpo_mono; [apply IH; unfold no_more in N2; lia|].
  intros ? s3 N3. exact (no_more_trans _ _ _ _ N N3).
Qed.


(** The literal part of the PUSH format. *)
Lemma scan_push ds w r acc :
  plain w →
  scan (DLit "P" :: DLit "U" :: DLit "S" :: DLit "H" :: DSpace :: ds) (lit "PUSH " ++ w ++ r) acc =
  scan ds (w ++ r) acc.
Proof.
  intros Hw. trans (scan ds (skip_ws (w ++ r)) acc); [reflexivity|].
  by rewrite (skip_ws_plain w r Hw).
Qed.

(** A PUSH command whose path has [MAX_PATH] bytes or more writes past the
    end of [file_path]: a command line of up to 4094 bytes is accepted, the
    array has [MAX_PATH]. *)
Theorem push_path_overflow (client_fd : Z) (w r : bytes) (s : cst)
    (Hw : plain w) (Hr : ends_word r) (Hlen : MAX_PATH ≤ length w) :
  run_command client_fd (lit "PUSH " ++ w ++ r) s = UB BufferOverflow.
Proof.
  unfold run_command. change (starts_with CMD_LIST (lit "PUSH " ++ w ++ r)) with false.
  change (starts_with CMD_PULL (lit "PUSH " ++ w ++ r)) with false.
  change (starts_with CMD_PUSH (lit "PUSH " ++ w ++ r)) with true. cbn iota.
  unfold bind, sscanf. change (parse_fmt (lit "PUSH %s %d")) with
    (DLit "P" :: DLit "U" :: DLit "S" :: DLit "H" :: DSpace :: DStr :: DSpace :: DInt :: []).
  rewrite scan_push, scan_str by done. destruct (scan_extends [DSpace; DInt] r ([] ++ [VStr w])) as [more ->].
  simpl. by rewrite bool_decide_false by lia.
Qed.

Definition long_path : bytes := replicate MAX_PATH "a"%char.

Lemma push_path_overflow_witness :
  plain long_path ∧ MAX_PATH ≤ length long_path ∧
  run_command 3 (lit "PUSH " ++ long_path ++ lit " 5") (Cst demo_os (-1)) = UB BufferOverflow.
Proof.
  assert (plain long_path) as H by (apply (bool_decide_unpack _); vm_compute; exact I).
  split; [exact H|]. split; [apply (bool_decide_unpack _); vm_compute; exact I|].
  apply (push_path_overflow 3 long_path (lit " 5") _ H).
  - by apply ends_word_cons.
  - apply (bool_decide_unpack _); vm_compute; exact I.
Defined.

(** ** What the commands do: receiving a file *)

(** The portions left when [n] bytes have been received. *)
Fixpoint cut (n : nat) (ps : list bytes) : list bytes :=
  match ps with
  | [] => []
  | p :: l =>
      if decide (n = 0) then ps
      else if decide (n < length p) then drop n p :: l
      else cut (n - length p) l
  end.

Lemma cut_0 ps : cut 0 ps = ps.
Proof. by destruct ps. Qed.

Lemma concat_cut n ps : concat (cut n ps) = drop n (concat ps).
Proof.
  revert n. induction ps as [|p l IH]; intros n; simpl; [by rewrite drop_nil|].
  case_decide as H0; [by subst|]. case_decide as Hlt; simpl.
  - rewrite drop_app_le by lia. done.
  - rewrite IH, drop_app_ge by lia. done.
Qed.

Lemma cut_first d l : cut (length d) (d :: l) = if decide (d = []) then [] :: l else l.
Proof.
  simpl. destruct d as [|c d]; simpl; [done|]. rewrite decide_False by lia.
  by rewrite Nat.sub_diag, cut_0.
Qed.

Lemma cut_cut a b ps : Forall (.≠ []) ps → cut b (cut a ps) = cut (a + b) ps.
Proof.
  intros Hps. revert a b. induction Hps as [|p l Hp Hl IH]; intros a b; [done|]. simpl.
  assert (0 < length p) by (destruct p; simpl; [done|lia]).
  repeat (case_decide; simpl; subst; try lia; try done).
  all: rewrite ?Nat.add_0_r, ?length_drop in *; try lia; try done.
  - by rewrite drop_drop.
  - f_equal. lia.
  - rewrite IH. f_equal. lia.
Qed.

Lemma cut_nonempty n ps : Forall (.≠ []) ps → Forall (.≠ []) (cut n ps).
Proof.
  intros Hps. revert n. induction Hps as [|p l Hp Hl IH]; intros n; simpl; [done|].
  case_decide; [by constructor|]. case_decide; [|done]. constructor; [|done].
  intros E. apply (f_equal length) in E. rewrite length_drop in E. simpl in E. lia.
Qed.

(** The connection when [n] bytes have been received. *)
Definition received (n : nat) (c : sock) : sock :=
  Sock (cut n (rx c)) (rx_reset c) (tx c) (tx_script c).

Lemma recv_some fd m c d l o :
  fds o !! fd = Some (FSock c) → rx c = d :: l → d ≠ [] → 0 < m →
  sys_recv fd m o = Ret (Z.of_nat (length (take m d)), take m d)
    (set_fds <[fd := FSock (received (length (take m d)) c)]> o).
Proof.
  intros Hfd Hrx Hd Hm. unfold sys_recv, get_sock, bind, gets, put_sock, modify. rewrite Hfd.
  unfold delivered. rewrite Hrx. unfold ret. do 5 f_equal. unfold received. f_equal. rewrite Hrx.
  assert (0 < length d) by (destruct d; simpl; [done|lia]). cbn [cut]. rewrite length_take.
  rewrite (decide_False (P := m `min` length d = 0)) by lia.
  case_decide as H1; case_decide as H2; try lia.
  - replace (m `min` length d - length d) with 0 by lia. by rewrite cut_0.
  - by replace (m `min` length d) with m by lia.
Qed.

(** A write at the end of a file. *)
Lemma write_end fd p old d o :
  fds o !! fd = Some (FFile p (length old)) → content o p = old → io o = [] →
  sys_write fd d o = Ret (Z.of_nat (length d))
    (set_fds <[fd := FFile p (length (old ++ d))]> (set_files <[p := old ++ d]> o)).
Proof.
  intros Hfd Hc Hio. unfold sys_write, bind, get, next_io, modify, ret. rewrite Hfd, Hio. simpl.
  unfold write_at. by rewrite Hc, patch_append, length_app.
Qed.

(** The state after [k] more bytes went from the connection to the file. *)
Definition stored (client_fd : Z) (c : sock) (w : Z) (p old : bytes) (k : nat) (s : cst) : cst :=
  let file := old ++ take k (concat (rx c)) in
  Cst (set_fds (λ m, <[w := FFile p (length file)]> (<[client_fd := FSock (received k c)]> m))
        (set_files <[p := file]> (cos s))) (current_fd s).

(** The client is receiving the file [p], [old] so far, on the connection [c]. *)
Record receiving (client_fd : Z) (c : sock) (w : Z) (p old : bytes) (s : cst) : Prop := {
  rv_sock : fds (cos s) !! client_fd = Some (FSock c);
  rv_file : fds (cos s) !! w = Some (FFile p (length old));
  rv_content : files (cos s) !! p = Some old;
  rv_io : io (cos s) = [];
  rv_current : current_fd s = w;
  rv_fd : (0 ≤ w)%Z;
  rv_rx : Forall (.≠ []) (rx c)
}.

Lemma receiving_ne client_fd c w p old s : receiving client_fd c w p old s → w ≠ client_fd.
Proof. intros [H1 H2 _ _ _ _ _] ->. congruence. Qed.

Lemma receiving_stored client_fd c w p old k s :
  receiving client_fd c w p old s →
  receiving client_fd (received k c) w p (old ++ take k (concat (rx c))) (stored client_fd c w p old k s).
Proof.
  intros H. pose proof (receiving_ne _ _ _ _ _ _ H) as Hne. destruct H. split; simpl; try done.
  - by rewrite lookup_insert_ne, lookup_insert_eq.
  - by rewrite lookup_insert_eq.
  - by rewrite lookup_insert_eq.
  - by apply cut_nonempty.
Qed.

Lemma stored_0 client_fd c w p old s :
  receiving client_fd c w p old s → stored client_fd c w p old 0 s = s.
Proof.
  intros [H1 H2 H3 _ _ _ _]. unfold stored. rewrite take_0, app_nil_r. unfold received.
  rewrite cut_0. destruct s as [o cur], c as [r1 r2 r3 r4]. destruct o. unfold set_fds, set_files. simpl in *.
  by rewrite (insert_id _ client_fd), !insert_id.
Qed.

Lemma received_received a b c :
  Forall (.≠ []) (rx c) → received b (received a c) = received (a + b) c.
Proof. intros H. unfold received. simpl. by rewrite cut_cut. Qed.

Lemma stored_stored client_fd c w p old a b s :
  receiving client_fd c w p old s → a ≤ length (concat (rx c)) →
  stored client_fd (received a c) w p (old ++ take a (concat (rx c))) b (stored client_fd c w p old a s) =
  stored client_fd c w p old (a + b) s.
Proof.
  intros H Ha. pose proof (receiving_ne _ _ _ _ _ _ H) as Hne. unfold stored. simpl.
  rewrite concat_cut, received_received by apply H.
  assert (take a (concat (rx c)) ++ take b (drop a (concat (rx c))) = take (a + b) (concat (rx c))) as E.
  { by rewrite take_take_drop. }
  rewrite <-!app_assoc, E. unfold set_fds, set_files. simpl. do 2 f_equal.
  - rewrite (insert_insert_ne _ client_fd w) by done. by rewrite !insert_insert_eq.
  - by rewrite insert_insert_eq.
Qed.

(** Each round of the loop stores one portion. *)
Lemma receive_chunk_stores fuel client_fd c w p old total n s :
  receiving client_fd c w p old s → (0 ≤ total ≤ n)%Z → (n ≤ int_max)%Z →
  Z.to_nat (n - total) ≤ length (concat (rx c)) → Z.to_nat (n - total) < fuel →
  receive_chunk fuel client_fd total n s = Ret tt (stored client_fd c w p old (Z.to_nat (n - total)) s).
Proof.
  revert c old total s. induction fuel as [|f IH]; intros c old total s H Ht Hn Hl Hf; [lia|].
  cbn [receive_chunk]. destruct (decide (n <= total)%Z) as [Hle|Hlt].
  { replace (Z.to_nat (n - total)) with 0 by lia. by rewrite stored_0. }
  pose proof (receiving_ne _ _ _ _ _ _ H) as Hne. pose proof H as [H1 H2 H3 H4 H5 H6 H7].
  destruct (rx c) as [|d l] eqn:Hrx; [simpl in Hl; lia|]. pose proof H7 as [Hd _]%Forall_cons.
  set (m := Z.to_nat _). assert (0 < m ≤ Z.to_nat (n - total)) as Hm.
  { unfold m. case_decide; [lia|]. assert (0 < MAX_BUFFER_SIZE) by (vm_compute; lia). lia. }
  set (k := length (take m d)).
  assert (0 < k ≤ m) as Hk.
  { unfold k. rewrite length_take. destruct d; [done|]. simpl. lia. }
  assert (take m d = take k (concat (rx c))) as Ed.
  { unfold k. rewrite Hrx. simpl. rewrite length_take. rewrite take_app_le by lia.
    by rewrite <-take_take, (take_ge d (length d)). }
  erewrite bind_Ret.
  2: { unfold in_os, zoom. erewrite recv_some by (done || lia). reflexivity. }
  cbn beta iota. fold k. rewrite decide_False by lia.
  set (s1 := Cst _ _). unfold bind at 1, gets. simpl current_fd. rewrite H5.
  erewrite bind_Ret.
  2: { unfold in_os, zoom, s1. cbn [cos].
       erewrite (write_end w p old) by (simpl; first [by rewrite lookup_insert_ne | unfold content; simpl; by rewrite H3 | done]).
       reflexivity. }
  cbn beta iota. rewrite decide_False by (intros E; apply E; done).
  unfold int_result. rewrite decide_True by (unfold int_min, int_max in *; lia).
  rewrite (bind_Ret _ _ _ _ _ eq_refl).
  match goal with |- receive_chunk _ _ _ _ ?s2 = _ =>
    assert (s2 = stored client_fd c w p old k s) as -> end.
  { unfold stored. rewrite <-Ed. unfold set_fds, set_files. simpl. by rewrite H5. }
  replace (Z.to_nat (n - total)) with (k + Z.to_nat (n - (total + Z.of_nat k))) by lia.
  rewrite <-stored_stored by (done || rewrite Hrx; lia).
  apply IH; [by apply receiving_stored|lia|done| |lia].
  unfold received. simpl. rewrite concat_cut, length_drop, Hrx. lia.
Qed.

Lemma push_stored (client_fd : Z) (path : bytes) (n : Z) (c : sock) (w : Z) (p old : bytes)
    (s : cst) (H : receiving client_fd c w p old s) (Hn : (0 < n ≤ int_max)%Z)
    (Hdata : Z.to_nat n ≤ length (concat (rx c))) :
  handle_push_command client_fd path n s = Ret tt (stored client_fd c w p old (Z.to_nat n) s).
Proof.
  unfold handle_push_command. rewrite !decide_False by lia. unfold bind, gets, get.
  rewrite (rv_current _ _ _ _ _ _ H), decide_False by (pose proof (rv_fd _ _ _ _ _ _ H); lia).
  rewrite (receive_chunk_stores _ client_fd c w p old) by
    (done || lia || unfold rx_left; rewrite (rv_sock _ _ _ _ _ _ H); lia).
  by rewrite Z.sub_0_r.
Qed.

(** C29: a chunk of a file: with a file open and the bytes of the chunk on
    their way, in whatever portions, PUSH appends exactly those bytes to the
    file and leaves the bytes after them on the connection. *)
Theorem push_chunk_stored (client_fd : Z) (path : bytes) (n : Z) (c : sock) (w : Z) (p old : bytes)
    (s : cst) (H : receiving client_fd c w p old s) (Hn : (0 < n ≤ int_max)%Z)
    (Hdata : Z.to_nat n ≤ length (concat (rx c))) :
  handle_push_command client_fd path n s = Ret tt (stored client_fd c w p old (Z.to_nat n) s).
Proof. by apply push_stored. Qed.

(** Twelve bytes of which ten belong to the chunk, in three portions. *)
Definition push_demo : cst :=
  Cst (Os (<[5%Z := FFile (lit "f") 2]>
             {[4%Z := FSock (Sock [lit "abc"; lit "defgh"; lit "ijPU"] false [] [])]})
        {[lit "f" := lit "01"]} ∅ [] [] [] [] (Tm 125 0 1 0 0 0) [] []) 5.

Lemma push_chunk_stored_witness :
  ∃ s', handle_push_command 4 (lit "/f") 10 push_demo = Ret tt s' ∧
    files (cos s') !! lit "f" = Some (lit "01abcdefghij") ∧
    fds (cos s') !! 4%Z = Some (FSock (Sock [lit "PU"] false [] [])).
Proof.
  eexists. split; [|split].
  - apply (push_chunk_stored 4 (lit "/f") 10 (Sock [lit "abc"; lit "defgh"; lit "ijPU"] false [] []) 5
      (lit "f") (lit "01") push_demo).
    + split; try reflexivity; [lia|by repeat constructor].
    + unfold int_max. lia.
    + vm_compute. lia.
  - vm_compute. reflexivity.
  - vm_compute. reflexivity.
Defined.

(** PUSH with size -1 closes the file being received, if any, and starts
    an empty one whose path has lost its leading slash; if it cannot be
    opened no file is current. *)
Theorem push_start (client_fd : Z) (path : bytes) (s : cst) :
  ∃ s', handle_push_command client_fd path (-1) s = Ret tt s' ∧
    let before := if decide (0 ≤ current_fd s)%Z then delete (current_fd s) (fds (cos s)) else fds (cos s) in
    let p := relative_path path in
    (current_fd s' = (-1)%Z ∧ fds (cos s') = before ∧ files (cos s') = files (cos s) ∨
     before !! current_fd s' = None ∧ (0 ≤ current_fd s')%Z ∧
       fds (cos s') = <[current_fd s' := FFile p 0]> before ∧
       files (cos s') = <[p := []]> (files (cos s))).
Proof.
  set (before := if decide _ then _ else _). set (p := relative_path path).
  assert (wp (handle_push_command client_fd path (-1)) (λ _ s',
    current_fd s' = (-1)%Z ∧ fds (cos s') = before ∧ files (cos s') = files (cos s) ∨
     before !! current_fd s' = None ∧ (0 ≤ current_fd s')%Z ∧
       fds (cos s') = <[current_fd s' := FFile p 0]> before ∧
       files (cos s') = <[p := []]> (files (cos s))) s) as ([] & s' & E & H)%wp_returns; [|by exists s'].
  unfold handle_push_command. rewrite decide_True by done. apply wpb_bind.
  assert (∀ s1, fds (cos s1) = before → files (cos s1) = files (cos s) →
    wp (fd <- in_os (open_trunc p) ;; set_current fd) (λ _ s',
    current_fd s' = (-1)%Z ∧ fds (cos s') = before ∧ files (cos s') = files (cos s) ∨
     before !! current_fd s' = None ∧ (0 ≤ current_fd s')%Z ∧
       fds (cos s') = <[current_fd s' := FFile p 0]> before ∧
       files (cos s') = <[p := []]> (files (cos s))) s1) as Hopen.
  { intros s1 E1 E2. apply wpb_bind, wpb_in_os, wp_open_trunc.
    - intros o2 []. apply wpb_modify. left. simpl. split_and!; congruence.
    - intros o2 [] _. apply wpb_modify. right. simpl. rewrite E1.
      split_and!; [apply new_fd_fresh|apply new_fd_nonneg|congruence|congruence]. }
  unfold close_current. apply wpb_bind, wpb_gets. unfold before in *. case_decide.
  - apply wpb_in_os, wpb_modify. by apply Hopen.
  - apply wpb_ret. by apply Hopen.
Qed.

(** ** What the commands do: sending a file *)

Definition no_error (a : io_ans) : Prop := a ≠ IoErr.

(** The answers that make progress. *)
Definition progress (a : io_ans) : Prop := match a with IoErr | IoSome 0 => False | _ => True end.

(** [c'] is [c] after [data] went out on it. *)
Record after_sending (c : sock) (data : bytes) (c' : sock) : Prop := {
  as_tx : concat (tx c') = concat (tx c) ++ data;
  as_rx : rx c' = rx c;
  as_reset : rx_reset c' = rx_reset c;
  as_script : Forall no_error (tx_script c')
}.

Lemma send_once fd c data o :
  fds o !! fd = Some (FSock c) → Forall no_error (tx_script c) →
  ∃ n, n ≤ length data ∧ (tx_script c = [] → n = length data) ∧
    sys_send fd data o = Ret (Z.of_nat n) (set_fds <[fd := FSock (sent c (take n data))]> o).
Proof.
  intros Hfd Hs. unfold sys_send, get_sock, bind, gets, put_sock, modify, ret, send_ans. rewrite Hfd.
  destruct Hs as [|[|n|] l Ha Hs]; simpl.
  - exists (length data). by rewrite take_ge.
  - exists (length data). by rewrite take_ge.
  - exists (n `min` length data). split; [lia|]. split; [done|].
    rewrite length_take. do 4 f_equal. by rewrite <-take_take, (take_ge data (length data)).
  - by destruct Ha.
Qed.

Lemma after_sent c data n :
  Forall no_error (tx_script c) → after_sending c (take n data) (sent c (take n data)).
Proof. intros Hs. split; [by apply concat_tx_sent|done|done|]. simpl. by apply Forall_tail. Qed.

Lemma after_sending_trans c1 c2 c3 d1 d2 :
  after_sending c1 d1 c2 → after_sending c2 d2 c3 → after_sending c1 (d1 ++ d2) c3.
Proof. intros [A1 A2 A3 A4] [B1 B2 B3 B4]. split; [by rewrite B1, A1, app_assoc|congruence..|done]. Qed.

Lemma send_rest_sends fuel fd c data o :
  fds o !! fd = Some (FSock c) → Forall no_error (tx_script c) → length (tx_script c) < fuel →
  ∃ c', after_sending c data c' ∧
    send_rest fuel fd data o = Ret true (set_fds <[fd := FSock c']> o).
Proof.
  revert c data o. induction fuel as [|f IH]; intros c data o Hfd Hs Hf; [lia|].
  destruct data as [|x data].
  { exists c. split; [split; [by rewrite app_nil_r|done..]|]. simpl. unfold ret. do 2 f_equal.
    destruct o. unfold set_fds. simpl in *. by rewrite insert_id. }
  cbn [send_rest]. destruct (send_once fd c (x :: data) o Hfd Hs) as (n & Hn & Hnil & E).
  erewrite bind_Ret by exact E. rewrite decide_False by lia. rewrite Nat2Z.id.
  pose proof (after_sent c (x :: data) n Hs) as Ha.
  destruct (decide (tx_script c = [])) as [Hnil'|Hne].
  - rewrite Hnil by done. rewrite drop_ge by done. rewrite Hnil in Ha by done.
    rewrite take_ge in Ha by done. eexists. split; [exact Ha|]. rewrite take_ge by done. by destruct f.
  - destruct (IH (sent c (take n (x :: data))) (drop n (x :: data))
      (set_fds <[fd := FSock (sent c (take n (x :: data)))]> o)) as (c' & Hc' & E').
    + simpl. apply lookup_insert_eq.
    + apply Ha.
    + simpl. destruct (tx_script c); [done|]. simpl in *. lia.
    + exists c'. split.
      * rewrite <-(take_drop n (x :: data)). by eapply after_sending_trans.
      * rewrite E'. f_equal. unfold set_fds. simpl. by rewrite insert_insert_eq.
Qed.

Lemma take_length_take {A} n (l : list A) : take (length (take n l)) l = take n l.
Proof. by rewrite length_take, <-take_take, (take_ge l (length l)). Qed.

(** A read that makes progress. *)
Lemma read_some fd p off data B o :
  0 < B → fds o !! fd = Some (FFile p off) → files o !! p = Some data → off ≤ length data →
  Forall progress (io o) →
  ∃ n o1, n ≤ length data - off ∧ (n = 0 → off = length data) ∧
    sys_read fd B o = Ret (Z.of_nat n, take n (drop off data)) o1 ∧
    fds o1 = <[fd := FFile p (off + n)]> (fds o) ∧ files o1 = files o ∧ dirs o1 = dirs o ∧
    sys o1 = sys o ∧ Forall progress (io o1) ∧ closed o1 = closed o.
Proof.
  intros HB Hfd Hfile Hoff Hio.
  assert (∃ m, 0 < m ∧ ∃ o0, next_io o = Ret (match io o with [] => IoAll | a :: _ => a end) o0 ∧
    served (match io o with [] => IoAll | a :: _ => a end) (take B (drop off data)) =
      Some (take m (drop off data)) ∧ fds o0 = fds o ∧ files o0 = files o ∧ dirs o0 = dirs o ∧
    sys o0 = sys o ∧ Forall progress (io o0) ∧ closed o0 = closed o)
    as (m & Hm & o0 & En & Es & E1 & E2 & E3 & E4 & E5 & E6).
  { unfold next_io. destruct (io o) as [|a l] eqn:E;
      [|apply Forall_cons in Hio as [Ha Hl]; destruct a as [|[|k]|]; try done].
    - exists B. split; [done|]. eexists. split_and!; done || by rewrite E.
    - exists B. split; [done|]. eexists. by split_and!.
    - exists (S k `min` B). split; [lia|]. eexists. simpl served. rewrite take_take. by split_and!. }
  exists (length (take m (drop off data))).
  unfold sys_read, bind, get. rewrite Hfd. unfold content. rewrite Hfile. simpl.
  rewrite En, Es. unfold modify, ret. rewrite take_length_take.
  assert (length (take m (drop off data)) ≤ length data - off) as Hle.
  { rewrite length_take, length_drop. lia. }
  eexists. split; [done|]. split; [rewrite length_take, length_drop; lia|]. split; [done|].
  simpl. by rewrite E1.
Qed.

(** The loop sends what is left of the file. *)
Lemma send_file_sends fuel client_fd c fd p off data o :
  fds o !! client_fd = Some (FSock c) → Forall no_error (tx_script c) →
  fds o !! fd = Some (FFile p off) → files o !! p = Some data → off ≤ length data →
  Forall progress (io o) → length data - off < fuel →
  ∃ c' o', after_sending c (drop off data) c' ∧ send_file fuel client_fd fd o = Ret tt o' ∧
    fds o' = delete fd (<[client_fd := FSock c']> (fds o)) ∧ files o' = files o ∧ dirs o' = dirs o.
Proof.
  revert c off o. induction fuel as [|f IH]; intros c off o Hc Hs Hfd Hfile Hoff Hio Hf; [lia|].
  assert (fd ≠ client_fd) as Hne by congruence. cbn [send_file].
  destruct (read_some fd p off data MAX_BUFFER_SIZE o) as (n & o1 & Hn & H0 & E & E1 & E2 & E3 & E4 & E5 & _);
    [vm_compute; lia|done..|].
  erewrite bind_Ret by exact E. cbn beta iota.
  destruct (decide (Z.of_nat n <= 0)%Z) as [Hz|Hpos].
  { exists c, (close_fd fd o1). rewrite drop_ge by lia.
    split; [split; [by rewrite app_nil_r|done..]|]. split; [done|]. simpl. rewrite E1.
    rewrite delete_insert_eq, (insert_id _ client_fd) by done. done. }
  unfold bind at 1, gets. assert (fds o1 !! client_fd = Some (FSock c)) as Hc1.
  { by rewrite E1, lookup_insert_ne. }
  destruct (send_rest_sends (send_fuel client_fd o1) client_fd c (take n (drop off data)) o1) as (c1 & A1 & Er);
    [done|done|unfold send_fuel; rewrite Hc1; lia|].
  erewrite bind_Ret by exact Er. cbn iota.
  destruct (IH c1 (off + n) (set_fds <[client_fd := FSock c1]> o1)) as (c2 & o2 & A2 & E' & F1 & F2 & F3).
  - simpl. apply lookup_insert_eq.
  - apply A1.
  - simpl. by rewrite lookup_insert_ne, E1, lookup_insert_eq.
  - simpl. by rewrite E2.
  - lia.
  - done.
  - lia.
  - exists c2, o2. split; [|split; [done|]].
    + rewrite <-(take_drop n (drop off data)), drop_drop. by eapply after_sending_trans.
    + simpl in *. rewrite F1, F2, F3, E1, E2, E3. rewrite insert_insert_eq.
      rewrite (insert_insert_ne _ client_fd fd) by done. by rewrite delete_insert_eq.
Qed.

Lemma length_dec_le z k : (0 ≤ z < 10 ^ Z.of_nat (S k))%Z → length (dec z) ≤ S k.
Proof.
  intros Hz. induction k as [|k IH].
  - rewrite length_dec_1; [done|]. simpl in Hz. lia.
  - destruct (decide (z < 10 ^ Z.of_nat (S k))%Z) as [Hlt|Hge]; [lia|].
    rewrite (length_dec z (S k)) by lia. done.
Qed.

(** PULL of a file that can be opened: the header goes out, then the loop. *)
Lemma pull_header (client_fd : Z) (path data : bytes) (c : sock) (o : os) :
  let fd := new_fd (fds o) in
  fds o !! client_fd = Some (FSock c) → files o !! relative_path path = Some data →
  (Z.of_nat (length data) ≤ long_max)%Z → sys o = [] → send_ans c = IoAll →
  handle_pull_command client_fd path o = send_file (S (length data)) client_fd fd
    (set_fds (λ m, <[client_fd := FSock (sent c (dec (Z.of_nat (length data)) ++ [SP]))]>
      (<[fd := FFile (relative_path path) 0]> m)) o).
Proof.
  intros fd Hc Hfile Hsize Hsys Hhead. assert (fds o !! fd = None) as Hfresh by apply new_fd_fresh.
  assert (0 ≤ fd)%Z as Hfd by apply new_fd_nonneg. assert (fd ≠ client_fd) as Hne by congruence.
  set (head := dec (Z.of_nat (length data)) ++ [SP]). set (p := relative_path path) in *.
  assert (snprintf 32 head = head) as Hsn.
  { apply snprintf_id. unfold head. rewrite length_app. simpl.
    pose proof (length_dec_le (Z.of_nat (length data)) 18). unfold long_max in Hsize.
    change (10 ^ Z.of_nat 19)%Z with 10000000000000000000%Z in *. lia. }
  unfold handle_pull_command. fold p. erewrite bind_Ret.
  2: { unfold open_read, bind, sys_ok, get. rewrite Hsys, Hfile. reflexivity. }
  fold fd. rewrite decide_False by lia.
  erewrite bind_Ret.
  2: { unfold sys_fstat, bind, sys_ok, get. cbn [sys set_fds fds]. rewrite Hsys. simpl.
       rewrite lookup_insert_eq. unfold content. simpl. rewrite Hfile. reflexivity. }
  cbn iota.
  match goal with |- context [snprintf 32 ?x] => change x with head end. rewrite Hsn. set (o1 := set_fds _ o).
  assert (fds o1 !! client_fd = Some (FSock c)) as Hc1 by (simpl; by rewrite lookup_insert_ne).
  erewrite bind_Ret.
  2: { unfold sys_send, get_sock, bind, gets. rewrite Hc1, Hhead. reflexivity. }
  unfold bind, gets. do 2 f_equal. unfold file_left. simpl.
  rewrite lookup_insert_ne, lookup_insert_eq by done. unfold content. simpl. rewrite Hfile. simpl. lia.
Qed.


(** A file read in two pieces; the second send takes one byte. *)
Definition pull_demo : os :=
  Os {[4%Z := FSock (Sock [] false [] [IoAll; IoSome 1])]} {[lit "d/f" := lit "hello"]} ∅ [] [] []
    [IoSome 2] (Tm 125 0 1 0 0 0) [] [].


(** PULL of a file that cannot be opened sends the error message, which
    starts with "-1 ", and changes nothing else. *)
Theorem pull_missing (client_fd : Z) (path : bytes) (c : sock) (o : os)
    (Hc : fds o !! client_fd = Some (FSock c)) (Hans : send_ans c = IoAll)
    (Hfile : files o !! relative_path path = None) (Hdir : dirs o !! relative_path path = None) :
  ∃ o', handle_pull_command client_fd path o = Ret tt o' ∧
    fds o' = <[client_fd := FSock (sent c (take 63 (lit "-1 " ++ errtext o)))]> (fds o) ∧
    files o' = files o ∧ dirs o' = dirs o.
Proof.
  unfold handle_pull_command. assert (∃ o1, open_read (relative_path path) o = Ret (-1)%Z o1 ∧
    only_scripts o o1 ∧ errtext o1 = errtext o) as (o1 & E & [E1 E2 E3] & E4).
  { unfold open_read, bind, sys_ok, get, ret. destruct (sys o) as [|[] l]; simpl; try rewrite Hfile, Hdir.
    all: eexists; by split_and!. }
  erewrite bind_Ret by exact E. rewrite decide_True by lia. unfold bind, gets, error_response.
  unfold sys_send, get_sock, bind, gets. rewrite E1, Hc, Hans. simpl. eexists. split; [done|].
  simpl. by rewrite E1, E4.
Qed.

Lemma pull_missing_witness :
  ∃ o', handle_pull_command 4 (lit "/nope") pull_demo = Ret tt o' ∧
    fds o' !! 4%Z = Some (FSock (Sock [] false [lit "-1 "] [IoSome 1])).
Proof.
  destruct (pull_missing 4 (lit "/nope") (Sock [] false [] [IoAll; IoSome 1]) pull_demo)
    as (o' & E & F & _); [reflexivity..|].
  exists o'. split; [exact E|]. rewrite F. reflexivity.
Defined.

(** ** What the commands do: listing a directory *)

(** The entries LIST reports: visible regular files. *)
Definition listed (o : os) (relative d_name : bytes) : bool :=
  negb (starts_with (lit ".") d_name) &&
  bool_decide (is_Some (files o !! snprintf MAX_PATH (relative ++ lit "/" ++ d_name))).

(** The connection after the messages [ms] went out whole. *)
Definition sent_all (c : sock) (ms : list bytes) : sock :=
  Sock (rx c) (rx_reset c) (tx c ++ ms) (tx_script c).

Lemma send_whole fd c data o :
  fds o !! fd = Some (FSock c) → tx_script c = [] → data ≠ [] →
  sys_send fd data o = Ret (Z.of_nat (length data)) (set_fds <[fd := FSock (sent_all c [data])]> o).
Proof.
  intros Hfd Hs Hd. rewrite (sys_send_all fd data c) by done. unfold sent, sent_all.
  rewrite Hs. rewrite decide_False by done. done.
Qed.

Lemma set_sock_twice fd c1 c2 o :
  set_fds <[fd := FSock c2]> (set_fds <[fd := FSock c1]> o) = set_fds <[fd := FSock c2]> o.
Proof. unfold set_fds. simpl. by rewrite insert_insert_eq. Qed.

Lemma list_entries_sends client_fd c rel l o :
  fds o !! client_fd = Some (FSock c) → tx_script c = [] → sys o = [] →
  Forall (λ d, length d ≤ MAX_FILENAME) l →
  list_entries client_fd rel l o =
    Ret tt (set_fds <[client_fd := FSock (sent_all c ((λ d, d ++ [NL]) <$> filter (listed o rel) l))]> o).
Proof.
  revert c o. induction l as [|d l IH]; intros c o Hc Hs Hsys Hl.
  { simpl. unfold ret. f_equal. unfold sent_all. rewrite app_nil_r. unfold set_fds. destruct o, c. simpl in *.
    by rewrite insert_id. }
  apply Forall_cons in Hl as [Hd Hl]. cbn [list_entries].
  set (full := snprintf MAX_PATH (rel ++ lit "/" ++ d)).
  assert (stat_regular full o = Ret (bool_decide (is_Some (files o !! full))) o) as Hst.
  { unfold stat_regular, bind, sys_ok, gets. by rewrite Hsys. }
  destruct (listed o rel d) eqn:Hlist; rewrite filter_cons, Hlist.
  - rewrite decide_True by done. unfold listed in Hlist. apply andb_true_iff in Hlist as [H1 H2].
    apply negb_true_iff in H1. rewrite H1. fold full in H2.
    assert (snprintf (MAX_FILENAME + 2) (d ++ [NL]) = d ++ [NL]) as Hsn.
    { apply snprintf_id. rewrite length_app. cbn [length]. lia. }
    unfold bind at 1. unfold bind at 1. rewrite Hst, H2, Hsn. unfold bind at 1.
    rewrite (send_whole client_fd c) by (done || by destruct d). unfold ret.
    rewrite (IH (sent_all c [d ++ [NL]])); [|simpl; apply lookup_insert_eq|done|done|done].
    rewrite set_sock_twice. change (listed (set_fds _ o) rel) with (listed o rel).
    unfold sent_all. cbn [tx fmap list_fmap]. by rewrite <-app_assoc.
  - rewrite decide_False by (by intros []). unfold listed in Hlist. apply andb_false_iff in Hlist.
    destruct (starts_with (lit ".") d) eqn:H1.
    { erewrite bind_Ret by reflexivity. by apply IH. }
    destruct Hlist as [?|H2]; [done|]. fold full in H2. erewrite bind_Ret.
    2: { erewrite bind_Ret by exact Hst. rewrite H2. reflexivity. }
    by apply IH.
Qed.

Lemma list_sends (client_fd : Z) (path : bytes) (entries : list bytes) (c : sock) (o : os)
    (Hc : fds o !! client_fd = Some (FSock c)) (Hscript : tx_script c = []) (Hsys : sys o = [])
    (Hdir : dirs o !! relative_path path = Some entries)
    (Hnames : Forall (λ d, length d ≤ MAX_FILENAME) entries) :
  handle_list_command client_fd path o =
    Ret tt (set_fds <[client_fd := FSock (sent_all c
      (((λ d, d ++ [NL]) <$> filter (listed o (relative_path path)) entries) ++ [lit "." ++ [NL]]))]> o).
Proof.
  unfold handle_list_command. erewrite bind_Ret.
  2: { unfold sys_opendir, bind, sys_ok, gets. rewrite Hsys. simpl. rewrite Hdir. reflexivity. }
  cbn iota. erewrite bind_Ret by (by eapply list_entries_sends). unfold bind at 1.
  erewrite send_whole; [|simpl; apply lookup_insert_eq|done|done].
  unfold ret. rewrite set_sock_twice. do 4 f_equal. unfold sent_all. simpl. by rewrite <-app_assoc.
Qed.

(** LIST sends the name of every visible regular file of the directory,
    each as one message ended by a newline, in the order of the directory,
    then the end marker; nothing else changes. *)
Theorem list_sends_names (client_fd : Z) (path : bytes) (entries : list bytes) (c : sock) (o : os)
    (Hc : fds o !! client_fd = Some (FSock c)) (Hscript : tx_script c = []) (Hsys : sys o = [])
    (Hdir : dirs o !! relative_path path = Some entries)
    (Hnames : Forall (λ d, length d ≤ MAX_FILENAME) entries) :
  handle_list_command client_fd path o =
    Ret tt (set_fds <[client_fd := FSock (sent_all c
      (((λ d, d ++ [NL]) <$> filter (listed o (relative_path path)) entries) ++ [lit "." ++ [NL]]))]> o).
Proof. by apply list_sends. Qed.

Definition list_demo : os :=
  Os {[4%Z := FSock (Sock [] false [] [])]} (<[lit "d/a" := []]> {[lit "d/.h" := []]})
    {[lit "d" := [lit "."; lit ".h"; lit "sub"; lit "a"]]} [] [] [] [] (Tm 125 0 1 0 0 0) [] [].

Lemma list_sends_names_witness :
  ∃ o', handle_list_command 4 (lit "/d") list_demo = Ret tt o' ∧
    fds o' !! 4%Z = Some (FSock (Sock [] false [lit "a" ++ [NL]; lit "." ++ [NL]] [])).
Proof.
  eexists. split.
  - apply (list_sends_names 4 (lit "/d") [lit "."; lit ".h"; lit "sub"; lit "a"] (Sock [] false [] []) list_demo).
    1-4: reflexivity. apply (bool_decide_unpack _). vm_compute. exact I.
  - vm_compute. reflexivity.
Defined.
