(* ===== verification/Transfer.v ===== *)
(** * Synchronising one file: [sync_single_file] of [src/thread_pool.c]

    A worker connects to the source and to the target client, asks the source
    for the file with PULL, reads the size header from the first portion that
    arrives, and passes the content on to the target as a sequence of PUSH
    commands, a chunk for every portion received.  [worker_thread] runs it on
    every job it takes from the queue. *)
From S2P Require Import Prelude.
From S2P Require Import CString.
From S2P Require Import Common.
From S2P Require Import OS.
From S2P Require Import Utils.
From S2P Require Import Client.
From stdpp Require Import gmap strings list.
From Stdlib Require Import Ascii ZArith Lia.

Section worker.
Variable logfile : ptr Z.          (* g_worker_logfile *)
Variable self : Z.                 (* (int) pthread_self () *)

(** The part all log lines share, and the rest of the line. *)
Definition job_line (now : tm) (job : sync_job) (rest : bytes) : bytes :=
  lit "[" ++ strftime now ++ lit "] [" ++ job_source_dir job ++ lit "@" ++ job_source_host job ++
  lit ":" ++ dec (job_source_port job) ++ lit "] [" ++ job_target_dir job ++ lit "@" ++
  job_target_host job ++ lit ":" ++ dec (job_target_port job) ++ lit "] [" ++ dec self ++ lit "] " ++
  rest ++ [NL].

Definition log_job (job : sync_job) (rest : os → bytes) : M os unit :=
  match logfile with
  | Some fd => line <- gets (λ o, job_line (now o) job (rest o)) ;; append_log fd line
  | NULL => ret tt
  end.

Definition close_both (source_fd target_fd : Z) : M os unit :=
  sys_close source_fd ;;; sys_close target_fd.

(** The commands, through a buffer of [MAX_COMMAND_SIZE] bytes. *)
Definition push_command (target_path : bytes) (arg : Z) (terminator : ascii) : bytes :=
  snprintf MAX_COMMAND_SIZE (lit "PUSH " ++ target_path ++ lit " " ++ dec arg ++ [terminator]).

(** One chunk to the target: the command, then the bytes; results are ignored. *)
Definition push_chunk (target_fd : Z) (target_path chunk : bytes) : M os unit :=
  send_command target_fd (Some (push_command target_path (Z.of_nat (length chunk)) SP)) ;;;
  sys_send target_fd chunk ;;;
  ret tt.

(** [while (total_transferred < file_size)] *)
Fixpoint transfer (fuel : nat) (source_fd target_fd : Z) (target_path : bytes)
    (file_size total_transferred : Z) : M os Z :=
  if decide (file_size <= total_transferred)%Z then ret total_transferred else
  match fuel with
  | 0 => no_fuel
  | S f =>
      r <- sys_recv source_fd MAX_BUFFER_SIZE ;;
      let '(chunk_size, buffer) := r in
      if decide (chunk_size <= 0)%Z then ret total_transferred else
      push_chunk target_fd target_path buffer ;;;
      transfer f source_fd target_fd target_path file_size (total_transferred + chunk_size)
  end.

(** The part after the header: [data] is the first portion, with the size and
    the space in front of position [header_len]. *)
Definition sync_content (job : sync_job) (target_path : bytes) (source_fd target_fd : Z)
    (data : bytes) (header_len : nat) (file_size : Z) : M os Z :=
  r <- send_command target_fd (Some (push_command target_path (-1) NL)) ;;
  if decide (r ≠ 0)%Z then close_both source_fd target_fd ;;; ret (-1)%Z else
  let first := drop header_len data in
  (if decide (header_len < length data) then push_chunk target_fd target_path first else ret tt) ;;;
  n <- gets (rx_left source_fd) ;;
  total_transferred <-
    transfer (S n) source_fd target_fd target_path file_size (Z.of_nat (length first)) ;;
  send_command target_fd (Some (push_command target_path 0 NL)) ;;;
  close_both source_fd target_fd ;;;
  log_job job (λ _, lit "[PULL] [SUCCESS] [" ++ dec total_transferred ++ lit " bytes pulled]") ;;;
  log_job job (λ _, lit "[PUSH] [SUCCESS] [" ++ dec total_transferred ++ lit " bytes pushed]") ;;;
  ret 0%Z.

(** The part after the two connections were made. *)
Definition sync_connected (job : sync_job) (source_path target_path : bytes)
    (source_fd target_fd : Z) : M os Z :=
  r <- send_command source_fd (Some (snprintf MAX_COMMAND_SIZE (lit "PULL " ++ source_path ++ [NL]))) ;;
  if decide (r ≠ 0)%Z then close_both source_fd target_fd ;;; ret (-1)%Z else
  r <- sys_recv source_fd (MAX_BUFFER_SIZE - 1) ;;
  let '(received, data) := r in
  if decide (received <= 0)%Z then close_both source_fd target_fd ;;; ret (-1)%Z else
  let response := cstr data in
  match strchr response SP with
  | None => close_both source_fd target_fd ;;; ret (-1)%Z
  | Some space_pos =>
      let file_size := atol response in
      if decide (file_size < 0)%Z then
        log_job job (λ _, lit "[PULL] [ERROR] [File: " ++ job_filename job ++ lit " - " ++
          drop (S space_pos) response ++ lit "]") ;;;
        close_both source_fd target_fd ;;;
        ret (-1)%Z
      else sync_content job target_path source_fd target_fd data (S space_pos) file_size
  end.

Definition sync_single_file (job : sync_job) : M os Z :=
  let source_path := snprintf (MAX_PATH * 2) (job_source_dir job ++ lit "/" ++ job_filename job) in
  let target_path := snprintf (MAX_PATH * 2) (job_target_dir job ++ lit "/" ++ job_filename job) in
  source_fd <- connect_to_server (Some (job_source_host job)) (job_source_port job) ;;
  if decide (source_fd < 0)%Z then
    log_job job (λ o, lit "[PULL] [ERROR] [Connection failed to source: " ++ errtext o ++ lit "]") ;;;
    ret (-1)%Z
  else
  target_fd <- connect_to_server (Some (job_target_host job)) (job_target_port job) ;;
  if decide (target_fd < 0)%Z then
    log_job job (λ o, lit "[PUSH] [ERROR] [Connection failed to target: " ++ errtext o ++ lit "]") ;;;
    sys_close source_fd ;;;
    ret (-1)%Z
  else sync_connected job source_path target_path source_fd target_fd.

(** ** Descriptors *)

(** Only the descriptors in [X] changed. *)
Definition only (X : gset Z) (o o' : os) : Prop := ∀ k, k ∉ X → fds o' !! k = fds o !! k.

Lemma only_refl X o : only X o o.
Proof. done. Qed.

Lemma only_trans X o1 o2 o3 : only X o1 o2 → only X o2 o3 → only X o1 o3.
Proof. intros H1 H2 k Hk. by rewrite H2, H1. Qed.

Lemma only_sub X Y o o' : X ⊆ Y → only X o o' → only Y o o'.
Proof. intros HXY H k Hk. apply H. set_solver. Qed.

Lemma only_sent fd o o' : sent_on fd o o' → only {[fd]} o o'.
Proof.
  unfold only. intros [_ _ _ [->|(s & s' & _ & -> & _)]] k Hk; [done|].
  rewrite lookup_insert_ne; [done|set_solver].
Qed.

Lemma only_close fd o : only {[fd]} o (close_fd fd o).
Proof. intros k Hk. simpl. rewrite lookup_delete_ne; [done|set_solver]. Qed.

Lemma wp_send_command fd command o Q :
  (∀ r o', sent_on fd o o' → Q r o') → wp (send_command fd (Some command)) Q o.
Proof.
  intros HQ. unfold send_command. apply wpb_bind, wp_send_any. intros r o' H _ _.
  case_decide; [by apply wpb_ret, HQ|]. case_decide; by apply wpb_ret, HQ.
Qed.

Lemma wp_push_chunk fd path chunk o Q :
  (∀ o', sent_on fd o o' → Q tt o') → wp (push_chunk fd path chunk) Q o.
Proof.
  intros HQ. apply wpb_bind, wp_send_command. intros r o1 H1. apply wpb_bind, wp_send_any.
  intros r2 o2 H2 _ _. apply wpb_ret, HQ. by etrans.
Qed.

(** The copying loop ends; only the two connections change. *)
Lemma wp_transfer fuel s t path size total o Q :
  rx_left s o < fuel → (∀ n o', only {[s; t]} o o' → Q n o') →
  wp (transfer fuel s t path size total) Q o.
Proof.
  revert total o. induction fuel as [|f IH]; intros total o Hf HQ; [lia|]. cbn [transfer].
  destruct (decide (size <= total)%Z); [by apply wpb_ret, HQ, only_refl|].
  apply wpb_bind, wp_recv. intros r d o1 Hr N1 Hoth.
  assert (only {[s; t]} o o1) as H1 by (intros k Hk; apply Hoth; set_solver).
  destruct Hr as [->|(-> & Hd & El)]; cbn iota beta; [by apply wpb_ret, HQ|].
  destruct (decide (Z.of_nat (length d) <= 0)%Z); [by apply wpb_ret, HQ|].
  apply wpb_bind, wp_push_chunk. intros o2 H2. apply IH.
  - rewrite (sent_on_rx _ _ _ s H2). lia.
  - intros z o3 H3. apply HQ. apply (only_trans _ _ o1); [done|]. apply (only_trans _ _ o2); [|done].
    eapply only_sub; [|by apply only_sent]. set_solver.
Qed.

(** The log file, if any, is open. *)
Definition log_open (o : os) : Prop :=
  ∀ k, logfile = Some k → ∃ p off, fds o !! k = Some (FFile p off).

(** Only the log file changed. *)
Definition logged (o o' : os) : Prop :=
  log_open o' ∧ ∀ k, logfile ≠ Some k → fds o' !! k = fds o !! k.

Lemma wp_log_job job rest o Q :
  log_open o → (∀ o', logged o o' → Q tt o') → wp (log_job job rest) Q o.
Proof.
  intros Hlog HQ. unfold log_job. destruct logfile as [fd|] eqn:Efd; [|by apply wpb_ret, HQ].
  apply wpb_bind, wpb_gets. unfold append_log. apply wpb_modify.
  destruct (Hlog fd Efd) as (p & off & E). rewrite E. apply HQ. split.
  - intros k Hk. rewrite Efd in Hk. injection Hk as <-. simpl. rewrite lookup_insert_eq. eauto.
  - intros k Hk. simpl. rewrite lookup_insert_ne; [done|]. congruence.
Qed.

(** [o'] is [o] as far as descriptors go, up to the log file and up to [X]. *)
Definition restored (X : gset Z) (o o' : os) : Prop :=
  log_open o' ∧ ∀ k, k ∉ X → logfile ≠ Some k → fds o' !! k = fds o !! k.

Lemma restored_only X Y o o1 o2 :
  restored X o o1 → only Y o1 o2 → Y ⊆ X → (∀ k, logfile = Some k → k ∉ Y) → restored X o o2.
Proof.
  intros [H1 H2] H3 HYX HY. split.
  - intros k Hk. rewrite H3 by auto. by apply H1.
  - intros k Hk Hl. rewrite H3 by set_solver. by apply H2.
Qed.

Lemma restored_logged X o o1 o2 : restored X o o1 → logged o1 o2 → restored X o o2.
Proof. intros [_ H2] [H3 H4]. split; [done|]. intros k Hk Hl. by rewrite H4, H2. Qed.

(** Closing a descriptor that was not open before. *)
Lemma restored_close fd X o o1 :
  restored (X ∪ {[fd]}) o o1 → fds o !! fd = None → (∀ k, logfile = Some k → k ≠ fd) →
  restored X o (close_fd fd o1).
Proof.
  intros [H1 H2] Hf Hl. split.
  - intros k Hk. simpl. rewrite lookup_delete_ne by (intros <-; by eapply Hl). by apply H1.
  - intros k Hk Hlk. simpl. destruct (decide (k = fd)) as [->|Hne].
    + by rewrite lookup_delete_eq, Hf.
    + rewrite lookup_delete_ne by done. apply H2; [set_solver|done].
Qed.

Section connected.
Context (o : os) (s t : Z).
Hypothesis Hs : fds o !! s = None.
Hypothesis Ht : fds o !! t = None.
Hypothesis Hl : ∀ k, logfile = Some k → k ≠ s ∧ k ≠ t.

Lemma restored_conn o1 o2 : restored {[s; t]} o o1 → only {[s; t]} o1 o2 → restored {[s; t]} o o2.
Proof.
  intros H1 H2. eapply restored_only; [done|done|done|]. intros k Hk. destruct (Hl k Hk).
  intros [?%elem_of_singleton|?%elem_of_singleton]%elem_of_union; done.
Qed.

Lemma restored_sent o1 o2 k :
  restored {[s; t]} o o1 → sent_on k o1 o2 → k = s ∨ k = t → restored {[s; t]} o o2.
Proof.
  intros H1 H2 Hk. eapply restored_conn; [done|]. eapply only_sub; [|by apply only_sent]. set_solver.
Qed.

Lemma wp_close_both o1 Q :
  restored {[s; t]} o o1 → (∀ o2, restored ∅ o o2 → Q tt o2) → wp (close_both s t) Q o1.
Proof.
  intros Hr HQ. apply wpb_bind, wpb_modify, wpb_modify, HQ.
  apply restored_close; [|done|by intros; apply Hl].
  apply restored_close; [|done|by intros; apply Hl].
  by replace (∅ ∪ {[t]} ∪ {[s]}) with ({[s; t]} : gset Z) by set_solver.
Qed.

(** Giving up: both connections are closed. *)
Lemma wp_give_up o1 (Q : Z → os → Prop) :
  restored {[s; t]} o o1 → (∀ o2, restored ∅ o o2 → Q (-1)%Z o2) →
  wp (close_both s t ;;; ret (-1)%Z) Q o1.
Proof. intros Hr HQ. apply wpb_bind, wp_close_both; [done|]. intros o2 H2. by apply wpb_ret, HQ. Qed.

Lemma wp_sync_content job path data hl size o1 Q :
  restored {[s; t]} o o1 → (∀ r o2, r = 0%Z ∨ r = (-1)%Z → restored ∅ o o2 → Q r o2) →
  wp (sync_content job path s t data hl size) Q o1.
Proof.
  intros H1 HQ. unfold sync_content. apply wpb_bind, wp_send_command. intros r o2 H2.
  assert (restored {[s; t]} o o2) as R2 by (eapply restored_sent; eauto).
  case_decide; [apply wp_give_up; [done|by intros; apply HQ; [right|]]|].
  apply wpb_bind. assert (∀ o3, restored {[s; t]} o o3 → wp (n <- gets (rx_left s) ;;
    total_transferred <- transfer (S n) s t path size (Z.of_nat (length (drop hl data))) ;;
    send_command t (Some (push_command path 0 NL)) ;;; close_both s t ;;;
    log_job job (λ _, lit "[PULL] [SUCCESS] [" ++ dec total_transferred ++ lit " bytes pulled]") ;;;
    log_job job (λ _, lit "[PUSH] [SUCCESS] [" ++ dec total_transferred ++ lit " bytes pushed]") ;;;
    ret 0%Z) Q o3) as Hrest.
  { intros o3 R3. apply wpb_bind, wpb_gets, wpb_bind, wp_transfer; [lia|]. intros n o4 H4.
    apply wpb_bind, wp_send_command. intros r5 o5 H5. apply wpb_bind, wp_close_both.
    { eapply restored_sent; [|exact H5|by right]. by eapply restored_conn. }
    intros o6 R6. apply wpb_bind, wp_log_job; [apply R6|]. intros o7 H7.
    apply wpb_bind, wp_log_job; [apply H7|]. intros o8 H8. apply wpb_ret, HQ; [by left|].
    eapply restored_logged; [|exact H8]. by eapply restored_logged. }
  case_decide; [|by apply wpb_ret, Hrest]. apply wp_push_chunk. intros o3 H3. apply Hrest.
  eapply restored_sent; eauto.
Qed.

Lemma wp_sync_connected job sp tp o1 Q :
  restored {[s; t]} o o1 → (∀ r o2, r = 0%Z ∨ r = (-1)%Z → restored ∅ o o2 → Q r o2) →
  wp (sync_connected job sp tp s t) Q o1.
Proof.
  intros H1 HQ. unfold sync_connected. apply wpb_bind, wp_send_command. intros r o2 H2.
  assert (restored {[s; t]} o o2) as R2 by (eapply restored_sent; eauto).
  assert (∀ o3, restored {[s; t]} o o3 → wp (close_both s t ;;; ret (-1)%Z) Q o3) as Hgive.
  { intros o3 R3. apply wp_give_up; [done|]. intros; apply HQ; [by right|done]. }
  case_decide; [by apply Hgive|]. apply wpb_bind, wp_recv. intros p d o3 Hp N3 Hoth.
  assert (restored {[s; t]} o o3) as R3.
  { eapply restored_conn; [done|]. intros k Hk. apply Hoth. clear -Hk. set_solver. }
  destruct p as [received data]. case_decide; [by apply Hgive|].
  destruct (strchr _ _) as [n|]; [|by apply Hgive]. case_decide; [|by apply wp_sync_content].
  apply wpb_bind, wp_log_job; [apply R3|]. intros o4 H4. apply Hgive. by eapply restored_logged.
Qed.
End connected.

Lemma wp_sync_outcome (job : sync_job) (o : os) :
  log_open o → wp (sync_single_file job) (λ r o', (r = 0%Z ∨ r = (-1)%Z) ∧ log_open o' ∧
    ∀ k, logfile ≠ Some k → fds o' !! k = fds o !! k) o.
Proof.
  intros Hlog.
  assert (∀ z o', z = 0%Z ∨ z = (-1)%Z → restored ∅ o o' →
    (z = 0%Z ∨ z = (-1)%Z) ∧ log_open o' ∧ ∀ k, logfile ≠ Some k → fds o' !! k = fds o !! k) as Hend.
  { intros z o' Hz [H1 H2]. split_and!; [done|done|]. intros k Hk. apply H2; [set_solver|done]. }
  unfold sync_single_file. apply wpb_bind, connect_to_server_spec.
  { intros o1 [E _ _]. rewrite decide_True by lia.
    assert (restored ∅ o o1) as R1 by (split; [intros k Hk; rewrite E; by apply Hlog|by intros; rewrite E]).
    apply wpb_bind, wp_log_job; [apply R1|].
    intros o2 H2. apply wpb_ret, Hend; [by right|]. by eapply restored_logged. }
  intros s sk o1 Hs0 Hs [E1 _ _] _. rewrite decide_False by lia.
  assert (∀ k, logfile = Some k → k ≠ s) as Hls.
  { intros k Hk ->. destruct (Hlog s Hk) as (p & off & E). congruence. }
  assert (restored {[s]} o o1) as R1.
  { split; intros k; intros; rewrite E1, lookup_insert_ne; [by apply Hlog|by apply not_eq_sym, Hls|done|set_solver]. }
  apply wpb_bind, connect_to_server_spec.
  - intros o2 [E2 _ _]. rewrite decide_True by lia.
    assert (restored {[s]} o o2) as R2 by (destruct R1; split; [intros k Hk; rewrite E2; auto|by intros; rewrite E2; auto]).
    apply wpb_bind, wp_log_job; [apply R2|]. intros o3 H3. apply wpb_bind, wpb_modify, wpb_ret, Hend; [by right|].
    apply restored_close; [|done|done]. rewrite union_empty_l_L. by eapply restored_logged.
  - intros t tk o2 Ht0 Ht [E2 _ _] _. rewrite decide_False by lia.
    assert (t ≠ s) as Hts by (intros ->; rewrite E1, lookup_insert_eq in Ht; done).
    assert (∀ k, logfile = Some k → k ≠ t) as Hlt.
    { intros k Hk ->. destruct (Hlog t Hk) as (p & off & E). rewrite E1, lookup_insert_ne in Ht by done. congruence. }
    eapply (wp_sync_connected o s t); [done| |by auto| |done].
    + by rewrite E1, lookup_insert_ne in Ht.
    + destruct R1 as [A B]. split; intros k; intros; rewrite E2, lookup_insert_ne;
        [by apply A|by apply not_eq_sym, Hlt|apply B; [set_solver|done]|set_solver].
Qed.

Lemma wp_sync (job : sync_job) (o : os) :
  log_open o → wp (sync_single_file job) (λ _ o', log_open o' ∧
    ∀ k, logfile ≠ Some k → fds o' !! k = fds o !! k) o.
Proof. intros H. eapply wpb_mono; [by apply wp_sync_outcome|]. by intros r o' (_ & ? & ?). Qed.


(** ** What the target is sent *)

(** The messages of a PUSH session that carries [chunks]. *)
Definition chunk_messages (path : bytes) (chunks : list bytes) : list bytes :=
  concat ((λ d, [push_command path (Z.of_nat (length d)) SP; d]) <$> chunks).

Definition push_session (path : bytes) (chunks : list bytes) : list bytes :=
  [push_command path (-1) NL] ++ chunk_messages path chunks ++ [push_command path 0 NL].

(** The two connections at [s] and [t]. *)
Definition conn2 (s t : Z) (cs ct : sock) (o : os) : os :=
  set_fds (λ m, <[t := FSock ct]> (<[s := FSock cs]> m)) o.

(** Nothing scripted to fail or to be cut short. *)
Definition smooth (c : sock) : Prop := tx_script c = [].

Lemma sent_all_nil c : sent_all c [] = c.
Proof. destruct c. unfold sent_all. simpl. by rewrite app_nil_r. Qed.

Lemma sent_all_app c l1 l2 : sent_all (sent_all c l1) l2 = sent_all c (l1 ++ l2).
Proof. unfold sent_all. simpl. by rewrite app_assoc. Qed.

Section smooth.
Context (s t : Z) (Hst : s ≠ t).
Implicit Types (cs ct : sock) (o : os).

Lemma conn2_t cs ct o : fds (conn2 s t cs ct o) !! t = Some (FSock ct).
Proof. simpl. apply lookup_insert_eq. Qed.

Lemma conn2_s cs ct o : fds (conn2 s t cs ct o) !! s = Some (FSock cs).
Proof. simpl. rewrite lookup_insert_ne by done. apply lookup_insert_eq. Qed.

Lemma conn2_set_t cs ct ct' o : set_fds <[t := FSock ct']> (conn2 s t cs ct o) = conn2 s t cs ct' o.
Proof. unfold conn2, set_fds. simpl. by rewrite insert_insert_eq. Qed.

Lemma conn2_set_s cs cs' ct o : set_fds <[s := FSock cs']> (conn2 s t cs ct o) = conn2 s t cs' ct o.
Proof.
  unfold conn2, set_fds. simpl. by rewrite (insert_insert_ne _ s t), insert_insert_eq by done.
Qed.

Lemma send_t m cs ct o :
  smooth ct → m ≠ [] →
  sys_send t m (conn2 s t cs ct o) = Ret (Z.of_nat (length m)) (conn2 s t cs (sent_all ct [m]) o).
Proof. intros Hc Hm. rewrite (send_whole t ct) by (done || apply conn2_t). by rewrite conn2_set_t. Qed.

Lemma command_t m cs ct o :
  smooth ct → m ≠ [] →
  send_command t (Some m) (conn2 s t cs ct o) = Ret 0%Z (conn2 s t cs (sent_all ct [m]) o).
Proof.
  intros Hc Hm. unfold send_command. erewrite bind_Ret by (by apply send_t).
  rewrite decide_False by lia. by rewrite decide_False by auto.
Qed.

Lemma command_s m cs ct o :
  smooth cs → m ≠ [] →
  send_command s (Some m) (conn2 s t cs ct o) = Ret 0%Z (conn2 s t (sent_all cs [m]) ct o).
Proof.
  intros Hc Hm. unfold send_command. erewrite bind_Ret.
  2: { rewrite (send_whole s cs) by (done || apply conn2_s). rewrite conn2_set_s. reflexivity. }
  rewrite decide_False by lia. by rewrite decide_False by auto.
Qed.

Lemma push_command_ne path z c : push_command path z c ≠ [].
Proof. done. Qed.

Lemma push_chunk_t path d cs ct o :
  smooth ct → d ≠ [] →
  push_chunk t path d (conn2 s t cs ct o) =
    Ret tt (conn2 s t cs (sent_all ct (chunk_messages path [d])) o).
Proof.
  intros Hc Hd. unfold push_chunk. erewrite bind_Ret by (by apply command_t).
  erewrite bind_Ret by (by apply send_t). by rewrite sent_all_app.
Qed.

(** A portion that fits the buffer is received whole. *)
Lemma recv_portion m d l cs ct o :
  rx cs = d :: l → d ≠ [] → length d ≤ m →
  sys_recv s m (conn2 s t cs ct o) =
    Ret (Z.of_nat (length d), d) (conn2 s t (Sock l (rx_reset cs) (tx cs) (tx_script cs)) ct o).
Proof.
  intros Hrx Hd Hm. assert (0 < length d) by (destruct d; simpl; [done|lia]).
  rewrite (recv_some s m cs d l) by (done || lia || apply conn2_s).
  rewrite take_ge by done. rewrite conn2_set_s. unfold received. rewrite Hrx, cut_first.
  by rewrite decide_False by done.
Qed.

Definition portion_ok (d : bytes) : Prop := d ≠ [] ∧ length d ≤ MAX_BUFFER_SIZE.

(** The loop passes every portion on as a chunk, and takes no more than it was
    told the size of. *)
Lemma transfer_relays fuel path l rest size total cs ct o :
  rx cs = l ++ rest → smooth ct → Forall portion_ok l → length l < fuel →
  (total + Z.of_nat (length (concat l)) = size)%Z →
  transfer fuel s t path size total (conn2 s t cs ct o) =
    Ret size (conn2 s t (Sock rest (rx_reset cs) (tx cs) (tx_script cs))
      (sent_all ct (chunk_messages path l)) o).
Proof.
  intros Hrx Hct Hl. revert fuel total cs ct Hrx Hct.
  induction Hl as [|d l [Hd Hm] Hl IH]; intros fuel total cs ct Hrx Hct Hf Hsz;
    destruct fuel as [|f]; try (simpl in Hf; lia).
  - cbn [transfer concat length] in *. rewrite decide_True by lia.
    replace total with size by lia. destruct cs as [r0 r1 r2 r3]. simpl in *. subst.
    unfold chunk_messages. simpl. by rewrite sent_all_nil.
  - assert (0 < length d) by (destruct d; simpl; [done|lia]).
    cbn [transfer concat] in *. rewrite length_app in Hsz. rewrite decide_False by lia.
    erewrite bind_Ret by (by eapply recv_portion). cbn iota beta. rewrite decide_False by lia.
    erewrite bind_Ret by (by apply push_chunk_t).
    erewrite IH; [|done|done|simpl in Hf; lia|lia]. simpl rx_reset. simpl tx. simpl tx_script.
    by rewrite sent_all_app.
Qed.

(** The chunks made of the first portion's data and of the later portions. *)
Definition chunks_of (d0 : bytes) (l : list bytes) : list bytes := if decide (d0 = []) then l else d0 :: l.

(** The connections [l] were closed between [o] and [o'], and the scripts are as before. *)
Record closes (l : list sock) (o o' : os) : Prop := {
  cl_closed : closed o' = closed o ++ l;
  cl_sys : sys o' = sys o;
  cl_dials : dials o' = dials o
}.

Lemma closes_trans l1 l2 o1 o2 o3 : closes l1 o1 o2 → closes l2 o2 o3 → closes (l1 ++ l2) o1 o3.
Proof. intros [A1 A2 A3] [B1 B2 B3]. split; try congruence. by rewrite B1, A1, app_assoc. Qed.

Lemma log_job_closes job rest o : ∃ o', log_job job rest o = Ret tt o' ∧ closes [] o o'.
Proof.
  unfold log_job. destruct logfile as [fd|]; [|exists o; split; [done|by split; rewrite ?app_nil_r]].
  unfold bind, gets, append_log, modify.
  eexists. split; [done|]. by destruct (fds o !! fd) as [[]|]; split; rewrite ?app_nil_r.
Qed.

Lemma close_both_closes cs ct o :
  ∃ o', close_both s t (conn2 s t cs ct o) = Ret tt o' ∧ closes [cs; ct] o o'.
Proof.
  unfold close_both, bind, sys_close, modify. eexists. split; [done|]. split; [|done..]. unfold close_fd. simpl.
  rewrite lookup_delete_ne, lookup_insert_eq by done. rewrite lookup_insert_ne, lookup_insert_eq by done.
  by rewrite <-app_assoc.
Qed.

Lemma sync_content_relays job path header d0 l rest cs ct o :
  rx cs = l ++ rest → smooth ct → Forall portion_ok l →
  ∃ o', sync_content job path s t (header ++ d0) (length header)
      (Z.of_nat (length (d0 ++ concat l))) (conn2 s t cs ct o) = Ret 0%Z o' ∧
    closes [Sock rest (rx_reset cs) (tx cs) (tx_script cs);
      sent_all ct (push_session path (chunks_of d0 l))] o o'.
Proof.
  intros Hrx Hct Hl. unfold sync_content. erewrite bind_Ret by (by apply command_t).
  rewrite decide_False by auto. rewrite drop_app_length, length_app.
  set (ct1 := sent_all ct [push_command path (-1) NL]).
  erewrite (bind_Ret (if decide _ then _ else _)
    _ _ tt (conn2 s t cs (sent_all ct1 (if decide (d0 = []) then [] else chunk_messages path [d0])) o)).
  2: { case_decide as Hlt; case_decide as H0; subst; simpl in *; try lia.
       - by apply push_chunk_t.
       - unfold ret. by rewrite sent_all_nil.
       - destruct d0; [done|]. simpl in *. lia. }
  unfold bind at 1, gets. erewrite bind_Ret.
  2: { apply (transfer_relays _ path l rest _ _ cs); [done|done|done| |rewrite length_app; lia].
       unfold rx_left. rewrite conn2_s, Hrx, concat_app, length_app by done. clear -Hl.
       induction Hl as [|d l [Hd _] Hl IH]; simpl; [lia|]. rewrite length_app.
       destruct d; [done|]. simpl. lia. }
  erewrite bind_Ret by (by apply command_t). rewrite !sent_all_app.
  destruct (close_both_closes (Sock rest (rx_reset cs) (tx cs) (tx_script cs))
    (sent_all ct (push_session path (chunks_of d0 l))) o) as (o1 & E1 & C1).
  erewrite bind_Ret.
  2: { rewrite <-E1. do 2 f_equal. unfold ct1, push_session, chunks_of. rewrite !sent_all_app. f_equal.
       case_decide; simpl; by rewrite <-?app_assoc. }
  match goal with |- context [bind (log_job job ?f) _ _] => destruct (log_job_closes job f o1) as (o2 & E2 & C2) end.
  erewrite bind_Ret by exact E2.
  match goal with |- context [bind (log_job job ?f) _ _] => destruct (log_job_closes job f o2) as (o3 & E3 & C3) end.
  erewrite bind_Ret by exact E3. exists o3. split; [done|].
  exact (closes_trans _ _ _ _ _ C1 (closes_trans _ _ _ _ _ C2 C3)).
Qed.

(** The header in front of the file, as PULL sends it. *)
Definition size_header (z : Z) : bytes := dec z ++ [SP].

Lemma header_parses z d :
  (0 ≤ z ≤ long_max)%Z →
  strchr (cstr (size_header z ++ d)) SP = Some (length (dec z)) ∧ atol (cstr (size_header z ++ d)) = z.
Proof.
  intros Hz. unfold size_header. assert (NUL ∉ dec z ++ [SP]) as Hn.
  { intros [Hin|Hin%list_elem_of_singleton]%elem_of_app; [|done].
    revert Hin. by apply dec_not_in. }
  rewrite cstr_app by done. rewrite <-app_assoc. split.
  - apply strchr_app. by apply dec_not_in.
  - apply atol_dec; [unfold long_min; lia|]. by apply stops_cons.
Qed.

Lemma sync_connected_relays job sp tp d0 l rest cs ct o :
  let size := Z.of_nat (length (d0 ++ concat l)) in
  (size ≤ long_max)%Z → rx cs = (size_header size ++ d0) :: l ++ rest →
  length (size_header size ++ d0) < MAX_BUFFER_SIZE → smooth cs → smooth ct → Forall portion_ok l →
  ∃ o', sync_connected job sp tp s t (conn2 s t cs ct o) = Ret 0%Z o' ∧
    closes
      [Sock rest (rx_reset cs) (tx cs ++ [snprintf MAX_COMMAND_SIZE (lit "PULL " ++ sp ++ [NL])]) (tx_script cs);
       sent_all ct (push_session tp (chunks_of d0 l))] o o'.
Proof.
  intros size Hsz Hrx Hfit Hcs Hct Hl. unfold sync_connected.
  erewrite bind_Ret by (by apply command_s). rewrite decide_False by auto.
  erewrite bind_Ret.
  2: { eapply recv_portion; [exact Hrx|unfold size_header; by destruct (dec size)|lia]. }
  cbn iota beta. rewrite decide_False.
  2: { unfold size_header. rewrite !length_app. simpl. lia. }
  destruct (header_parses size d0) as [E1 E2]; [lia|]. rewrite E1, E2. rewrite decide_False by lia.
  replace (S (length (dec size))) with (length (size_header size)).
  2: { unfold size_header. rewrite length_app. simpl. lia. }
  by apply (sync_content_relays job tp (size_header size) d0 l rest (Sock (l ++ rest) _ _ _)).
Qed.
End smooth.

(** The path [sync_single_file] makes of a directory and a file name. *)
Definition job_path (dir filename : bytes) : bytes := snprintf (MAX_PATH * 2) (dir ++ lit "/" ++ filename).

(** A file of any size, whatever the portions, and whatever [rest] comes after it. *)
Lemma sync_relays (job : sync_job) (d0 : bytes) (l rest : list bytes) (cs ct : sock)
    (ds : list (option sock)) (o : os)
    (Hsys : sys o = []) (Hdials : dials o = Some cs :: Some ct :: ds)
    (Hsource : inet_pton (job_source_host job) = 1%Z) (Htarget : inet_pton (job_target_host job) = 1%Z)
    (Hcs : smooth cs) (Hct : smooth ct)
    (Hrx : rx cs = (size_header (Z.of_nat (length (d0 ++ concat l))) ++ d0) :: l ++ rest)
    (Hfirst : length (size_header (Z.of_nat (length (d0 ++ concat l))) ++ d0) < MAX_BUFFER_SIZE)
    (Hl : Forall portion_ok l) (Hsize : (Z.of_nat (length (d0 ++ concat l)) ≤ long_max)%Z) :
  ∃ o', sync_single_file job o = Ret 0%Z o' ∧
    closed o' = closed o ++
      [Sock rest (rx_reset cs) (tx cs ++ [snprintf MAX_COMMAND_SIZE
          (lit "PULL " ++ job_path (job_source_dir job) (job_filename job) ++ [NL])]) (tx_script cs);
       sent_all ct (push_session (job_path (job_target_dir job) (job_filename job)) (chunks_of d0 l))] ∧
    sys o' = [] ∧ dials o' = ds.
Proof.
  unfold sync_single_file. erewrite bind_Ret by (by eapply connect_ok).
  rewrite decide_False by (pose proof (new_fd_nonneg (fds o)); lia).
  set (s := new_fd (fds o)). set (o1 := set_fds _ _).
  erewrite bind_Ret by (eapply connect_ok; [done|done|by simpl; rewrite Hdials]).
  rewrite decide_False by (pose proof (new_fd_nonneg (fds o1)); lia).
  assert (s ≠ new_fd (fds o1)) as Hst.
  { intros E. pose proof (new_fd_fresh (fds o1)) as Hf. rewrite <-E in Hf. simpl in Hf.
    by rewrite lookup_insert_eq in Hf. }
  destruct (sync_connected_relays s (new_fd (fds o1)) Hst job
    (job_path (job_source_dir job) (job_filename job)) (job_path (job_target_dir job) (job_filename job))
    d0 l rest cs ct (set_dial tail (λ d, d ++ [(job_target_host job, htons (job_target_port job))])
      (set_dial tail (λ d, d ++ [(job_source_host job, htons (job_source_port job))]) o)))
    as (o' & E & [C1 C2 C3]); [done..|]. exists o'. split; [exact E|]. split; [exact C1|].
  rewrite C2, C3. simpl. by rewrite Hsys, Hdials.
Qed.

(** What a worker does for a file: if both clients accept the connection
    and the source answers with the size header and then the file, in
    portions that fit the buffers and with the whole header in the first one,
    the source was sent one PULL command, the target was sent the PUSH
    session that carries the file's bytes in order, a chunk per portion, and
    the result is 0. *)
Theorem sync_relays_file (job : sync_job) (d0 : bytes) (l : list bytes) (cs ct : sock)
    (ds : list (option sock)) (o : os)
    (Hsys : sys o = []) (Hdials : dials o = Some cs :: Some ct :: ds)
    (Hsource : inet_pton (job_source_host job) = 1%Z) (Htarget : inet_pton (job_target_host job) = 1%Z)
    (Hcs : smooth cs) (Hct : smooth ct)
    (Hrx : rx cs = (size_header (Z.of_nat (length (d0 ++ concat l))) ++ d0) :: l)
    (Hfirst : length (size_header (Z.of_nat (length (d0 ++ concat l))) ++ d0) < MAX_BUFFER_SIZE)
    (Hl : Forall portion_ok l) (Hsize : (Z.of_nat (length (d0 ++ concat l)) ≤ long_max)%Z) :
  ∃ o', sync_single_file job o = Ret 0%Z o' ∧
    closed o' = closed o ++
      [Sock [] (rx_reset cs) (tx cs ++ [snprintf MAX_COMMAND_SIZE
          (lit "PULL " ++ job_path (job_source_dir job) (job_filename job) ++ [NL])]) (tx_script cs);
       sent_all ct (push_session (job_path (job_target_dir job) (job_filename job)) (chunks_of d0 l))].
Proof.
  destruct (sync_relays job d0 l [] cs ct ds o) as (o' & E & C & _); try done; [by rewrite app_nil_r|]. by exists o'.
Qed.
End worker.

(** ** An example *)

Definition xfer_job : sync_job :=
  SyncJob (lit "127.0.0.1") 9001 (lit "/src") (lit "127.0.0.1") 9002 (lit "/dst") (lit "f") NULL.

(** The source sends "5 he" and then "llo". *)
Definition xfer_os : os :=
  Os {[3%Z := FFile (lit "log") 0]} {[lit "log" := []]} ∅ []
    [Some (Sock [lit "5 he"; lit "llo"] false [] []); Some (Sock [] false [] [])] [] []
    (Tm 125 0 1 0 0 0) [] [].


Lemma sync_relays_file_witness :
  ∃ o', sync_single_file (Some 3%Z) 7 xfer_job xfer_os = Ret 0%Z o' ∧
    tx <$> closed o' =
      [[lit "PULL /src/f" ++ [NL]];
       [lit "PUSH /dst/f -1" ++ [NL]; lit "PUSH /dst/f 2 "; lit "he"; lit "PUSH /dst/f 3 "; lit "llo";
        lit "PUSH /dst/f 0" ++ [NL]]].
Proof.
  destruct (sync_relays_file (Some 3%Z) 7 xfer_job (lit "he") [lit "llo"]
    (Sock [lit "5 he"; lit "llo"] false [] []) (Sock [] false [] []) [] xfer_os) as (o' & E & C).
  1-7: reflexivity.
  - apply (bool_decide_unpack _). vm_compute. exact I.
  - apply (bool_decide_unpack _). vm_compute. exact I.
  - unfold long_max. simpl. lia.
  - exists o'. split; [exact E|]. rewrite C. vm_compute. reflexivity.
Defined.
