(* ===== verification/JobSink.v ===== *)
(** * What the manager relies on of the thread pool

    [JobSink] is the interface between [nfs_manager_logic.c] and
    [thread_pool.c]: the calls the manager makes, the sequence of the jobs the
    pool has accepted, and what each call does to it.  [JobQueue.v] proves
    that the linked queue of [thread_pool.c] is an instance; [Manager.v] is
    stated for every instance. *)
From S2P Require Import Prelude.
From S2P Require Import CString.
From S2P Require Import Common.
From stdpp Require Import gmap strings list.
From Stdlib Require Import Ascii ZArith Lia.

(** The job [create_sync_job] makes of its arguments. *)
Definition make_job (source_host : bytes) (source_port : Z) (source_dir : bytes)
    (target_host : bytes) (target_port : Z) (target_dir : bytes) (filename : bytes) : sync_job :=
  SyncJob
    (strncpy_z MAX_HOST_SIZE source_host) source_port (strncpy_z MAX_PATH source_dir)
    (strncpy_z MAX_HOST_SIZE target_host) target_port (strncpy_z MAX_PATH target_dir)
    (strncpy_z MAX_FILENAME filename) NULL.

Class JobSink (P : Type) := {
  (* create_thread_pool: thread count, buffer size, and a script that says
     which allocations, initialisations and thread creations succeed *)
  sink_new : Z → Z → list bool → ptr P;
  sink_create : sync_job → M P (ptr loc);       (* create_sync_job *)
  sink_enqueue : ptr loc → M P Z;               (* enqueue_sync_job *)
  sink_free : ptr loc → M P unit;               (* free_sync_job *)
  sink_shutdown : M P unit;                     (* signal_shutdown *)
  sink_destroy : M P unit;                      (* destroy_thread_pool *)

  sink_inv : P → Prop;                          (* between two calls *)
  sink_accepted : P → list sync_job;            (* every job accepted so far *)
  sink_closed : P → bool;                       (* shutdown signalled *)
  sink_owned : P → loc → sync_job → Prop;       (* the caller's own block *)
  sink_room : P → nat → Prop;                   (* that many jobs can be added at once *)

  sink_new_spec n b script p :
    (0 < n)%Z → (0 < b ≤ int_max)%Z → sink_new n b script = Some p →
    sink_inv p ∧ sink_accepted p = [] ∧ sink_closed p = false ∧ sink_room p (Z.to_nat b);
  sink_create_spec j p :
    sink_inv p → job_next j = NULL →
    wlp (sink_create j) (λ r p', sink_inv p' ∧ sink_accepted p' = sink_accepted p ∧
      sink_closed p' = sink_closed p ∧ ∀ a, r = Some a → sink_owned p' a j) p;
  sink_enqueue_spec a j p :
    sink_inv p → sink_owned p a j →
    wlp (sink_enqueue (Some a)) (λ r p', sink_inv p' ∧
      (r = 0%Z ∧ sink_closed p' = false ∧ sink_accepted p' = sink_accepted p ++ [j] ∨
       r = (-1)%Z ∧ sink_closed p' = true ∧ sink_accepted p' = sink_accepted p ∧
       sink_owned p' a j)) p;
  sink_room_spec n j p :
    sink_inv p → sink_room p (S n) → job_next j = NULL →
    wp (sink_create j) (λ r p1, ∃ a, r = Some a ∧
      wp (sink_enqueue (Some a)) (λ z p2, z = 0%Z ∧ sink_inv p2 ∧
        sink_accepted p2 = sink_accepted p ++ [j] ∧ sink_room p2 n) p1) p;
  sink_free_spec a j p :
    sink_inv p → sink_owned p a j →
    wlp (sink_free (Some a)) (λ _ p', sink_inv p' ∧ sink_accepted p' = sink_accepted p ∧
      sink_closed p' = sink_closed p) p;
  sink_shutdown_spec p :
    sink_inv p →
    wp sink_shutdown (λ _ p', sink_inv p' ∧ sink_accepted p' = sink_accepted p ∧
      sink_closed p' = true) p;
  sink_destroy_spec p :
    sink_inv p → wp sink_destroy (λ _ _, True) p
}.
