(* ===== verification/JobQueue.v ===== *)
(** * The job queue of the thread pool: [src/thread_pool.c], seen by one caller

    A pool is a bounded queue of heap-allocated jobs linked through their
    [next] fields, with a head and a tail pointer, a mutex and a shutdown
    flag.  This file models the job blocks, the queue assignments
    ([link_job], [unlink_job]), [enqueue_sync_job] and [dequeue_sync_job]
    with their waiting loops, and [signal_shutdown].  What the other threads
    do while the caller waits on a condition variable is a script of
    [act]s; [PoolSteps.v] has the threads themselves. *)
From S2P Require Import Prelude.
From S2P Require Import LinkedList.
From S2P Require Import CString.
From S2P Require Import Common.
From S2P Require Import JobSink.
From stdpp Require Import gmap strings list.
From Stdlib Require Import Ascii ZArith Lia.

(** ** State *)

Record thread_pool := Pool {
  thread_count : Z;
  queue_head : ptr loc;
  queue_tail : ptr loc;
  queue_size : Z;
  buffer_size : Z;
  queue_mutex : bool;
  shutdown : Z
}.

(** What another thread does to the queue while the caller waits: a worker
    takes a job, a producer adds one if there is room, someone signals shutdown. *)
Inductive act := ATake | APut (j : sync_job) | AShutdown.

Record pmem := PMem {
  jobs : gmap loc sync_job;
  jbrk : loc;
  javail : list bool;          (* do the coming allocations succeed? *)
  pool : thread_pool;
  waits : list (list act);     (* what happens during the coming waits *)
  handed : list sync_job       (* history: the jobs taken from the queue, in order *)
}.

Definition set_jobs f m := PMem (f (jobs m)) (jbrk m) (javail m) (pool m) (waits m) (handed m).
Definition set_pool f m := PMem (jobs m) (jbrk m) (javail m) (f (pool m)) (waits m) (handed m).
Definition set_waits f m := PMem (jobs m) (jbrk m) (javail m) (pool m) (f (waits m)) (handed m).
Definition set_javail f m := PMem (jobs m) (jbrk m) (f (javail m)) (pool m) (waits m) (handed m).
Definition set_handed f m := PMem (jobs m) (jbrk m) (javail m) (pool m) (waits m) (f (handed m)).
Definition jbump m := PMem (jobs m) (jbrk m + 1)%positive (javail m) (pool m) (waits m) (handed m).

Definition set_queue hd tl n p :=
  Pool (thread_count p) hd tl n (buffer_size p) (queue_mutex p) (shutdown p).
Definition set_mutex b p :=
  Pool (thread_count p) (queue_head p) (queue_tail p) (queue_size p) (buffer_size p) b (shutdown p).
Definition set_shutdown v p :=
  Pool (thread_count p) (queue_head p) (queue_tail p) (queue_size p) (buffer_size p) (queue_mutex p) v.

Definition with_job_next (p : ptr loc) (j : sync_job) : sync_job :=
  SyncJob (job_source_host j) (job_source_port j) (job_source_dir j) (job_target_host j)
    (job_target_port j) (job_target_dir j) (job_filename j) p.

#[export] Instance sync_job_linked : Linked sync_job := {
  next := job_next;
  set_next := with_job_next;
  next_set_next p n := eq_refl
}.

(** ** Job blocks *)

Definition deref_job (a : loc) : M pmem sync_job :=
  m <- get ;;
  match jobs m !! a with Some j => ret j | None => undef UseAfterFree end.

Definition write_job (a : loc) (j : sync_job) : M pmem unit :=
  deref_job a ;;; modify (set_jobs <[a := j]>).

Definition malloc_job (j : sync_job) : M pmem (ptr loc) := λ m,
  match javail m with
  | false :: l => Ret NULL (set_javail (λ _, l) m)
  | _ => Ret (Some (jbrk m)) (jbump (set_jobs <[jbrk m := j]> (set_javail tail m)))
  end.

Definition create_sync_job (source_host : bytes) (source_port : Z) (source_dir : bytes)
    (target_host : bytes) (target_port : Z) (target_dir : bytes) (filename : bytes) :
    M pmem (ptr loc) :=
  malloc_job (make_job source_host source_port source_dir target_host target_port target_dir filename).

Definition free_sync_job (job : ptr loc) : M pmem unit :=
  match job with
  | NULL => ret tt
  | Some a => deref_job a ;;; modify (set_jobs (delete a))
  end.

(** ** The queue *)

Definition lock_pool : M pmem unit :=
  m <- get ;;
  if queue_mutex (pool m) then undef RelockedMutex else modify (set_pool (set_mutex true)).

Definition unlock_pool : M pmem unit := modify (set_pool (set_mutex false)).

(** "Add job to queue". *)
Definition link_job (job : loc) : M pmem unit :=
  p <- gets pool ;;
  n <- int_result (queue_size p + 1) ;;
  match queue_tail p with
  | Some t =>
      jt <- deref_job t ;;
      write_job t (with_job_next (Some job) jt) ;;;
      modify (set_pool (set_queue (queue_head p) (Some job) n))
  | NULL => modify (set_pool (set_queue (Some job) (Some job) n))
  end.

(** "Remove job from queue". *)
Definition unlink_job : M pmem (ptr loc) :=
  p <- gets pool ;;
  match queue_head p with
  | NULL => ret NULL
  | Some job =>
      j <- deref_job job ;;
      let head := job_next j in
      let tail := match head with NULL => NULL | Some _ => queue_tail p end in
      n <- int_result (queue_size p - 1) ;;
      modify (set_pool (set_queue head tail n)) ;;;
      write_job job (with_job_next NULL j) ;;;
      modify (set_handed (λ l, l ++ [with_job_next NULL j])) ;;;
      ret (Some job)
  end.

(** ** Waiting on a condition variable *)

Definition is_full (p : thread_pool) : bool :=
  bool_decide (buffer_size p ≤ queue_size p)%Z && bool_decide (shutdown p = 0)%Z.

Definition is_empty (p : thread_pool) : bool :=
  bool_decide (queue_size p = 0)%Z && bool_decide (shutdown p = 0)%Z.

Definition run_act (a : act) : M pmem unit :=
  match a with
  | ATake => unlink_job ;;; ret tt
  | APut j =>
      p <- gets pool ;;
      if is_full p || bool_decide (shutdown p ≠ 0)%Z then ret tt else
      job <- malloc_job (with_job_next NULL j) ;;
      match job with Some a => link_job a | NULL => ret tt end
  | AShutdown => modify (set_pool (set_shutdown 1))
  end.

Fixpoint run_acts (l : list act) : M pmem unit :=
  match l with
  | [] => ret tt
  | a :: l' => run_act a ;;; run_acts l'
  end.

(** [pthread_cond_wait]: the mutex is free while the others run. *)
Definition cond_wait (w : list act) : M pmem unit :=
  unlock_pool ;;; run_acts w ;;; lock_pool.

(** [while (cond) pthread_cond_wait (...)], over the script of the waits. *)
Fixpoint wait_while (cond : thread_pool → bool) (ws : list (list act)) : M pmem unit :=
  p <- gets pool ;;
  if cond p then
    match ws with
    | [] => blocked
    | w :: ws' => modify (set_waits (λ _, ws')) ;;; cond_wait w ;;; wait_while cond ws'
    end
  else ret tt.

Definition enqueue_sync_job (job : ptr loc) : M pmem Z :=
  match job with
  | NULL => ret (-1)%Z
  | Some job =>
      lock_pool ;;;
      p <- gets pool ;;
      if decide (shutdown p ≠ 0)%Z then unlock_pool ;;; ret (-1)%Z else
      ws <- gets waits ;;
      wait_while is_full ws ;;;
      p <- gets pool ;;
      if decide (shutdown p ≠ 0)%Z then unlock_pool ;;; ret (-1)%Z else
      link_job job ;;;
      unlock_pool ;;;
      ret 0%Z
  end.

Definition dequeue_sync_job : M pmem (ptr loc) :=
  lock_pool ;;;
  ws <- gets waits ;;
  wait_while is_empty ws ;;;
  p <- gets pool ;;
  if decide (shutdown p ≠ 0 ∧ queue_size p = 0)%Z then unlock_pool ;;; ret NULL else
  job <- unlink_job ;;
  unlock_pool ;;;
  ret job.

Definition signal_shutdown : M pmem unit :=
  lock_pool ;;; modify (set_pool (set_shutdown 1)) ;;; unlock_pool.

(** The last part of [destroy_thread_pool]: what is left in the queue is freed. *)
Fixpoint free_queue (fuel : nat) : M pmem unit :=
  p <- gets pool ;;
  match queue_head p, fuel with
  | NULL, _ => ret tt
  | Some _, 0 => no_fuel
  | Some job, S f =>
      j <- deref_job job ;;
      modify (set_pool (λ p, set_queue (job_next j) (queue_tail p) (queue_size p) p)) ;;;
      free_sync_job (Some job) ;;;
      free_queue f
  end.

(** [destroy_thread_pool]: the workers are told to exit and joined; what they
    do until then is the next entry of the script. *)
Definition join_workers : M pmem unit :=
  ws <- gets waits ;;
  match ws with
  | [] => ret tt
  | w :: ws' => modify (set_waits (λ _, ws')) ;;; run_acts w
  end.

Definition destroy_thread_pool : M pmem unit :=
  lock_pool ;;;
  modify (set_pool (set_shutdown 1)) ;;;
  unlock_pool ;;;
  join_workers ;;;
  lock_pool ;;;
  m <- get ;;
  free_queue (size (jobs m)) ;;;
  unlock_pool.

(** The joining loop on its own; nothing in the program calls it. *)
Definition wait_for_workers : M pmem unit := join_workers.

(** [create_thread_pool]: [script] says which of the two allocations, the
    three initialisations and the thread creations succeed ([true] when it is
    over).  On every failure what was allocated is released and the result
    is NULL; the threads already created are told to exit (see
    [PoolSteps.v] for that path). *)
Definition creation_ok : M (list bool) bool := λ script,
  match script with [] => Ret true [] | b :: l => Ret b l end.

Fixpoint create_threads (n : nat) : M (list bool) bool :=
  match n with
  | 0 => ret true
  | S n' => ok <- creation_ok ;; if ok : bool then create_threads n' else ret false
  end.

Definition new_pool (thread_count buffer_size : Z) (w : list (list act)) : pmem :=
  PMem ∅ 1 [] (Pool thread_count NULL NULL 0 buffer_size false 0) w [].

Definition create_thread_pool (thread_count buffer_size : Z) (w : list (list act)) :
    M (list bool) (ptr pmem) :=
  ok <- creation_ok ;; if negb ok then ret NULL else
  ok <- creation_ok ;; if negb ok then ret NULL else
  ok <- creation_ok ;; if negb ok then ret NULL else
  ok <- creation_ok ;; if negb ok then ret NULL else
  ok <- creation_ok ;; if negb ok then ret NULL else
  ok <- create_threads (Z.to_nat thread_count) ;;
  if negb ok then ret NULL else
  ret (Some (new_pool thread_count buffer_size w)).

(** ** The queue as a list *)

(** The jobs in the queue, without their links. *)
Fixpoint contents (ll : list (loc * sync_job)) : list sync_job :=
  match ll with
  | [] => []
  | (_, j) :: ll' => with_job_next NULL j :: contents ll'
  end.

Record qrep (m : pmem) (ll : list (loc * sync_job)) : Prop := {
  qr_chain : chain (jobs m) (queue_head (pool m)) ll;
  qr_tail : queue_tail (pool m) = fst <$> last ll;
  qr_size : queue_size (pool m) = Z.of_nat (length ll);
  qr_max : (Z.of_nat (length ll) ≤ int_max)%Z
}.

(** Everything but the job blocks, the queue fields and the history. *)
Record same_pool (m m' : pmem) : Prop := {
  sp_count : thread_count (pool m') = thread_count (pool m);
  sp_buffer : buffer_size (pool m') = buffer_size (pool m);
  sp_mutex : queue_mutex (pool m') = queue_mutex (pool m);
  sp_shutdown : shutdown (pool m') = shutdown (pool m);
  sp_brk : jbrk m' = jbrk m;
  sp_avail : javail m' = javail m;
  sp_waits : waits m' = waits m
}.

Lemma contents_app l1 l2 : contents (l1 ++ l2) = contents l1 ++ contents l2.
Proof. induction l1 as [|[a j] l1 IH]; simpl; [done|]. by rewrite IH. Qed.

Lemma length_contents ll : length (contents ll) = length ll.
Proof. induction ll as [|[a j] ll IH]; simpl; [done|]. by rewrite IH. Qed.

Lemma with_job_next_id j : job_next j = NULL → with_job_next NULL j = j.
Proof. destruct j. simpl. by intros ->. Qed.

Lemma wp_deref_job b a j Q m : jobs m !! a = Some j → Q j m → wpb b (deref_job a) Q m.
Proof. intros Ha HQ. unfold deref_job. apply wpb_bind, wpb_get. by rewrite Ha. Qed.

Lemma wp_write_job b a j j' Q m :
  jobs m !! a = Some j → Q tt (set_jobs <[a := j']> m) → wpb b (write_job a j') Q m.
Proof. intros Ha HQ. by eapply wpb_bind, wp_deref_job. Qed.

Lemma wp_free_job b a j Q m :
  jobs m !! a = Some j → Q tt (set_jobs (delete a) m) → wpb b (free_sync_job (Some a)) Q m.
Proof. intros Ha HQ. by eapply wpb_bind, wp_deref_job. Qed.

(** Enqueueing appends. *)
Lemma wp_link_job b a j ll Q m :
  qrep m ll → jobs m !! a = Some j → job_next j = NULL → a ∉ ll.*1 →
  (Z.of_nat (S (length ll)) ≤ int_max)%Z →
  (∀ m' ll', qrep m' ll' → contents ll' = contents ll ++ [j] → ll'.*1 = ll.*1 ++ [a] →
     same_pool m m' → handed m' = handed m → dom (jobs m') = dom (jobs m) →
     (∀ x, x ∉ ll.*1 → jobs m' !! x = jobs m !! x) → Q tt m') →
  wpb b (link_job a) Q m.
Proof.
  intros [Hc Ht Hs Hm] Ha Hn Hnot Hmax HQ. unfold link_job.
  apply wpb_bind, wpb_gets, wpb_bind, wpb_int_result.
  { unfold int_min, int_max in *. lia. }
  destruct ll as [|[t jt] l _] using rev_ind.
  - simpl in *. rewrite Ht. apply wpb_modify. apply (HQ _ [(a, j)]); simpl; try done.
    + split; simpl; [|done|lia|lia]. by split_and!.
    + by rewrite with_job_next_id.
  - rewrite last_snoc in Ht. simpl in Ht. rewrite Ht.
    assert (jobs m !! t = Some jt) as Htj.
    { apply seg_app in Hc as (x & _ & -> & ? & _). done. }
    eapply wpb_bind, wp_deref_job; [done|]. eapply wpb_bind, wp_write_job; [done|].
    apply wpb_modify. eapply HQ.
    + split; simpl.
      * exact (chain_snoc _ _ l t jt a j Hc Ha Hn Hnot).
      * replace (l ++ _) with ((l ++ [(t, with_job_next (Some a) jt)]) ++ [(a, j)])
          by (by rewrite <-app_assoc).
        by rewrite last_snoc.
      * rewrite Hs, !length_app. simpl. lia.
      * rewrite !length_app in *. simpl in *. lia.
    + rewrite !contents_app. simpl. rewrite <-app_assoc. simpl. by rewrite (with_job_next_id j).
    + rewrite !fmap_app. simpl. by rewrite <-app_assoc.
    + done.
    + done.
    + simpl. rewrite dom_insert_L. assert (t ∈ dom (jobs m)) by (by apply elem_of_dom). set_solver.
    + intros x Hx. simpl. rewrite lookup_insert_ne; [done|]. intros ->. apply Hx.
      rewrite fmap_app, elem_of_app. right. by left.
Qed.

(** Dequeueing takes the first. *)
Lemma wp_unlink_job b a j ll Q m :
  qrep m ((a, j) :: ll) →
  (∀ m', qrep m' ll → jobs m' = <[a := with_job_next NULL j]> (jobs m) →
     handed m' = handed m ++ [with_job_next NULL j] → same_pool m m' → Q (Some a) m') →
  wpb b unlink_job Q m.
Proof.
  intros [Hc Ht Hs Hm] HQ. unfold unlink_job. apply wpb_bind, wpb_gets.
  pose proof (chain_NoDup _ _ _ Hc) as [Hnot _]%NoDup_cons. destruct Hc as (-> & Ha & Hc).
  eapply wpb_bind, wp_deref_job; [done|]. simpl in *.
  apply wpb_bind, wpb_int_result. { unfold int_min, int_max in *. lia. }
  apply wpb_bind, wpb_modify. eapply wpb_bind, wp_write_job; [done|].
  apply wpb_bind, wpb_modify, wpb_ret. apply HQ; [|done..].
  split; simpl.
  - by apply seg_insert.
  - destruct ll as [|[b' jb] ll]; simpl in *.
    + unfold chain in Hc. simpl in Hc. by rewrite Hc.
    + destruct Hc as (-> & _). exact Ht.
  - lia.
  - lia.
Qed.

Lemma wp_unlink_empty b Q m : qrep m [] → Q NULL m → wpb b unlink_job Q m.
Proof.
  intros [Hc Ht Hs Hm] HQ. unfold unlink_job. apply wpb_bind, wpb_gets.
  unfold chain in Hc. simpl in Hc. by rewrite Hc.
Qed.

(** ** What the other threads may do *)

(** The memory is well formed between two critical sections: [ll] is the
    queue, it is within its capacity, and unused addresses are free. *)
Record wf (m : pmem) (ll : list (loc * sync_job)) : Prop := {
  wf_rep : qrep m ll;
  wf_cap : (Z.of_nat (length ll) ≤ buffer_size (pool m))%Z;
  wf_buf : (0 < buffer_size (pool m) ≤ int_max)%Z;
  wf_fresh : ∀ a, is_Some (jobs m !! a) → (a < jbrk m)%positive
}.

(** [evolves m ll m' ll' extra]: other threads took [m] with queue [ll] to
    [m'] with queue [ll'], adding the jobs [extra]; blocks outside the queue
    are not touched. *)
Record evolves (m : pmem) ll (m' : pmem) ll' (extra : list sync_job) : Prop := {
  ev_hist : handed m' ++ contents ll' = handed m ++ contents ll ++ extra;
  ev_shut : shutdown (pool m) ≠ 0%Z → shutdown (pool m') ≠ 0%Z;
  ev_buf : buffer_size (pool m') = buffer_size (pool m);
  ev_count : thread_count (pool m') = thread_count (pool m);
  ev_mutex : queue_mutex (pool m') = queue_mutex (pool m);
  ev_priv : ∀ a, is_Some (jobs m !! a) → a ∉ ll.*1 → jobs m' !! a = jobs m !! a ∧ a ∉ ll'.*1;
  ev_waits : waits m' = waits m
}.

Lemma evolves_refl m ll : evolves m ll m ll [].
Proof. split; try done. by rewrite app_nil_r. Qed.

Lemma evolves_trans m1 l1 m2 l2 m3 l3 e1 e2 :
  evolves m1 l1 m2 l2 e1 → evolves m2 l2 m3 l3 e2 → evolves m1 l1 m3 l3 (e1 ++ e2).
Proof.
  intros [A1 A2 A3 A4 A5 A6 A7] [B1 B2 B3 B4 B5 B6 B7]. split; try congruence; [|auto|].
  - rewrite B1, !app_assoc, A1. by rewrite <-!app_assoc.
  - intros a Ha Hl. destruct (A6 a Ha Hl) as [E Hl2]. rewrite <-E in Ha.
    destruct (B6 a Ha Hl2) as [E' Hl3]. split; [congruence|done].
Qed.

Definition no_put (a : act) : Prop := match a with APut _ => False | _ => True end.

Lemma wf_fresh_lookup m ll a : wf m ll → (jbrk m ≤ a)%positive → jobs m !! a = None ∧ a ∉ ll.*1.
Proof.
  intros [[Hc _ _ _] _ _ Hf] Ha. split; [apply eq_None_not_Some; intros ?%Hf; lia|].
  intros Hin. pose proof (Hf _ (seg_dom _ _ _ _ _ Hc Hin)). lia.
Qed.

(** A block is allocated for the job [j]. *)
Lemma wf_malloc m ll j :
  wf m ll → let m' := jbump (set_jobs <[jbrk m := j]> (set_javail tail m)) in
  wf m' ll ∧ evolves m ll m' ll [].
Proof.
  intros Hwf. destruct (wf_fresh_lookup m ll (jbrk m) Hwf ltac:(lia)) as [Hn Hnl].
  destruct Hwf as [[Hc Ht Hs Hm] Hcap Hbuf Hfresh]. split; split; simpl; try done.
  - split; simpl; try done. by apply seg_insert.
  - intros x. rewrite lookup_insert_is_Some. intros [<-|[_ Hx%Hfresh]]; lia.
  - by rewrite app_nil_r.
  - intros x Hx Hl. split; [|done]. rewrite lookup_insert_ne; [done|]. intros <-.
    rewrite Hn in Hx. by destruct Hx.
Qed.

Lemma wp_malloc_job b m ll j Q :
  wf m ll →
  (∀ m', wf m' ll → evolves m ll m' ll [] → pool m' = pool m → Q NULL m') →
  (∀ a m', wf m' ll → evolves m ll m' ll [] → pool m' = pool m → jobs m' !! a = Some j →
     a ∉ ll.*1 → jobs m !! a = None → Q (Some a) m') →
  wpb b (malloc_job j) Q m.
Proof.
  intros Hwf Hnull Hok. destruct (wf_malloc m ll j Hwf) as [Hwf' Hev].
  destruct (wf_fresh_lookup m ll (jbrk m) Hwf ltac:(lia)) as [Hn Hnl].
  unfold wpb, malloc_job. destruct (javail m) as [|[] l]; [| |apply Hnull].
  1, 2: apply Hok; [done|done|done|apply lookup_insert_eq|done|done].
  - by destruct Hwf as [[] ? ? ?].
  - destruct (evolves_refl m ll). by split.
  - done.
Qed.

Lemma wp_run_act b a m ll Q :
  wf m ll →
  (∀ m' ll' extra, wf m' ll' → evolves m ll m' ll' extra → (no_put a → extra = []) → Q tt m') →
  wpb b (run_act a) Q m.
Proof.
  intros Hwf HQ. pose proof Hwf as [Hrep Hcap Hbuf Hfresh]. destruct a as [|j|]; simpl.
  - apply wpb_bind. destruct ll as [|[a ja] ll].
    + eapply wp_unlink_empty; [done|]. apply wpb_ret.
      apply (HQ m [] []); [done|by apply evolves_refl|done].
    + eapply wp_unlink_job; [done|]. intros m' Hrep' Hj Hh [S1 S2 S3 S4 S5 S6 S7]. apply wpb_ret.
      apply (HQ m' ll []); [| |done].
      * split; [done|rewrite S2; simpl in *; lia|by rewrite S2|].
        assert (jobs m !! a = Some ja) as Ha by (destruct Hrep as [(_ & ? & _) _ _ _]; done).
        intros x. rewrite Hj, S5, lookup_insert_is_Some. intros [<-|[_ ?]]; eauto.
      * split; try congruence.
        -- rewrite Hh, app_nil_r. simpl. by rewrite <-app_assoc.
        -- intros x Hx [Hne Hl]%not_elem_of_cons. rewrite Hj. by rewrite lookup_insert_ne.
  - apply wpb_bind, wpb_gets. destruct (is_full (pool m) || _) eqn:Hc.
    { apply wpb_ret. by apply (HQ m ll []); [|apply evolves_refl|]. }
    apply orb_false_iff in Hc as [Hf Hsh]. apply bool_decide_eq_false in Hsh.
    assert (Z.of_nat (S (length ll)) ≤ buffer_size (pool m))%Z as Hroom.
    { unfold is_full in Hf. rewrite (bool_decide_true (shutdown (pool m) = 0)%Z) in Hf by lia.
      rewrite andb_true_r in Hf. apply bool_decide_eq_false in Hf.
      rewrite (qr_size _ _ Hrep) in Hf. lia. }
    apply wpb_bind. eapply wp_malloc_job; [done|..].
    { intros m' Hwf' Hev' _. apply wpb_ret. by eapply HQ. }
    intros a m1 Hwf1 [E1 E2 E3 E4 E5 E6 E7] _ Ha Hnl Hna.
    eapply wp_link_job; [by apply Hwf1|done|done|done|lia|].
    intros m' ll' Hrep' Hcont Hfst [S1 S2 S3 S4 S5 S6 S7] Hh Hdom Hpriv.
    pose proof (f_equal length Hcont) as Hlen.
    rewrite length_contents, length_app, length_contents in Hlen. simpl in Hlen.
    apply (HQ m' ll' [with_job_next NULL j]); [| |done].
    + split; [done| | |].
      * rewrite S2, E3. lia.
      * by rewrite S2, E3.
      * intros x Hx. rewrite S5. apply (wf_fresh _ _ Hwf1). apply elem_of_dom.
        rewrite <-Hdom. by apply elem_of_dom.
    + split; try congruence; [|by rewrite S4|].
      * rewrite Hcont, Hh, !app_assoc, E1, app_nil_r. done.
      * intros x Hx Hl. destruct (E6 x Hx Hl) as [Ex _]. rewrite Hpriv by done.
        split; [done|]. rewrite Hfst. intros [?|?%list_elem_of_singleton]%elem_of_app; [done|].
        subst. rewrite Hna in Hx. by destruct Hx.
  - apply wpb_modify, (HQ _ ll []); [| |done].
    + split; try done. by destruct Hrep.
    + split; try done. by rewrite app_nil_r.
Qed.

Lemma wp_run_acts b l m ll Q :
  wf m ll →
  (∀ m' ll' extra, wf m' ll' → evolves m ll m' ll' extra → (Forall no_put l → extra = []) → Q tt m') →
  wpb b (run_acts l) Q m.
Proof.
  revert m ll Q. induction l as [|a l IH]; intros m ll Q Hwf HQ; simpl.
  - apply wpb_ret. by eapply HQ; [|apply evolves_refl|].
  - apply wpb_bind. eapply wp_run_act; [done|]. intros m1 l1 e1 Hwf1 Hev1 He1.
    eapply IH; [done|]. intros m2 l2 e2 Hwf2 Hev2 He2.
    eapply HQ; [done|by eapply evolves_trans|].
    intros [Ha Hl]%Forall_cons. by rewrite He1, He2.
Qed.

(** The mutex and the wait script are not part of the queue's state. *)
Lemma wf_mutex b m ll : wf m ll → wf (set_pool (set_mutex b) m) ll.
Proof. intros [[] ? ? ?]. by split. Qed.

Lemma wf_waits w m ll : wf m ll → wf (set_waits (λ _, w) m) ll.
Proof. intros [[] ? ? ?]. by split. Qed.

(** What waiting may change: as [evolves], with a part of the script used up. *)
Record waited (m : pmem) ll (m' : pmem) ll' (extra : list sync_job) : Prop := {
  wt_hist : handed m' ++ contents ll' = handed m ++ contents ll ++ extra;
  wt_shut : shutdown (pool m) ≠ 0%Z → shutdown (pool m') ≠ 0%Z;
  wt_priv : ∀ a, is_Some (jobs m !! a) → a ∉ ll.*1 → jobs m' !! a = jobs m !! a ∧ a ∉ ll'.*1;
  wt_mutex : queue_mutex (pool m') = queue_mutex (pool m);
  wt_waits : ∃ used, waits m = used ++ waits m' ∧ (Forall (Forall no_put) used → extra = [])
}.

(** The waiting loop stops only when its condition is false. *)
Lemma wlp_wait_while (cond : thread_pool → bool) ws m ll Q :
  wf m ll → waits m = ws → queue_mutex (pool m) = true →
  (∀ m' ll' extra, wf m' ll' → waited m ll m' ll' extra → cond (pool m') = false → Q tt m') →
  wlp (wait_while cond ws) Q m.
Proof.
  revert m ll Q. induction ws as [|w ws IH]; intros m ll Q Hwf Hw Hmu HQ; simpl.
  all: apply wpb_bind, wpb_gets; destruct (cond (pool m)) eqn:Hc;
    [|apply wpb_ret, (HQ m ll []); [done| |done]; split; [by rewrite app_nil_r|done..|by exists []]].
  - done.
  - apply wpb_bind, wpb_modify. unfold cond_wait. apply wpb_bind, wpb_bind, wpb_modify.
    set (m1 := set_pool (set_mutex false) _).
    assert (wf m1 ll) as Hwf1 by (by apply wf_mutex, wf_waits).
    apply wpb_bind. eapply wp_run_acts; [done|]. intros m2 l2 e2 Hwf2 [A1 A2 A3 A4 A5 A6 A7] He2.
    unfold lock_pool. apply wpb_bind, wpb_get. rewrite A5. simpl. apply wpb_modify.
    eapply IH; [by apply wf_mutex|by simpl; rewrite A7|done|].
    intros m3 l3 e3 Hwf3 [B1 B2 B3 B4 (used & B5 & B6)] Hcond. simpl in *.
    eapply (HQ m3 l3 (e2 ++ e3)); [done| |done]. split.
    + rewrite B1, app_assoc, A1. by rewrite <-!app_assoc.
    + auto.
    + intros a Ha Hl. destruct (A6 a Ha Hl) as [E Hl2]. simpl in E. rewrite <-E in Ha.
      destruct (B3 a Ha Hl2) as [E' Hl3]. split; [congruence|done].
    + by rewrite B4.
    + exists (w :: used). rewrite Hw. simpl. split; [by rewrite <-B5, A7|].
      intros [Hnp ?]%Forall_cons. by rewrite He2, B6.
Qed.

(** ** [enqueue_sync_job], [dequeue_sync_job], [signal_shutdown] *)

(** The jobs accepted so far, in order: those handed out and those queued. *)
Definition history (m : pmem) (ll : list (loc * sync_job)) : list sync_job := handed m ++ contents ll.

(** The pool between two critical sections, with queue [ll]. *)
Definition idle (m : pmem) (ll : list (loc * sync_job)) : Prop :=
  wf m ll ∧ queue_mutex (pool m) = false.

(** The caller's own block: allocated and not in the queue. *)
Definition private (m : pmem) (ll : list (loc * sync_job)) (a : loc) (j : sync_job) : Prop :=
  jobs m !! a = Some j ∧ job_next j = NULL ∧ a ∉ ll.*1.

(** The part of the wait script a call used, and the jobs put meanwhile. *)
Definition waited_for (m m' : pmem) (extra : list sync_job) : Prop :=
  ∃ used, waits m = used ++ waits m' ∧ (Forall (Forall no_put) used → extra = []).

Lemma waited_for_none m m' : waits m' = waits m → waited_for m m' [].
Proof. intros E. exists []. by rewrite E. Qed.

Lemma wp_lock_pool b m Q :
  queue_mutex (pool m) = false → Q tt (set_pool (set_mutex true) m) → wpb b lock_pool Q m.
Proof. intros Hm HQ. unfold lock_pool. apply wpb_bind, wpb_get. rewrite Hm. by apply wpb_modify. Qed.

Lemma wlp_enqueue_sync_job a j m ll Q :
  idle m ll → private m ll a j →
  (∀ m' ll' extra, idle m' ll' → waited_for m m' extra → shutdown (pool m') = 0%Z →
     history m' ll' = history m ll ++ extra ++ [j] → Q 0%Z m') →
  (∀ m' ll' extra, idle m' ll' → waited_for m m' extra → shutdown (pool m') ≠ 0%Z →
     history m' ll' = history m ll ++ extra → private m' ll' a j → Q (-1)%Z m') →
  wlp (enqueue_sync_job (Some a)) Q m.
Proof.
  intros [Hwf Hmu] (Ha & Hn & Hl) Hok Herr. unfold enqueue_sync_job.
  apply wpb_bind, wp_lock_pool; [done|]. apply wpb_bind, wpb_gets. simpl. case_decide as Hsh.
  { apply wpb_bind, wpb_modify, wpb_ret. apply (Herr _ ll []); [split; [by do 2 apply wf_mutex|done]
      |by apply waited_for_none|done|by rewrite app_nil_r|by split]. }
  apply wpb_bind, wpb_gets, wpb_bind. simpl.
  eapply wlp_wait_while; [by apply wf_mutex|done|done|].
  intros m1 l1 e1 Hwf1 [W1 W2 W3 W4 W5] Hcond. simpl in *.
  destruct (W3 a ltac:(by eauto) Hl) as [Ha1 Hl1]. rewrite Ha in Ha1.
  apply wpb_bind, wpb_gets. case_decide as Hsh1.
  { apply wpb_bind, wpb_modify, wpb_ret. apply (Herr _ l1 e1); [split; [by apply wf_mutex|done]
      |done|done|by unfold history; simpl; rewrite W1, app_assoc|by split]. }
  assert (Z.of_nat (S (length l1)) ≤ buffer_size (pool m1))%Z as Hroom.
  { unfold is_full in Hcond.
    rewrite (bool_decide_true (shutdown (pool m1) = 0)%Z), andb_true_r in Hcond by lia.
    apply bool_decide_eq_false in Hcond. rewrite (qr_size _ _ (wf_rep _ _ Hwf1)) in Hcond. lia. }
  apply wpb_bind. eapply wp_link_job; [by apply Hwf1|done|done|done| |].
  { pose proof (wf_buf _ _ Hwf1). lia. }
  intros m2 l2 Hrep2 Hcont Hfst [S1 S2 S3 S4 S5 S6 S7] Hh Hdom Hpriv.
  pose proof (f_equal length Hcont) as Hlen.
  rewrite length_contents, length_app, length_contents in Hlen. simpl in Hlen.
  apply wpb_bind, wpb_modify, wpb_ret. apply (Hok _ l2 e1).
  - split; [|done]. apply wf_mutex. split; [done|rewrite S2; lia|rewrite S2; apply Hwf1|].
    intros x Hx. rewrite S5. apply (wf_fresh _ _ Hwf1). apply elem_of_dom.
    rewrite <-Hdom. by apply elem_of_dom.
  - destruct W5 as (used & E & ?). exists used. simpl. by rewrite S7.
  - simpl. rewrite S4. lia.
  - unfold history. simpl. rewrite Hh, Hcont, !app_assoc, W1. by rewrite <-!app_assoc.
Qed.

Lemma wait_while_go (cond : thread_pool → bool) ws m :
  cond (pool m) = false → wait_while cond ws m = Ret tt m.
Proof. intros H. destruct ws; simpl; unfold bind, gets; by rewrite H. Qed.

(** With room in the queue, [enqueue_sync_job] does not wait. *)
Lemma wp_enqueue_room b a j m ll Q :
  idle m ll → private m ll a j → shutdown (pool m) = 0%Z →
  (Z.of_nat (S (length ll)) ≤ buffer_size (pool m))%Z →
  (∀ m' ll', idle m' ll' → shutdown (pool m') = 0%Z → history m' ll' = history m ll ++ [j] →
     length ll' = S (length ll) → buffer_size (pool m') = buffer_size (pool m) →
     javail m' = javail m → waits m' = waits m → Q 0%Z m') →
  wpb b (enqueue_sync_job (Some a)) Q m.
Proof.
  intros [Hwf Hmu] (Ha & Hn & Hl) Hsh Hroom HQ. unfold enqueue_sync_job.
  apply wpb_bind, wp_lock_pool; [done|]. apply wpb_bind, wpb_gets. simpl.
  rewrite decide_False by auto. apply wpb_bind, wpb_gets, wpb_bind. unfold wpb at 1.
  rewrite wait_while_go.
  2: { unfold is_full. simpl. rewrite (qr_size _ _ (wf_rep _ _ Hwf)), bool_decide_false; [done|lia]. }
  apply wpb_bind, wpb_gets. simpl. rewrite decide_False by auto. apply wpb_bind.
  eapply (wp_link_job _ a j ll); [by destruct Hwf as [[] ? ? ?]|done|done|done| |].
  { pose proof (wf_buf _ _ Hwf). lia. }
  intros m2 l2 Hrep2 Hcont Hfst [S1 S2 S3 S4 S5 S6 S7] Hh Hdom Hpriv. simpl in *.
  pose proof (f_equal length Hcont) as Hlen.
  rewrite length_contents, length_app, length_contents in Hlen. simpl in Hlen.
  apply wpb_bind, wpb_modify, wpb_ret. apply (HQ _ l2); simpl; try (done || congruence || lia).
  - split; [|done]. apply wf_mutex. split; [done|rewrite S2; lia|rewrite S2; apply Hwf|].
    intros x Hx. rewrite S5. apply (wf_fresh _ _ Hwf). apply elem_of_dom.
    rewrite <-Hdom. by apply elem_of_dom.
  - unfold history. simpl. by rewrite Hh, Hcont, app_assoc.
Qed.

Lemma wlp_dequeue_sync_job m ll Q :
  idle m ll →
  (∀ m' ll' extra a j, idle m' ll' → waited_for m m' extra →
     history m' ll' = history m ll ++ extra → private m' ll' a j →
     last (handed m') = Some j → Q (Some a) m') →
  (∀ m' extra, idle m' [] → waited_for m m' extra → shutdown (pool m') ≠ 0%Z →
     history m' [] = history m ll ++ extra → Q NULL m') →
  wlp dequeue_sync_job Q m.
Proof.
  intros [Hwf Hmu] Hjob Hnull. unfold dequeue_sync_job.
  apply wpb_bind, wp_lock_pool; [done|]. apply wpb_bind, wpb_gets, wpb_bind. simpl.
  eapply wlp_wait_while; [by apply wf_mutex|done|done|].
  intros m1 l1 e1 Hwf1 [W1 W2 W3 W4 W5] Hcond. simpl in *.
  apply wpb_bind, wpb_gets. pose proof (qr_size _ _ (wf_rep _ _ Hwf1)) as Hsz. case_decide as Hsh1.
  { destruct Hsh1 as [Hsh1 H0]. destruct l1 as [|p l1]; [|simpl in *; lia].
    apply wpb_bind, wpb_modify, wpb_ret. apply (Hnull _ e1); [split; [by apply wf_mutex|done]
      |done|done|by unfold history; simpl in *; rewrite W1, app_assoc]. }
  destruct l1 as [|[a j] l1].
  { exfalso. simpl in *. unfold is_empty in Hcond. rewrite Hsz in *.
    rewrite bool_decide_true in Hcond by done. apply bool_decide_eq_false in Hcond. auto. }
  apply wpb_bind. eapply wp_unlink_job; [by apply Hwf1|].
  intros m2 Hrep2 Hj Hh [S1 S2 S3 S4 S5 S6 S7]. apply wpb_bind, wpb_modify, wpb_ret.
  pose proof (chain_NoDup _ _ _ (qr_chain _ _ (wf_rep _ _ Hwf1))) as [Hnot _]%NoDup_cons.
  assert (jobs m1 !! a = Some j) as Ha by (destruct Hwf1 as [[(_ & ? & _) _ _ _] ? ? ?]; done).
  apply (Hjob _ l1 e1 a (with_job_next NULL j)); simpl.
  - split; [|done]. apply wf_mutex. split; [done| | |].
    + rewrite S2. pose proof (wf_cap _ _ Hwf1). simpl in *. lia.
    + rewrite S2. apply Hwf1.
    + intros x. rewrite Hj, S5, lookup_insert_is_Some. intros [<-|[_ ?]]; by eapply wf_fresh; eauto.
  - destruct W5 as (used & E & ?). exists used. simpl. by rewrite S7.
  - unfold history. simpl. rewrite Hh, <-!app_assoc. exact W1.
  - split; [simpl; by rewrite Hj, lookup_insert_eq|done].
  - by rewrite Hh, last_snoc.
Qed.

Lemma wp_signal_shutdown b m ll Q :
  idle m ll →
  (∀ m', idle m' ll → shutdown (pool m') ≠ 0%Z → history m' ll = history m ll → waits m' = waits m →
     (∀ a j, private m ll a j → private m' ll a j) → Q tt m') →
  wpb b signal_shutdown Q m.
Proof.
  intros [[[] ? ? ?] Hmu] HQ. unfold signal_shutdown.
  apply wpb_bind, wp_lock_pool; [done|]. apply wpb_bind, wpb_modify. apply wpb_modify.
  by apply HQ.
Qed.

Lemma wp_free_queue b fuel m ll Q :
  chain (jobs m) (queue_head (pool m)) ll → length ll ≤ fuel →
  (∀ m', queue_head (pool m') = NULL → dom (jobs m') = dom (jobs m) ∖ list_to_set ll.*1 → Q tt m') →
  wpb b (free_queue fuel) Q m.
Proof.
  revert m ll Q. induction fuel as [|f IH]; intros m [|[a j] ll] Q Hc Hf HQ; simpl in Hf; try lia.
  1, 2: unfold chain in Hc; simpl in Hc; simpl; apply wpb_bind, wpb_gets; rewrite Hc; apply wpb_ret, HQ;
    [done|simpl; set_solver].
  pose proof Hc as (Hhd & Ha & _). cbn [free_queue]. apply wpb_bind, wpb_gets. rewrite Hhd.
  eapply wpb_bind, wp_deref_job; [done|]. apply wpb_bind, wpb_modify.
  eapply wpb_bind, wp_free_job; [done|]. eapply IH; [exact (chain_tail _ _ _ _ _ Hc)|lia|].
  intros m' H1 H2. apply HQ; [done|]. rewrite H2. simpl. rewrite dom_delete_L. set_solver.
Qed.

(** [destroy_thread_pool] returns, and frees every job still in the queue. *)
Lemma wp_destroy_thread_pool b m ll Q :
  idle m ll →
  (∀ m' (ll' : list (loc * sync_job)), queue_head (pool m') = NULL →
     (∀ a, a ∈ ll'.*1 → jobs m' !! a = None) → (∀ a, a ∉ ll'.*1 → is_Some (jobs m !! a) → a ∉ ll.*1 →
       is_Some (jobs m' !! a)) → Q tt m') →
  wpb b destroy_thread_pool Q m.
Proof.
  intros [Hwf Hmu] HQ. unfold destroy_thread_pool.
  apply wpb_bind, wp_lock_pool; [done|]. apply wpb_bind, wpb_modify. apply wpb_bind, wpb_modify.
  set (m1 := set_pool _ _). assert (wf m1 ll) as Hwf1 by (destruct Hwf as [[] ? ? ?]; by split).
  assert (∀ m2 l2, wf m2 l2 → queue_mutex (pool m2) = false →
    (∀ a, is_Some (jobs m1 !! a) → a ∉ ll.*1 → jobs m2 !! a = jobs m1 !! a ∧ a ∉ l2.*1) →
    wpb b (lock_pool ;;; m <- get ;; free_queue (size (jobs m)) ;;; unlock_pool) Q m2) as Hrest.
  { intros m2 l2 [[Hc _ _ _] _ _ _] Hmu2 Hpriv.
    apply wpb_bind, wp_lock_pool; [done|].
    apply wpb_bind, wpb_get, wpb_bind. eapply wp_free_queue; [exact Hc|by eapply chain_size|].
    intros m3 Hhd Hdom. apply wpb_modify. apply (HQ _ l2); [done| |]; simpl.
    - intros a Ha. apply not_elem_of_dom. rewrite Hdom. simpl. set_solver.
    - intros a Ha Has Hl. apply elem_of_dom. rewrite Hdom. simpl.
      destruct (Hpriv a Has Hl) as [E _]. assert (a ∈ dom (jobs m2)); [|set_solver].
      apply elem_of_dom. by rewrite E. }
  apply wpb_bind. unfold join_workers. apply wpb_bind, wpb_gets. destruct (waits m1) as [|w ws] eqn:Hw.
  - apply wpb_ret. by eapply Hrest.
  - apply wpb_bind, wpb_modify. eapply wp_run_acts; [by apply wf_waits|].
    intros m2 l2 e Hwf2 [_ _ _ _ Hmu2 Hpriv _] _. by apply (Hrest m2 l2).
Qed.

(** ** The interface *)

Definition consumers_only (m : pmem) : Prop := Forall (Forall no_put) (waits m).

Lemma waited_consumers m m' extra :
  consumers_only m → waited_for m m' extra → extra = [] ∧ consumers_only m'.
Proof.
  unfold consumers_only. intros H (used & E & Hx). rewrite E in H.
  apply Forall_app in H as [H1 H2]. auto.
Qed.

Lemma creation_step (c : M (list bool) bool) (k : M (list bool) (ptr pmem)) s r s' :
  (ok <- c ;; if negb ok then ret NULL else k) s = Ret (Some r) s' →
  ∃ s1, k s1 = Ret (Some r) s'.
Proof. unfold bind. destruct (c s) as [[] s1| | |]; simpl; [by eauto|done..]. Qed.

Lemma create_thread_pool_result n c w script r s' :
  create_thread_pool n c w script = Ret (Some r) s' → r = new_pool n c w.
Proof.
  unfold create_thread_pool. intros H. do 6 apply creation_step in H as [? H].
  by injection H as <-.
Qed.

Lemma idle_new_pool n c w : (0 < c ≤ int_max)%Z → idle (new_pool n c w) [].
Proof.
  intros Hc. split; [|done]. split; [by split|simpl; lia|done|].
  intros a [x Hx]. simpl in Hx. by rewrite lookup_empty in Hx.
Qed.

(** The linked queue, with workers as the only other threads, is a job sink. *)
Section instance.
Variable worker_script : list (list act).
Hypothesis workers_only : Forall (Forall no_put) worker_script.

Definition queue_new (n c : Z) (script : list bool) : ptr pmem :=
  match create_thread_pool n c worker_script script with Ret r _ => r | _ => NULL end.

Definition queue_inv (m : pmem) : Prop := consumers_only m ∧ ∃ ll, idle m ll.

Definition queue_closed (m : pmem) : bool := bool_decide (shutdown (pool m) ≠ 0%Z).

Fixpoint read_queue (fuel : nat) (m : pmem) (p : ptr loc) : list (loc * sync_job) :=
  match p, fuel with
  | Some a, S f =>
      match jobs m !! a with Some j => (a, j) :: read_queue f m (job_next j) | None => [] end
  | _, _ => []
  end.

(** The queue as the memory holds it. *)
Definition queue_of (m : pmem) : list (loc * sync_job) :=
  read_queue (size (jobs m)) m (queue_head (pool m)).

Definition queue_accepted (m : pmem) : list sync_job := history m (queue_of m).

(** Room for [n] more jobs, memory included. *)
Definition queue_room (m : pmem) (n : nat) : Prop :=
  shutdown (pool m) = 0%Z ∧ javail m = [] ∧
  (queue_size (pool m) + Z.of_nat n ≤ buffer_size (pool m))%Z.

Definition queue_owned (m : pmem) (a : loc) (j : sync_job) : Prop := private m (queue_of m) a j.

Lemma read_queue_chain fuel m p ll :
  chain (jobs m) p ll → length ll ≤ fuel → read_queue fuel m p = ll.
Proof.
  revert p ll. induction fuel as [|f IH]; intros p [|[a j] ll] Hc Hf; simpl in Hf; try lia.
  1, 2: unfold chain in Hc; simpl in Hc; by subst.
  destruct Hc as (-> & Ha & Hc). simpl. rewrite Ha. f_equal. apply IH; [done|lia].
Qed.

Lemma queue_of_idle m ll : idle m ll → queue_of m = ll.
Proof.
  intros [[[Hc _ _ _] _ _ _] _]. apply read_queue_chain; [done|by eapply chain_size].
Qed.

Lemma queue_new_spec n c script p :
  (0 < n)%Z → (0 < c ≤ int_max)%Z → queue_new n c script = Some p →
  queue_inv p ∧ queue_accepted p = [] ∧ queue_closed p = false ∧ queue_room p (Z.to_nat c).
Proof.
  intros Hn Hc. unfold queue_new.
  destruct (create_thread_pool n c worker_script script) as [r s'| | |] eqn:E; try done.
  intros ->. apply create_thread_pool_result in E as ->.
  pose proof (idle_new_pool n c worker_script Hc) as Hi.
  split; [split; [done|by eexists]|]. unfold queue_accepted. rewrite (queue_of_idle _ _ Hi).
  split_and!; [done..|]. unfold queue_room. simpl pool. split_and!; [done|done|]. cbn [queue_size buffer_size]. lia.
Qed.

Lemma queue_create_spec j m :
  queue_inv m → job_next j = NULL →
  wlp (malloc_job j) (λ r m', queue_inv m' ∧ queue_accepted m' = queue_accepted m ∧
    queue_closed m' = queue_closed m ∧ ∀ a, r = Some a → queue_owned m' a j) m.
Proof.
  intros [Hco (ll & Hi)] Hj. pose proof Hi as [Hwf Hmu].
  assert (∀ m', wf m' ll → evolves m ll m' ll [] → pool m' = pool m →
    queue_inv m' ∧ queue_accepted m' = queue_accepted m ∧ queue_closed m' = queue_closed m ∧
    idle m' ll) as Hsame.
  { intros m' Hwf' [E1 E2 E3 E4 E5 E6 E7] Ep.
    assert (idle m' ll) as Hi' by (split; [done|by rewrite Ep]).
    unfold queue_inv, consumers_only, queue_accepted, queue_closed.
    rewrite E7, Ep, (queue_of_idle _ _ Hi), (queue_of_idle _ _ Hi'). unfold history.
    rewrite E1, app_nil_r. split_and!; [done|by eexists|done..]. }
  eapply wp_malloc_job; [done|..].
  - intros m' Hwf' Hev Ep. by destruct (Hsame m' Hwf' Hev Ep) as (? & ? & ? & _).
  - intros a m' Hwf' Hev Ep Ha Hnl _. destruct (Hsame m' Hwf' Hev Ep) as (? & ? & ? & Hi').
    split_and!; [done..|]. intros ? [= <-]. unfold queue_owned.
    by rewrite (queue_of_idle _ _ Hi').
Qed.

Lemma queue_enqueue_spec a j m :
  queue_inv m → queue_owned m a j →
  wlp (enqueue_sync_job (Some a)) (λ r m', queue_inv m' ∧
    (r = 0%Z ∧ queue_closed m' = false ∧ queue_accepted m' = queue_accepted m ++ [j] ∨
     r = (-1)%Z ∧ queue_closed m' = true ∧ queue_accepted m' = queue_accepted m ∧ queue_owned m' a j)) m.
Proof.
  intros [Hco (ll & Hi)] Hown. unfold queue_owned in Hown.
  rewrite (queue_of_idle _ _ Hi) in Hown. unfold queue_accepted at 2 4.
  rewrite (queue_of_idle _ _ Hi). eapply wlp_enqueue_sync_job; [done|done|..].
  - intros m' ll' extra Hi' Hw Hs Hh. destruct (waited_consumers _ _ _ Hco Hw) as [-> Hco'].
    split; [split; [done|by eexists]|]. left. unfold queue_closed, queue_accepted.
    rewrite (queue_of_idle _ _ Hi'), Hh. split_and!; [done| |done].
    apply bool_decide_false. by intros [].
  - intros m' ll' extra Hi' Hw Hs Hh Hp. destruct (waited_consumers _ _ _ Hco Hw) as [-> Hco'].
    split; [split; [done|by eexists]|]. right. unfold queue_closed, queue_accepted, queue_owned.
    rewrite (queue_of_idle _ _ Hi'), Hh, app_nil_r. split_and!; [done| |done|done].
    by apply bool_decide_true.
Qed.

Lemma queue_room_spec n j m :
  queue_inv m → queue_room m (S n) → job_next j = NULL →
  wp (malloc_job j) (λ r m1, ∃ a, r = Some a ∧
    wp (enqueue_sync_job (Some a)) (λ z m2, z = 0%Z ∧ queue_inv m2 ∧
      queue_accepted m2 = queue_accepted m ++ [j] ∧ queue_room m2 n) m1) m.
Proof.
  intros [Hco (ll & Hi)] (Hsh & Hav & Hroom) Hj. destruct Hi as [Hwf Hmu] eqn:EHi. clear EHi.
  unfold queue_accepted at 2. rewrite (queue_of_idle _ _ Hi).
  destruct (wf_fresh_lookup m ll (jbrk m) Hwf ltac:(lia)) as [Hn Hnl].
  destruct (wf_malloc m ll j Hwf) as [Hwf1 _]. unfold wpb at 1, malloc_job. rewrite Hav.
  rewrite (qr_size _ _ (wf_rep _ _ Hwf)) in Hroom.
  eexists. split; [done|]. eapply (wp_enqueue_room _ _ j _ ll); [split; [exact Hwf1|done]| |done| |].
  - split_and!; [simpl; apply lookup_insert_eq|done|done].
  - simpl. lia.
  - intros m' ll' Hi' Hs' Hh Hlen Hbuf Hav' Hw. simpl in Hbuf, Hav', Hw. split; [done|].
    split; [split; [by unfold consumers_only; rewrite Hw|by eexists]|].
    unfold queue_accepted. rewrite (queue_of_idle _ _ Hi'). split; [done|].
    split_and!; [done|by rewrite Hav', Hav|].
    rewrite (qr_size _ _ (wf_rep _ _ (proj1 Hi'))), Hbuf. lia.
Qed.

Lemma queue_free_spec a j m :
  queue_inv m → queue_owned m a j →
  wlp (free_sync_job (Some a)) (λ _ m', queue_inv m' ∧ queue_accepted m' = queue_accepted m ∧
    queue_closed m' = queue_closed m) m.
Proof.
  intros [Hco (ll & Hi)] Hown. unfold queue_owned in Hown.
  rewrite (queue_of_idle _ _ Hi) in Hown. destruct Hown as (Ha & _ & Hnl).
  eapply wp_free_job; [done|]. set (m' := set_jobs (delete a) m).
  assert (idle m' ll) as Hi'.
  { destruct Hi as [[[] ? ? Hf] ?]. split; [|done]. split; [|done|done|].
    - split; try done. by apply seg_delete.
    - intros x Hx. simpl in Hx. apply Hf. by apply lookup_delete_is_Some in Hx as [_ ?]. }
  split; [split; [done|by eexists]|]. unfold queue_accepted.
  by rewrite (queue_of_idle _ _ Hi), (queue_of_idle _ _ Hi').
Qed.

Lemma queue_shutdown_spec m :
  queue_inv m →
  wp signal_shutdown (λ _ m', queue_inv m' ∧ queue_accepted m' = queue_accepted m ∧ queue_closed m' = true) m.
Proof.
  intros [Hco (ll & Hi)]. eapply wp_signal_shutdown; [done|].
  intros m' Hi' Hs Hh Hw _. split; [split; [unfold consumers_only; by rewrite Hw|by eexists]|].
  unfold queue_accepted. rewrite (queue_of_idle _ _ Hi), (queue_of_idle _ _ Hi').
  split; [done|]. by apply bool_decide_true.
Qed.

Lemma queue_destroy_spec m :
  queue_inv m → wp destroy_thread_pool (λ _ _, True) m.
Proof.
  intros [Hco (ll & Hi)]. eapply wp_destroy_thread_pool; [done|]. done.
Qed.

#[global] Instance queue_sink : JobSink pmem := {|
  sink_new := queue_new;
  sink_create := malloc_job;
  sink_enqueue := enqueue_sync_job;
  sink_free := free_sync_job;
  sink_shutdown := signal_shutdown;
  sink_destroy := destroy_thread_pool;
  sink_inv := queue_inv;
  sink_accepted := queue_accepted;
  sink_closed := queue_closed;
  sink_owned := queue_owned;
  sink_room := queue_room;
  sink_new_spec := queue_new_spec;
  sink_create_spec := queue_create_spec;
  sink_enqueue_spec := queue_enqueue_spec;
  sink_room_spec := queue_room_spec;
  sink_free_spec := queue_free_spec;
  sink_shutdown_spec := queue_shutdown_spec;
  sink_destroy_spec := queue_destroy_spec |}.
End instance.

(** ** The operations in every environment *)

Lemma link_job_runs a m : link_job a m ≠ Blocked.
Proof.
  unfold link_job, write_job, deref_job, int_result, bind, gets, get, ret, modify, undef.
  by repeat case_match; simplify_eq.
Qed.

Lemma unlink_job_runs m : unlink_job m ≠ Blocked.
Proof.
  unfold unlink_job, write_job, deref_job, int_result, bind, gets, get, ret, modify, undef.
  by repeat case_match; simplify_eq.
Qed.

(** C31: [enqueue_sync_job], whatever the other threads do while it waits: it
    does not wait when there is room or the pool is shut down; it returns 0
    when the job, with the caller's fields, became the last accepted one, and
    -1 only when the pool is shut down, the job then staying the caller's.
    The jobs accepted before stay accepted in the same order. *)
Theorem enqueue_correct a j m ll :
  idle m ll → private m ll a j →
  (is_full (pool m) = false → enqueue_sync_job (Some a) m ≠ Blocked) ∧
  wlp (enqueue_sync_job (Some a)) (λ r m', ∃ ll' extra,
    idle m' ll' ∧ waited_for m m' extra ∧
    (r = 0%Z ∧ shutdown (pool m') = 0%Z ∧ history m' ll' = history m ll ++ extra ++ [j] ∨
     r = (-1)%Z ∧ shutdown (pool m') ≠ 0%Z ∧ history m' ll' = history m ll ++ extra ∧
     private m' ll' a j)) m.
Proof.
  intros Hi Hp. split.
  - intros Hf. unfold enqueue_sync_job, lock_pool, unlock_pool.
    destruct Hi as [_ Hmu]. unfold bind, get, gets, modify, ret. rewrite Hmu.
    case_decide; [done|]. rewrite wait_while_go by done. case_decide; [done|].
    pose proof (link_job_runs a (set_pool (set_mutex true) m)). by destruct (link_job _ _).
  - eapply wlp_enqueue_sync_job; [done|done|..]; intros m' ll' extra ????; exists ll', extra; auto 10.
Qed.

(** C32: [dequeue_sync_job], whatever the other threads do while it waits: it
    does not wait when the queue holds a job or the pool is shut down; the
    job it returns is the oldest queued one, detached from the queue, and it
    returns NULL only when the pool is shut down with an empty queue. *)
Theorem dequeue_correct m ll :
  idle m ll →
  (is_empty (pool m) = false → dequeue_sync_job m ≠ Blocked) ∧
  wlp dequeue_sync_job (λ r m', ∃ ll' extra,
    idle m' ll' ∧ waited_for m m' extra ∧ history m' ll' = history m ll ++ extra ∧
    match r with
    | Some a => ∃ j, private m' ll' a j ∧ last (handed m') = Some j
    | NULL => ll' = [] ∧ shutdown (pool m') ≠ 0%Z
    end) m.
Proof.
  intros Hi. split.
  - intros Hf. unfold dequeue_sync_job, lock_pool, unlock_pool.
    destruct Hi as [_ Hmu]. unfold bind, get, gets, modify, ret. rewrite Hmu.
    rewrite wait_while_go by done. case_decide; [done|].
    pose proof (unlink_job_runs (set_pool (set_mutex true) m)). by destruct (unlink_job _).
  - eapply wlp_dequeue_sync_job; [done|..].
    + intros m' ll' extra a j ?????. exists ll', extra. eauto 10.
    + intros m' extra ????. exists [], extra. auto.
Qed.

Lemma create_threads_spec n script :
  ∃ s', create_threads n script = Ret (bool_decide (Forall (eq true) (take n script))) s'.
Proof.
  revert script. induction n as [|n IH]; intros script; [by eexists|].
  cbn [create_threads]. unfold bind, creation_ok. destruct script as [|[] l]; cbn [take].
  - destruct (IH []) as [s' E]. rewrite E, take_nil. by eexists.
  - destruct (IH l) as [s' E]. rewrite E. eexists. f_equal. apply bool_decide_ext.
    rewrite Forall_cons. naive_solver.
  - eexists. rewrite bool_decide_false; [done|]. by rewrite Forall_cons; intros [].
Qed.

(** One more thing that may fail. *)
Lemma creation_stage (k : M (list bool) (ptr pmem)) (p : ptr pmem) (n : nat) :
  (∀ script, ∃ s', k script =
     Ret (if decide (Forall (eq true) (take n script)) then p else NULL) s') →
  ∀ script, ∃ s', (ok <- creation_ok ;; if negb ok then ret NULL else k) script =
    Ret (if decide (Forall (eq true) (take (S n) script)) then p else NULL) s'.
Proof.
  intros Hk script. unfold bind, creation_ok. destruct script as [|[] l]; cbn [take negb].
  - destruct (Hk []) as [s' E]. rewrite E, take_nil. by eexists.
  - destruct (Hk l) as [s' E]. rewrite E. eexists. f_equal. apply decide_ext.
    rewrite Forall_cons. naive_solver.
  - eexists. rewrite decide_False; [done|]. by rewrite Forall_cons; intros [].
Qed.

(** [create_thread_pool] returns a pool exactly when both allocations, the
    three initialisations and all the thread creations succeed; the pool is
    then empty, not shut down, unlocked, and has the capacity asked for. *)
Theorem create_thread_pool_correct (n c : Z) (w : list (list act)) (script : list bool) :
  ∃ s', create_thread_pool n c w script =
    Ret (if decide (Forall (eq true) (take (5 + Z.to_nat n) script))
         then Some (PMem ∅ 1 [] (Pool n NULL NULL 0 c false 0) w []) else NULL) s'.
Proof.
  unfold create_thread_pool. do 5 apply creation_stage. clear script. intros script.
  destruct (create_threads_spec (Z.to_nat n) script) as [s' E]. exists s'.
  erewrite bind_Ret by exact E. case_decide; [by rewrite bool_decide_true|by rewrite bool_decide_false].
Qed.

(** A pool with a queued job and one being added. *)
Definition demo_job (name : string) : sync_job :=
  make_job (lit "127.0.0.1") 9001 (lit "/src") (lit "127.0.0.1") 9002 (lit "/dst") (lit name).

Definition demo_mem : pmem :=
  PMem {[1%positive := demo_job "a"; 2%positive := demo_job "b"]} 3 []
    (Pool 1 (Some 1%positive) (Some 1%positive) 1 1 false 0) [[ATake]] [].

Lemma demo_idle : idle demo_mem [(1%positive, demo_job "a")].
Proof.
  split; [|done]. split; [split|..]; simpl; try (unfold int_max; lia); [done|done|].
  intros a [j Hj]. assert (a ∈ dom (jobs demo_mem)) as Ha by (apply elem_of_dom; by eexists).
  simpl in *. rewrite dom_insert_L, dom_singleton_L in Ha. set_unfold. lia.
Qed.

(** The queue is full: the job is added after a worker took the first one. *)
Lemma enqueue_correct_witness :
  idle demo_mem [(1%positive, demo_job "a")] ∧
  match enqueue_sync_job (Some 2%positive) demo_mem with
  | Ret r m' => r = 0%Z ∧ shutdown (pool m') = 0%Z
  | _ => False
  end ∧
  (is_full (pool demo_mem) = false → enqueue_sync_job (Some 2%positive) demo_mem ≠ Blocked).
Proof.
  split; [apply demo_idle|]. split; [vm_compute; done|].
  refine (proj1 (enqueue_correct 2 (demo_job "b") demo_mem _ demo_idle _)).
  split_and!; [reflexivity|reflexivity|set_solver].
Defined.

Lemma dequeue_correct_witness :
  idle demo_mem [(1%positive, demo_job "a")] ∧ dequeue_sync_job demo_mem ≠ Blocked.
Proof.
  split; [apply demo_idle|]. by apply (dequeue_correct demo_mem _ demo_idle).
Defined.
