(* ===== verification/PoolSteps.v ===== *)
(** * The thread pool as interleaved threads: [src/thread_pool.c]

    The main thread (the producer, which also shuts the pool down) and the
    workers as program counters over the shared memory of [JobQueue.v].  A
    step is one thread's code between two scheduling points: taking the
    mutex, testing the loop condition, releasing the mutex and falling asleep
    in [pthread_cond_wait], the rest of the critical section with its signal.
    The mutex is the [owner] field.  Wakeups are nondeterministic: a signal
    wakes one sleeper if there is one, and sleepers may wake without one.

    Shown for every reachable state: mutual exclusion, memory safety and
    ownership of every job block, the FIFO order and the capacity of the
    queue, absence of deadlock, and that [destroy_thread_pool] terminates
    after every accepted job was processed exactly once.  The failure path of
    [create_thread_pool], which sets the flag without the mutex, is shown to
    reach a deadlock. *)
From S2P Require Import Prelude.
From S2P Require Import LinkedList.
From S2P Require Import CString.
From S2P Require Import Common.
From S2P Require Import JobSink.
From S2P Require Import JobQueue.
From stdpp Require Import gmap strings list.
From Stdlib Require Import Ascii ZArith Lia.

Inductive tid := Main | Worker (i : nat).

(** Where a worker is, in [worker_thread] and [dequeue_sync_job]. *)
Inductive wpc :=
| WLock                (* at pthread_mutex_lock *)
| WTest                (* holds the mutex, at the while condition *)
| WWait                (* condition true, about to wait, still holds the mutex *)
| WSleep               (* asleep in pthread_cond_wait *)
| WRelock              (* woken, waiting for the mutex *)
| WTake                (* after the loop, holds the mutex *)
| WBusy (job : loc)    (* in sync_single_file, owns the job *)
| WExit.               (* returned *)

#[global] Instance wpc_eq_dec : EqDecision wpc.
Proof. solve_decision. Defined.

(** Where the main thread is. *)
Inductive mpc :=
| MIdle                             (* outside the pool's functions *)
| ELock (job : loc)                 (* enqueue_sync_job: at pthread_mutex_lock *)
| EEnter (job : loc)                (* holds the mutex, first test of shutdown *)
| ETest (job : loc)                 (* holds the mutex, at the while condition *)
| EWait (job : loc)                 (* about to wait, still holds the mutex *)
| ESleep (job : loc)                (* asleep in pthread_cond_wait *)
| ERelock (job : loc)               (* woken, waiting for the mutex *)
| ELink (job : loc)                 (* after the loop, holds the mutex *)
| MFree (job : loc)                 (* got -1, frees its job *)
| SLock (destroy : bool)            (* signal_shutdown or destroy: at the lock *)
| SSet (destroy : bool)             (* holds the mutex, sets the flag *)
| JJoin                             (* destroy: joining the workers *)
| JLock                             (* destroy: at the second lock *)
| JClean                            (* destroy: frees what is left *)
| MDone                             (* destroyed *)
| FSet | FCast | FJoin.             (* the failure path of create_thread_pool *)

Record sys := Sys {
  mem : pmem;
  owner : option tid;
  workers : list wpc;
  main : mpc;
  accepted : list sync_job;          (* history: jobs enqueued, in order *)
  finished : list sync_job           (* history: jobs processed, in order *)
}.

(** ** Wakeups *)

Definition wake (x : wpc) : wpc := match x with WSleep => WRelock | _ => x end.

(** [pthread_cond_broadcast (queue_not_empty)] *)
Definition wake_all (ws : list wpc) : list wpc := wake <$> ws.

(** [pthread_cond_signal (queue_not_empty)] *)
Definition wake_one (ws ws' : list wpc) : Prop :=
  (∃ i, ws !! i = Some WSleep ∧ ws' = <[i := WRelock]> ws) ∨ ((WSleep ∉ ws) ∧ ws' = ws).

(** [pthread_cond_signal (queue_not_full)]: only the main thread waits there. *)
Definition wake_main (x : mpc) : mpc := match x with ESleep a => ERelock a | _ => x end.

(** ** Steps *)

Definition at_worker (s : sys) (i : nat) (x : wpc) : Prop := workers s !! i = Some x.

Definition goto (i : nat) (x : wpc) (o : option tid) (s : sys) : sys :=
  Sys (mem s) o (<[i := x]> (workers s)) (main s) (accepted s) (finished s).

Definition main_goto (x : mpc) (o : option tid) (s : sys) : sys :=
  Sys (mem s) o (workers s) x (accepted s) (finished s).

Definition flag_shutdown (m : pmem) : pmem := set_pool (set_shutdown 1) m.

(** Steps of the threads inside the pool's functions. *)
Inductive istep : sys → sys → Prop :=
| w_lock s i :
    at_worker s i WLock → owner s = None → istep s (goto i WTest (Some (Worker i)) s)
| w_test_wait s i :
    at_worker s i WTest → is_empty (pool (mem s)) = true → istep s (goto i WWait (owner s) s)
| w_test_go s i :
    at_worker s i WTest → is_empty (pool (mem s)) = false → istep s (goto i WTake (owner s) s)
| w_wait s i :
    at_worker s i WWait → istep s (goto i WSleep None s)
| w_relock s i :
    at_worker s i WRelock → owner s = None → istep s (goto i WTest (Some (Worker i)) s)
| w_exit s i :
    at_worker s i WTake → shutdown (pool (mem s)) ≠ 0%Z → queue_size (pool (mem s)) = 0%Z →
    istep s (goto i WExit None s)
| w_take s i a m' :
    at_worker s i WTake → ¬ (shutdown (pool (mem s)) ≠ 0%Z ∧ queue_size (pool (mem s)) = 0%Z) →
    unlink_job (mem s) = Ret (Some a) m' →
    istep s (Sys m' None (<[i := WBusy a]> (workers s)) (wake_main (main s)) (accepted s) (finished s))
| w_take_null s i m' :
    at_worker s i WTake → ¬ (shutdown (pool (mem s)) ≠ 0%Z ∧ queue_size (pool (mem s)) = 0%Z) →
    unlink_job (mem s) = Ret NULL m' →
    istep s (Sys m' None (<[i := WExit]> (workers s)) (main s) (accepted s) (finished s))
| w_done s i a j m' :
    at_worker s i (WBusy a) → jobs (mem s) !! a = Some j → free_sync_job (Some a) (mem s) = Ret tt m' →
    istep s (Sys m' (owner s) (<[i := WLock]> (workers s)) (main s) (accepted s) (finished s ++ [j]))
| m_lock s a :
    main s = ELock a → owner s = None → istep s (main_goto (EEnter a) (Some Main) s)
| m_enter_shut s a :
    main s = EEnter a → shutdown (pool (mem s)) ≠ 0%Z → istep s (main_goto (MFree a) None s)
| m_enter s a :
    main s = EEnter a → shutdown (pool (mem s)) = 0%Z → istep s (main_goto (ETest a) (owner s) s)
| m_test_wait s a :
    main s = ETest a → is_full (pool (mem s)) = true → istep s (main_goto (EWait a) (owner s) s)
| m_test_go s a :
    main s = ETest a → is_full (pool (mem s)) = false → istep s (main_goto (ELink a) (owner s) s)
| m_wait s a :
    main s = EWait a → istep s (main_goto (ESleep a) None s)
| m_relock s a :
    main s = ERelock a → owner s = None → istep s (main_goto (ETest a) (Some Main) s)
| m_link_shut s a :
    main s = ELink a → shutdown (pool (mem s)) ≠ 0%Z → istep s (main_goto (MFree a) None s)
| m_link s a j m' ws' :
    main s = ELink a → shutdown (pool (mem s)) = 0%Z → jobs (mem s) !! a = Some j →
    link_job a (mem s) = Ret tt m' → wake_one (workers s) ws' →
    istep s (Sys m' None ws' MIdle (accepted s ++ [j]) (finished s))
| m_free s a m' :
    main s = MFree a → free_sync_job (Some a) (mem s) = Ret tt m' →
    istep s (Sys m' (owner s) (workers s) MIdle (accepted s) (finished s))
| m_slock s d :
    main s = SLock d → owner s = None → istep s (main_goto (SSet d) (Some Main) s)
| m_sset s (d : bool) :
    main s = SSet d →
    istep s (Sys (flag_shutdown (mem s)) None (wake_all (workers s)) (if d then JJoin else MIdle)
      (accepted s) (finished s))
| m_join s :
    main s = JJoin → Forall (eq WExit) (workers s) → istep s (main_goto JLock (owner s) s)
| m_jlock s :
    main s = JLock → owner s = None → istep s (main_goto JClean (Some Main) s)
| m_clean s m' :
    main s = JClean → free_queue (size (jobs (mem s))) (mem s) = Ret tt m' →
    istep s (Sys m' None (workers s) MDone (accepted s) (finished s))
| f_set s :
    main s = FSet →
    istep s (Sys (flag_shutdown (mem s)) (owner s) (workers s) FCast (accepted s) (finished s))
| f_cast s :
    main s = FCast →
    istep s (Sys (mem s) (owner s) (wake_all (workers s)) FJoin (accepted s) (finished s))
| f_join s :
    main s = FJoin → Forall (eq WExit) (workers s) → istep s (main_goto MDone (owner s) s).

(** What the manager may do next, and wakeups without a signal. *)
Inductive estep : sys → sys → Prop :=
| m_create s j a m' :
    main s = MIdle → job_next j = NULL → malloc_job j (mem s) = Ret (Some a) m' →
    estep s (Sys m' (owner s) (workers s) (ELock a) (accepted s) (finished s))
| m_create_fails s j m' :
    main s = MIdle → job_next j = NULL → malloc_job j (mem s) = Ret NULL m' →
    estep s (Sys m' (owner s) (workers s) MIdle (accepted s) (finished s))
| m_shutdown s d :
    main s = MIdle → estep s (main_goto (SLock d) (owner s) s)
| w_spurious s i :
    at_worker s i WSleep → estep s (goto i WRelock (owner s) s)
| m_spurious s a :
    main s = ESleep a → estep s (main_goto (ERelock a) (owner s) s).

Definition step (s s' : sys) : Prop := istep s s' ∨ estep s s'.

(** The pool after [create_thread_pool] succeeded, and the moment the
    creation of a thread failed after [n] were created; [av] says which of the
    coming allocations of jobs succeed. *)
Definition init (n : nat) (b : Z) (av : list bool) : sys :=
  Sys (set_javail (λ _, av) (new_pool (Z.of_nat n) b [])) None (replicate n WLock) MIdle [] [].

Definition init_failed (total n : nat) (b : Z) : sys :=
  Sys (new_pool (Z.of_nat total) b []) None (replicate n WLock) FSet [] [].

Definition reachable (s0 s : sys) : Prop := rtc step s0 s.

(** ** Updates of the worker list *)

Lemma lookup_upd (ws : list wpc) i y k z :
  <[i := y]> ws !! k = Some z → (k = i ∧ z = y) ∨ (k ≠ i ∧ ws !! k = Some z).
Proof.
  intros H. destruct (decide (k = i)) as [->|Hne].
  - left. split; [done|]. assert (i < length ws) as Hi.
    { apply lookup_lt_Some in H. by rewrite length_insert in H. }
    rewrite list_lookup_insert_eq in H by done. congruence.
  - right. by rewrite list_lookup_insert_ne in H.
Qed.

Lemma lookup_upd_eq (ws : list wpc) i x y : ws !! i = Some x → <[i := y]> ws !! i = Some y.
Proof. intros H%lookup_lt_Some. by apply list_lookup_insert_eq. Qed.

Lemma lookup_upd_ne (ws : list wpc) i y k : k ≠ i → <[i := y]> ws !! k = ws !! k.
Proof. intros H. by apply list_lookup_insert_ne. Qed.

Lemma upd_split (ws : list wpc) i x y :
  ws !! i = Some x → ∃ l1 l2, ws = l1 ++ x :: l2 ∧ <[i := y]> ws = l1 ++ y :: l2.
Proof.
  intros H. exists (take i ws), (drop (S i) ws). split; [by rewrite take_drop_middle|].
  apply insert_take_drop. by eapply lookup_lt_Some.
Qed.

(** ** Mutual exclusion *)

(** The places at which a thread holds the mutex. *)
Definition crit_w (x : wpc) : bool :=
  match x with WTest | WWait | WTake => true | _ => false end.

Definition crit_m (x : mpc) : bool :=
  match x with EEnter _ | ETest _ | EWait _ | ELink _ | SSet _ | JClean => true | _ => false end.

Record own_inv (s : sys) : Prop := {
  oi_w : ∀ i x, workers s !! i = Some x → crit_w x = true → owner s = Some (Worker i);
  oi_m : crit_m (main s) = true → owner s = Some Main;
  oi_w' : ∀ i, owner s = Some (Worker i) → ∃ x, workers s !! i = Some x ∧ crit_w x = true;
  oi_m' : owner s = Some Main → crit_m (main s) = true
}.

(** A worker moves; its new place agrees with the new owner. *)
Lemma own_worker s s' i x y :
  own_inv s → workers s !! i = Some x → workers s' = <[i := y]> (workers s) →
  crit_m (main s') = crit_m (main s) →
  (owner s' = owner s ∧ crit_w y = crit_w x ∨
   owner s = None ∧ owner s' = Some (Worker i) ∧ crit_w y = true ∨
   owner s = Some (Worker i) ∧ owner s' = None ∧ crit_w y = false) →
  own_inv s'.
Proof.
  intros [O1 O2 O3 O4] Hx Hw Hm Hcase. split.
  - intros k z Hk Hz. rewrite Hw in Hk. apply lookup_upd in Hk as [[-> ->]|[Hne Hk]].
    + destruct Hcase as [[-> Hc]|[(_ & -> & _)|(_ & _ & Hc)]]; [|done|congruence].
      rewrite Hz in Hc. by apply (O1 i x).
    + pose proof (O1 k z Hk Hz) as Ho.
      destruct Hcase as [[-> _]|[(Hn & _)|(Hn & _)]]; congruence.
  - rewrite Hm. intros Ho%O2. destruct Hcase as [[-> _]|[(Hn & _)|(Hn & _)]]; congruence.
  - intros k Hk. rewrite Hw. destruct (decide (k = i)) as [->|Hne].
    + exists y. split; [by eapply lookup_upd_eq|].
      destruct Hcase as [[E Hc]|[(_ & _ & ?)|(_ & ? & _)]]; [|done|congruence].
      rewrite E in Hk. destruct (O3 _ Hk) as (x' & Hx' & Hcx). congruence.
    + rewrite lookup_upd_ne by done. apply O3.
      destruct Hcase as [[E _]|[(_ & E & _)|(_ & E & _)]]; congruence.
  - intros Ho. rewrite Hm. apply O4. destruct Hcase as [[E _]|[(_ & E & _)|(_ & E & _)]]; congruence.
Qed.

(** The main thread moves; the workers keep the places at which they hold
    the mutex. *)
Lemma own_main s s' :
  own_inv s →
  (∀ i x, workers s' !! i = Some x → crit_w x = true → workers s !! i = Some x) →
  (∀ i x, workers s !! i = Some x → crit_w x = true → workers s' !! i = Some x) →
  (owner s' = owner s ∧ crit_m (main s') = crit_m (main s) ∨
   owner s = None ∧ owner s' = Some Main ∧ crit_m (main s') = true ∨
   owner s = Some Main ∧ owner s' = None ∧ crit_m (main s') = false) →
  own_inv s'.
Proof.
  intros [O1 O2 O3 O4] Hw Hw' Hcase. split.
  - intros i x Hx Hc. pose proof (O1 i x (Hw i x Hx Hc) Hc) as Ho.
    destruct Hcase as [[-> _]|[(Hn & _)|(Hn & _)]]; congruence.
  - intros Hc. destruct Hcase as [[-> E]|[(_ & -> & _)|(_ & _ & E)]]; [|done|congruence].
    apply O2. congruence.
  - intros i Hi. assert (owner s = Some (Worker i)) as Ho.
    { destruct Hcase as [[E _]|[(_ & E & _)|(_ & E & _)]]; congruence. }
    destruct (O3 i Ho) as (x & Hx & Hc). eauto.
  - intros Ho. destruct Hcase as [[E E2]|[(_ & _ & ?)|(_ & E & _)]]; [|done|congruence].
    rewrite E2. apply O4. congruence.
Qed.

Lemma wake_crit x y : wake x = y → crit_w y = true → x = y.
Proof. destruct x; simpl; intros <-; done. Qed.

Lemma wake_all_crit ws i x : crit_w x = true → wake_all ws !! i = Some x ↔ ws !! i = Some x.
Proof.
  intros Hc. unfold wake_all. rewrite list_lookup_fmap. destruct (ws !! i) as [y|]; simpl; [|done].
  split; intros [= E]; f_equal.
  - by eapply wake_crit.
  - subst. by destruct x.
Qed.

Lemma wake_one_crit ws ws' i x :
  wake_one ws ws' → crit_w x = true → ws' !! i = Some x ↔ ws !! i = Some x.
Proof.
  intros [(k & Hk & ->)|[_ ->]] Hc; [|done]. destruct (decide (i = k)) as [->|Hne].
  - rewrite Hk, (lookup_upd_eq _ _ _ _ Hk). split; intros [= <-]; done.
  - by rewrite lookup_upd_ne.
Qed.

Lemma wake_main_crit x : crit_m (wake_main x) = crit_m x.
Proof. by destruct x. Qed.

Lemma own_inv_step s s' : step s s' → own_inv s → own_inv s'.
Proof.
  intros [Hs|Hs]; destruct Hs; unfold at_worker in *; intros Ho; pose proof Ho as [O1 O2 O3 O4].
  all: try (match goal with H : workers ?s !! ?i = Some ?x |- _ =>
    solve [ eapply (own_worker s _ i x); [exact Ho|exact H|reflexivity|simpl; by rewrite ?wake_main_crit|];
      first [ by left | right; left; split_and!; done
            | right; right; split_and!; [by eapply O1|done|done] ] ] end).
  all: apply (own_main _ _ Ho); simpl.
  all: try (by intros ? ? ? ?).
  all: try (intros i x Hx Hc; revert Hx; by apply wake_all_crit).
  all: try match goal with H : wake_one _ _ |- ∀ _ _, _ =>
    intros i x Hx Hc; revert Hx; by apply (wake_one_crit _ _ i x H) end.
  all: match goal with H : main ?s = _ |- _ => rewrite H in *; simpl in * end.
  all: try match goal with d : bool |- _ => destruct d end.
  all: first [ by left | right; left; split_and!; done | right; right; split_and!; by auto ].
Qed.

(** ** Ownership of the job blocks *)

Definition busy_of (x : wpc) : option loc := match x with WBusy a => Some a | _ => None end.

(** The blocks workers hold. *)
Definition busy (ws : list wpc) : list loc := omap busy_of ws.

(** The block the main thread holds. *)
Definition mine (x : mpc) : list loc :=
  match x with
  | ELock a | EEnter a | ETest a | EWait a | ESleep a | ERelock a | ELink a | MFree a => [a]
  | _ => []
  end.

(** The jobs in the blocks [bs]. *)
Definition held (m : pmem) (bs : list loc) : list sync_job := omap (λ a, jobs m !! a) bs.

Lemma held_cons m a j bs : jobs m !! a = Some j → held m (a :: bs) = j :: held m bs.
Proof. intros H. unfold held. simpl. by rewrite H. Qed.

Lemma held_ext m m' bs :
  (∀ a, a ∈ bs → jobs m' !! a = jobs m !! a) → held m' bs = held m bs.
Proof. intros H. apply list_omap_ext, Forall_Forall2_diag. by apply Forall_forall. Qed.

#[global] Instance held_perm m : Proper ((≡ₚ) ==> (≡ₚ)) (held m).
Proof. intros l1 l2 E. unfold held. by rewrite E. Qed.

(** Every allocated block is in the queue, held by one worker, or held by the
    main thread; what was accepted was handed out or is queued, in order;
    what was handed out is finished or being processed. *)
Record mem_inv (m : pmem) (bs mi : list loc) (acc fin : list sync_job)
    (ll : list (loc * sync_job)) : Prop := {
  mi_wf : wf m ll;
  mi_dom : ∀ a, is_Some (jobs m !! a) ↔ a ∈ ll.*1 ++ bs ++ mi;
  mi_nodup : NoDup (ll.*1 ++ bs ++ mi);
  mi_next : ∀ a j, a ∈ bs ++ mi → jobs m !! a = Some j → job_next j = NULL;
  mi_acc : acc = handed m ++ contents ll;
  mi_fin : handed m ≡ₚ fin ++ held m bs
}.

Lemma mem_inv_perm m bs bs' mi acc fin ll :
  bs ≡ₚ bs' → mem_inv m bs mi acc fin ll → mem_inv m bs' mi acc fin ll.
Proof.
  intros E [H1 H2 H3 H4 H5 H6]. split; try done.
  - intros a. by rewrite <-E.
  - by rewrite <-E.
  - intros a j. rewrite <-E. apply H4.
  - by rewrite <-E.
Qed.

Lemma busy_same ws i x y :
  ws !! i = Some x → busy_of x = None → busy_of y = None → busy (<[i := y]> ws) = busy ws.
Proof.
  intros H Hx Hy. destruct (upd_split ws i x y H) as (l1 & l2 & E1 & E2).
  rewrite E2, E1. unfold busy. rewrite !omap_app. simpl. by rewrite Hx, Hy.
Qed.

Lemma busy_add ws i x a :
  ws !! i = Some x → busy_of x = None → busy (<[i := WBusy a]> ws) ≡ₚ a :: busy ws.
Proof.
  intros H Hx. destruct (upd_split ws i x (WBusy a) H) as (l1 & l2 & E1 & E2).
  rewrite E2, E1. unfold busy. rewrite !omap_app. simpl. rewrite Hx. solve_Permutation.
Qed.

Lemma busy_del ws i a y :
  ws !! i = Some (WBusy a) → busy_of y = None → busy ws ≡ₚ a :: busy (<[i := y]> ws).
Proof.
  intros H Hy. destruct (upd_split ws i _ y H) as (l1 & l2 & E1 & E2).
  rewrite E2, E1. unfold busy. rewrite !omap_app. simpl. rewrite Hy. solve_Permutation.
Qed.

Lemma busy_wake_all ws : busy (wake_all ws) = busy ws.
Proof. induction ws as [|[] ws IH]; simpl; [done|..]; unfold busy in *; simpl; by rewrite IH. Qed.

Lemma busy_wake_one ws ws' : wake_one ws ws' → busy ws' = busy ws.
Proof. intros [(i & H & ->)|[_ ->]]; [|done]. by eapply busy_same. Qed.

Lemma mine_wake_main x : mine (wake_main x) = mine x.
Proof. by destruct x. Qed.

Lemma NoDup_perm (l1 l2 : list loc) : l1 ≡ₚ l2 → NoDup l1 → NoDup l2.
Proof. by intros ->. Qed.

(** What each memory operation does to ownership. *)
Lemma mem_inv_unlink m bs mi acc fin a j ll :
  mem_inv m bs mi acc fin ((a, j) :: ll) →
  wp unlink_job (λ r m', r = Some a ∧ mem_inv m' (a :: bs) mi acc fin ll ∧
    shutdown (pool m') = shutdown (pool m) ∧ buffer_size (pool m') = buffer_size (pool m)) m.
Proof.
  intros [[Hrep Hcap Hbuf Hf] Hdom Hnd Hnext Hacc Hfin]. eapply wp_unlink_job; [done|].
  intros m' Hrep' Hj Hh [S1 S2 S3 S4 S5 S6 S7]. split; [done|]. split; [|done].
  rewrite fmap_cons in *. cbn [fst length contents app] in *. pose proof Hnd as [Hna Hnd']%NoDup_cons.
  assert (∀ x, is_Some (jobs m' !! x) ↔ x = a ∨ is_Some (jobs m !! x)) as Hin.
  { intros x. rewrite Hj, lookup_insert_is_Some. destruct (decide (a = x)); naive_solver. }
  split.
  - split; [done|rewrite S2; lia|by rewrite S2|]. intros x. rewrite S5, Hin.
    intros [->|?]; [|by auto]. apply Hf, Hdom. by left.
  - intros x. rewrite Hin, Hdom. set_solver.
  - eapply NoDup_perm; [|exact Hnd]. solve_Permutation.
  - intros x jx Hx. rewrite Hj. destruct (decide (x = a)) as [->|Hne].
    + rewrite lookup_insert_eq. by intros [= <-].
    + rewrite lookup_insert_ne by done. apply Hnext. set_solver.
  - by rewrite Hacc, Hh, <-app_assoc.
  - rewrite (held_cons m' a (with_job_next NULL j)) by (by rewrite Hj, lookup_insert_eq).
    rewrite Hh, Hfin, (held_ext m m'); [solve_Permutation|].
    intros x Hx. rewrite Hj. apply lookup_insert_ne. intros ->. set_solver.
Qed.

Lemma wf_delete m ll a : wf m ll → a ∉ ll.*1 → wf (set_jobs (delete a) m) ll.
Proof.
  intros [[] ? ? Hf] Ha. split; try done.
  - split; try done. by apply seg_delete.
  - intros x Hx. simpl in Hx. apply Hf. by apply lookup_delete_is_Some in Hx as [_ ?].
Qed.

(** A block that leaves [bs ++ mi] is freed. *)
Lemma mem_inv_delete m bs mi bs' mi' acc fin fin' ll a :
  mem_inv m bs mi acc fin ll → bs ++ mi ≡ₚ a :: bs' ++ mi' →
  handed m ≡ₚ fin' ++ held m bs' →
  mem_inv (set_jobs (delete a) m) bs' mi' acc fin' ll.
Proof.
  intros [Hwf Hdom Hnd Hnext Hacc Hfin] E Hfin'.
  rewrite E in Hnd. assert ((a ∉ ll.*1 ++ bs' ++ mi') ∧ NoDup (ll.*1 ++ bs' ++ mi')) as [Hna Hnd'].
  { apply NoDup_cons. eapply NoDup_perm; [|exact Hnd]. solve_Permutation. }
  split; simpl.
  - apply wf_delete; [done|]. set_solver.
  - intros x. rewrite lookup_delete_is_Some, Hdom, E.
    destruct (decide (a = x)) as [->|Hne]; [|set_solver]. split; [by intros [? _]|done].
  - done.
  - intros x jx Hx. rewrite lookup_delete_ne by set_solver. apply Hnext. rewrite E. set_solver.
  - done.
  - rewrite (held_ext m); [done|]. intros x Hx. apply lookup_delete_ne. set_solver.
Qed.

Lemma mem_inv_done m bs mi acc fin ll a :
  mem_inv m (a :: bs) mi acc fin ll →
  ∃ j, jobs m !! a = Some j ∧
    wp (free_sync_job (Some a)) (λ _ m', mem_inv m' bs mi acc (fin ++ [j]) ll ∧ pool m' = pool m) m.
Proof.
  intros H. pose proof H as [Hwf Hdom Hnd Hnext Hacc Hfin].
  destruct (proj2 (Hdom a)) as [j Hj]; [set_solver|]. exists j. split; [done|].
  eapply wp_free_job; [done|]. split; [|done]. eapply mem_inv_delete; [done|done|].
  rewrite Hfin, (held_cons m a j) by done. solve_Permutation.
Qed.

Lemma mem_inv_free m bs acc fin ll a :
  mem_inv m bs [a] acc fin ll →
  wp (free_sync_job (Some a)) (λ _ m', mem_inv m' bs [] acc fin ll ∧ pool m' = pool m) m.
Proof.
  intros H. pose proof H as [Hwf Hdom Hnd Hnext Hacc Hfin].
  destruct (proj2 (Hdom a)) as [j Hj]; [set_solver|].
  eapply wp_free_job; [done|]. split; [|done]. eapply mem_inv_delete; [done| |done].
  rewrite app_nil_r. solve_Permutation.
Qed.

Lemma mem_inv_link m bs acc fin ll a :
  mem_inv m bs [a] acc fin ll → (Z.of_nat (S (length ll)) ≤ buffer_size (pool m))%Z →
  ∃ j, jobs m !! a = Some j ∧
    wp (link_job a) (λ _ m', ∃ ll', mem_inv m' bs [] (acc ++ [j]) fin ll' ∧
      length ll' = S (length ll) ∧ shutdown (pool m') = shutdown (pool m) ∧
      buffer_size (pool m') = buffer_size (pool m)) m.
Proof.
  intros H Hroom. pose proof H as [[Hrep Hcap Hbuf Hf] Hdom Hnd Hnext Hacc Hfin].
  destruct (proj2 (Hdom a)) as [j Hj]; [set_solver|]. exists j. split; [done|].
  assert ((a ∉ ll.*1 ++ bs) ∧ NoDup (ll.*1 ++ bs)) as [Hna Hnd'].
  { apply NoDup_cons. eapply NoDup_perm; [|exact Hnd]. solve_Permutation. }
  eapply (wp_link_job _ a j ll); [done|done|by apply (Hnext a); [set_solver|]|set_solver|lia|].
  intros m' ll' Hrep' Hc' Hfst [S1 S2 S3 S4 S5 S6 S7] Hh Hd Hpriv. exists ll'.
  pose proof (f_equal length Hc') as Hlen.
  rewrite length_app, !length_contents in Hlen. simpl in Hlen.
  assert (∀ x, x ∈ bs → jobs m' !! x = jobs m !! x) as Hbs.
  { intros x Hx. apply Hpriv. intros Hx'. apply NoDup_app in Hnd' as (_ & Hdis & _).
    by apply (Hdis x). }
  assert (∀ x, is_Some (jobs m' !! x) ↔ is_Some (jobs m !! x)) as Hin.
  { intros x. by rewrite <-!elem_of_dom, Hd. }
  split; [|split_and!; [lia|done|done]]. split.
  - split; [done|rewrite S2; lia|by rewrite S2|]. intros x. rewrite S5, Hin. apply Hf.
  - intros x. rewrite Hin, Hdom, Hfst. set_solver.
  - rewrite Hfst, app_nil_r. eapply NoDup_perm; [|exact Hnd]. solve_Permutation.
  - intros x jx. rewrite app_nil_r. intros Hx. rewrite Hbs by done. apply Hnext. set_solver.
  - by rewrite Hacc, Hh, Hc', app_assoc.
  - by rewrite Hh, Hfin, (held_ext m m').
Qed.

Lemma mem_inv_malloc m bs acc fin ll j :
  mem_inv m bs [] acc fin ll → job_next j = NULL →
  wp (malloc_job j) (λ r m', mem_inv m' bs (option_list r) acc fin ll ∧ pool m' = pool m) m.
Proof.
  intros [Hwf Hdom Hnd Hnext Hacc Hfin] Hn.
  assert (∀ l, mem_inv (set_javail l m) bs [] acc fin ll) as Hl.
  { intros l. split; try done. destruct Hwf as [[] ? ? ?]. by split. }
  destruct (wf_malloc m ll j Hwf) as [Hwf' _].
  destruct (wf_fresh_lookup m ll (jbrk m) Hwf ltac:(lia)) as [Hnj _].
  assert (jbrk m ∉ ll.*1 ++ bs ++ []) as Hna.
  { intros Ha%Hdom. rewrite Hnj in Ha. by destruct Ha. }
  unfold wpb, malloc_job. destruct (javail m) as [|[] l]; [| |by split].
  1, 2: split; [|done]; split; simpl in *; [done| | | |done|].
  1, 5: intros x; rewrite lookup_insert_is_Some, Hdom; destruct (decide (jbrk m = x)); set_solver.
  1, 4: rewrite app_assoc in Hna, Hnd |- *; rewrite app_nil_r in *; apply NoDup_app; split_and!;
    [done|set_solver|apply NoDup_singleton].
  1, 3: intros x jx Hx; destruct (decide (jbrk m = x)) as [<-|Hne];
    [rewrite lookup_insert_eq; by intros [= <-]|rewrite lookup_insert_ne by done; apply Hnext; set_solver].
  1, 2: rewrite (held_ext m); [done|]; intros x Hx; apply lookup_insert_ne; set_solver.
Qed.

Lemma mem_inv_flag m bs mi acc fin ll :
  mem_inv m bs mi acc fin ll → mem_inv (flag_shutdown m) bs mi acc fin ll.
Proof. intros [[[] ? ? ?] ? ? ? ? ?]. by split. Qed.

(** ** Who may sleep, and why *)

(** What a worker's place says about the flag [sd] and the queue length [n]. *)
Definition worker_ok (sd : Z) (n : nat) (x : wpc) : Prop :=
  match x with
  | WSleep => sd = 0%Z
  | WWait => sd = 0%Z ∧ n = 0
  | WTake => sd ≠ 0%Z ∨ n ≠ 0
  | WExit => sd ≠ 0%Z ∧ n = 0
  | _ => True
  end.

(** What the main thread's place says; the failure path does not occur. *)
Definition main_ok (sd : Z) (n : nat) (cap : Z) (ws : list wpc) (x : mpc) : Prop :=
  match x with
  | EWait _ | ESleep _ => sd = 0%Z ∧ (cap ≤ Z.of_nat n)%Z
  | ELink _ => sd ≠ 0%Z ∨ (Z.of_nat n < cap)%Z
  | JJoin => sd ≠ 0%Z
  | JLock | JClean | MDone => sd ≠ 0%Z ∧ Forall (eq WExit) ws
  | FSet | FCast | FJoin => False
  | _ => True
  end.

Definition awake (x : wpc) : Prop := x ≠ WSleep ∧ x ≠ WExit.

Record sched_inv (sd : Z) (n : nat) (cap : Z) (ws : list wpc) (x : mpc) : Prop := {
  si_w : Forall (worker_ok sd n) ws;
  si_m : main_ok sd n cap ws x;
  si_awake : n ≠ 0 → Exists awake ws;
  si_some : ws ≠ []
}.

(** A worker moves and nothing else changes. *)
Lemma sched_worker sd n cap ws x i y z :
  sched_inv sd n cap ws x → ws !! i = Some y → y ≠ WExit → worker_ok sd n z →
  (n ≠ 0 → awake z) → sched_inv sd n cap (<[i := z]> ws) x.
Proof.
  intros [H1 H2 H3 H4] Hi Hy Hz Ha. split.
  - by apply Forall_insert.
  - destruct x; simpl in *; try done.
    all: destruct H2 as [_ HF]; rewrite Forall_forall in HF; exfalso; apply Hy; symmetry;
      apply HF; by eapply list_elem_of_lookup_2.
  - intros Hn. apply Exists_exists. exists z. split; [|by auto].
    apply (list_elem_of_lookup_2 _ i). by eapply lookup_upd_eq.
  - intros E. apply (f_equal length) in E. rewrite length_insert in E. by destruct ws.
Qed.

Lemma sched_main sd n cap ws x y :
  sched_inv sd n cap ws x → main_ok sd n cap ws y → sched_inv sd n cap ws y.
Proof. intros [] ?. by split. Qed.

Lemma wake_awake y : awake y → awake (wake y).
Proof. by destruct y. Qed.

(** Setting the flag under the mutex and waking everyone. *)
Lemma sched_shutdown sd n cap ws x y :
  sched_inv sd n cap ws x → Forall (λ z, crit_w z = false) ws →
  (∀ ws', main_ok 1 n cap ws' y) → sched_inv 1 n cap (wake_all ws) y.
Proof.
  intros [H1 H2 H3 H4] Hc Hy. unfold wake_all. split; [|done| |by intros ?%fmap_nil_inv].
  - apply Forall_fmap. eapply Forall_impl; [exact (proj2 (Forall_and _ _) (conj H1 Hc))|].
    intros [] [Hw ?]; simpl in *; done || naive_solver lia.
  - intros Hn. apply Exists_fmap. eapply Exists_impl; [by apply H3|]. apply wake_awake.
Qed.

(** A job is linked and one sleeper woken. *)
Lemma sched_link n cap ws ws' x :
  sched_inv 0 n cap ws x → Forall (λ z, crit_w z = false) ws → wake_one ws ws' →
  sched_inv 0 (S n) cap ws' MIdle.
Proof.
  intros [H1 H2 H3 H4] Hc Hw.
  assert (Forall (worker_ok 0 (S n)) ws) as H1'.
  { eapply Forall_impl; [exact (proj2 (Forall_and _ _) (conj H1 Hc))|].
    intros [] [? ?]; simpl in *; done || naive_solver lia. }
  destruct Hw as [(i & Hi & ->)|[Hno ->]].
  - split; [by apply Forall_insert|done| |].
    + intros _. apply Exists_exists. exists WRelock. split; [|done].
      apply (list_elem_of_lookup_2 _ i). by eapply lookup_upd_eq.
    + intros E. apply (f_equal length) in E. rewrite length_insert in E. by destruct ws.
  - split; [done|done| |done]. intros _. destruct ws as [|z ws]; [done|]. left. split.
    + intros ->. apply Hno. by left.
    + intros ->. apply Forall_cons in H1' as [[] _]. done.
Qed.

(** A job is taken by worker [i], and the main thread woken if it sleeps. *)
Lemma sched_take sd n cap ws x i a :
  sched_inv sd (S n) cap ws x → ws !! i = Some WTake → crit_m x = false →
  (∀ k z, k ≠ i → ws !! k = Some z → crit_w z = false) →
  sched_inv sd n cap (<[i := WBusy a]> ws) (wake_main x).
Proof.
  intros [H1 H2 H3 H4] Hi Hm Hc. split.
  - apply Forall_lookup. intros k z [[-> ->]|[Hne Hk]]%lookup_upd; [done|].
    pose proof (Hc k z Hne Hk) as Hz. rewrite Forall_lookup in H1. specialize (H1 k z Hk).
    destruct z; simpl in *; try done. by destruct H1.
  - destruct x; simpl in *; try done.
    all: destruct H2 as [_ HF]; rewrite Forall_lookup in HF; by specialize (HF i WTake Hi).
  - intros _. apply Exists_exists. exists (WBusy a). split; [|done].
    apply (list_elem_of_lookup_2 _ i). by eapply lookup_upd_eq.
  - intros E. apply (f_equal length) in E. rewrite length_insert in E. by destruct ws.
Qed.

(** ** The invariant of the running pool *)

Definition inv (s : sys) (ll : list (loc * sync_job)) : Prop :=
  own_inv s ∧
  mem_inv (mem s) (busy (workers s)) (mine (main s)) (accepted s) (finished s) ll ∧
  sched_inv (shutdown (pool (mem s))) (length ll) (buffer_size (pool (mem s))) (workers s) (main s).

Lemma inv_size s ll : inv s ll → queue_size (pool (mem s)) = Z.of_nat (length ll).
Proof. intros (_ & [[[] ? ? ?] ? ? ? ? ?] & _). done. Qed.

(** A worker moves without touching the memory. *)
Lemma inv_goto s ll i x y o :
  inv s ll → own_inv (goto i y o s) → at_worker s i x → x ≠ WExit →
  busy_of x = None → busy_of y = None →
  worker_ok (shutdown (pool (mem s))) (length ll) y → (length ll ≠ 0 → awake y) →
  inv (goto i y o s) ll.
Proof.
  intros (_ & Hm & Hs) Ho Hi Hx Hbx Hby Hy Ha. split_and!; [done|..]; simpl.
  - by erewrite busy_same by done.
  - by eapply sched_worker.
Qed.

(** The main thread moves without touching the memory. *)
Lemma inv_main_goto s ll y o :
  inv s ll → own_inv (main_goto y o s) → mine y = mine (main s) →
  main_ok (shutdown (pool (mem s))) (length ll) (buffer_size (pool (mem s))) (workers s) y →
  inv (main_goto y o s) ll.
Proof.
  intros (_ & Hm & Hs) Ho Hmi Hy. split_and!; [done|simpl; by rewrite Hmi|].
  by eapply sched_main.
Qed.

(** When the main thread holds the mutex no worker is in a critical section,
    and the other way round. *)
Lemma main_alone s : own_inv s → crit_m (main s) = true → Forall (λ z, crit_w z = false) (workers s).
Proof.
  intros [O1 O2 O3 O4] Hm%O2. apply Forall_lookup. intros i x Hi.
  destruct (crit_w x) eqn:Hc; [|done]. pose proof (O1 i x Hi Hc). congruence.
Qed.

Lemma worker_alone s i x :
  own_inv s → workers s !! i = Some x → crit_w x = true →
  crit_m (main s) = false ∧ ∀ k z, k ≠ i → workers s !! k = Some z → crit_w z = false.
Proof.
  intros [O1 O2 O3 O4] Hi Hc. pose proof (O1 i x Hi Hc) as Ho. split.
  - apply not_true_iff_false. intros Hm%O2. congruence.
  - intros k z Hne Hk. destruct (crit_w z) eqn:Hz; [|done]. pose proof (O1 k z Hk Hz). congruence.
Qed.

Lemma wp_Ret {A} (c : M pmem A) Q m a m' : wp c Q m → c m = Ret a m' → Q a m'.
Proof. unfold wpb. by intros H E; rewrite E in H. Qed.

Lemma worker_at s ll i x :
  inv s ll → workers s !! i = Some x → worker_ok (shutdown (pool (mem s))) (length ll) x.
Proof. intros (_ & _ & [H _ _ _]) Hi. rewrite Forall_lookup in H. eauto. Qed.

Lemma main_at s ll :
  inv s ll →
  main_ok (shutdown (pool (mem s))) (length ll) (buffer_size (pool (mem s))) (workers s) (main s).
Proof. by intros (_ & _ & []). Qed.

Lemma inv_ne s ll : inv s ll → workers s ≠ [].
Proof. by intros (_ & _ & []). Qed.

(** All workers gone: the queue is empty. *)
Lemma all_exited_empty s ll : inv s ll → Forall (eq WExit) (workers s) → ll = [].
Proof.
  intros Hi HF. pose proof (inv_ne _ _ Hi) as Hne. pose proof (worker_at s ll 0) as Hw.
  destruct (workers s) as [|x ws]; [done|]. apply Forall_cons in HF as [<- _].
  destruct (Hw WExit Hi eq_refl) as [_ ?]. by apply nil_length_inv.
Qed.

(** The steps that use the memory: they do nothing undefined, and keep the
    invariant. *)
Lemma inv_take s ll i :
  inv s ll → at_worker s i WTake → ¬ (shutdown (pool (mem s)) ≠ 0%Z ∧ queue_size (pool (mem s)) = 0%Z) →
  wp unlink_job (λ r m', ∃ a ll', r = Some a ∧ ∀ s',
    s' = Sys m' None (<[i := WBusy a]> (workers s)) (wake_main (main s)) (accepted s) (finished s) →
    own_inv s' → inv s' ll') (mem s).
Proof.
  intros Hi Hw Hn. pose proof (inv_size _ _ Hi) as Hsz. pose proof (worker_at _ _ _ _ Hi Hw) as Hok.
  destruct Hi as (Ho & Hm & Hs). destruct ll as [|[a j] ll]; [simpl in *; lia|].
  eapply wpb_mono; [by eapply mem_inv_unlink|]. intros r m' (-> & Hm' & E1 & E2).
  exists a, ll. split; [done|]. intros s' -> Ho'.
  destruct (worker_alone s i WTake Ho Hw eq_refl) as [Hcm Hcw].
  split_and!; [done| |]; simpl.
  - rewrite mine_wake_main. eapply mem_inv_perm; [symmetry; by eapply busy_add|done].
  - rewrite E1, E2. by eapply sched_take.
Qed.

Lemma inv_done s ll i a :
  inv s ll → at_worker s i (WBusy a) →
  ∃ j, jobs (mem s) !! a = Some j ∧ wp (free_sync_job (Some a)) (λ _ m', ∀ s',
    s' = Sys m' (owner s) (<[i := WLock]> (workers s)) (main s) (accepted s) (finished s ++ [j]) →
    own_inv s' → inv s' ll) (mem s).
Proof.
  intros (Ho & Hm & Hs) Hw.
  apply (mem_inv_perm _ _ (a :: busy (<[i := WLock]> (workers s)))) in Hm; [|by apply busy_del].
  destruct (mem_inv_done _ _ _ _ _ _ _ Hm) as (j & Hj & Hwp). exists j. split; [done|].
  eapply wpb_mono; [exact Hwp|]. intros _ m' [Hm' Ep] s' -> Ho'. split_and!; [done|done|].
  simpl. rewrite Ep. by eapply sched_worker.
Qed.

Lemma inv_free s ll a :
  inv s ll → main s = MFree a →
  wp (free_sync_job (Some a)) (λ _ m', ∀ s',
    s' = Sys m' (owner s) (workers s) MIdle (accepted s) (finished s) →
    own_inv s' → inv s' ll) (mem s).
Proof.
  intros (Ho & Hm & Hs) Ha. rewrite Ha in Hm. simpl in Hm.
  eapply wpb_mono; [by eapply mem_inv_free|]. intros _ m' [Hm' Ep] s' -> Ho'.
  split_and!; [done|done|]. simpl. rewrite Ep. by eapply sched_main.
Qed.

Lemma inv_link s ll a :
  inv s ll → main s = ELink a → shutdown (pool (mem s)) = 0%Z →
  ∃ j, jobs (mem s) !! a = Some j ∧ wp (link_job a) (λ _ m', ∃ ll', ∀ ws' s',
    wake_one (workers s) ws' → s' = Sys m' None ws' MIdle (accepted s ++ [j]) (finished s) →
    own_inv s' → inv s' ll') (mem s).
Proof.
  intros Hi Ha Hsd. pose proof (main_at _ _ Hi) as Hok. rewrite Ha in Hok.
  destruct Hi as (Ho & Hm & Hs). rewrite Ha in Hm. simpl in Hm, Hok.
  destruct (mem_inv_link _ _ _ _ _ _ Hm) as (j & Hj & Hwp); [naive_solver lia|].
  exists j. split; [done|]. eapply wpb_mono; [exact Hwp|].
  intros _ m' (ll' & Hm' & El & E1 & E2). exists ll'. intros ws' s' Hwake -> Ho'.
  split_and!; [done| |]; simpl.
  - by rewrite (busy_wake_one _ _ Hwake).
  - rewrite El, E1, E2, Hsd. rewrite Hsd in Hs. eapply sched_link; [done| |done].
    apply main_alone; [done|]. by rewrite Ha.
Qed.

Lemma inv_set s s' ll (d : bool) :
  inv s ll → main s = SSet d →
  s' = Sys (flag_shutdown (mem s)) None (wake_all (workers s)) (if d then JJoin else MIdle)
         (accepted s) (finished s) →
  own_inv s' → inv s' ll.
Proof.
  intros (Ho & Hm & Hs) Hd -> Ho'. rewrite Hd in Hm. split_and!; [done| |]; simpl.
  - rewrite busy_wake_all. destruct d; by apply mem_inv_flag.
  - eapply sched_shutdown; [done|apply main_alone; [done|by rewrite Hd]|by destruct d].
Qed.

Lemma inv_clean s ll :
  inv s ll → main s = JClean → ll = [] ∧
  wp (free_queue (size (jobs (mem s)))) (λ _ m', m' = mem s ∧ ∀ s',
    s' = Sys m' None (workers s) MDone (accepted s) (finished s) →
    own_inv s' → inv s' ll) (mem s).
Proof.
  intros Hi Hc. pose proof (main_at _ _ Hi) as Hok. rewrite Hc in Hok. destruct Hok as [Hsd HF].
  pose proof (all_exited_empty _ _ Hi HF) as ->. split; [done|].
  destruct Hi as (Ho & Hm & Hs). pose proof Hm as [[[Hch _ _ _] _ _ _] _ _ _ _ _].
  unfold chain in Hch. simpl in Hch.
  destruct (size (jobs (mem s))); simpl; apply wpb_bind, wpb_gets; rewrite Hch; apply wpb_ret.
  all: split; [done|]; intros s' -> Ho'; split_and!; [done| |]; simpl; rewrite Hc in Hm;
    [done|by eapply sched_main].
Qed.

Lemma inv_malloc s ll j :
  inv s ll → main s = MIdle → job_next j = NULL →
  wp (malloc_job j) (λ r m', ∀ s',
    s' = Sys m' (owner s) (workers s) (from_option ELock MIdle r) (accepted s) (finished s) →
    own_inv s' → inv s' ll) (mem s).
Proof.
  intros (Ho & Hm & Hs) Ha Hj. rewrite Ha in Hm.
  eapply wpb_mono; [by eapply mem_inv_malloc|]. intros r m' [Hm' Ep] s' -> Ho'.
  split_and!; [done|by destruct r|]. simpl. rewrite Ep. eapply sched_main; [done|by destruct r].
Qed.

(** The steps that only move a thread. *)
Ltac pool_moves :=
  match goal with
  | H : at_worker ?s ?i ?x, Hi : inv ?s ?ll |- _ =>
      exists ll; eapply (inv_goto s ll i x); [exact Hi|done|exact H|done..| |]
  | Hm : main ?s = _, Hi : inv ?s ?ll |- _ =>
      exists ll; eapply (inv_main_goto s ll); [exact Hi|done|by rewrite Hm|]
  end.

Lemma is_full_spec s ll :
  inv s ll → is_full (pool (mem s)) = true ↔
  (buffer_size (pool (mem s)) ≤ Z.of_nat (length ll))%Z ∧ shutdown (pool (mem s)) = 0%Z.
Proof.
  intros Hi. unfold is_full. rewrite (inv_size _ _ Hi), andb_true_iff, !bool_decide_eq_true. done.
Qed.

Lemma is_empty_spec s ll :
  inv s ll → is_empty (pool (mem s)) = true ↔ length ll = 0 ∧ shutdown (pool (mem s)) = 0%Z.
Proof.
  intros Hi. unfold is_empty. rewrite (inv_size _ _ Hi), andb_true_iff, !bool_decide_eq_true. lia.
Qed.

Lemma inv_istep s s' ll : istep s s' → inv s ll → ∃ ll', inv s' ll'.
Proof.
  intros Hstep Hi. pose proof (own_inv_step _ _ (or_introl Hstep) (proj1 Hi)) as Ho'.
  pose proof (is_full_spec _ _ Hi) as Hfull. pose proof (is_empty_spec _ _ Hi) as Hempty.
  pose proof (inv_size _ _ Hi) as Hsz. pose proof (main_at _ _ Hi) as Hmain.
  destruct Hstep; try (match goal with H : main _ = _ |- _ => rewrite H in Hmain; simpl in Hmain end).
  all: try match goal with H : at_worker _ _ _ |- _ => pose proof (worker_at _ _ _ _ Hi H) as Hat end.
  all: simpl in Hat || idtac.
  all: try (by pool_moves).
  all: try done.
  - pool_moves; simpl; naive_solver.
  - pool_moves; simpl; [|done]. apply not_true_iff_false in H0. rewrite Hempty in H0. lia.
  - pool_moves; simpl; naive_solver.
  - pool_moves; simpl; [|lia]. split; [done|lia].
  - destruct (wp_Ret _ _ _ _ _ (inv_take _ _ _ Hi H H0) H1) as (? & ll' & [= <-] & Hinv).
    exists ll'. by apply Hinv.
  - destruct (wp_Ret _ _ _ _ _ (inv_take _ _ _ Hi H H0) H1) as (? & ll' & [=] & Hinv).
  - destruct (inv_done _ _ _ _ Hi H) as (j' & Hj & Hwp). simplify_eq. exists ll.
    by eapply (wp_Ret _ _ _ _ _ Hwp).
  - pool_moves. simpl. naive_solver.
  - pool_moves. simpl. apply not_true_iff_false in H0. rewrite Hfull in H0. lia.
  - destruct (inv_link _ _ _ Hi H H0) as (j' & Hj & Hwp). simplify_eq.
    destruct (wp_Ret _ _ _ _ _ Hwp H2) as (ll' & Hinv). exists ll'. by eapply Hinv.
  - exists ll. by eapply (wp_Ret _ _ _ _ _ (inv_free _ _ _ Hi H)).
  - exists ll. by eapply inv_set.
  - destruct (inv_clean _ _ Hi H) as [-> Hwp]. exists [].
    destruct (wp_Ret _ _ _ _ _ Hwp H0) as [_ Hinv]. by apply Hinv.
Qed.

Lemma inv_step s s' ll : step s s' → inv s ll → ∃ ll', inv s' ll'.
Proof.
  intros [Hstep|Hstep] Hi; [by eapply inv_istep|].
  pose proof (own_inv_step _ _ (or_intror Hstep) (proj1 Hi)) as Ho'.
  pose proof (main_at _ _ Hi) as Hmain. destruct Hstep.
  - exists ll. by eapply (wp_Ret _ _ _ _ _ (inv_malloc _ _ j Hi H H0)).
  - exists ll. by eapply (wp_Ret _ _ _ _ _ (inv_malloc _ _ j Hi H H0)).
  - by pool_moves.
  - by pool_moves.
  - by pool_moves.
Qed.

Lemma inv_init n b av : 0 < n → (0 < b ≤ int_max)%Z → inv (init n b av) [].
Proof.
  intros Hn Hb. assert (busy (replicate n WLock) = []) as Hbusy.
  { clear. induction n as [|n IH]; [done|exact IH]. }
  assert (∀ x i, replicate n WLock !! i = Some x → x = WLock) as Hrep.
  { by intros x i [-> _]%lookup_replicate. }
  split_and!; simpl.
  - split; simpl; try done. intros i x ->%Hrep. done.
  - rewrite Hbusy. split; simpl; try done.
    + split; simpl; [|lia|done|]. { split; simpl; done || unfold int_max; lia. }
      intros a [j Hj]. by rewrite lookup_empty in Hj.
    + intros a. rewrite lookup_empty. split; [by intros []|by intros ?%elem_of_nil].
    + apply NoDup_nil_2.
  - split; simpl; [|done|done|by destruct n; [lia|]].
    apply Forall_lookup. by intros i x ->%Hrep.
Qed.

Lemma inv_reachable n b av s :
  0 < n → (0 < b ≤ int_max)%Z → reachable (init n b av) s → ∃ ll, inv s ll.
Proof.
  intros Hn Hb Hr. pose proof (inv_init n b av Hn Hb) as Hi.
  unfold reachable in Hr. generalize dependent (@nil (loc * sync_job)).
  induction Hr as [s|s1 s2 s3 Hs Hr IH]; intros ll Hi; [by eexists|].
  destruct (inv_step _ _ _ Hs Hi) as [ll' Hi']. by eapply IH.
Qed.

(** ** What holds in every reachable state *)

(** The jobs in the queue, as the memory holds them. *)
Definition queued (s : sys) : list sync_job := contents (queue_of (mem s)).

(** The jobs workers are processing. *)
Definition processing (s : sys) : list sync_job := held (mem s) (busy (workers s)).

Lemma inv_queue s ll : inv s ll → queue_of (mem s) = ll.
Proof.
  intros (_ & [[[Hc _ _ _] _ _ _] _ _ _ _ _] & _).
  apply read_queue_chain; [done|by eapply chain_size].
Qed.

(** Two threads that may both touch the queue. *)
Definition both_critical (s : sys) : Prop :=
  (∃ i j x y, i ≠ j ∧ workers s !! i = Some x ∧ workers s !! j = Some y ∧
     crit_w x = true ∧ crit_w y = true) ∨
  (∃ i x, workers s !! i = Some x ∧ crit_w x = true ∧ crit_m (main s) = true).

(** The operations the threads are about to do are defined: none of them
    uses a freed block, and none overflows the job count. *)
Definition memory_ok (s : sys) : Prop :=
  (∀ i, at_worker s i WTake → ¬ (shutdown (pool (mem s)) ≠ 0 ∧ queue_size (pool (mem s)) = 0)%Z →
     ∃ a m', unlink_job (mem s) = Ret (Some a) m') ∧
  (∀ i a, at_worker s i (WBusy a) → ∃ m', free_sync_job (Some a) (mem s) = Ret tt m') ∧
  (∀ a, main s = ELink a → shutdown (pool (mem s)) = 0%Z → ∃ m', link_job a (mem s) = Ret tt m') ∧
  (∀ a, main s = MFree a → ∃ m', free_sync_job (Some a) (mem s) = Ret tt m') ∧
  (main s = JClean → ∃ m', free_queue (size (jobs (mem s))) (mem s) = Ret tt m').

Lemma wp_ex {A} (c : M pmem A) Q m : wp c Q m → ∃ a m', c m = Ret a m' ∧ Q a m'.
Proof. apply wp_returns. Qed.

Lemma inv_memory_ok s ll : inv s ll → memory_ok s.
Proof.
  intros Hi. split_and!.
  - intros i Hw Hn. destruct (wp_ex _ _ _ (inv_take _ _ _ Hi Hw Hn)) as (r & m' & E & a & ll' & -> & _).
    by exists a, m'.
  - intros i a Hw. destruct (inv_done _ _ _ _ Hi Hw) as (j & _ & Hwp).
    destruct (wp_ex _ _ _ Hwp) as ([] & m' & E & _). by exists m'.
  - intros a Ha Hsd. destruct (inv_link _ _ _ Hi Ha Hsd) as (j & _ & Hwp).
    destruct (wp_ex _ _ _ Hwp) as ([] & m' & E & _). by exists m'.
  - intros a Ha. destruct (wp_ex _ _ _ (inv_free _ _ _ Hi Ha)) as ([] & m' & E & _). by exists m'.
  - intros Hc. destruct (inv_clean _ _ Hi Hc) as [_ Hwp].
    destruct (wp_ex _ _ _ Hwp) as ([] & m' & E & _). by exists m'.
Qed.

Lemma own_exclusive s : own_inv s → ¬ both_critical s.
Proof.
  intros Ho [(i & j & x & y & Hne & Hi & Hj & Hx & Hy)|(i & x & Hi & Hx & Hm)].
  - destruct (worker_alone s i x Ho Hi Hx) as [_ Hk].
    pose proof (Hk j y (not_eq_sym Hne) Hj). congruence.
  - destruct (worker_alone s i x Ho Hi Hx). congruence.
Qed.

(** C9: in every reachable state of a pool created with at least one worker
    and a positive capacity, at most one thread is inside a critical section
    of the queue, and every memory operation a thread is about to do on the
    queue or on a job block is defined. *)
Theorem pool_safe n b av s :
  0 < n → (0 < b ≤ int_max)%Z → reachable (init n b av) s → ¬ both_critical s ∧ memory_ok s.
Proof.
  intros Hn Hb Hr. destruct (inv_reachable _ _ _ _ Hn Hb Hr) as [ll Hi].
  split; [apply own_exclusive, Hi|by eapply inv_memory_ok].
Qed.

(** C10: the queue is first in first out and bounded, and no job is lost or
    taken twice: the jobs handed out followed by the jobs in the queue are the
    jobs accepted, in order, [queue_size] counts the queue and never exceeds
    the capacity, and what was handed out is finished or with one worker. *)
Theorem pool_fifo n b av s :
  0 < n → (0 < b ≤ int_max)%Z → reachable (init n b av) s →
  accepted s = handed (mem s) ++ queued s ∧
  handed (mem s) ≡ₚ finished s ++ processing s ∧
  queue_size (pool (mem s)) = Z.of_nat (length (queued s)) ∧
  (queue_size (pool (mem s)) ≤ buffer_size (pool (mem s)))%Z.
Proof.
  intros Hn Hb Hr. destruct (inv_reachable _ _ _ _ Hn Hb Hr) as [ll Hi].
  pose proof (inv_size _ _ Hi) as Hsz. unfold queued. rewrite (inv_queue _ _ Hi), length_contents.
  destruct Hi as (_ & [[_ Hcap _ _] _ _ _ Ha Hf] & _). split_and!; [done|done|done|lia].
Qed.

(** ** Deadlock freedom *)

Lemma workers_all ws (P : wpc → Prop) `{∀ x, Decision (P x)} :
  Forall P ws ∨ ∃ i x, ws !! i = Some x ∧ ¬ P x.
Proof.
  destruct (decide (Forall P ws)) as [|Hn]; [by left|right].
  apply not_Forall_Exists in Hn; [|apply _]. apply Exists_exists in Hn as (x & Hx & Hp).
  apply list_elem_of_lookup_1 in Hx as [i Hx]. eauto.
Qed.

Definition resting (x : wpc) : bool := match x with WSleep | WExit => true | _ => false end.

(** Nothing left to do until the manager's next call. *)
Definition quiescent (s : sys) : Prop :=
  queued s = [] ∧ processing s = [] ∧
  (main s = MIdle ∧ Forall (λ x, resting x = true) (workers s) ∨
   main s = MDone ∧ Forall (eq WExit) (workers s)).

Lemma wake_one_exists ws : ∃ ws', wake_one ws ws'.
Proof.
  destruct (decide (WSleep ∈ ws)) as [[i Hi]%list_elem_of_lookup_1|Hn].
  - exists (<[i := WRelock]> ws). left. by exists i.
  - exists ws. by right.
Qed.

(** A worker that neither sleeps nor has returned can go on, if the mutex is
    free or its own. *)
Lemma worker_progress s ll i x :
  inv s ll → workers s !! i = Some x → resting x = false →
  owner s = None ∨ owner s = Some (Worker i) → ∃ s', istep s s'.
Proof.
  intros Hi Hw Hx Ho. destruct (inv_memory_ok _ _ Hi) as (M1 & M2 & _).
  assert (crit_w x = false → (x = WLock ∨ x = WRelock) → owner s = None) as Hfree.
  { intros Hc _. destruct Ho as [|Ho]; [done|]. destruct Hi as ([_ _ O3 _] & _ & _).
    destruct (O3 i Ho) as (y & Hy & Hcy). congruence. }
  destruct x as [| | | | | |a|]; try done.
  - eexists. apply (w_lock s i); [done|]. by apply Hfree; [|left].
  - destruct (is_empty (pool (mem s))) eqn:He; eexists; [by eapply w_test_wait|by eapply w_test_go].
  - eexists. by apply w_wait.
  - eexists. apply (w_relock s i); [done|]. by apply Hfree; [|right].
  - destruct (decide (shutdown (pool (mem s)) ≠ 0 ∧ queue_size (pool (mem s)) = 0)%Z) as [[]|Hn].
    + eexists. by eapply w_exit.
    + destruct (M1 i Hw Hn) as (a & m' & E). eexists. by eapply w_take.
  - destruct (M2 i a Hw) as (m' & E). destruct (inv_done _ _ _ _ Hi Hw) as (j & Hj & _).
    eexists. by eapply w_done.
Qed.

(** The main thread, when it holds the mutex. *)
Lemma main_progress s ll : inv s ll → crit_m (main s) = true → ∃ s', istep s s'.
Proof.
  intros Hi Hc. destruct (inv_memory_ok _ _ Hi) as (_ & _ & M3 & _ & M5).
  destruct (main s) as [|a|a|a|a|a|a|a|a|d|d| | | | | | |] eqn:Hm; try done.
  - destruct (decide (shutdown (pool (mem s)) = 0%Z)); eexists; [by eapply m_enter|by eapply m_enter_shut].
  - destruct (is_full (pool (mem s))) eqn:Hf; eexists; [by eapply m_test_wait|by eapply m_test_go].
  - eexists. by eapply m_wait.
  - destruct (decide (shutdown (pool (mem s)) = 0%Z)) as [Hsd|]; [|eexists; by eapply m_link_shut].
    destruct (M3 a eq_refl Hsd) as [m' E]. destruct (inv_link _ _ _ Hi Hm Hsd) as (j & Hj & _).
    destruct (wake_one_exists (workers s)) as [ws' Hw]. eexists. by eapply m_link.
  - eexists. by eapply m_sset.
  - destruct (M5 eq_refl) as [m' E]. eexists. by eapply m_clean.
Qed.

(** Everyone rests, and the mutex is free. *)
Lemma resting_quiescent s ll :
  inv s ll → owner s = None → Forall (λ x, resting x = true) (workers s) →
  (∃ s', istep s s') ∨ quiescent s.
Proof.
  intros Hi Ho HF. pose proof (main_at _ _ Hi) as Hmain.
  destruct (inv_memory_ok _ _ Hi) as (_ & _ & _ & M4 & _).
  assert (ll = []) as ->.
  { destruct Hi as (_ & _ & [_ _ Ha _]). apply nil_length_inv.
    destruct (length ll) as [|n]; [done|]. destruct (proj1 (Exists_exists _ _) (Ha ltac:(lia))) as (x & Hx & []).
    rewrite Forall_forall in HF. specialize (HF x Hx). by destruct x. }
  assert (processing s = []) as Hp.
  { unfold processing. replace (busy (workers s)) with (@nil loc); [done|]. symmetry.
    clear -HF. induction HF as [|[] ws Hx HF IH]; done. }
  assert (queued s = []) as Hq by (unfold queued; by rewrite (inv_queue _ _ Hi)).
  assert (shutdown (pool (mem s)) ≠ 0%Z → Forall (eq WExit) (workers s)) as Hall.
  { intros Hsd. apply Forall_lookup. intros i x Hx. rewrite Forall_lookup in HF.
    specialize (HF i x Hx). pose proof (worker_at _ _ _ _ Hi Hx). by destruct x. }
  destruct (main s) as [|a|a|a|a|a|a|a|a|d|d| | | | | | |] eqn:Hm; simpl in Hmain.
  all: try (by left; eexists; eauto using istep).
  all: try (destruct Hi as ([_ O2 _ _] & _ & _); rewrite Hm in O2; by rewrite O2 in Ho).
  all: try done.
  - right. split_and!; [done..|]. by left.
  - exfalso. destruct Hi as (_ & [[_ _ Hb _] _ _ _ _ _] & _). simpl in Hmain. lia.
  - left. destruct (M4 a eq_refl) as [m' E]. eexists. by eapply m_free.
  - right. split_and!; [done..|]. right. split; [done|apply Hmain].
Qed.

Lemma pool_goes_on n b av s :
  0 < n → (0 < b ≤ int_max)%Z → reachable (init n b av) s → (∃ s', istep s s') ∨ quiescent s.
Proof.
  intros Hn Hb Hr. destruct (inv_reachable _ _ _ _ Hn Hb Hr) as [ll Hi].
  destruct (owner s) as [[|i]|] eqn:Ho.
  - left. eapply main_progress; [done|]. by apply Hi.
  - left. destruct (oi_w' _ (proj1 Hi) i Ho) as (x & Hx & Hc).
    eapply (worker_progress s ll i x); [done|done|by destruct x|by right].
  - destruct (workers_all (workers s) (λ x, resting x = true)) as [HF|(i & x & Hx & Hr')].
    + by eapply resting_quiescent.
    + left. eapply (worker_progress s ll i x); [done|done|by apply not_true_iff_false|by left].
Qed.

(** C13: no deadlock: in every reachable state a thread inside the pool can
    make a step, spurious wakeups and further calls of the manager not
    counted, or nothing is queued, nothing is being processed, and the main
    thread is outside the pool with all workers asleep or gone. *)
Theorem pool_deadlock_free n b av s :
  0 < n → (0 < b ≤ int_max)%Z → reachable (init n b av) s → (∃ s', istep s s') ∨ quiescent s.
Proof. apply pool_goes_on. Qed.

(** ** Shutting down *)

(** [destroy_thread_pool] after its broadcast. *)
Definition destroying (x : mpc) : Prop :=
  match x with JJoin | JLock | JClean | MDone => True | _ => False end.

(** The workers were joined. *)
Definition joined (x : mpc) : Prop :=
  match x with JLock | JClean | MDone => True | _ => False end.

Lemma joined_drained n b av s :
  0 < n → (0 < b ≤ int_max)%Z → reachable (init n b av) s → joined (main s) →
  queued s = [] ∧ processing s = [] ∧ finished s ≡ₚ accepted s ∧ jobs (mem s) = ∅.
Proof.
  intros Hn Hb Hr Hj. destruct (inv_reachable _ _ _ _ Hn Hb Hr) as [ll Hi].
  pose proof (main_at _ _ Hi) as Hmain.
  assert (Forall (eq WExit) (workers s)) as HF by (destruct (main s); simpl in Hmain; naive_solver).
  pose proof (all_exited_empty _ _ Hi HF) as ->.
  assert (busy (workers s) = []) as Hbusy.
  { clear -HF. induction HF as [|x ws <- HF IH]; done. }
  assert (mine (main s) = []) as Hmine by (by destruct (main s)).
  unfold queued. rewrite (inv_queue _ _ Hi). unfold processing.
  destruct Hi as (_ & [_ Hdom _ _ Ha Hf] & _). rewrite Hbusy in *. rewrite Hmine in Hdom.
  split_and!; [done|done| |].
  - rewrite Ha, Hf. simpl. by rewrite !app_nil_r.
  - apply map_empty. intros a. apply eq_None_not_Some. intros Hx%Hdom. by apply elem_of_nil in Hx.
Qed.

(** C16: nothing accepted is lost: once [destroy_thread_pool] has joined the
    workers the queue is empty, no worker holds a job, every accepted job was
    processed exactly once, and every job block has been freed. *)
Theorem destroy_drains n b av s :
  0 < n → (0 < b ≤ int_max)%Z → reachable (init n b av) s → joined (main s) →
  queued s = [] ∧ processing s = [] ∧ finished s ≡ₚ accepted s ∧ jobs (mem s) = ∅.
Proof. apply joined_drained. Qed.

(** How many steps a thread has left before it returns or takes a job. *)
Definition weight_w (x : wpc) : nat :=
  match x with
  | WLock | WRelock => 3
  | WTest => 2
  | WTake => 1
  | WBusy _ => 4
  | _ => 0
  end.

Definition weight_m (x : mpc) : nat :=
  match x with JJoin => 3 | JLock => 2 | JClean => 1 | _ => 0 end.

Definition total (ws : list wpc) : nat := sum_list_with weight_w ws.

Definition measure (s : sys) : nat :=
  total (workers s) + 5 * Z.to_nat (queue_size (pool (mem s))) + weight_m (main s).

Lemma total_upd ws i x y :
  ws !! i = Some x → total (<[i := y]> ws) + weight_w x = total ws + weight_w y.
Proof.
  intros H. destruct (upd_split ws i x y H) as (l1 & l2 & E1 & E2).
  rewrite E2, E1. unfold total. rewrite !sum_list_with_app. simpl. lia.
Qed.

Lemma unlink_size m a m' :
  unlink_job m = Ret (Some a) m' → queue_size (pool m') = (queue_size (pool m) - 1)%Z.
Proof.
  unfold unlink_job, bind, gets, ret. destruct (queue_head (pool m)) as [h|]; [|done].
  unfold write_job, deref_job, bind, get, ret, modify, int_result, undef.
  destruct (jobs m !! h) as [j|] eqn:E; [|done]. case_decide; [|done]. simpl.
  rewrite E. by intros [= <- <-].
Qed.

Lemma free_pool a m m' : free_sync_job (Some a) m = Ret tt m' → pool m' = pool m.
Proof.
  unfold free_sync_job, deref_job, bind, get, modify, ret, undef.
  destruct (jobs m !! a); [|done]. by intros [= <-].
Qed.

(** With the flag set nobody waits, so every step brings the end closer. *)
Lemma destroying_decreases s s' ll :
  inv s ll → destroying (main s) → step s s' → measure s' < measure s ∧ destroying (main s').
Proof.
  intros Hi Hd Hstep.
  pose proof (is_empty_spec _ _ Hi) as Hempty. pose proof (inv_size _ _ Hi) as Hsz.
  assert (shutdown (pool (mem s)) ≠ 0%Z) as Hsd.
  { pose proof (main_at _ _ Hi). destruct (main s); naive_solver. }
  unfold measure. destruct Hstep as [Hstep|Hstep]; destruct Hstep;
    try (match goal with H : main _ = _ |- _ => rewrite H in *; try done end).
  all: try match goal with H : at_worker _ _ _ |- _ => pose proof (worker_at _ _ _ _ Hi H) as Hat end.
  all: simpl in *; try (split; [lia|done]).
  all: try match goal with H : at_worker ?s ?i ?x |- context [<[?i := ?y]> (workers ?s)] =>
    pose proof (total_upd _ _ _ y H) as Ht; simpl in Ht end.
  all: try (split; [lia|done]).
  - pose proof (unlink_size _ _ _ H1) as E. rewrite E, Hsz.
    assert (length ll ≠ 0) by lia.
    destruct (main s); simpl in *; try done; split; lia || done.
  - by destruct (wp_Ret _ _ _ _ _ (inv_take _ _ _ Hi H H0) H1) as (? & ? & [=] & _).
  - rewrite (free_pool _ _ _ H1). split; [lia|done].
  - destruct (inv_clean _ _ Hi H) as [-> Hwp]. destruct (wp_Ret _ _ _ _ _ Hwp H0) as [-> _].
    split; [lia|done].
Qed.

Lemma destroying_step n b av s s' :
  0 < n → (0 < b ≤ int_max)%Z → reachable (init n b av) s → destroying (main s) → step s s' →
  reachable (init n b av) s' ∧ measure s' < measure s ∧ destroying (main s').
Proof.
  intros Hn Hb Hr Hd Hs. destruct (inv_reachable _ _ _ _ Hn Hb Hr) as [ll Hi].
  split; [by eapply rtc_r|by eapply destroying_decreases].
Qed.

Lemma destroying_sn n b av s :
  0 < n → (0 < b ≤ int_max)%Z → reachable (init n b av) s → destroying (main s) → sn step s.
Proof.
  intros Hn Hb. remember (measure s) as k eqn:Hk. revert s Hk.
  induction k as [k IH] using lt_wf_ind. intros s -> Hr Hd. constructor. intros s' Hs.
  destruct (destroying_step _ _ _ _ _ Hn Hb Hr Hd Hs) as (Hr' & Hlt & Hd').
  by eapply IH.
Qed.

Lemma destroying_rtc n b av s s' :
  0 < n → (0 < b ≤ int_max)%Z → rtc step s s' → reachable (init n b av) s → destroying (main s) →
  reachable (init n b av) s' ∧ destroying (main s').
Proof.
  intros Hn Hb. induction 1 as [|s s1 s2 Hs _ IH]; intros Hr Hd; [done|].
  destruct (destroying_step _ _ _ _ _ Hn Hb Hr Hd Hs) as (Hr' & _ & Hd'). by apply IH.
Qed.

Lemma destroying_stuck n b av s :
  0 < n → (0 < b ≤ int_max)%Z → reachable (init n b av) s → destroying (main s) →
  nf step s → main s = MDone.
Proof.
  intros Hn Hb Hr Hd Hnf. destruct (inv_reachable _ _ _ _ Hn Hb Hr) as [ll Hi].
  assert (∀ s', ¬ istep s s') as Hno by (intros s' Hs; apply Hnf; exists s'; by left).
  destruct (main s) eqn:Hm; try done.
  - exfalso. assert (Forall (eq WExit) (workers s)) as HF; [|by eapply Hno, m_join].
    apply Forall_lookup. intros i x Hx. destruct (resting x) eqn:Hrx.
    + pose proof (worker_at _ _ _ _ Hi Hx). pose proof (main_at _ _ Hi) as Hok.
      rewrite Hm in Hok. by destruct x.
    + exfalso. destruct (owner s) as [[|k]|] eqn:Ho.
      * destruct (main_progress s ll Hi) as [s' Hs]; [by apply Hi|by eapply Hno].
      * destruct (oi_w' _ (proj1 Hi) k Ho) as (y & Hy & Hcy).
        destruct (worker_progress s ll k y Hi Hy) as [s' Hs]; [by destruct y|by right|by eapply Hno].
      * destruct (worker_progress s ll i x Hi Hx Hrx) as [s' Hs]; [by left|by eapply Hno].
  - exfalso. destruct (owner s) as [[|k]|] eqn:Ho.
    + destruct (main_progress s ll Hi) as [s' Hs]; [by apply Hi|by eapply Hno].
    + destruct (oi_w' _ (proj1 Hi) k Ho) as (y & Hy & Hcy).
      destruct (worker_progress s ll k y Hi Hy) as [s' Hs]; [by destruct y|by right|by eapply Hno].
    + by eapply Hno, m_jlock.
  - exfalso. destruct (main_progress s ll Hi) as [s' Hs]; [by rewrite Hm|by eapply Hno].
Qed.

(** C15: [destroy_thread_pool] returns: once it has set the flag and woken the
    workers every run of the system is finite, and a run that cannot go on
    has the main thread back from the call. *)
Theorem destroy_terminates n b av s :
  0 < n → (0 < b ≤ int_max)%Z → reachable (init n b av) s → main s = JJoin →
  sn step s ∧ ∀ s', rtc step s s' → nf step s' → main s' = MDone.
Proof.
  intros Hn Hb Hr Hm. assert (destroying (main s)) as Hd by (by rewrite Hm).
  split; [by eapply destroying_sn|]. intros s' Hss Hnf.
  destruct (destroying_rtc _ _ _ _ _ Hn Hb Hss Hr Hd). by eapply destroying_stuck.
Qed.

(** ** The failure path of [create_thread_pool] *)

(** One worker was created; it tests the empty queue, the flag is set and
    broadcast without the mutex, then the worker falls asleep. *)
Definition lost_wakeup (b : Z) : sys :=
  Sys (flag_shutdown (new_pool 2 b [])) None [WSleep] FJoin [] [].

(** C37: the failure path of [create_thread_pool] can deadlock: with two
    threads asked for and the second not created, the run in which the first
    worker tests its loop condition just before the flag is set ends with
    that worker asleep and the creator joining it for ever. *)
Theorem failed_creation_deadlocks b :
  reachable (init_failed 2 1 b) (lost_wakeup b) ∧ main (lost_wakeup b) = FJoin ∧
  ∀ s', ¬ istep (lost_wakeup b) s'.
Proof.
  split_and!; [|done|].
  - eapply rtc_l; [left; by apply (w_lock _ 0)|].
    eapply rtc_l; [left; by apply (w_test_wait _ 0)|].
    eapply rtc_l; [left; by apply f_set|].
    eapply rtc_l; [left; by apply f_cast|].
    eapply rtc_l; [left; by apply (w_wait _ 0)|]. apply rtc_refl.
  - intros s' Hs. inversion Hs as [| | | | | | | | | | | | | | | | | | | | | | | | | |? Hm HF]; subst;
      try done; try (match goal with H : at_worker _ ?i _ |- _ => by destruct i end).
    by apply Forall_cons in HF as [].
Qed.

(** ** A run *)

Definition sample_job : sync_job := make_job [] 1 [] [] 2 [] ["f"%char].

(** Evaluate the state a run has reached. *)
Ltac pool_eval :=
  match goal with |- rtc step ?s ?t => let s' := eval vm_compute in s in change (rtc step s' t) end.

Tactic Notation "pool_go" open_constr(r) :=
  eapply rtc_l; [left; eapply r; first [reflexivity | vm_compute; reflexivity | eauto] |]; pool_eval.

(** One worker, one job: the job is taken while the manager destroys the pool. *)
Lemma sample_run :
  ∃ s, reachable (init 1 1 []) s ∧ main s = JJoin ∧ at_worker s 0 (WBusy 1) ∧
    accepted s = [sample_job] ∧ finished s = [] ∧
    ∃ s', rtc step s s' ∧ main s' = JLock ∧ accepted s' = [sample_job].
Proof.
  eexists. split.
  { unfold reachable. eapply rtc_l; [right; apply (m_create _ sample_job 1); reflexivity|].
    pool_go m_lock. pool_go m_enter. pool_go m_test_go.
    eapply rtc_l; [left; eapply m_link; [vm_compute; reflexivity..|]; right; split;
      [vm_compute; set_solver|reflexivity]|]. pool_eval.
    pool_go (w_lock _ 0). pool_go (w_test_go _ 0).
    eapply rtc_l; [left; eapply (w_take _ 0); [reflexivity|by intros []|vm_compute; reflexivity]|].
    pool_eval. eapply rtc_l; [right; by apply (m_shutdown _ true)|].
    pool_go (m_slock _ true). pool_go (m_sset _ true). apply rtc_refl. }
  do 4 (split; [done|]). eexists. split.
  { pool_go (w_done _ 0). pool_go (w_lock _ 0). pool_go (w_test_go _ 0).
    eapply rtc_l; [left; by apply (w_exit _ 0)|].
    eapply rtc_l; [left; apply m_join; [reflexivity|repeat constructor]|]. apply rtc_refl. }
  done.
Qed.

Lemma pool_safe_witness :
  ∃ s, reachable (init 1 1 []) s ∧ at_worker s 0 (WBusy 1) ∧ ¬ both_critical s ∧ memory_ok s.
Proof.
  destruct sample_run as (s & Hr & _ & Hw & _). exists s. split; [done|]. split; [done|].
  apply (pool_safe 1 1 [] s); [lia|done|done].
Defined.

Lemma pool_fifo_witness :
  ∃ s, reachable (init 1 1 []) s ∧ [sample_job] = handed (mem s) ++ queued s.
Proof.
  destruct sample_run as (s & Hr & _ & _ & Ha & _). exists s. split; [done|].
  rewrite <-Ha. apply (pool_fifo 1 1 [] s); [lia|done|done].
Defined.

Lemma pool_deadlock_free_witness :
  ∃ s, reachable (init 1 1 []) s ∧ main s = JJoin ∧ ∃ s', istep s s'.
Proof.
  destruct sample_run as (s & Hr & Hm & _). exists s. split; [done|]. split; [done|].
  destruct (pool_deadlock_free 1 1 [] s) as [|(_ & _ & [[? _]|[? _]])]; [lia|done|done|done|congruence..].
Defined.

Lemma destroy_drains_witness :
  ∃ s, reachable (init 1 1 []) s ∧ finished s ≡ₚ [sample_job] ∧ jobs (mem s) = ∅.
Proof.
  destruct sample_run as (s0 & Hr0 & _ & _ & _ & _ & s & Hss & Hm & Ha).
  assert (reachable (init 1 1 []) s) as Hr by (unfold reachable in *; by etrans). exists s. split; [done|].
  destruct (destroy_drains 1 1 [] s) as (_ & _ & Hf & Hj); [lia|done|done|by rewrite Hm|].
  by rewrite <-Ha.
Defined.

Lemma destroy_terminates_witness :
  ∃ s, reachable (init 1 1 []) s ∧ at_worker s 0 (WBusy 1) ∧ sn step s.
Proof.
  destruct sample_run as (s & Hr & Hm & Hw & _). exists s. split; [done|]. split; [done|].
  apply (destroy_terminates 1 1 [] s); [lia|done|done|done].
Defined.
