(* ===== verification/PoolRefine.v ===== *)
(** * The thread pool refines a bounded channel

    The contract of [src/thread_pool.c] without memory, mutex, condition
    variables and wakeups: a bounded first-in first-out channel that can be
    closed, the job its caller is offering, and the crew of workers, each of
    which is idle, has a job, or has left.  Every step of the threads of
    [PoolSteps.v], in any interleaving, is a step of the channel or leaves it
    as it is. *)
From S2P Require Import Prelude.
From S2P Require Import LinkedList.
From S2P Require Import CString.
From S2P Require Import Common.
From S2P Require Import JobSink.
From S2P Require Import JobQueue.
From S2P Require Import PoolSteps.
From stdpp Require Import gmap strings list.
From Stdlib Require Import Ascii ZArith Lia.

(** ** The channel *)

Inductive duty := Idle | Working (j : sync_job) | Gone.

Record channel := Channel {
  ch_cap : Z;
  ch_offer : option sync_job;      (* the caller waits for this one to be accepted *)
  ch_queue : list sync_job;
  ch_crew : list duty;
  ch_closed : bool;
  ch_done : list sync_job          (* in the order in which they were finished *)
}.

Inductive chan_step : channel → channel → Prop :=
| c_offer cap q ws cl dn j :
    chan_step (Channel cap None q ws cl dn) (Channel cap (Some j) q ws cl dn)
| c_accept cap q ws dn j :
    (Z.of_nat (length q) < cap)%Z →
    chan_step (Channel cap (Some j) q ws false dn) (Channel cap None (q ++ [j]) ws false dn)
| c_refuse cap q ws dn j :
    chan_step (Channel cap (Some j) q ws true dn) (Channel cap None q ws true dn)
| c_take cap o i j q ws cl dn :
    ws !! i = Some Idle →
    chan_step (Channel cap o (j :: q) ws cl dn) (Channel cap o q (<[i := Working j]> ws) cl dn)
| c_finish cap o i j q ws cl dn :
    ws !! i = Some (Working j) →
    chan_step (Channel cap o q ws cl dn) (Channel cap o q (<[i := Idle]> ws) cl (dn ++ [j]))
| c_close cap q ws cl dn :
    chan_step (Channel cap None q ws cl dn) (Channel cap None q ws true dn)
| c_leave cap o i ws dn :
    ws !! i = Some Idle →
    chan_step (Channel cap o [] ws true dn) (Channel cap o [] (<[i := Gone]> ws) true dn).

Definition channel_new (n : nat) (cap : Z) : channel :=
  Channel cap None [] (replicate n Idle) false [].

(** ** The channel a state of the threads stands for *)

Definition duty_of (m : pmem) (x : wpc) : duty :=
  match x with
  | WExit => Gone
  | WBusy a => match jobs m !! a with Some j => Working j | None => Idle end
  | _ => Idle
  end.

Definition crew (m : pmem) (ws : list wpc) : list duty := duty_of m <$> ws.

(** The job in the block that [enqueue_sync_job] was called with, until it
    is linked or refused. *)
Definition offer_of (m : pmem) (x : mpc) : option sync_job :=
  match x with
  | ELock a | EEnter a | ETest a | EWait a | ESleep a | ERelock a | ELink a => jobs m !! a
  | _ => None
  end.

Definition channel_of (s : sys) : channel :=
  Channel (buffer_size (pool (mem s))) (offer_of (mem s) (main s)) (queued s)
    (crew (mem s) (workers s)) (bool_decide (shutdown (pool (mem s)) ≠ 0%Z)) (finished s).

(** ** How the parts of the channel change *)

Lemma crew_upd m ws i y : crew m (<[i := y]> ws) = <[i := duty_of m y]> (crew m ws).
Proof. apply list_fmap_insert. Qed.

Lemma crew_at m ws i x : ws !! i = Some x → crew m ws !! i = Some (duty_of m x).
Proof. intros H. unfold crew. by rewrite list_lookup_fmap, H. Qed.

Lemma crew_same m ws i x y :
  ws !! i = Some x → duty_of m y = duty_of m x → crew m (<[i := y]> ws) = crew m ws.
Proof. intros H E. rewrite crew_upd, E. apply list_insert_id. by apply crew_at. Qed.

Lemma crew_ext m m' ws :
  (∀ a, a ∈ busy ws → jobs m' !! a = jobs m !! a) → crew m' ws = crew m ws.
Proof.
  unfold crew, busy. induction ws as [|x ws IH]; [done|]. simpl. intros H. f_equal.
  - destruct x; try done. simpl in *. by rewrite H by left.
  - apply IH. intros a Ha. apply H. destruct x; simpl; rewrite ?elem_of_cons; auto.
Qed.

Lemma crew_wake_all m ws : crew m (wake_all ws) = crew m ws.
Proof. unfold crew, wake_all. rewrite <-list_fmap_compose. apply list_fmap_ext. by intros _ [] _. Qed.

Lemma crew_wake_one m ws ws' : wake_one ws ws' → crew m ws' = crew m ws.
Proof. intros [(i & H & ->)|[_ ->]]; [|done]. by eapply crew_same. Qed.

Lemma offer_wake_main m x : offer_of m (wake_main x) = offer_of m x.
Proof. by destruct x. Qed.

Lemma offer_ext m m' x : (∀ a, a ∈ mine x → jobs m' !! a = jobs m !! a) → offer_of m' x = offer_of m x.
Proof. destruct x; simpl; try done; intros H; apply H; by left. Qed.

Lemma queue_of_qrep m ll : qrep m ll → queue_of m = ll.
Proof. intros [Hc _ _ _]. apply read_queue_chain; [done|by eapply chain_size]. Qed.

Lemma busy_elem ws i a : ws !! i = Some (WBusy a) → a ∈ busy ws.
Proof. intros H%list_elem_of_lookup_2. unfold busy. apply list_elem_of_omap. by exists (WBusy a). Qed.

(** ** What the memory operations do to it *)

Section state.
Context (s : sys) (ll : list (loc * sync_job)) (Hi : inv s ll).

Lemma state_queued : queued s = contents ll.
Proof. unfold queued. by rewrite (inv_queue _ _ Hi). Qed.

Lemma state_qrep : qrep (mem s) ll.
Proof. by destruct Hi as (_ & [[] ? ? ? ? ?] & _). Qed.

Lemma private_not_queued a : a ∈ busy (workers s) ++ mine (main s) → a ∉ ll.*1.
Proof.
  destruct Hi as (_ & [_ _ Hnd _ _ _] & _). apply NoDup_app in Hnd as (_ & Hd & _).
  intros H1 H2. by apply (Hd a).
Qed.

Lemma busy_not_mine a : a ∈ mine (main s) → a ∉ busy (workers s).
Proof.
  destruct Hi as (_ & [_ _ Hnd _ _ _] & _). apply NoDup_app in Hnd as (_ & _ & Hnd).
  apply NoDup_app in Hnd as (_ & Hd & _). intros H1 H2. by apply (Hd a).
Qed.

Lemma take_effect i m' a :
  at_worker s i WTake → ¬ (shutdown (pool (mem s)) ≠ 0%Z ∧ queue_size (pool (mem s)) = 0%Z) →
  unlink_job (mem s) = Ret (Some a) m' →
  ∃ j, queued s = j :: contents (queue_of m') ∧ jobs m' = <[a := j]> (jobs (mem s)) ∧
    (a ∉ busy (workers s) ++ mine (main s)) ∧ shutdown (pool m') = shutdown (pool (mem s)) ∧
    buffer_size (pool m') = buffer_size (pool (mem s)).
Proof.
  intros Hw Hn E. pose proof (inv_size _ _ Hi) as Hsz. pose proof (worker_at _ _ _ _ Hi Hw) as Hok.
  rewrite state_queued. pose proof private_not_queued as Hpriv. pose proof state_qrep as Hq.
  destruct ll as [|[b jb] l]; [simpl in *; lia|].
  assert (wp unlink_job (λ r m', r = Some b ∧ qrep m' l ∧ jobs m' = <[b := with_job_next NULL jb]> (jobs (mem s)) ∧
    same_pool (mem s) m') (mem s)) as Hwp by (by eapply wp_unlink_job).
  destruct (wp_Ret _ _ _ _ _ Hwp E) as ([= ->] & Hq' & Hj & [? ? ? ? ? ? ?]).
  exists (with_job_next NULL jb). rewrite (queue_of_qrep _ _ Hq'). split_and!; try done.
  intros Ha%Hpriv. apply Ha. by left.
Qed.

Lemma link_effect a j m' :
  main s = ELink a → shutdown (pool (mem s)) = 0%Z → jobs (mem s) !! a = Some j →
  link_job a (mem s) = Ret tt m' →
  contents (queue_of m') = queued s ++ [j] ∧
  (∀ x, x ∈ busy (workers s) → jobs m' !! x = jobs (mem s) !! x) ∧
  shutdown (pool m') = shutdown (pool (mem s)) ∧ buffer_size (pool m') = buffer_size (pool (mem s)) ∧
  (Z.of_nat (length (queued s)) < buffer_size (pool (mem s)))%Z.
Proof.
  intros Hm Hsd Hj E. pose proof (main_at _ _ Hi) as Hok. rewrite Hm in Hok. simpl in Hok.
  rewrite state_queued, length_contents. pose proof private_not_queued as Hpriv.
  pose proof Hi as (_ & [[Hrep Hcap Hbuf _] _ _ Hnext _ _] & _). rewrite Hm in Hnext, Hpriv. simpl in *.
  assert (a ∈ busy (workers s) ++ [a]) as Ha by (rewrite elem_of_app; right; by left).
  assert (wp (link_job a) (λ _ m', ∃ ll', qrep m' ll' ∧ contents ll' = contents ll ++ [j] ∧
    same_pool (mem s) m' ∧ ∀ x, x ∉ ll.*1 → jobs m' !! x = jobs (mem s) !! x) (mem s)) as Hwp.
  { eapply wp_link_job; [done|done|by apply (Hnext a)|by apply Hpriv|lia|]. eauto 10. }
  destruct (wp_Ret _ _ _ _ _ Hwp E) as (ll' & Hq & Hc & [? ? ? ? ? ? ?] & Hx).
  rewrite (queue_of_qrep _ _ Hq). split_and!; [done| |done|done|naive_solver lia].
  intros x Hxb. apply Hx, Hpriv. set_solver.
Qed.

Lemma busy_after i a y :
  at_worker s i (WBusy a) → busy_of y = None → a ∉ busy (<[i := y]> (workers s)).
Proof.
  intros Hw Hy. destruct Hi as (_ & [_ _ Hnd _ _ _] & _).
  apply NoDup_app in Hnd as (_ & _ & Hnd). apply NoDup_app in Hnd as (Hnd & _).
  eapply NoDup_perm in Hnd; [|by apply busy_del]. by apply NoDup_cons in Hnd as [].
Qed.

Lemma held_somewhere a : a ∈ mine (main s) → is_Some (jobs (mem s) !! a).
Proof. destruct Hi as (_ & [_ Hdom _ _ _ _] & _). intros Ha. apply Hdom. set_solver. Qed.

Lemma free_effect a m' : free_sync_job (Some a) (mem s) = Ret tt m' → m' = set_jobs (delete a) (mem s).
Proof.
  unfold free_sync_job, deref_job, bind, get, modify, ret, undef.
  destruct (jobs (mem s) !! a); [|done]. by intros [= <-].
Qed.

Lemma malloc_effect j r m' :
  malloc_job j (mem s) = Ret r m' →
  pool m' = pool (mem s) ∧ queue_of m' = ll ∧
  (r = NULL ∧ jobs m' = jobs (mem s) ∨
   ∃ a, r = Some a ∧ jobs m' = <[a := j]> (jobs (mem s)) ∧ (a ∉ busy (workers s) ++ mine (main s))).
Proof.
  intros E. pose proof Hi as (_ & [Hwf Hdom _ _ _ _] & _).
  destruct (wf_malloc _ _ j Hwf) as [[Hq _ _ _] _].
  destruct (wf_fresh_lookup _ _ (jbrk (mem s)) Hwf ltac:(lia)) as [Hnone _].
  assert (jbrk (mem s) ∉ busy (workers s) ++ mine (main s)) as Hfresh.
  { intros Ha. assert (is_Some (jobs (mem s) !! jbrk (mem s))) as [? Hx] by (apply Hdom; set_solver). congruence. }
  unfold malloc_job in E. destruct (javail (mem s)) as [|[] l]; injection E as <- <-;
    (split; [done|]); (split; [|by eauto 10]).
  1, 2: by apply queue_of_qrep in Hq.
  apply queue_of_qrep. by destruct (state_qrep).
Qed.
End state.

(** ** Every step of the threads is a step of the channel or none *)

Lemma same_channel s s' :
  mem s' = mem s → finished s' = finished s → crew (mem s) (workers s') = crew (mem s) (workers s) →
  offer_of (mem s) (main s') = offer_of (mem s) (main s) → channel_of s' = channel_of s.
Proof. intros E1 E2 E3 E4. unfold channel_of, queued. by rewrite E1, E2, E3, E4. Qed.

(** A thread moves between places the channel does not tell apart. *)
Ltac channel_still :=
  left; apply same_channel; simpl;
  [ done | done
  | first [ done | by eapply crew_same | apply crew_wake_all ]
  | first [ done | match goal with H : main _ = _ |- _ => by rewrite H end ] ].

Lemma istep_channel s s' ll :
  inv s ll → istep s s' → channel_of s' = channel_of s ∨ chan_step (channel_of s) (channel_of s').
Proof.
  intros Hi Hs. pose proof (state_queued _ _ Hi) as Hq. pose proof (inv_size _ _ Hi) as Hsz.
  pose proof (main_at _ _ Hi) as Hmain.
  pose proof (own_inv_step _ _ (or_introl Hs) (proj1 Hi)) as Ho'. destruct Hs.
  all: try (match goal with H : main _ = _ |- _ => rewrite H in Hmain; simpl in Hmain; done end).
  all: try (channel_still; fail).
  - rewrite H1 in Hsz. destruct ll; [|simpl in Hsz; lia].
    right. unfold channel_of, queued in *. simpl in *. rewrite crew_upd, Hq, bool_decide_true by done.
    apply c_leave. by eapply crew_at in H.
  - destruct (take_effect _ _ Hi i m' a H H0 H1) as (j & Eq & Ej & Ha & Esd & Eb).
    right. unfold channel_of, queued in *. simpl. rewrite crew_upd, offer_wake_main, Esd, Eb, Eq. simpl.
    rewrite (crew_ext (mem s) m'), (offer_ext (mem s) m').
    2, 3: intros x Hx; rewrite Ej; apply lookup_insert_ne; set_solver.
    rewrite Ej, lookup_insert_eq. apply c_take. by eapply crew_at in H.
  - by destruct (wp_Ret _ _ _ _ _ (inv_take _ _ _ Hi H H0) H1) as (? & ? & [=] & _).
  - pose proof (busy_after _ _ Hi i a WLock H eq_refl) as Ha.
    destruct (inv_done _ _ _ _ Hi H) as (j' & Hj & Hwp). simplify_eq.
    pose proof (wp_Ret _ _ _ _ _ Hwp H1 _ eq_refl Ho') as Hi'. apply free_effect in H1. rename m' into m1.
    pose proof (state_queued _ _ Hi') as Hq'. right. unfold channel_of, queued in *. simpl in *.
    rewrite Hq', Hq, (crew_ext (mem s) m1), (offer_ext (mem s) m1).
    2, 3: intros x Hx; rewrite H1; apply lookup_delete_ne; intros ->.
    2: { apply (busy_not_mine _ _ Hi x Hx). by eapply busy_elem. }
    2: done.
    rewrite H1, crew_upd. apply c_finish. apply (crew_at (mem s)) in H. simpl in H. by rewrite H0 in H.
  - right. unfold channel_of, queued. simpl. rewrite H. simpl.
    destruct (held_somewhere _ _ Hi a) as [j ->]; [rewrite H; by left|].
    rewrite bool_decide_true by done. apply c_refuse.
  - right. unfold channel_of, queued. simpl. rewrite H. simpl.
    destruct (held_somewhere _ _ Hi a) as [j ->]; [rewrite H; by left|].
    rewrite bool_decide_true by done. apply c_refuse.
  - destruct (link_effect _ _ Hi a j m' H H0 H1 H2) as (Eq & Ej & Esd & Eb & Hroom).
    right. unfold channel_of, queued in *. simpl. rewrite H, Eq, Esd, Eb, (crew_wake_one _ _ _ H3). simpl.
    rewrite (crew_ext (mem s) m'), H1, bool_decide_false by auto. by apply c_accept.
  - left. pose proof (wp_Ret _ _ _ _ _ (inv_free _ _ _ Hi H) H0 _ eq_refl Ho') as Hi'.
    apply free_effect in H0. rename m' into m1. pose proof (state_queued _ _ Hi') as Hq'.
    unfold channel_of, queued in *. simpl in *. rewrite Hq', Hq, H. simpl. rewrite (crew_ext (mem s) m1).
    2: { intros x Hx. rewrite H0. apply lookup_delete_ne. intros ->.
         apply (busy_not_mine _ _ Hi x); [rewrite H; by left|done]. }
    by rewrite H0.
  - pose proof (inv_set _ _ _ d Hi H eq_refl Ho') as Hi'. pose proof (state_queued _ _ Hi') as Hq'.
    right. unfold channel_of, queued in *. simpl in *.
    rewrite Hq', Hq, H, crew_wake_all, (crew_ext (mem s) (flag_shutdown _)) by done. destruct d; apply c_close.
  - left. destruct (inv_clean _ _ Hi H) as [_ Hwp]. destruct (wp_Ret _ _ _ _ _ Hwp H0) as [-> _].
    unfold channel_of, queued. simpl. by rewrite H.
Qed.

Lemma estep_channel s s' ll :
  inv s ll → estep s s' → channel_of s' = channel_of s ∨ chan_step (channel_of s) (channel_of s').
Proof.
  intros Hi Hs. pose proof (state_queued _ _ Hi) as Hq. destruct Hs; try (channel_still; fail).
  - destruct (malloc_effect _ _ Hi j _ _ H1) as (Ep & Eq & [[? _]|(a' & [= <-] & Ej & Ha)]); [done|].
    right. unfold channel_of, queued in *. simpl. rewrite Ep, Eq, Hq, H, (crew_ext (mem s) m'). simpl.
    2: { intros x Hx. rewrite Ej. apply lookup_insert_ne. set_solver. }
    rewrite Ej, lookup_insert_eq. apply c_offer.
  - destruct (malloc_effect _ _ Hi j _ _ H1) as (Ep & Eq & [[_ Ej]|(a' & [=] & _)]).
    left. unfold channel_of, queued in *. simpl. rewrite Ep, Eq, Hq, H, (crew_ext (mem s) m'); [done|].
    by rewrite Ej.
Qed.

Lemma step_channel s s' ll :
  inv s ll → step s s' → channel_of s' = channel_of s ∨ chan_step (channel_of s) (channel_of s').
Proof. intros Hi [Hs|Hs]; [by eapply istep_channel|by eapply estep_channel]. Qed.

Lemma channel_init n b av : channel_of (init n b av) = channel_new n b.
Proof. unfold channel_of, channel_new, queued, crew. simpl. by rewrite fmap_replicate. Qed.

Lemma channel_rtc s s' ll : inv s ll → rtc step s s' → rtc chan_step (channel_of s) (channel_of s').
Proof.
  intros Hi Hr. revert ll Hi. induction Hr as [s|s1 s2 s3 Hs Hr IH]; intros ll Hi; [done|].
  destruct (inv_step _ _ _ Hs Hi) as [ll' Hi']. specialize (IH _ Hi').
  destruct (step_channel _ _ _ Hi Hs) as [<-|]; [done|by eapply rtc_l].
Qed.

(** C11: the pool implements a bounded FIFO channel with a crew of workers: in
    every interleaving the threads go through states of the channel, and each
    of their steps is one of the channel's (an offered job is accepted only
    below the capacity and before closing, and refused only after; an idle
    worker takes the oldest job; a worker leaves only a closed and empty
    channel) or does not change it. *)
Theorem pool_refines_channel n b av s s' :
  0 < n → (0 < b ≤ int_max)%Z → reachable (init n b av) s → step s s' →
  rtc chan_step (channel_new n b) (channel_of s) ∧
  (channel_of s' = channel_of s ∨ chan_step (channel_of s) (channel_of s')).
Proof.
  intros Hn Hb Hr Hs. destruct (inv_reachable n b av s Hn Hb Hr) as [ll Hi].
  split; [|by eapply step_channel].
  rewrite <-(channel_init n b av). eapply channel_rtc; [by apply inv_init|done].
Qed.

(** ** The channel does move *)

(** A step of the threads that the channel does not notice. *)
Definition silent (s s' : sys) : Prop := istep s s' ∧ channel_of s' = channel_of s.

(** How many silent steps a worker can make before it sleeps, leaves, or does
    something the channel notices. *)
Definition silent_w (x : wpc) : nat :=
  match x with WLock | WRelock => 3 | WTest => 2 | WWait | WTake => 1 | _ => 0 end.

Definition silent_m (x : mpc) : nat :=
  match x with
  | ELock _ | ERelock _ | SLock _ => 5
  | EEnter _ | SSet _ => 4
  | ETest _ | JJoin => 3
  | EWait _ | ELink _ | JLock => 2
  | MFree _ | JClean => 1
  | _ => 0
  end.

Definition silent_total (ws : list wpc) : nat := sum_list_with silent_w ws.

(** The main thread's moves count for more than what a broadcast can wake. *)
Definition silence (s : sys) : nat :=
  silent_total (workers s) + S (3 * length (workers s)) * silent_m (main s).

Lemma silent_total_upd ws i x y :
  ws !! i = Some x → silent_total (<[i := y]> ws) + silent_w x = silent_total ws + silent_w y.
Proof.
  intros H. destruct (upd_split ws i x y H) as (l1 & l2 & E1 & E2).
  rewrite E2, E1. unfold silent_total. rewrite !sum_list_with_app. simpl. lia.
Qed.

Lemma silent_total_max ws : silent_total ws ≤ 3 * length ws.
Proof. induction ws as [|x ws IH]; simpl; [done|]. destruct x; simpl in *; lia. Qed.

Lemma wake_all_length ws : length (wake_all ws) = length ws.
Proof. apply length_fmap. Qed.

Lemma silent_total_wake ws ws' : wake_one ws ws' → length ws' = length ws.
Proof. intros [(i & _ & ->)|[_ ->]]; [apply length_insert|done]. Qed.

Lemma silent_decreases s s' ll : inv s ll → silent s s' → silence s' < silence s.
Proof.
  intros Hi [Hs E]. pose proof (main_at _ _ Hi) as Hmain. unfold silence. destruct Hs; simpl.
  all: try (match goal with H : main _ = _ |- _ => rewrite H in Hmain; simpl in Hmain; done end).
  all: try match goal with H : at_worker ?s ?i ?x |- context [<[?i := ?y]> (workers ?s)] =>
    pose proof (silent_total_upd (workers s) i x y H) as Ht; simpl in Ht end.
  all: rewrite ?length_insert, ?wake_all_length.
  all: try match goal with H : main _ = _ |- _ => rewrite H; simpl end.
  all: try lia.
  - destruct (take_effect _ _ Hi i m' a H H0 H1) as (j & Eq & _). exfalso.
    apply (f_equal (length ∘ ch_queue)) in E. unfold compose in E. simpl in E.
    unfold queued in *. rewrite Eq in E. simpl in E. lia.
  - apply (f_equal (length ∘ ch_done)) in E. unfold compose in E. simpl in E. rewrite length_app in E. simpl in E. lia.
  - pose proof (silent_total_max ws'). rewrite (silent_total_wake _ _ H3) in *. lia.
  - pose proof (silent_total_max (wake_all (workers s))). rewrite wake_all_length in *. destruct d; simpl; lia.
Qed.

Lemma silent_sn s ll : inv s ll → sn silent s.
Proof.
  remember (silence s) as k eqn:Hk. revert s ll Hk.
  induction k as [k IH] using lt_wf_ind. intros s ll -> Hi. constructor. intros s' Hs.
  pose proof (silent_decreases _ _ _ Hi Hs). destruct (inv_istep _ _ _ (proj1 Hs) Hi) as [ll' Hi'].
  by eapply (IH (silence s')).
Qed.

(** C14: no livelock: in every reachable state the threads can make only
    finitely many steps that the channel does not notice, whatever the
    interleaving, and when no such step is left either a step of the channel
    is possible or the pool has nothing to do. *)
Theorem pool_makes_progress n b av s :
  0 < n → (0 < b ≤ int_max)%Z → reachable (init n b av) s →
  sn silent s ∧
  (nf silent s → quiescent s ∨ ∃ s', istep s s' ∧ chan_step (channel_of s) (channel_of s')).
Proof.
  intros Hn Hb Hr. destruct (inv_reachable n b av s Hn Hb Hr) as [ll Hi].
  split; [by eapply silent_sn|]. intros Hnf.
  destruct (pool_goes_on n b av s Hn Hb Hr) as [[s' Hs]|]; [right|by left].
  exists s'. split; [done|]. destruct (istep_channel _ _ _ Hi Hs) as [E|]; [|done].
  destruct Hnf. by exists s'.
Qed.

(** ** The run of the example *)

Lemma pool_refines_channel_witness :
  ∃ s, reachable (init 1 1 []) s ∧ at_worker s 0 (WBusy 1) ∧
    rtc chan_step (channel_new 1 1) (channel_of s) ∧ ch_closed (channel_of s) = true.
Proof.
  destruct sample_run as (s & Hr & Hm & Hw & Ha & Hf & _). exists s. split; [done|]. split; [done|].
  destruct (pool_goes_on 1 1 [] s) as [[s' Hs]|(_ & _ & [[? _]|[? _]])]; [lia|done|done| |congruence..].
  destruct (pool_refines_channel 1 1 [] s s') as [Hc _]; [lia|done|done|by left|]. split; [exact Hc|].
  destruct (inv_reachable 1 1 [] s) as [ll Hi]; [lia|done|done|].
  pose proof (main_at _ _ Hi) as Hok. rewrite Hm in Hok. by apply bool_decide_eq_true.
Defined.

Lemma pool_makes_progress_witness : ∃ s, reachable (init 1 1 []) s ∧ main s = JJoin ∧ sn silent s.
Proof.
  destruct sample_run as (s & Hr & Hm & _). exists s. split; [done|]. split; [done|].
  apply (pool_makes_progress 1 1 [] s); [lia|done|done].
Defined.
