(* ===== verification/PoolAgree.v ===== *)
(** * The two models of the pool agree

    [JobQueue.v] runs a function of [thread_pool.c] as a whole, [PoolSteps.v]
    cuts it into the steps of a thread.  Here: a thread that takes the mutex
    and is not disturbed goes, in the steps of [PoolSteps.v], exactly where
    the function of [JobQueue.v] says, with the same memory; and where the
    function has to wait, the thread falls asleep and the mutex is free. *)
From S2P Require Import Prelude.
From S2P Require Import LinkedList.
From S2P Require Import CString.
From S2P Require Import Common.
From S2P Require Import JobSink.
From S2P Require Import JobQueue.
From S2P Require Import PoolSteps.
From stdpp Require Import gmap strings list.
From Stdlib Require Import Ascii ZArith Lia.

(** ** The mutex flag does not matter to the queue operations *)

Definition with_mutex (b : bool) (m : pmem) : pmem := set_pool (set_mutex b) m.

Definition map_mem {A} (f : pmem → pmem) (o : outcome pmem A) : outcome pmem A :=
  match o with Ret a m => Ret a (f m) | UB k => UB k | Blocked => Blocked | NoFuel => NoFuel end.

Lemma with_mutex_id m b : queue_mutex (pool m) = b → with_mutex b m = m.
Proof. destruct m as [? ? ? [] ? ?]. simpl. by intros <-. Qed.

Lemma link_mutex b a m : link_job a (with_mutex b m) = map_mem (with_mutex b) (link_job a m).
Proof.
  unfold link_job, write_job, deref_job, int_result, bind, get, gets, modify, ret, undef. simpl.
  case_decide; [|done]. destruct (queue_tail (pool m)) as [t|]; [|done].
  simpl. destruct (jobs m !! t) as [j|] eqn:E; [|done]. simpl. by rewrite E.
Qed.

Lemma unlink_mutex b m : unlink_job (with_mutex b m) = map_mem (with_mutex b) (unlink_job m).
Proof.
  unfold unlink_job, write_job, deref_job, int_result, bind, get, gets, modify, ret, undef. simpl.
  destruct (queue_head (pool m)) as [h|]; [|done].
  simpl. destruct (jobs m !! h) as [j|] eqn:E; [|done]. simpl. case_decide; [|done]. simpl. by rewrite E.
Qed.

Lemma link_keeps_mutex a m u m' : link_job a m = Ret u m' → queue_mutex (pool m') = queue_mutex (pool m).
Proof.
  unfold link_job, write_job, deref_job, int_result, bind, get, gets, modify, ret, undef. simpl.
  case_decide; [|done]. destruct (queue_tail (pool m)) as [t|]; [|by intros [= _ <-]].
  destruct (jobs m !! t) as [j|] eqn:E; [|done]. simpl. rewrite E. by intros [= _ <-].
Qed.

Lemma unlink_keeps_mutex m r m' : unlink_job m = Ret r m' → queue_mutex (pool m') = queue_mutex (pool m).
Proof.
  unfold unlink_job, write_job, deref_job, int_result, bind, get, gets, modify, ret, undef. simpl.
  destruct (queue_head (pool m)) as [h|]; [|by intros [= _ <-]].
  destruct (jobs m !! h) as [j|] eqn:E; [|done]. simpl. case_decide; [|done]. simpl. rewrite E. by intros [= _ <-].
Qed.

Section agree.
Context (m : pmem) (Hmu : queue_mutex (pool m) = false) (Hwaits : waits m = []).

Lemma lock_free {A} (f : unit → M pmem A) : bind lock_pool f m = f tt (with_mutex true m).
Proof. unfold lock_pool, bind, get, modify. by rewrite Hmu. Qed.

(** The functions without the mutex and without the script of the waits. *)
Lemma enqueue_alone a :
  enqueue_sync_job (Some a) m =
    if decide (shutdown (pool m) ≠ 0)%Z then Ret (-1)%Z m
    else if is_full (pool m) then Blocked
    else match link_job a m with
         | Ret _ m' => Ret 0%Z m' | UB k => UB k | Blocked => Blocked | NoFuel => NoFuel
         end.
Proof.
  assert (with_mutex false (with_mutex true m) = m) as Eid by (rewrite <-(with_mutex_id m false) at 2; done).
  unfold enqueue_sync_job. rewrite lock_free. unfold bind, gets, ret, unlock_pool, modify. cbn beta iota.
  change (shutdown (pool (with_mutex true m))) with (shutdown (pool m)).
  case_decide as Hsd; [f_equal; exact Eid|].
  change (waits (with_mutex true m)) with (waits m). rewrite Hwaits. cbn [wait_while].
  unfold bind, gets, ret. cbn beta iota. change (is_full (pool (with_mutex true m))) with (is_full (pool m)).
  destruct (is_full (pool m)); [done|]. change (shutdown (pool (with_mutex true m))) with (shutdown (pool m)).
  rewrite decide_False by auto. rewrite link_mutex. destruct (link_job a m) as [[] m'| | |] eqn:E; try done. simpl.
  apply link_keeps_mutex in E. rewrite Hmu in E. f_equal. rewrite <-(with_mutex_id m' false) at 2; done.
Qed.

Lemma dequeue_alone :
  dequeue_sync_job m =
    if is_empty (pool m) then Blocked
    else if decide (shutdown (pool m) ≠ 0 ∧ queue_size (pool m) = 0)%Z then Ret NULL m
    else unlink_job m.
Proof.
  assert (with_mutex false (with_mutex true m) = m) as Eid by (rewrite <-(with_mutex_id m false) at 2; done).
  unfold dequeue_sync_job. rewrite lock_free. unfold bind, gets, ret, unlock_pool, modify. cbn beta iota.
  change (waits (with_mutex true m)) with (waits m). rewrite Hwaits. cbn [wait_while].
  unfold bind, gets, ret. cbn beta iota. change (is_empty (pool (with_mutex true m))) with (is_empty (pool m)).
  destruct (is_empty (pool m)); [done|]. change (shutdown (pool (with_mutex true m))) with (shutdown (pool m)).
  change (queue_size (pool (with_mutex true m))) with (queue_size (pool m)).
  case_decide; [f_equal; exact Eid|].
  rewrite unlink_mutex. destruct (unlink_job m) as [r m'| | |] eqn:E; try done. simpl.
  apply unlink_keeps_mutex in E. rewrite Hmu in E. f_equal. rewrite <-(with_mutex_id m' false) at 2; done.
Qed.
End agree.

(** ** The memory of the threads *)

(** [PoolSteps.v] keeps the mutex in [owner] and has no script. *)
Definition plain_mem (m : pmem) : Prop := queue_mutex (pool m) = false ∧ waits m = [].

Lemma plain_keeps m m' :
  queue_mutex (pool m') = queue_mutex (pool m) → waits m' = waits m → plain_mem m → plain_mem m'.
Proof. intros E1 E2 []. split; congruence. Qed.

Lemma link_keeps_waits a m u m' : link_job a m = Ret u m' → waits m' = waits m.
Proof.
  unfold link_job, write_job, deref_job, int_result, bind, get, gets, modify, ret, undef. simpl.
  case_decide; [|done]. destruct (queue_tail (pool m)) as [t|]; [|by intros [= _ <-]].
  destruct (jobs m !! t) as [j|] eqn:E; [|done]. simpl. rewrite E. by intros [= _ <-].
Qed.

Lemma unlink_keeps_waits m r m' : unlink_job m = Ret r m' → waits m' = waits m.
Proof.
  unfold unlink_job, write_job, deref_job, int_result, bind, get, gets, modify, ret, undef. simpl.
  destruct (queue_head (pool m)) as [h|]; [|by intros [= _ <-]].
  destruct (jobs m !! h) as [j|] eqn:E; [|done]. simpl. case_decide; [|done]. simpl. rewrite E. by intros [= _ <-].
Qed.

Lemma free_plain a m u m' : free_sync_job (Some a) m = Ret u m' → plain_mem m → plain_mem m'.
Proof.
  unfold free_sync_job, deref_job, bind, get, modify, ret, undef.
  destruct (jobs m !! a); [|done]. by intros [= _ <-].
Qed.

Lemma malloc_plain j m r m' : malloc_job j m = Ret r m' → plain_mem m → plain_mem m'.
Proof. unfold malloc_job. destruct (javail m) as [|[] l]; by intros [= _ <-]. Qed.

Lemma free_queue_plain fuel m u m' : free_queue fuel m = Ret u m' → plain_mem m → plain_mem m'.
Proof.
  revert m. induction fuel as [|f IH]; intros m; cbn [free_queue]; unfold bind at 1, gets;
    destruct (queue_head (pool m)) as [h|]; try done; try by intros [= _ <-].
  unfold bind at 1, deref_job, bind at 1, get. destruct (jobs m !! h) as [j|]; [|done].
  unfold ret at 1. unfold bind at 1, modify. intros E Hp. unfold bind in E.
  destruct (free_sync_job _ _) as [[] m1| | |] eqn:Ef; try done.
  eapply IH; [exact E|]. eapply free_plain; [exact Ef|]. exact Hp.
Qed.

Lemma plain_step s s' : step s s' → plain_mem (mem s) → plain_mem (mem s').
Proof.
  intros [Hs|Hs] Hp; destruct Hs; simpl; try exact Hp.
  - eapply plain_keeps; [by eapply unlink_keeps_mutex|by eapply unlink_keeps_waits|done].
  - eapply plain_keeps; [by eapply unlink_keeps_mutex|by eapply unlink_keeps_waits|done].
  - by eapply free_plain.
  - eapply plain_keeps; [by eapply link_keeps_mutex|by eapply link_keeps_waits|done].
  - by eapply free_plain.
  - by eapply free_queue_plain.
  - by eapply malloc_plain.
  - by eapply malloc_plain.
Qed.

Lemma plain_rtc s s' : rtc step s s' → plain_mem (mem s) → plain_mem (mem s').
Proof. induction 1 as [|s1 s2 s3 Hs _ IH]; [done|]. intros Hp. apply IH. by eapply plain_step. Qed.

Lemma plain_reachable n b av s : reachable (init n b av) s → plain_mem (mem s).
Proof. intros H. by apply (plain_rtc _ _ H). Qed.

(** ** A thread on its own runs the function *)

(** The main thread, about to take the mutex in [enqueue_sync_job] for the
    block [a]: it is done, was refused, or sleeps. *)
Definition runs_enqueue (s : sys) (a : loc) : Prop :=
  ∃ s' j, rtc istep s s' ∧ owner s' = None ∧ jobs (mem s) !! a = Some j ∧ finished s' = finished s ∧
    (enqueue_sync_job (Some a) (mem s) = Ret 0%Z (mem s') ∧ main s' = MIdle ∧ accepted s' = accepted s ++ [j] ∨
     enqueue_sync_job (Some a) (mem s) = Ret (-1)%Z (mem s') ∧ main s' = MFree a ∧ accepted s' = accepted s ∨
     enqueue_sync_job (Some a) (mem s) = Blocked ∧ s' = main_goto (ESleep a) None s).

(** Worker [i], about to take the mutex in [dequeue_sync_job]. *)
Definition runs_dequeue (s : sys) (i : nat) : Prop :=
  ∃ s', rtc istep s s' ∧ owner s' = None ∧ accepted s' = accepted s ∧ finished s' = finished s ∧
    ((∃ a, dequeue_sync_job (mem s) = Ret (Some a) (mem s') ∧ at_worker s' i (WBusy a)) ∨
     dequeue_sync_job (mem s) = Ret NULL (mem s') ∧ at_worker s' i WExit ∨
     dequeue_sync_job (mem s) = Blocked ∧ s' = goto i WSleep None s).

(** The main thread in [signal_shutdown]. *)
Definition runs_shutdown (s : sys) : Prop :=
  ∃ s', rtc istep s s' ∧ owner s' = None ∧ signal_shutdown (mem s) = Ret tt (mem s') ∧
    main s' = MIdle ∧ (WSleep ∉ workers s').

Lemma main_goto_twice x y o1 o2 s : main_goto y o2 (main_goto x o1 s) = main_goto y o2 s.
Proof. done. Qed.

Lemma goto_twice i x y o1 o2 s : goto i y o2 (goto i x o1 s) = goto i y o2 s.
Proof. unfold goto. simpl. by rewrite list_insert_insert_eq. Qed.

Lemma enqueue_runs s ll a :
  inv s ll → plain_mem (mem s) → owner s = None → main s = ELock a → runs_enqueue s a.
Proof.
  intros Hi [Hmu Hw] Ho Hm. unfold runs_enqueue. rewrite (enqueue_alone (mem s) Hmu Hw a).
  assert (is_Some (jobs (mem s) !! a)) as [j Hj].
  { destruct Hi as (_ & [_ Hdom _ _ _ _] & _). apply Hdom. rewrite Hm. set_solver. }
  set (s1 := main_goto (EEnter a) (Some Main) s).
  assert (istep s s1) as S1 by (by apply m_lock).
  case_decide as Hsd.
  { exists (main_goto (MFree a) None s1), j. split; [eapply rtc_l; [exact S1|]; by apply rtc_once, m_enter_shut|].
    split_and!; try done. right. left. done. }
  set (s2 := main_goto (ETest a) (Some Main) s).
  assert (istep s1 s2) as S2 by (apply (m_enter s1 a); [done|by apply dec_stable in Hsd || auto]).
  destruct (is_full (pool (mem s))) eqn:Hfull.
  { set (s3 := main_goto (EWait a) (Some Main) s).
    assert (istep s2 s3) as S3 by (by apply (m_test_wait s2 a)).
    exists (main_goto (ESleep a) None s), j. split; [|split_and!; try done; right; by right].
    eapply rtc_l; [exact S1|]. eapply rtc_l; [exact S2|]. eapply rtc_l; [exact S3|].
    by apply rtc_once, (m_wait s3 a). }
  set (s3 := main_goto (ELink a) (Some Main) s).
  assert (istep s2 s3) as S3 by (by apply (m_test_go s2 a)).
  assert (∃ ll', inv s3 ll') as [ll' Hi3].
  { destruct (inv_istep _ _ _ S1 Hi) as [l1 I1]. destruct (inv_istep _ _ _ S2 I1) as [l2 I2].
    by apply (inv_istep _ _ _ S3 I2). }
  destruct (inv_memory_ok _ _ Hi3) as (_ & _ & M3 & _). destruct (M3 a) as [m' E]; [done|auto|].
  destruct (wake_one_exists (workers s)) as [ws' Hwake]. simpl in E. rewrite E.
  exists (Sys m' None ws' MIdle (accepted s ++ [j]) (finished s)), j. split; [|split_and!; try done; by left].
  eapply rtc_l; [exact S1|]. eapply rtc_l; [exact S2|]. eapply rtc_l; [exact S3|].
  apply rtc_once. by apply (m_link s3 a); auto.
Qed.

Lemma dequeue_runs s ll i :
  inv s ll → plain_mem (mem s) → owner s = None → at_worker s i WLock → runs_dequeue s i.
Proof.
  intros Hi [Hmu Hw] Ho Hx. unfold runs_dequeue. rewrite (dequeue_alone (mem s) Hmu Hw).
  assert (∀ x o, at_worker (goto i x o s) i x) as Hat by (intros x o; by eapply lookup_upd_eq).
  set (s1 := goto i WTest (Some (Worker i)) s).
  assert (istep s s1) as S1 by (by apply w_lock).
  destruct (is_empty (pool (mem s))) eqn:Hempty.
  { set (s2 := goto i WWait (Some (Worker i)) s).
    assert (istep s1 s2) as S2.
    { unfold s2. rewrite <-(goto_twice i WTest _ (Some (Worker i)) _ s). apply (w_test_wait s1 i); [apply Hat|done]. }
    exists (goto i WSleep None s). split; [|split_and!; try done; right; by right].
    eapply rtc_l; [exact S1|]. eapply rtc_l; [exact S2|].
    rewrite <-(goto_twice i WWait _ (Some (Worker i)) _ s). apply rtc_once, (w_wait s2 i), Hat. }
  set (s2 := goto i WTake (Some (Worker i)) s).
  assert (istep s1 s2) as S2.
  { unfold s2. rewrite <-(goto_twice i WTest _ (Some (Worker i)) _ s). apply (w_test_go s1 i); [apply Hat|done]. }
  case_decide as Hc.
  { exists (goto i WExit None s). split; [|split_and!; try done; right; left; split; [done|apply Hat]].
    eapply rtc_l; [exact S1|]. eapply rtc_l; [exact S2|].
    rewrite <-(goto_twice i WTake _ (Some (Worker i)) _ s). apply rtc_once, (w_exit s2 i); [apply Hat|apply Hc..]. }
  assert (∃ ll', inv s2 ll') as [ll' Hi2].
  { destruct (inv_istep _ _ _ S1 Hi) as [l1 I1]. by apply (inv_istep _ _ _ S2 I1). }
  destruct (inv_memory_ok _ _ Hi2) as (M1 & _). destruct (M1 i) as (a & m' & E); [apply Hat|exact Hc|].
  simpl in E. rewrite E.
  exists (Sys m' None (<[i := WBusy a]> (workers s)) (wake_main (main s)) (accepted s) (finished s)).
  split; [|split_and!; try done; left; exists a; split; [done|by eapply lookup_upd_eq]].
  eapply rtc_l; [exact S1|]. eapply rtc_l; [exact S2|]. apply rtc_once.
  replace (<[i:=WBusy a]> (workers s)) with (<[i:=WBusy a]> (workers s2)) by apply list_insert_insert_eq.
  apply (w_take s2 i a m'); [apply Hat|exact Hc|exact E].
Qed.

Lemma shutdown_runs s : plain_mem (mem s) → owner s = None → main s = SLock false → runs_shutdown s.
Proof.
  intros [Hmu _] Ho Hm. set (s1 := main_goto (SSet false) (Some Main) s).
  exists (Sys (flag_shutdown (mem s)) None (wake_all (workers s)) MIdle (accepted s) (finished s)).
  split; [eapply rtc_l; [by apply (m_slock s false)|]; by apply rtc_once, (m_sset s1 false)|].
  split; [done|]. split; [|split; [done|]].
  - unfold signal_shutdown. rewrite lock_free by done. unfold unlock_pool, bind, modify. f_equal.
    destruct (mem s) as [? ? ? [] ? ?]. simpl in *. by rewrite Hmu.
  - unfold wake_all. intros ([] & ? & ?)%list_elem_of_fmap; done.
Qed.


