(* ===== verification/Worker.v ===== *)
(** * The worker threads: [worker_thread] of [src/thread_pool.c]

    A worker takes jobs from the queue of [JobQueue.v], runs
    [sync_single_file] of [Transfer.v] on each and frees it, until the pool
    is shut down and empty.  Its state is the pool's memory and the
    operating system. *)
From S2P Require Import Prelude.
From S2P Require Import LinkedList.
From S2P Require Import CString.
From S2P Require Import Common.
From S2P Require Import OS.
From S2P Require Import JobSink.
From S2P Require Import JobQueue.
From S2P Require Import Transfer.
From stdpp Require Import gmap strings list.
From Stdlib Require Import Ascii ZArith Lia.

Definition wst : Type := pmem * os.

Definition in_pool {A} (c : M pmem A) : M wst A := zoom fst (λ m s, (m, s.2)) c.
Definition in_net {A} (c : M os A) : M wst A := zoom snd (λ o s, (s.1, o)) c.

Section worker.
Variable logfile : ptr Z.
Variable self : Z.

(** The loop, for at most [fuel] jobs; what the workers print is not modelled. *)
Fixpoint worker_thread (fuel : nat) : M wst unit :=
  job <- in_pool dequeue_sync_job ;;
  match job with
  | NULL => ret tt
  | Some a =>
      match fuel with
      | 0 => no_fuel
      | S f =>
          j <- in_pool (deref_job a) ;;
          in_net (sync_single_file logfile self j) ;;;
          in_pool (free_sync_job (Some a)) ;;;
          worker_thread f
      end
  end.

(** In a pool that is shut down nothing waits. *)
Lemma wp_dequeue_shut m ll Q :
  idle m ll → shutdown (pool m) ≠ 0%Z →
  (ll = [] → ∀ m', idle m' [] → jobs m' = jobs m → handed m' = handed m → Q NULL m') →
  (∀ a j l m', ll = (a, j) :: l → idle m' l → shutdown (pool m') ≠ 0%Z →
     jobs m' = <[a := with_job_next NULL j]> (jobs m) → a ∉ l.*1 →
     handed m' = handed m ++ [with_job_next NULL j] → Q (Some a) m') →
  wp dequeue_sync_job Q m.
Proof.
  intros [Hwf Hmu] Hsd Hnil Hcons. unfold dequeue_sync_job.
  apply wpb_bind, wp_lock_pool; [done|]. apply wpb_bind, wpb_gets, wpb_bind.
  unfold wpb at 1. rewrite wait_while_go.
  2: { unfold is_empty. simpl. rewrite (bool_decide_false (shutdown (pool m) = 0)%Z) by done. by rewrite andb_false_r. }
  apply wpb_bind, wpb_gets. simpl. pose proof (qr_size _ _ (wf_rep _ _ Hwf)) as Hsz.
  destruct ll as [|[a j] l].
  - rewrite decide_True by done. apply wpb_bind, wpb_modify, wpb_ret, Hnil; try done.
    split; [|done]. by do 2 apply wf_mutex.
  - rewrite decide_False by (simpl in Hsz; lia). apply wpb_bind.
    eapply wp_unlink_job; [by apply (wf_mutex true) in Hwf as [? _ _ _]|].
    intros m' Hrep Hj Hh [S1 S2 S3 S4 S5 S6 S7]. apply wpb_bind, wpb_modify, wpb_ret.
    pose proof (chain_NoDup _ _ _ (qr_chain _ _ (wf_rep _ _ Hwf))) as [Hnot _]%NoDup_cons.
    apply (Hcons a j l); try done; [|simpl in *; congruence].
    split; [|done]. apply wf_mutex. split; [done|rewrite S2; pose proof (wf_cap _ _ Hwf); simpl in *; lia| |].
    + rewrite S2. apply Hwf.
    + assert (jobs m !! a = Some j) as Ha by (destruct Hwf as [[(_ & ? & _) _ _ _] ? ? ?]; done).
      intros x. rewrite Hj, S5. simpl. rewrite lookup_insert_is_Some.
      intros [<-|[_ ?]]; eapply (wf_fresh _ _ Hwf); eauto.
Qed.

(** Freeing a block that is not queued. *)
Lemma idle_delete m ll a : idle m ll → a ∉ ll.*1 → idle (set_jobs (delete a) m) ll.
Proof.
  intros [[[] ? ? Hf] ?] Ha. split; [|done]. split; try done.
  - split; try done. by apply seg_delete.
  - intros x Hx. simpl in Hx. apply Hf. by apply lookup_delete_is_Some in Hx as [_ ?].
Qed.

Lemma wp_worker_drains fuel m ll o :
  idle m ll → shutdown (pool m) ≠ 0%Z → log_open logfile o → length ll ≤ fuel →
  wp (worker_thread fuel) (λ _ s', idle s'.1 [] ∧ handed s'.1 = handed m ++ contents ll ∧
    (∀ a, jobs s'.1 !! a = if decide (a ∈ ll.*1) then None else jobs m !! a) ∧
    log_open logfile s'.2 ∧ ∀ k, logfile ≠ Some k → fds s'.2 !! k = fds o !! k) (m, o).
Proof.
  revert m ll o. induction fuel as [|f IH]; intros m ll o Hi Hsd Hlog Hf.
  all: cbn [worker_thread]; apply wpb_bind, wpb_zoom; eapply wp_dequeue_shut; [exact Hi|exact Hsd|..].
  1, 3: intros -> m' Hi' Hj Hh; apply wpb_ret; simpl; rewrite Hh, app_nil_r; split_and!; try done;
    intros a; by rewrite Hj.
  - intros a j l m' ->. simpl in Hf. lia.
  - intros a j l m' -> Hi' Hsd' Hj Hnot Hh. simpl in Hf.
    apply wpb_bind, wpb_zoom. eapply wp_deref_job; [simpl; by rewrite Hj, lookup_insert_eq|].
    apply wpb_bind, wpb_zoom. eapply wpb_mono; [apply (wp_sync logfile self _ o Hlog)|].
    intros r o' (Hlog' & Hfds). apply wpb_bind, wpb_zoom. simpl.
    eapply wp_free_job; [by rewrite Hj, lookup_insert_eq|]. simpl.
    eapply wpb_mono; [apply (IH _ l o'); [by apply idle_delete|done|done|lia]|].
    intros ? s' (A1 & A2 & A3 & A4 & A5). split_and!; [done| | |done|].
    + rewrite A2. simpl. rewrite Hh, <-app_assoc. done.
    + intros x. rewrite A3. simpl. rewrite Hj. destruct (decide (x = a)) as [->|Hne].
      * rewrite lookup_delete_eq. case_decide; [|rewrite decide_True by set_solver]; [|done].
        by rewrite decide_True by set_solver.
      * rewrite lookup_delete_ne, lookup_insert_ne by done. case_decide; case_decide; done || set_solver.
    + intros k Hk. by rewrite A5, Hfds.
Qed.

End worker.

Definition shut_mem : pmem := set_pool (set_shutdown 1) demo_mem.

