(* ===== verification/Manager.v ===== *)
(** * The manager: [src/nfs_manager_logic.c] and [src/nfs_manager.c]

    The manager keeps its configuration, its log, its listening socket, the
    store of [SyncInfo.v] and a thread pool, which it knows only through the
    interface [JobSink].  [handle_add_command], [handle_cancel_command] and
    [handle_shutdown_command] are what the configuration file and the console
    can ask for; [start_directory_sync] turns the listing of a source into
    jobs.

    The state [gst] is the manager's structure with everything it reaches:
    the operating system, the heap of the store, the pool, and the global
    variables.  What [select] and [accept] report, and when signals arrive, is
    a script.  Output on the standard streams is not modelled, except that
    printing an array that was never written is undefined. *)
From S2P Require Import Prelude.
From S2P Require Import LinkedList.
From S2P Require Import CString.
From S2P Require Import Common.
From S2P Require Import OS.
From S2P Require Import Utils.
From S2P Require Import DirSpec.
From S2P Require Import SyncInfo.
From S2P Require Import JobSink.
From stdpp Require Import gmap strings list.
From Stdlib Require Import Ascii ZArith Lia.

(** ** State *)

(** [nfs_manager_t], less the pool. *)
Record manager := Manager {
  logfile_path : ptr bytes;
  config_file_path : ptr bytes;
  worker_limit : Z;
  port : Z;
  queue_limit : Z;                 (* buffer_size *)
  logfile : ptr Z;
  server_sockfd : Z;
  sync_store : ptr loc;
  shutdown_requested : Z
}.

Record gst (P : Type) := Gst {
  mgr : manager;
  net : os;
  heap : sheap;
  thread_pool : ptr P;             (* manager->thread_pool and what it points to *)
  shutdown_flag : Z;
  worker_logfile : ptr Z;          (* g_worker_logfile *)
  creation : list bool;            (* which steps of create_thread_pool succeed *)
  registered : bool                (* global_manager is set *)
}.
Arguments Gst {P}.
Arguments mgr {P}. Arguments net {P}. Arguments heap {P}. Arguments thread_pool {P}.
Arguments shutdown_flag {P}. Arguments worker_logfile {P}. Arguments creation {P}.
Arguments registered {P}.

Definition set_mgr {P} f (s : gst P) :=
  Gst (f (mgr s)) (net s) (heap s) (thread_pool s) (shutdown_flag s) (worker_logfile s) (creation s) (registered s).
Definition set_net {P} (o : os) (s : gst P) :=
  Gst (mgr s) o (heap s) (thread_pool s) (shutdown_flag s) (worker_logfile s) (creation s) (registered s).
Definition set_heap {P} (h : sheap) (s : gst P) :=
  Gst (mgr s) (net s) h (thread_pool s) (shutdown_flag s) (worker_logfile s) (creation s) (registered s).
Definition set_thread_pool {P} (p : ptr P) (s : gst P) :=
  Gst (mgr s) (net s) (heap s) p (shutdown_flag s) (worker_logfile s) (creation s) (registered s).
Definition set_flag {P} (z : Z) (s : gst P) :=
  Gst (mgr s) (net s) (heap s) (thread_pool s) z (worker_logfile s) (creation s) (registered s).
Definition set_worker_logfile {P} (l : ptr Z) (s : gst P) :=
  Gst (mgr s) (net s) (heap s) (thread_pool s) (shutdown_flag s) l (creation s) (registered s).
Definition set_registered {P} (s : gst P) :=
  Gst (mgr s) (net s) (heap s) (thread_pool s) (shutdown_flag s) (worker_logfile s) (creation s) true.

Definition with_logfile_path p m := Manager p (config_file_path m) (worker_limit m) (port m) (queue_limit m) (logfile m) (server_sockfd m) (sync_store m) (shutdown_requested m).
Definition with_config_file_path p m := Manager (logfile_path m) p (worker_limit m) (port m) (queue_limit m) (logfile m) (server_sockfd m) (sync_store m) (shutdown_requested m).
Definition with_worker_limit z m := Manager (logfile_path m) (config_file_path m) z (port m) (queue_limit m) (logfile m) (server_sockfd m) (sync_store m) (shutdown_requested m).
Definition with_port z m := Manager (logfile_path m) (config_file_path m) (worker_limit m) z (queue_limit m) (logfile m) (server_sockfd m) (sync_store m) (shutdown_requested m).
Definition with_queue_limit z m := Manager (logfile_path m) (config_file_path m) (worker_limit m) (port m) z (logfile m) (server_sockfd m) (sync_store m) (shutdown_requested m).
Definition with_logfile l m := Manager (logfile_path m) (config_file_path m) (worker_limit m) (port m) (queue_limit m) l (server_sockfd m) (sync_store m) (shutdown_requested m).
Definition with_server_sockfd z m := Manager (logfile_path m) (config_file_path m) (worker_limit m) (port m) (queue_limit m) (logfile m) z (sync_store m) (shutdown_requested m).
Definition with_sync_store st m := Manager (logfile_path m) (config_file_path m) (worker_limit m) (port m) (queue_limit m) (logfile m) (server_sockfd m) st (shutdown_requested m).
Definition with_shutdown_requested z m := Manager (logfile_path m) (config_file_path m) (worker_limit m) (port m) (queue_limit m) (logfile m) (server_sockfd m) (sync_store m) z.

(** ** Command line *)

(** [memset] and the default of [parse_arguments]. *)
Definition blank_manager : manager := Manager NULL NULL DEFAULT_WORKERS 0 0 NULL 0 NULL 0.

Fixpoint parse_options (argv : list bytes) (m : manager) : Z * manager :=
  match argv with
  | [] => (0%Z, m)
  | [_] => ((-1)%Z, m)
  | opt :: arg :: rest =>
      if bool_decide (opt = lit "-l") then parse_options rest (with_logfile_path (Some arg) m)
      else if bool_decide (opt = lit "-c") then parse_options rest (with_config_file_path (Some arg) m)
      else if bool_decide (opt = lit "-n") then
        let m := with_worker_limit (atoi arg) m in
        if decide (worker_limit m <= 0)%Z then ((-1)%Z, m) else parse_options rest m
      else if bool_decide (opt = lit "-p") then
        let m := with_port (atoi arg) m in
        if decide (port m <= 0)%Z then ((-1)%Z, m) else parse_options rest m
      else if bool_decide (opt = lit "-b") then
        let m := with_queue_limit (atoi arg) m in
        if decide (queue_limit m <= 0)%Z then ((-1)%Z, m) else parse_options rest m
      else ((-1)%Z, m)
  end.

(** [argv] without the program's name. *)
Definition parse_arguments (argv : list bytes) : Z * manager :=
  let '(r, m) := parse_options argv blank_manager in
  if decide (r ≠ 0)%Z then (r, m) else
  match logfile_path m, config_file_path m with
  | Some _, Some _ =>
      if decide (port m = 0 ∨ queue_limit m = 0)%Z then ((-1)%Z, m) else (0%Z, m)
  | _, _ => ((-1)%Z, m)
  end.

Section manager.
Context {P : Type} `{JobSink P}.

Definition in_net {A} (c : M os A) : M (gst P) A := zoom net set_net c.
Definition in_heap {A} (c : M sheap A) : M (gst P) A := zoom heap set_heap c.

(** A call of the pool's functions; they do nothing with a NULL pool. *)
Definition in_pool {A} (c : M P A) (null : A) : M (gst P) A := λ s,
  match thread_pool s with
  | NULL => Ret null s
  | Some p => zoom (λ _, p) (λ p s, set_thread_pool (Some p) s) c s
  end.

(** [if (manager->logfile) log_message (...)] *)
Definition log (message : bytes) : M (gst P) unit :=
  m <- gets mgr ;; in_net (log_message (logfile m) message).

(** ** Initialisation *)

Definition initialize_manager : M (gst P) Z :=
  m <- gets mgr ;;
  fd <- in_net (open_trunc (default [] (logfile_path m))) ;;
  if decide (fd < 0)%Z then ret (-1)%Z else
  modify (set_mgr (with_logfile (Some fd))) ;;;
  modify (set_worker_logfile (Some fd)) ;;;
  sockfd <- in_net (create_server_socket (port m)) ;;
  modify (set_mgr (with_server_sockfd sockfd)) ;;;
  if decide (sockfd < 0)%Z then ret (-1)%Z else
  store <- in_heap create_sync_info_store ;;
  modify (set_mgr (with_sync_store store)) ;;;
  match store with
  | NULL => ret (-1)%Z
  | Some _ =>
      script <- gets creation ;;
      let pool := sink_new (worker_limit m) (queue_limit m) script in
      modify (set_thread_pool pool) ;;;
      match pool with
      | NULL => in_heap (destroy_sync_info_store store) ;;; ret (-1)%Z
      | Some _ =>
          log (lit "nfs_manager initialized on port " ++ dec (port m) ++ lit " with " ++
            dec (worker_limit m) ++ lit " workers") ;;;
          ret 0%Z
      end
  end.

(** ** Starting a synchronisation *)

(** [%s/%s@%s:%d] *)
Definition file_at (dir name host : bytes) (port : Z) : bytes :=
  dir ++ lit "/" ++ name ++ lit "@" ++ host ++ lit ":" ++ dec port.

(** [%s@%s:%d] *)
Definition dir_at (dir host : bytes) (port : Z) : bytes := dir ++ lit "@" ++ host ++ lit ":" ++ dec port.

(** The job for one line of the listing. *)
Definition job_for (i : sync_info) (line : bytes) : sync_job :=
  make_job (source_host i) (source_port i) (source_dir i)
    (target_host i) (target_port i) (target_dir i) line.

Definition add_file (i : sync_info) (line : bytes) : M (gst P) unit :=
  job <- in_pool (sink_create (job_for i line)) NULL ;;
  match job with
  | NULL => ret tt
  | Some _ =>
      r <- in_pool (sink_enqueue job) (-1)%Z ;;
      if decide (r = 0)%Z then
        log (lit "Added file: " ++ file_at (source_dir i) line (source_host i) (source_port i) ++
          lit " -> " ++ file_at (target_dir i) line (target_host i) (target_port i))
      else
        log (lit "Failed to enqueue job for file: " ++ line) ;;;
        in_pool (sink_free job) tt
  end.

(** The loop over the lines, ended by the line ".". *)
Fixpoint add_files (fuel : nat) (i : sync_info) (buffer : bytes) : M (gst P) unit :=
  match strtok NL buffer, fuel with
  | None, _ => ret tt
  | Some _, 0 => no_fuel
  | Some (line, rest), S f =>
      if bool_decide (line = lit ".") then ret tt else
      add_file i line ;;;
      add_files f i rest
  end.

Definition start_directory_sync (info : ptr loc) : M (gst P) Z :=
  match info with
  | NULL => ret (-1)%Z
  | Some a =>
      i <- in_heap (deref_info a) ;;
      if decide (source_host i = [] ∨ source_dir i = [] ∨ target_host i = [] ∨ target_dir i = [])
      then ret (-1)%Z else
      source_fd <- in_net (connect_to_server (Some (source_host i)) (source_port i)) ;;
      if decide (source_fd < 0)%Z then
        log (lit "Failed to connect to source " ++ source_host i ++ lit ":" ++ dec (source_port i)) ;;;
        ret (-1)%Z
      else
      let command := snprintf MAX_COMMAND_SIZE (lit "LIST " ++ source_dir i ++ [NL]) in
      r <- in_net (send_command source_fd (Some command)) ;;
      if decide (r ≠ 0)%Z then in_net (sys_close source_fd) ;;; ret (-1)%Z else
      r <- in_net (sys_recv source_fd (MAX_BUFFER_SIZE - 1)) ;;
      let '(received, data) := r in
      if decide (received <= 0)%Z then in_net (sys_close source_fd) ;;; ret (-1)%Z else
      let buffer := cstr data in
      add_files (length buffer) i buffer ;;;
      in_net (sys_close source_fd) ;;;
      ret 0%Z
  end.

(** ** Commands *)

Definition handle_add_command (source_spec target_spec : ptr bytes) : M (gst P) Z :=
  match source_spec, target_spec with
  | Some _, Some _ =>
      match parse_directory_spec source_spec (Some no_out), parse_directory_spec target_spec (Some no_out) with
      | (0%Z, Some (SpecOut (Some source_host) (Some source_port) (Some source_dir))),
        (0%Z, Some (SpecOut (Some target_host) (Some target_port) (Some target_dir))) =>
          m <- gets mgr ;;
          found <- in_heap (find_sync_info (sync_store m) (Some source_host) source_port (Some source_dir)) ;;
          match found with
          | Some _ =>
              log (lit "Already in queue: " ++ dir_at source_dir source_host source_port) ;;;
              ret 1%Z
          | NULL =>
              info <- in_heap (create_sync_info (Some source_host) source_port (Some source_dir)
                (Some target_host) target_port (Some target_dir)) ;;
              match info with
              | NULL => ret (-1)%Z
              | Some _ =>
                  r <- in_heap (add_sync_info (sync_store m) info) ;;
                  if decide (r ≠ 0)%Z then in_heap (free_sync_info info) ;;; ret (-1)%Z else
                  r <- start_directory_sync info ;;
                  if decide (r ≠ 0)%Z then
                    log (lit "Failed to start sync for " ++ dir_at source_dir source_host source_port) ;;;
                    ret (-1)%Z
                  else
                  log (lit "Started sync: " ++ dir_at source_dir source_host source_port ++ lit " -> " ++
                    dir_at target_dir target_host target_port) ;;;
                  ret 0%Z
              end
          end
      | _, _ => ret (-1)%Z
      end
  | _, _ => ret (-1)%Z
  end.

Definition handle_cancel_command (source_spec : ptr bytes) : M (gst P) Z :=
  match source_spec with
  | NULL => ret (-1)%Z
  | Some _ =>
      match parse_directory_spec source_spec (Some no_out) with
      | (0%Z, Some (SpecOut (Some host) (Some port) (Some dir))) =>
          m <- gets mgr ;;
          r <- in_heap (deactivate_sync_info (sync_store m) (Some host) port (Some dir)) ;;
          if decide (r = 0)%Z then
            log (lit "Synchronization stopped for " ++ dir_at dir host port) ;;;
            ret 0%Z
          else
            log (lit "Directory not being synchronized: " ++ dir_at dir host port) ;;;
            ret 1%Z
      | _ => ret (-1)%Z
      end
  end.

Definition handle_shutdown_command : M (gst P) Z :=
  modify (set_mgr (with_shutdown_requested 1)) ;;;
  modify (set_flag 1) ;;;
  log (lit "Shutting down manager...") ;;;
  log (lit "Waiting for all active workers to finish.") ;;;
  in_pool sink_shutdown tt ;;;
  log (lit "Processing remaining queued tasks.") ;;;
  log (lit "Manager shutdown complete.") ;;;
  ret 0%Z.

(** A signal: [signal_handler]. *)
Definition signal_handler : M (gst P) unit :=
  modify (set_flag 1) ;;;
  r <- gets registered ;;
  if r : bool then modify (set_mgr (with_shutdown_requested 1)) else ret tt.

(** ** The configuration file *)

(** [fgets (line, n, file)]: a line with its newline, or its first [n - 1] bytes. *)
Fixpoint fgets_line (n : nat) (s : bytes) : bytes :=
  match n, s with
  | S n', c :: s' => if decide (c = NL) then [c] else c :: fgets_line n' s'
  | _, _ => []
  end.

(** Reading from the stream at [fd]; [None] at the end of the file. *)
Definition fgets (n : nat) (fd : Z) : M os (option bytes) :=
  o <- get ;;
  match fds o !! fd with
  | Some (FFile p off) =>
      match fgets_line (n - 1) (drop off (content o p)) with
      | [] => ret None
      | d => modify (set_fds <[fd := FFile p (off + length d)]>) ;;; ret (Some d)
      end
  | _ => ret None
  end.

(** One line of the file. *)
Definition config_line (line : bytes) : M (gst P) unit :=
  match line with
  | c :: _ =>
      if decide (c = NL ∨ c = "#"%char) then ret tt else
      r <- sscanf (cstr line) "%s %s" [MAX_PATH * 2; MAX_PATH * 2] ;;
      match r with
      | (2%Z, [VStr source_spec; VStr target_spec]) =>
          handle_add_command (Some source_spec) (Some target_spec) ;;; ret tt
      | _ => undef UninitialisedRead      (* both arrays are printed before the test *)
      end
  | [] => ret tt
  end.

Fixpoint config_lines (fuel : nat) (fd : Z) : M (gst P) unit :=
  line <- in_net (fgets MAX_COMMAND_SIZE fd) ;;
  match line, fuel with
  | None, _ => ret tt
  | Some _, 0 => no_fuel
  | Some line, S f => config_line line ;;; config_lines f fd
  end.

Variable localtime : Z → tm.

Definition load_config_file : M (gst P) Z :=
  m <- gets mgr ;;
  match config_file_path m with
  | NULL => ret (-1)%Z
  | Some path =>
      fd <- in_net (open_read path) ;;
      if decide (fd < 0)%Z then ret (-1)%Z else
      o <- gets net ;;
      config_lines (length (content o path)) fd ;;;
      in_net (sys_close fd) ;;;
      m <- gets mgr ;;
      match sync_store m with
      | Some _ => in_heap (print_sync_info_store localtime (sync_store m)) ;;; ret 0%Z
      | NULL => ret 0%Z
      end
  end.

(** ** The console's connection *)

(** What a [select] reports: nothing within the timeout, an interruption by a
    signal (whose handler has run), an error, or input. *)
Inductive select_ev := SelTimeout | SelSignal | SelError | SelReady.

Definition reply_text (text : bytes) : bytes := snprintf MAX_BUFFER_SIZE text.

(** The command in [buffer]: the response, and whether the connection ends. *)
Definition console_command (buffer : bytes) : M (gst P) (bytes * bool) :=
  r <- sscanf buffer "%s %s %s" [64; MAX_PATH; MAX_PATH] ;;
  let invalid := lit "Invalid command: " ++ buffer ++ [NL] in
  match r.2 with
  | VStr command :: args =>
      match args with
      | [VStr arg1; VStr arg2] =>
          if bool_decide (command = CMD_ADD) then
            result <- handle_add_command (Some arg1) (Some arg2) ;;
            ret (if decide (result = 0)%Z then lit "Added sync pair successfully" ++ [NL]
                 else if decide (result = 1)%Z then lit "Already in queue: " ++ arg1 ++ [NL]
                 else lit "Error adding sync pair" ++ [NL], false)
          else if bool_decide (command = CMD_SHUTDOWN) then
            handle_shutdown_command ;;; ret (lit "Shutting down manager..." ++ [NL], true)
          else ret (invalid, false)
      | [VStr arg1] =>
          if bool_decide (command = CMD_CANCEL) then
            result <- handle_cancel_command (Some arg1) ;;
            ret (if decide (result = 0)%Z then lit "Synchronization stopped for " ++ arg1 ++ [NL]
                 else if decide (result = 1)%Z then lit "Directory not being synchronized: " ++ arg1 ++ [NL]
                 else lit "Error canceling synchronization" ++ [NL], false)
          else if bool_decide (command = CMD_SHUTDOWN) then
            handle_shutdown_command ;;; ret (lit "Shutting down manager..." ++ [NL], true)
          else ret (invalid, false)
      | _ =>
          if bool_decide (command = CMD_SHUTDOWN) then
            handle_shutdown_command ;;; ret (lit "Shutting down manager..." ++ [NL], true)
          else ret (invalid, false)
      end
  | _ => undef UninitialisedRead          (* strcmp reads command, never written *)
  end.

(** [!manager->shutdown_requested && !shutdown_flag] *)
Definition running (s : gst P) : bool :=
  bool_decide (shutdown_requested (mgr s) = 0)%Z && bool_decide (shutdown_flag s = 0)%Z.

Fixpoint console_loop (client_fd : Z) (events : list select_ev) : M (gst P) unit :=
  go <- gets running ;;
  if negb go then ret tt else
  match events with
  | [] => blocked
  | SelTimeout :: evs => console_loop client_fd evs
  | SelSignal :: evs => signal_handler ;;; console_loop client_fd evs
  | SelError :: _ => ret tt
  | SelReady :: evs =>
      r <- in_net (sys_recv client_fd (MAX_COMMAND_SIZE - 1)) ;;
      let '(received, data) := r in
      if decide (received <= 0)%Z then ret tt else
      reply <- console_command (cstr data) ;;
      let '(response, done) := reply in
      in_net (sys_send client_fd (reply_text response)) ;;;
      if done : bool then ret tt else console_loop client_fd evs
  end.

Definition handle_console_connection (client_fd : Z) (events : list select_ev) : M (gst P) unit :=
  if decide (client_fd < 0)%Z then ret tt else
  console_loop client_fd events ;;;
  in_net (sys_close client_fd).

(** ** The end *)

Definition cleanup_manager : M (gst P) unit :=
  in_pool sink_destroy tt ;;;
  modify (set_thread_pool NULL) ;;;
  m <- gets mgr ;;
  in_heap (destroy_sync_info_store (sync_store m)) ;;;
  modify (set_mgr (with_sync_store NULL)) ;;;
  match logfile m with
  | Some fd =>
      in_net (sys_close fd) ;;;
      modify (set_mgr (with_logfile NULL)) ;;;
      modify (set_worker_logfile NULL)
  | NULL => ret tt
  end ;;;
  (if decide (0 <= server_sockfd m)%Z then
     in_net (sys_close (server_sockfd m)) ;;;
     modify (set_mgr (with_server_sockfd (-1)))
   else ret tt) ;;;
  modify (set_mgr (with_logfile_path NULL)) ;;;
  modify (set_mgr (with_config_file_path NULL)).

(** What happens to the main loop: a timeout, a signal, an error of [select],
    an [accept] that fails, or a console that connects, with its events. *)
Inductive server_ev := SrvTimeout | SrvSignal | SrvError | SrvNoAccept | SrvConsole (c : sock) (evs : list select_ev).

Fixpoint server_loop (events : list server_ev) : M (gst P) unit :=
  go <- gets running ;;
  if negb go then ret tt else
  match events with
  | [] => blocked
  | SrvTimeout :: evs => server_loop evs
  | SrvSignal :: evs => signal_handler ;;; server_loop evs
  | SrvError :: _ => ret tt
  | SrvNoAccept :: evs => server_loop evs
  | SrvConsole c cevs :: evs =>
      client_fd <- in_net (open_fd (FSock c)) ;;
      handle_console_connection client_fd cevs ;;;
      server_loop evs
  end.

Definition main (argv : list bytes) (events : list server_ev) : M (gst P) Z :=
  if decide (length argv < 9) then ret 1%Z else
  let '(r, m) := parse_arguments (tail argv) in
  modify (set_mgr (λ _, m)) ;;;
  if decide (r ≠ 0)%Z then ret 1%Z else
  modify set_registered ;;;
  r <- initialize_manager ;;
  if decide (r ≠ 0)%Z then cleanup_manager ;;; ret 1%Z else
  r <- load_config_file ;;
  if decide (r ≠ 0)%Z then cleanup_manager ;;; ret 1%Z else
  server_loop events ;;;
  cleanup_manager ;;;
  ret 0%Z.
End manager.

(** ** Command lines *)

(** The result of a successful parse: everything the manager needs is there,
    every number is a positive [int], and nothing else has been set up. *)
Definition configured (m : manager) : Prop :=
  (∃ l, logfile_path m = Some l) ∧ (∃ c, config_file_path m = Some c) ∧
  (0 < worker_limit m ≤ int_max)%Z ∧ (0 < port m ≤ int_max)%Z ∧ (0 < queue_limit m ≤ int_max)%Z ∧
  logfile m = NULL ∧ server_sockfd m = 0%Z ∧ sync_store m = NULL ∧ shutdown_requested m = 0%Z.

(** What the options seen so far guarantee. *)
Definition partly_configured (m : manager) : Prop :=
  (0 < worker_limit m ≤ int_max)%Z ∧ (0 ≤ port m ≤ int_max)%Z ∧ (0 ≤ queue_limit m ≤ int_max)%Z ∧
  logfile m = NULL ∧ server_sockfd m = 0%Z ∧ sync_store m = NULL ∧ shutdown_requested m = 0%Z.

Lemma parse_options_partly n argv m m' :
  length argv ≤ n → partly_configured m → parse_options argv m = (0%Z, m') → partly_configured m'.
Proof.
  revert argv m. induction n as [|n IH]; intros [|opt [|arg rest]] m Hl Hm; simpl in Hl |- *; try lia;
    try (by intros [= <-]); try done.
  pose proof (atoi_range arg) as Ha. destruct Hm as (H1 & H2 & H3 & H4 & H5 & H6 & H7).
  repeat case_bool_decide; try (case_decide; [done|]); try done; apply IH; try lia;
    unfold partly_configured in *; simpl in *; split_and!; try done; lia.
Qed.

Lemma parse_arguments_configured (argv : list bytes) (m : manager) :
  parse_arguments argv = (0%Z, m) → configured m.
Proof.
  unfold parse_arguments. destruct (parse_options argv blank_manager) as [r m0] eqn:E.
  case_decide as Hr; [by intros [= ? ->]|]. assert (r = 0%Z) as -> by lia.
  apply (parse_options_partly (length argv)) in E; [|done|].
  2: { unfold partly_configured, blank_manager, DEFAULT_WORKERS, int_max. simpl. split_and!; done || lia. }
  destruct (logfile_path m0) as [l|] eqn:El; [|done].
  destruct (config_file_path m0) as [c|] eqn:Ec; [|done].
  case_decide; [done|]. intros [= <-]. destruct E as (H1 & H2 & H3 & H4).
  split; [by exists l|]. split; [by exists c|]. split_and!; try apply H4; lia.
Qed.

(** [parse_arguments] accepts a command line only if it names a log file
    and a configuration file, and gives a positive port and buffer size; the
    worker limit is positive too, five by default.  All the numbers fit an
    [int], and the rest of the structure is cleared. *)
Theorem parse_arguments_valid (argv : list bytes) (m : manager) :
  parse_arguments argv = (0%Z, m) → configured m.
Proof. apply parse_arguments_configured. Qed.

Lemma atoi_positive z : (0 < z ≤ int_max)%Z → atoi (dec z) = z.
Proof.
  intros Hz. rewrite <-(app_nil_r (dec z)). apply atoi_dec; [|apply stops_nil]. unfold int_min. lia.
Qed.

(** An option whose number must be positive. *)
Lemma positive_option {A} (get : manager → Z) (set : Z → manager → manager) z m (bad : A) (good : manager → A) :
  (∀ z m, get (set z m) = z) → (0 < z ≤ int_max)%Z →
  (let m := set (atoi (dec z)) m in if decide (get m <= 0)%Z then bad else good m) = good (set z m).
Proof. intros Hg Hz. cbv zeta. rewrite (atoi_positive z Hz), Hg, decide_False by lia. done. Qed.

(** The documented command line is understood, whatever positive numbers
    it gives. *)
Theorem parse_arguments_documented (l c : bytes) (n p b : Z)
    (Hn : (0 < n ≤ int_max)%Z) (Hp : (0 < p ≤ int_max)%Z) (Hb : (0 < b ≤ int_max)%Z) :
  parse_arguments [lit "-l"; l; lit "-c"; c; lit "-n"; dec n; lit "-p"; dec p; lit "-b"; dec b] =
    (0%Z, Manager (Some l) (Some c) n p b NULL 0 NULL 0).
Proof.
  assert (parse_options [lit "-l"; l; lit "-c"; c; lit "-n"; dec n; lit "-p"; dec p; lit "-b"; dec b]
    blank_manager = (0%Z, Manager (Some l) (Some c) n p b NULL 0 NULL 0)) as E.
  { set (m1 := with_config_file_path (Some c) (with_logfile_path (Some l) blank_manager)).
    trans (parse_options [lit "-n"; dec n; lit "-p"; dec p; lit "-b"; dec b] m1); [reflexivity|].
    etrans; [apply (positive_option worker_limit with_worker_limit n m1 _
      (parse_options [lit "-p"; dec p; lit "-b"; dec b])); done|].
    etrans; [apply (positive_option port with_port p (with_worker_limit n m1) _
      (parse_options [lit "-b"; dec b])); done|].
    by apply (positive_option queue_limit with_queue_limit b (with_port p (with_worker_limit n m1)) _
      (parse_options [])). }
  unfold parse_arguments. rewrite E. rewrite decide_False by auto. cbn [logfile_path config_file_path].
  rewrite decide_False; [done|]. cbn [port queue_limit]. lia.
Qed.

Lemma parse_arguments_documented_witness :
  parse_arguments [lit "-l"; lit "m.log"; lit "-c"; lit "config"; lit "-n"; lit "4"; lit "-p"; lit "9000";
    lit "-b"; lit "16"] = (0%Z, Manager (Some (lit "m.log")) (Some (lit "config")) 4 9000 16 NULL 0 NULL 0).
Proof. apply (parse_arguments_documented (lit "m.log") (lit "config") 4 9000 16); unfold int_max; lia. Defined.

Lemma parse_arguments_valid_witness :
  configured (Manager (Some (lit "m.log")) (Some (lit "config")) 5 9000 16 NULL 0 NULL 0).
Proof.
  apply (parse_arguments_valid [lit "-b"; lit "16"; lit "-p"; lit "9000"; lit "-c"; lit "config"; lit "-l"; lit "m.log"]).
  vm_compute. reflexivity.
Defined.
