(* ===== verification/ManagerSpec.v ===== *)
(** * What the manager's operations do

    Properties of the definitions of [Manager.v], proved for every pool that
    meets the interface [JobSink]; the examples use the linked queue of
    [JobQueue.v]. *)
From S2P Require Import Prelude.
From S2P Require Import LinkedList.
From S2P Require Import CString.
From S2P Require Import Common.
From S2P Require Import OS.
From S2P Require Import Utils.
From S2P Require Import DirSpec.
From S2P Require Import SyncInfo.
From S2P Require Import JobSink.
From S2P Require Import JobQueue.
From S2P Require Import Manager.
From stdpp Require Import gmap strings list.
From Stdlib Require Import Ascii ZArith Lia.

Section properties.
Context {P : Type} `{JobSink P}.
Implicit Types (s : gst P).

(** ** Logging *)

(** The descriptors and files of [o'] are those of [o], but for what a log
    open on [l] has received. *)
Record quiet (l : ptr Z) (o o' : os) : Prop := {
  q_fds : ∀ k, l ≠ Some k → fds o' !! k = fds o !! k;
  q_log : ∀ k, l = Some k → fds o' !! k = fds o !! k ∨
    ∃ p off off', fds o !! k = Some (FFile p off) ∧ fds o' !! k = Some (FFile p off');
  q_files : ∀ p, (∀ k off, l = Some k → fds o !! k ≠ Some (FFile p off)) → files o' !! p = files o !! p
}.

#[global] Instance quiet_refl l : Reflexive (quiet l).
Proof. intros o. split; auto. Qed.

Lemma quiet_path l o o' p k off :
  quiet l o o' → l = Some k → fds o' !! k = Some (FFile p off) → ∃ off', fds o !! k = Some (FFile p off').
Proof.
  intros [_ A _] Hl Hk. destruct (A k Hl) as [E|(q & of1 & of2 & E1 & E2)]; [rewrite E in Hk; eauto|].
  rewrite E2 in Hk. injection Hk as -> ->. eauto.
Qed.

#[global] Instance quiet_trans l : Transitive (quiet l).
Proof.
  intros o1 o2 o3 A B. split.
  - intros k Hk. by rewrite (q_fds _ _ _ B), (q_fds _ _ _ A).
  - intros k Hk. destruct (q_log _ _ _ A k Hk) as [E|(p & off & off' & E1 & E2)],
      (q_log _ _ _ B k Hk) as [F|(q & of1 & of2 & F1 & F2)].
    + left. congruence.
    + right. rewrite E in F1. eauto.
    + right. rewrite <-F in E2. eauto.
    + right. rewrite E2 in F1. injection F1 as <- <-. eauto.
  - intros p Hp. rewrite (q_files _ _ _ B); [by apply (q_files _ _ _ A)|].
    intros k off Hk Hko. destruct (quiet_path _ _ _ _ _ _ A Hk Hko) as [off' E]. by apply (Hp k off').
Qed.

(** A descriptor of something else than a file survives logging. *)
Lemma quiet_other l o o' k x :
  quiet l o o' → fds o !! k = Some x → (∀ p off, x ≠ FFile p off) → fds o' !! k = Some x.
Proof.
  intros A Hk Hx. destruct (decide (l = Some k)) as [->|Hl]; [|by rewrite (q_fds _ _ _ A)].
  destruct (q_log _ _ _ A k eq_refl) as [E|(p & off & off' & E1 & E2)]; [congruence|].
  rewrite E1 in Hk. injection Hk as <-. by destruct (Hx p off).
Qed.

Lemma quiet_None l o o' k : quiet l o o' → fds o !! k = None → fds o' !! k = None.
Proof.
  intros A Hk. destruct (decide (l = Some k)) as [->|Hl]; [|by rewrite (q_fds _ _ _ A)].
  destruct (q_log _ _ _ A k eq_refl) as [E|(p & off & off' & E1 & E2)]; congruence.
Qed.

Lemma append_log_quiet fd text o : ∃ o', append_log fd text o = Ret tt o' ∧ quiet (Some fd) o o'.
Proof.
  unfold append_log, modify. eexists. split; [done|].
  destruct (fds o !! fd) as [[| | |p off|]|] eqn:E; try done. split; simpl.
  - intros k Hk. rewrite lookup_insert_ne; congruence.
  - intros k [= <-]. right. rewrite lookup_insert_eq. eauto.
  - intros q Hq. rewrite lookup_insert_ne; [done|]. intros <-. by apply (Hq fd off).
Qed.

Lemma log_returns msg s : ∃ o', log msg s = Ret tt (set_net o' s) ∧
  quiet (logfile (mgr s)) (net s) o' ∧ sys o' = sys (net s) ∧ dials o' = dials (net s) ∧ closed o' = closed (net s).
Proof.
  unfold log, in_net, log_message, zoom, bind, gets, ret.
  destruct (logfile (mgr s)) as [fd|]; [|by eexists].
  destruct (append_log_quiet fd (log_line (now (net s)) msg) (net s)) as (o' & E & Ho). rewrite E.
  eexists. split; [done|]. split; [done|]. unfold append_log, modify in E. injection E as <-.
  by destruct (fds (net s) !! fd) as [[]|].
Qed.

Lemma wp_log b msg s Q :
  (∀ o', quiet (logfile (mgr s)) (net s) o' → sys o' = sys (net s) → dials o' = dials (net s) →
     closed o' = closed (net s) → Q tt (set_net o' s)) → wpb b (log msg) Q s.
Proof. intros HQ. unfold wpb. destruct (log_returns msg s) as (o' & -> & Ho & ? & ? & ?). by apply HQ. Qed.

Lemma wpb_in_net {A} b (c : M os A) Q s :
  wpb b c (λ a o, Q a (set_net o s)) (net s) → wpb b (in_net c) Q s.
Proof. apply wpb_zoom. Qed.

Lemma wpb_in_heap {A} b (c : M sheap A) Q s :
  wpb b c (λ a h, Q a (set_heap h s)) (heap s) → wpb b (in_heap c) Q s.
Proof. apply wpb_zoom. Qed.

Lemma wpb_in_pool {A} b (c : M P A) (null : A) p Q s :
  thread_pool s = Some p →
  wpb b c (λ a p', Q a (set_thread_pool (Some p') s)) p → wpb b (in_pool c null) Q s.
Proof. intros Hp HQ. unfold wpb, in_pool. rewrite Hp. by apply wpb_zoom. Qed.

(** ** From the listing of a directory to jobs *)

(** What LIST sends for a directory with these entries, as one text. *)
Definition name_lines (names : list bytes) : bytes := concat ((λ d, d ++ [NL]) <$> names).

Definition list_text (names : list bytes) : bytes := name_lines names ++ lit "." ++ [NL].

(** What may follow the names: the end mark, or nothing when it is still to come. *)
Definition list_end (t : bytes) : Prop := t = [] ∨ t = lit "." ++ [NL].

(** A file name that can stand on a line of the listing. *)
Definition listable (d : bytes) : Prop := d ≠ [] ∧ (NL ∉ d) ∧ (NUL ∉ d) ∧ d ≠ lit ".".

#[global] Instance listable_dec d : Decision (listable d).
Proof. unfold listable. apply _. Defined.

Lemma until_char_app c d r : c ∉ d → until_char c (d ++ c :: r) = (d, r).
Proof.
  induction d as [|x d IH]; simpl; intros Hc; [by rewrite decide_True|].
  rewrite decide_False by set_solver. by rewrite IH by set_solver.
Qed.

Lemma strtok_line c d r : d ≠ [] → c ∉ d → strtok c (d ++ c :: r) = Some (d, r).
Proof.
  intros Hd Hc. unfold strtok. destruct d as [|x d]; [done|]. cbn [app skip_char].
  rewrite decide_False by set_solver. by rewrite <-(until_char_app c (x :: d) r Hc).
Qed.

Lemma name_lines_cons d names t : name_lines (d :: names) ++ t = d ++ NL :: name_lines names ++ t.
Proof. unfold name_lines. simpl. by rewrite <-!app_assoc. Qed.

Lemma name_lines_no_nul names t : Forall listable names → list_end t → NUL ∉ name_lines names ++ t.
Proof.
  intros H' Ht. induction H' as [|d names (_ & _ & Hd & _) _ IH].
  - unfold name_lines. simpl. destruct Ht as [->| ->]; set_unfold; naive_solver.
  - rewrite name_lines_cons, elem_of_app, elem_of_cons. naive_solver.
Qed.

(** The pool is in order, and has accepted [acc]. *)
Definition accepting s (acc : list sync_job) : Prop :=
  ∃ p, thread_pool s = Some p ∧ sink_inv p ∧ sink_accepted p = acc.

(** Files may be added and lines logged between [s] and [s']. *)
Record only_jobs s s' : Prop := {
  oj_mgr : mgr s' = mgr s;
  oj_heap : heap s' = heap s;
  oj_net : quiet (logfile (mgr s)) (net s) (net s');
  oj_flag : shutdown_flag s' = shutdown_flag s;
  oj_reg : registered s' = registered s
}.

Lemma only_jobs_trans s1 s2 s3 : only_jobs s1 s2 → only_jobs s2 s3 → only_jobs s1 s3.
Proof. intros [] [A ? B ? ?]. split; try congruence. rewrite oj_mgr0 in B. by etrans. Qed.

Lemma wlp_add_file i line s acc Q :
  accepting s acc →
  (∀ s' js, accepting s' (acc ++ js) → only_jobs s s' → js = [] ∨ js = [job_for i line] → Q tt s') →
  wlp (add_file i line) Q s.
Proof.
  intros (p & Hp & Hinv & Hacc) HQ. unfold add_file. apply wpb_bind.
  eapply wpb_in_pool; [done|]. eapply wpb_mono; [by apply sink_create_spec|].
  intros [a|] p1 (Hinv1 & Hacc1 & Hcl1 & Hown).
  2: { apply wpb_ret, (HQ _ []); [rewrite app_nil_r; exists p1; split_and!; [done|done|congruence]|done|by left]. }
  apply wpb_bind. eapply wpb_in_pool; [done|].
  eapply wpb_mono; [by apply sink_enqueue_spec; [|apply Hown]|].
  intros r p2 (Hinv2 & [(-> & _ & Hacc2)|(-> & _ & Hacc2 & Hown2)]).
  - rewrite decide_True by done. apply wp_log. intros o' Ho' _ _ _. apply (HQ _ [job_for i line]).
    + exists p2. split_and!; [done|done|]. rewrite Hacc2. congruence.
    + split; try done.
    + by right.
  - rewrite decide_False by done. apply wpb_bind, wp_log. intros o' Ho' _ _ _.
    eapply wpb_in_pool; [done|]. eapply wpb_mono; [by eapply sink_free_spec|].
    intros [] p3 (Hinv3 & Hacc3 & _). apply (HQ _ []).
    + rewrite app_nil_r. exists p3. split_and!; [done|done|congruence].
    + by split.
    + by left.
Qed.

(** The pool can take [n] more jobs without waiting. *)
Definition roomy s (acc : list sync_job) (n : nat) : Prop :=
  ∃ p, thread_pool s = Some p ∧ sink_inv p ∧ sink_accepted p = acc ∧ sink_room p n.

Lemma roomy_accepting s acc n : roomy s acc n → accepting s acc.
Proof. intros (p & ? & ? & ? & _). by exists p. Qed.

Lemma wp_add_file_room i line s acc n Q :
  roomy s acc (S n) →
  (∀ s', roomy s' (acc ++ [job_for i line]) n → only_jobs s s' → closed (net s') = closed (net s) → Q tt s') →
  wp (add_file i line) Q s.
Proof.
  intros (p & Hp & Hinv & Hacc & Hroom) HQ. unfold add_file. apply wpb_bind.
  eapply wpb_in_pool; [done|]. eapply wpb_mono; [by eapply sink_room_spec|].
  intros r p1 (a & -> & Henq). apply wpb_bind. eapply wpb_in_pool; [done|].
  eapply wpb_mono; [exact Henq|]. intros z p2 (-> & Hinv2 & Hacc2 & Hroom2).
  rewrite decide_True by done. apply wp_log. intros o' Ho' _ _ Hcl. apply HQ; [|by split|done].
  exists p2. rewrite <-Hacc. by split_and!.
Qed.

Lemma wp_add_files_room names t fuel i s acc Q :
  Forall listable names → list_end t → length names < fuel → roomy s acc (length names) →
  (∀ s', accepting s' (acc ++ (job_for i <$> names)) → only_jobs s s' →
     closed (net s') = closed (net s) → Q tt s') →
  wp (add_files fuel i (name_lines names ++ t)) Q s.
Proof.
  intros Hn Ht. revert fuel s acc Q. induction Hn as [|d names (H1 & H2 & H3 & H4) Hn IH];
    intros fuel s acc Q Hf Hs HQ; (destruct fuel as [|f]; [simpl in Hf; lia|]); cbn [add_files].
  - assert (wp (ret tt) Q s) as Hend.
    { apply wpb_ret, HQ; [rewrite app_nil_r; by eapply roomy_accepting| |done]. split; done || reflexivity. }
    by destruct Ht as [->| ->].
  - rewrite name_lines_cons, strtok_line by done. cbn iota. rewrite bool_decide_false by done.
    apply wpb_bind. eapply wp_add_file_room; [done|]. intros s1 Hs1 Ho1 Hc1.
    eapply IH; [simpl in Hf; lia|done|]. intros s2 Hs2 Ho2 Hc2. rewrite <-app_assoc in Hs2.
    apply HQ; [done|by eapply only_jobs_trans|congruence].
Qed.

(** Whatever the buffer holds, the loop over its lines ends. *)
Lemma length_skip_char c b : length (skip_char c b) ≤ length b.
Proof. induction b as [|x b IH]; simpl; [done|]. case_decide; simpl; lia. Qed.

Lemma length_until_char c b : length (until_char c b).2 ≤ length b.
Proof.
  induction b as [|x b IH]; simpl; [done|]. case_decide; simpl; [lia|].
  destruct (until_char c b); simpl in *. lia.
Qed.

Lemma strtok_shorter c b line rest : strtok c b = Some (line, rest) → length rest < length b.
Proof.
  unfold strtok. pose proof (length_skip_char c b) as Hl. destruct (skip_char c b) as [|x b'] eqn:E; [done|].
  assert (x ≠ c) as Hx.
  { clear -E. induction b as [|y b IH]; simpl in E; [done|]. case_decide; [by apply IH|congruence]. }
  intros [= H1]. simpl in H1, Hl. rewrite decide_False in H1 by done.
  pose proof (length_until_char c b') as H2. destruct (until_char c b') as [w r]. simpl in *.
  injection H1 as _ <-. lia.
Qed.

(** The lines of a buffer are non-empty, and hold what the buffer holds. *)
Lemma skip_char_incl c b x : x ∈ skip_char c b → x ∈ b.
Proof. induction b as [|y b IH]; simpl; [done|]. case_decide; set_solver. Qed.

Lemma until_char_incl c b x :
  (x ∈ (until_char c b).1 → x ∈ b ∧ x ≠ c) ∧ (x ∈ (until_char c b).2 → x ∈ b).
Proof.
  induction b as [|y b IH]; simpl; [set_solver|]. case_decide; [set_solver|].
  destruct (until_char c b); simpl in *. set_solver.
Qed.

Lemma strtok_listable b line rest :
  strtok NL b = Some (line, rest) → NUL ∉ b → line ≠ lit "." → listable line ∧ (NUL ∉ rest).
Proof.
  unfold strtok. pose proof (skip_char_incl NL b) as Hb. destruct (skip_char NL b) as [|x b'] eqn:E; [done|].
  assert (x ≠ NL) as Hx.
  { clear -E. induction b as [|y b IH]; simpl in E; [done|]. case_decide; [by apply IH|congruence]. }
  intros [= H1] Hn Hdot. pose proof (until_char_incl NL (x :: b')) as Hu.
  change (until_char NL (x :: b') = (line, rest)) in H1. rewrite H1 in Hu. simpl in Hu.
  assert (line ≠ []) as Hne.
  { simpl in H1. rewrite decide_False in H1 by done. destruct (until_char NL b'). by injection H1 as <- <-. }
  split; [split_and!; [done| | |done]|].
  - intros Hin. by apply Hu in Hin as [_ ?].
  - intros Hin. apply Hn, Hb. by apply Hu in Hin as [? _].
  - intros Hin. apply Hn, Hb. by apply Hu.
Qed.

Lemma wlp_add_files_any fuel i buffer s acc Q :
  length buffer ≤ fuel → NUL ∉ buffer → accepting s acc →
  (∀ s' lines, accepting s' (acc ++ (job_for i <$> lines)) → Forall listable lines → only_jobs s s' → Q tt s') →
  wlp (add_files fuel i buffer) Q s.
Proof.
  revert buffer s acc Q. induction fuel as [|f IH]; intros buffer s acc Q Hf Hn Hs HQ; cbn [add_files];
    destruct (strtok NL buffer) as [[line rest]|] eqn:Ht.
  1: { apply strtok_shorter in Ht. lia. }
  1, 3: apply wpb_ret, (HQ _ []); [by rewrite app_nil_r|constructor|]; split; done || reflexivity.
  case_bool_decide.
  { apply wpb_ret, (HQ _ []); [by rewrite app_nil_r|constructor|]. split; done || reflexivity. }
  destruct (strtok_listable _ _ _ Ht Hn) as [Hline Hrest]; [done|].
  apply wpb_bind. eapply wlp_add_file; [done|]. intros s1 js Hs1 Ho1 Hjs. apply strtok_shorter in Ht.
  eapply IH; [lia|done|exact Hs1|]. intros s2 lines Hs2 Hl Ho2. rewrite <-app_assoc in Hs2.
  pose proof (only_jobs_trans _ _ _ Ho1 Ho2).
  destruct Hjs as [->| ->]; [by apply (HQ _ lines)|apply (HQ _ (line :: lines)); [done|by constructor|done]].
Qed.

(** ** The network side of a listing *)

Lemma scripts_quiet l o o' : only_scripts o o' → quiet l o o'.
Proof. intros [E1 E2 _]. split; intros; rewrite ?E1, ?E2; auto. Qed.

(** A connection opened and closed, with logging in between. *)
Lemma session_quiet l fd c o o1 o2 :
  fds o !! fd = None → only_fd fd (FSock c) o o1 → quiet l o1 o2 → quiet l o (close_fd fd o2).
Proof.
  intros Hf [E1 E2 _] A. split; simpl.
  - intros k Hk. destruct (decide (k = fd)) as [->|Hne]; [by rewrite lookup_delete_eq|].
    by rewrite lookup_delete_ne, (q_fds _ _ _ A), E1, lookup_insert_ne.
  - intros k Hk. destruct (decide (k = fd)) as [->|Hne]; [left; by rewrite lookup_delete_eq|].
    rewrite lookup_delete_ne by done. pose proof (q_log _ _ _ A k Hk) as H1.
    by rewrite E1, lookup_insert_ne in H1.
  - intros p Hp. rewrite (q_files _ _ _ A), E2; [done|]. intros k off Hk. rewrite E1.
    destruct (decide (k = fd)) as [->|Hne]; [by rewrite lookup_insert_eq|].
    rewrite lookup_insert_ne by done. by apply Hp.
Qed.

Lemma send_command_spec b fd command c o Q :
  fds o !! fd = Some (FSock c) →
  (∀ r c', Q r (set_fds <[fd := FSock c']> o)) → wpb b (send_command fd (Some command)) Q o.
Proof.
  intros Hfd HQ. unfold send_command. apply wpb_bind. eapply sys_send_spec; [done|..].
  - intros d Hd. rewrite decide_False by lia. case_decide; apply wpb_ret, HQ.
  - apply wpb_ret, HQ.
Qed.

Lemma sys_recv_spec b fd n c o Q :
  fds o !! fd = Some (FSock c) →
  (∀ r c', Q r (set_fds <[fd := FSock c']> o)) → wpb b (sys_recv fd n) Q o.
Proof.
  intros Hfd HQ. unfold sys_recv, get_sock. apply wpb_bind, wpb_gets. rewrite Hfd.
  destruct (delivered n c) as [r c']. apply wpb_bind, wpb_modify. destruct r; apply wpb_ret, HQ.
Qed.

(** [start_directory_sync] over any network: it changes neither the store nor
    the manager, closes its connection, and gives the pool jobs for lines it
    received. *)
Lemma wlp_start_directory_sync a i s acc Q :
  infos (heap s) !! a = Some i → accepting s acc →
  (∀ r s' lines, (r = 0 ∨ r = -1)%Z → only_jobs s s' → Forall listable lines →
     accepting s' (acc ++ (job_for i <$> lines)) → Q r s') →
  wlp (start_directory_sync (Some a)) Q s.
Proof.
  intros Ha Hs HQ.
  assert (∀ o', quiet (logfile (mgr s)) (net s) o' → Q (-1)%Z (set_net o' s)) as Hfail.
  { intros o' Ho'. apply (HQ _ _ []); [by right|by split|constructor|by rewrite app_nil_r]. }
  unfold start_directory_sync. apply wpb_bind, wpb_in_heap. eapply wp_deref_info; [done|].
  replace (set_heap (heap s) s) with s by (by destruct s). case_decide.
  { apply wpb_ret. replace s with (set_net (net s) s) by (by destruct s). by apply Hfail. }
  apply wpb_bind, wpb_in_net, connect_to_server_spec.
  { intros o' Ho'. rewrite decide_True by lia. apply wpb_bind, wp_log. intros o2 Ho2 _ _ _.
    apply wpb_ret, Hfail. etrans; [by apply scripts_quiet|done]. }
  intros fd c o1 Hfd Hfresh Ho1 _. rewrite decide_False by lia.
  assert (fds o1 !! fd = Some (FSock c)) as Hsock by (rewrite (of_fds _ _ _ _ Ho1); apply lookup_insert_eq).
  apply wpb_bind, wpb_in_net. eapply send_command_spec; [done|]. intros r c2. case_decide.
  { apply wpb_bind, wpb_in_net, wpb_modify, wpb_ret, Hfail. simpl.
    eapply session_quiet; [done|by eapply only_fd_then|done]. }
  apply wpb_bind, wpb_in_net. eapply sys_recv_spec; [apply lookup_insert_eq|].
  intros [received data] c3. simpl. case_decide.
  { apply wpb_bind, wpb_in_net, wpb_modify, wpb_ret, Hfail. simpl.
    eapply session_quiet; [done|by eapply only_fd_then, only_fd_then|done]. }
  apply wpb_bind. eapply wlp_add_files_any; [done|apply cstr_no_nul|exact Hs|]. intros s2 lines Hs2 Hl [E1 E2 E3 E4 E5].
  apply wpb_bind, wpb_in_net, wpb_modify, wpb_ret, (HQ _ _ lines); [by left| |done|done].
  split; try done. simpl in *. eapply session_quiet; [done| |exact E3].
  by eapply only_fd_then, only_fd_then.
Qed.

(** ** Claims *)

Lemma length_name_lines names t : length names + length t ≤ length (name_lines names ++ t).
Proof.
  induction names as [|d names IH]; [done|]. rewrite name_lines_cons, length_app. simpl. lia.
Qed.

Lemma recv_first fd n c p l o :
  fds o !! fd = Some (FSock c) → rx c = p :: l → length p ≤ n →
  sys_recv fd n o = Ret (Z.of_nat (length p), p)
    (set_fds <[fd := FSock (Sock l (rx_reset c) (tx c) (tx_script c))]> o).
Proof.
  intros Hfd Hrx Hn. unfold sys_recv, get_sock, bind, gets, put_sock, modify, ret. rewrite Hfd.
  unfold delivered. rewrite Hrx, decide_True, take_ge by done. done.
Qed.

(** The request [start_directory_sync] sends. *)
Definition list_command (i : sync_info) : bytes :=
  snprintf MAX_COMMAND_SIZE (lit "LIST " ++ source_dir i ++ [NL]).

Lemma listed_fd l o o' k c : quiet l o o' → fds o !! k = Some (FSock c) → fds o' !! k = Some (FSock c).
Proof. intros Hq Hk. by eapply quiet_other. Qed.

(** The manager sees the first portion of the listing and no more. *)
Lemma start_sync_portion s (a : loc) (i : sync_info) (c : sock) (names : list bytes) (t : bytes) (l : list bytes)
    (ds : list (option sock)) (acc : list sync_job)
    (Hi : infos (heap s) !! a = Some i)
    (Hfull : source_host i ≠ [] ∧ source_dir i ≠ [] ∧ target_host i ≠ [] ∧ target_dir i ≠ [])
    (Hhost : inet_pton (source_host i) = 1%Z) (Hsys : sys (net s) = [])
    (Hdials : dials (net s) = Some c :: ds) (Htx : tx_script c = [])
    (Hrx : rx c = (name_lines names ++ t) :: l) (Hnames : Forall listable names) (Ht : list_end t)
    (Hne : length names < length (name_lines names ++ t)) (Hlen : length (name_lines names ++ t) < MAX_BUFFER_SIZE) (Hroom : roomy s acc (length names)) :
  ∃ s', start_directory_sync (Some a) s = Ret 0%Z s' ∧
    accepting s' (acc ++ (job_for i <$> names)) ∧
    heap s' = heap s ∧ quiet (logfile (mgr s)) (net s) (net s') ∧
    closed (net s') = closed (net s) ++ [Sock l (rx_reset c) (tx c ++ [list_command i]) (tx_script c)].
Proof.
  assert (wp (start_directory_sync (Some a)) (λ r s', r = 0%Z ∧ accepting s' (acc ++ (job_for i <$> names)) ∧
    heap s' = heap s ∧ quiet (logfile (mgr s)) (net s) (net s') ∧
    closed (net s') = closed (net s) ++ [Sock l (rx_reset c) (tx c ++ [list_command i]) (tx_script c)]) s) as (r & s' & E & -> & Hs')%wp_returns;
    [|by exists s'].
  destruct Hfull as (F1 & F2 & F3 & F4). set (fd := new_fd (fds (net s))).
  pose proof (new_fd_nonneg (fds (net s))) as Hfd. pose proof (new_fd_fresh (fds (net s))) as Hfresh.
  unfold start_directory_sync. apply wpb_bind, wpb_in_heap. eapply wp_deref_info; [done|].
  replace (set_heap (heap s) s) with s by (by destruct s).
  rewrite decide_False by (by intros [|[|[|]]]).
  apply wpb_bind, wpb_in_net. unfold wpb at 1. erewrite connect_ok by done. fold fd. rewrite decide_False by lia.
  apply wpb_bind, wpb_in_net. unfold wpb at 1.
  erewrite send_command_all by (by try apply lookup_insert_eq). rewrite decide_False by (by intros ?).
  apply wpb_bind, wpb_in_net. unfold wpb at 1.
  erewrite recv_first; [|apply lookup_insert_eq|exact Hrx|lia].
  rewrite decide_False by lia.
  rewrite cstr_id by (by apply name_lines_no_nul). apply wpb_bind.
  eapply (wp_add_files_room names t); [done|done|done|exact Hroom|]. intros s2 Hs2 [E1 E2 E3 E4 E5] Hcl.
  apply wpb_bind, wpb_in_net, wpb_modify, wpb_ret. split_and!; [done..| |].
  2: { simpl. rewrite (listed_fd _ _ _ _ _ E3 (lookup_insert_eq _ _ _)), Hcl. simpl.
       by rewrite Htx. }
  simpl in *. eapply session_quiet; [done| |exact E3]. split; simpl; [|done..].
  rewrite !insert_insert_eq. done.
Qed.

Lemma start_sync_lists s (a : loc) (i : sync_info) (c : sock) (names : list bytes)
    (ds : list (option sock)) (acc : list sync_job)
    (Hi : infos (heap s) !! a = Some i)
    (Hfull : source_host i ≠ [] ∧ source_dir i ≠ [] ∧ target_host i ≠ [] ∧ target_dir i ≠ [])
    (Hhost : inet_pton (source_host i) = 1%Z) (Hsys : sys (net s) = [])
    (Hdials : dials (net s) = Some c :: ds) (Htx : tx_script c = [])
    (Hrx : rx c = [list_text names]) (Hnames : Forall listable names)
    (Hlen : length (list_text names) < MAX_BUFFER_SIZE) (Hroom : roomy s acc (length names)) :
  ∃ s', start_directory_sync (Some a) s = Ret 0%Z s' ∧
    accepting s' (acc ++ (job_for i <$> names)) ∧
    heap s' = heap s ∧ quiet (logfile (mgr s)) (net s) (net s') ∧
    closed (net s') = closed (net s) ++ [Sock [] (rx_reset c) (tx c ++ [list_command i]) (tx_script c)].
Proof.
  apply (start_sync_portion s a i c names (lit "." ++ [NL]) [] ds acc); try done; [by right|].
  pose proof (length_name_lines names (lit "." ++ [NL])) as Hl. simpl in Hl |- *. lia.
Qed.

(** C21: when the source answers [LIST] with its file names in one portion
    and the pool has room for them, [start_directory_sync] returns 0 and has
    handed the pool exactly one job for each name, in the order of the
    listing; the store is as before, and so are all files and descriptors but
    the log, the connection being closed after one LIST command was sent on it. *)
Theorem directory_sync_jobs s (a : loc) (i : sync_info) (c : sock) (names : list bytes)
    (ds : list (option sock)) (acc : list sync_job)
    (Hi : infos (heap s) !! a = Some i)
    (Hfull : source_host i ≠ [] ∧ source_dir i ≠ [] ∧ target_host i ≠ [] ∧ target_dir i ≠ [])
    (Hhost : inet_pton (source_host i) = 1%Z) (Hsys : sys (net s) = [])
    (Hdials : dials (net s) = Some c :: ds) (Htx : tx_script c = [])
    (Hrx : rx c = [list_text names]) (Hnames : Forall listable names)
    (Hlen : length (list_text names) < MAX_BUFFER_SIZE) (Hroom : roomy s acc (length names)) :
  ∃ s', start_directory_sync (Some a) s = Ret 0%Z s' ∧
    accepting s' (acc ++ (job_for i <$> names)) ∧
    heap s' = heap s ∧ quiet (logfile (mgr s)) (net s) (net s') ∧
    closed (net s') = closed (net s) ++ [Sock [] (rx_reset c) (tx c ++ [list_command i]) (tx_script c)].
Proof. by apply (start_sync_lists s a i c names ds acc). Qed.

(** The store of the manager holds [es], and the pool has accepted [acc]. *)
Record ready s (st : loc) (es : Spec.store) (acc : list sync_job) : Prop := {
  rd_store : sync_store (mgr s) = Some st;
  rd_owns : owns (heap s) st es;
  rd_pool : accepting s acc
}.

Lemma ready_net s st es acc o : ready s st es acc → ready (set_net o s) st es acc.
Proof. by intros []. Qed.

(** The files and descriptors of [s'] are those of [s], the log apart, and
    nothing but the store and the pool changed otherwise. *)
Record only_pairs s s' : Prop := {
  op_mgr : mgr s' = mgr s;
  op_net : quiet (logfile (mgr s)) (net s) (net s');
  op_flag : shutdown_flag s' = shutdown_flag s;
  op_reg : registered s' = registered s;
  op_clock : clock (heap s') = clock (heap s)
}.

#[global] Instance only_pairs_refl : Reflexive only_pairs.
Proof. intros s. by split. Qed.

#[global] Instance only_pairs_trans : Transitive only_pairs.
Proof. intros s1 s2 s3 [] [E1 E2 E3 E4 E5]. rewrite op_mgr0 in E2. split; try congruence. by etrans. Qed.

Lemma only_pairs_net s s' o :
  only_pairs s s' → quiet (logfile (mgr s)) (net s') o → only_pairs s (set_net o s').
Proof. intros [] Ho. split; simpl; try done. by etrans. Qed.

(** A source and a target as the text of a command gives them. *)
Record pair_text := PairText { source_text : bytes; target_text : bytes; pair_of : pair_args }.

Definition pair_text_ok (p : pair_text) : Prop :=
  let a := pair_of p in
  spec_of (source_text p) (pa_shost a) (pa_sport a) (pa_sdir a) ∧
  spec_of (target_text p) (pa_thost a) (pa_tport a) (pa_tdir a).

Lemma new_entry_key now p :
  pair_text_ok p →
  let e := new_entry now (pair_of p) in
  source_host e = pa_shost (pair_of p) ∧ source_port e = pa_sport (pair_of p) ∧
  source_dir e = pa_sdir (pair_of p).
Proof. intros [(? & _ & _ & _ & H1 & H2 & _) _]. simpl. by rewrite !strncpy_z_id. Qed.

(** [handle_add_command], given what [start_directory_sync] does for the new
    entry: its result and the lines it makes jobs of satisfy [X]. *)
Lemma wpb_handle_add b (X : Z → list bytes → Prop) p s st es acc Q :
  pair_text_ok p → ready s st es acc → (Z.of_nat (S (length es)) ≤ int_max)%Z →
  let e := new_entry (clock (heap s)) (pair_of p) in
  (∀ a h q, infos h !! a = Some (with_info_next q e) →
     wpb b (start_directory_sync (Some a)) (λ r s', only_jobs (set_heap h s) s' ∧
       ∃ lines, accepting s' (acc ++ (job_for e <$> lines)) ∧ X r lines) (set_heap h s)) →
  (∀ s', Spec.find (source_host e) (source_port e) (source_dir e) es ≠ None →
     ready s' st es acc → only_pairs s s' → thread_pool s' = thread_pool s → Q 1%Z s') →
  (∀ s' r lines, Spec.find (source_host e) (source_port e) (source_dir e) es = None →
     ready s' st (e :: es) (acc ++ (job_for e <$> lines)) → only_pairs s s' → X r lines →
     Q (if decide (r = 0)%Z then 0%Z else (-1)%Z) s') →
  wpb b (handle_add_command (Some (source_text p)) (Some (target_text p))) Q s.
Proof.
  intros Hp [Hst Ho Hpool] Hmax e Hstart Hdup Hnew. pose proof (new_entry_key (clock (heap s)) p Hp) as Hkey.
  fold e in Hkey. destruct Hkey as (K1 & K2 & K3). destruct Hp as [Hp1 Hp2]. unfold handle_add_command.
  rewrite !(parse_spec_complete _ _ _ _ _ Hp1), !(parse_spec_complete _ _ _ _ _ Hp2).
  apply wpb_bind, wpb_gets, wpb_bind. rewrite Hst. rewrite K1, K2, K3 in Hdup, Hnew.
  pose proof Ho as (ll & Hrep & <- & _). apply wpb_in_heap. eapply wp_find_sync_info; [done|].
  replace (set_heap (heap s) s) with s by (by destruct s). rewrite find_key_entries in Hdup, Hnew.
  destruct (find_key _ _ _ ll) as [[a0 i0]|] eqn:Hf.
  { simpl. apply wpb_bind, wp_log. intros o' Ho' _ _ _. apply wpb_ret, Hdup; done. }
  simpl. apply wpb_bind, wpb_in_heap. eapply wpb_mono.
  { eapply (owns_create_add _ st (pair_of p) _ (λ a r h', r = 0%Z ∧ ∃ q,
      infos h' !! a = Some (with_info_next q e) ∧ owns h' st (e :: entries ll) ∧
      clock h' = clock (heap s))); [done|done|..]; fold e.
    - intros a h' Hne. rewrite K1, K2, K3, find_key_entries, Hf in Hne. done.
    - intros a h' q _ Ha Ho' Hck. eauto. }
  intros r h1 (a & -> & Hadd). apply wpb_bind, wpb_in_heap. eapply wpb_mono; [exact Hadd|].
  intros r h2 (-> & q & Ha & Ho2 & Hck). rewrite decide_False by lia. apply wpb_bind.
  eapply wpb_mono; [eapply (Hstart a h2 q Ha)|]. intros r s' ([E1 E2 E3 E4 E5] & lines & Hs' & HX).
  simpl in E1, E2, E3, E4, E5. assert (ready s' st (e :: entries ll) (acc ++ (job_for e <$> lines))) as Hready.
  { split; [by rewrite E1|by rewrite E2|done]. }
  assert (only_pairs s s') as Hpairs by (split; rewrite ?E1, ?E2; done).
  set (z := if decide (r = 0)%Z then 0%Z else (-1)%Z).
  assert (∀ o', quiet (logfile (mgr s)) (net s') o' → Q z (set_net o' s')) as HQ.
  { intros o' Ho'. apply (Hnew _ r lines); auto using ready_net, only_pairs_net. }
  case_decide as Hr; apply wpb_bind, wp_log; intros o' Ho' _ _ _; rewrite E1 in Ho'; apply wpb_ret;
    specialize (HQ o' Ho'); unfold z in HQ.
  - by rewrite decide_False in HQ by done.
  - by rewrite decide_True in HQ by lia.
Qed.

(** Over any network. *)
Lemma wlp_handle_add p s st es acc Q :
  pair_text_ok p → ready s st es acc → (Z.of_nat (S (length es)) ≤ int_max)%Z →
  let e := new_entry (clock (heap s)) (pair_of p) in
  (∀ r s' lines, ready s' st (Spec.add e es).2 (acc ++ (job_for e <$> lines)) → only_pairs s s' →
     Forall listable lines →
     ((Spec.add e es).1 = 1 ∧ r = 1 ∧ lines = [] ∨ (Spec.add e es).1 = 0 ∧ (r = 0 ∨ r = -1))%Z → Q r s') →
  wlp (handle_add_command (Some (source_text p)) (Some (target_text p))) Q s.
Proof.
  intros Hp Hr Hmax e HQ. unfold Spec.add in HQ.
  eapply (wpb_handle_add _ (λ _ lines, Forall listable lines)); [done..| | |]; fold e.
  - intros a h q Ha. eapply wlp_start_directory_sync; [exact Ha|exact (rd_pool _ _ _ _ Hr)|].
    intros r s' lines _ H1 H2 H3. eauto.
  - intros s' Hf Hr' Hs' _. destruct (Spec.find _ _ _ es); [|done].
    apply (HQ _ _ []); [by rewrite app_nil_r|done|constructor|by left].
  - intros s' r lines Hf Hr' Hs' HX. rewrite Hf in HQ. apply (HQ _ _ lines); [done..|].
    right. split; [done|]. case_decide; auto.
Qed.

(** ** Sources that do not answer *)

Definition no_answer (o : os) : Prop := ∀ c l, dials o ≠ Some c :: l.

Lemma connect_refused b host port Q o :
  no_answer o → (∀ o', only_scripts o o' → Q (-1)%Z o') → wpb b (connect_to_server (Some host) port) Q o.
Proof.
  intros Hno HQ. unfold connect_to_server. apply wpb_bind, sys_socket_spec.
  { intros o' Ho. by apply HQ. }
  intros fd o1 Hfd Hf H1 Hd _. rewrite decide_False by lia. case_decide.
  { by eapply HQ, only_fd_close. }
  apply wpb_bind. unfold wpb at 1, sys_connect. rewrite Hd.
  assert (∀ o2, only_fd fd FRaw o o2 → Q (-1)%Z (close_fd fd o2)) as Hq by (intros o2 ?; by eapply HQ, only_fd_close).
  unfold no_answer in Hno. destruct (dials o) as [|[c|] l] eqn:E.
  2: by destruct (Hno c l).
  all: rewrite decide_True by lia; apply Hq; by destruct H1.
Qed.

Lemma wp_start_refused b a i s acc Q :
  infos (heap s) !! a = Some i → accepting s acc → no_answer (net s) →
  (∀ s', only_jobs s s' → accepting s' acc → Q (-1)%Z s') →
  wpb b (start_directory_sync (Some a)) Q s.
Proof.
  intros Ha Hs Hno HQ. unfold start_directory_sync. apply wpb_bind, wpb_in_heap. eapply wp_deref_info; [done|].
  replace (set_heap (heap s) s) with s by (by destruct s). case_decide.
  { apply wpb_ret, HQ; [by split|done]. }
  apply wpb_bind, wpb_in_net, connect_refused; [done|]. intros o' Ho'. rewrite decide_True by lia.
  apply wpb_bind, wp_log. intros o2 Ho2 _ _ _. apply wpb_ret, HQ; [|done].
  split; try done. etrans; [by apply scripts_quiet|done].
Qed.

(** A pair whose source is in the store is answered 1, whatever the network. *)
Lemma wp_add_present b p s st es acc Q :
  pair_text_ok p → ready s st es acc → (Z.of_nat (S (length es)) ≤ int_max)%Z →
  Spec.find (pa_shost (pair_of p)) (pa_sport (pair_of p)) (pa_sdir (pair_of p)) es ≠ None →
  (∀ s', ready s' st es acc → only_pairs s s' → thread_pool s' = thread_pool s → Q 1%Z s') →
  wpb b (handle_add_command (Some (source_text p)) (Some (target_text p))) Q s.
Proof.
  intros Hp [Hst Ho Hpool] Hmax Hin HQ. destruct Hp as [Hp1 Hp2]. unfold handle_add_command.
  rewrite !(parse_spec_complete _ _ _ _ _ Hp1), !(parse_spec_complete _ _ _ _ _ Hp2).
  apply wpb_bind, wpb_gets, wpb_bind. rewrite Hst.
  pose proof Ho as (ll & Hrep & <- & _). apply wpb_in_heap. eapply wp_find_sync_info; [done|].
  replace (set_heap (heap s) s) with s by (by destruct s). rewrite find_key_entries in Hin.
  destruct (find_key _ _ _ ll) as [q|]; [|done]. simpl.
  apply wpb_bind, wp_log. intros o' Ho' _ _ _. by apply wpb_ret, HQ.
Qed.

(** A pair whose source cannot be reached when it is added is reported as
    an error but stays in the store, so that adding it again once the source
    is up is refused as already present: no job is ever made for it. *)
Theorem failed_add_stays_registered (p : pair_text) s (st : loc) (es : Spec.store) (acc : list sync_job)
    (Hp : pair_text_ok p) (Hready : ready s st es acc) (Hlen : (Z.of_nat (S (S (length es))) ≤ int_max)%Z)
    (Hnew : Spec.find (pa_shost (pair_of p)) (pa_sport (pair_of p)) (pa_sdir (pair_of p)) es = None)
    (Hno : no_answer (net s)) :
  let e := new_entry (clock (heap s)) (pair_of p) in
  ∃ s1, handle_add_command (Some (source_text p)) (Some (target_text p)) s = Ret (-1)%Z s1 ∧
    ready s1 st (e :: es) acc ∧
    ∀ o, ∃ s2, handle_add_command (Some (source_text p)) (Some (target_text p)) (set_net o s1) = Ret 1%Z s2 ∧
      ready s2 st (e :: es) acc.
Proof.
  intros e. destruct (new_entry_key (clock (heap s)) p Hp) as (K1 & K2 & K3). fold e in K1, K2, K3.
  assert (wp (handle_add_command (Some (source_text p)) (Some (target_text p)))
    (λ r s1, r = (-1)%Z ∧ ready s1 st (e :: es) acc) s) as (r & s1 & E & -> & H1)%wp_returns.
  { eapply (wpb_handle_add _ (λ r lines, r = (-1)%Z ∧ lines = [])); [done|done|lia| | |]; fold e.
    - intros a h q Ha. eapply wp_start_refused; [exact Ha|exact (rd_pool _ _ _ _ Hready)|done|].
      intros s' H1 H2. split; [done|]. exists []. by rewrite app_nil_r.
    - intros s' Hf. by rewrite K1, K2, K3, Hnew in Hf.
    - intros s' r lines _ Hr _ [-> ->]. rewrite app_nil_r in Hr. by rewrite decide_False by lia. }
  exists s1. split_and!; [done..|]. intros o.
  assert (wp (handle_add_command (Some (source_text p)) (Some (target_text p)))
    (λ r s2, r = 1%Z ∧ ready s2 st (e :: es) acc) (set_net o s1)) as (r & s2 & E2 & -> & H2)%wp_returns.
  { eapply wp_add_present; [done|by apply ready_net|simpl; lia| |by auto].
    unfold Spec.find. simpl. rewrite (proj2 (has_key_true _ _ _ e)); [done|]. by rewrite <-K1, <-K2, <-K3. }
  by exists s2.
Qed.
(** ** Cancelling *)

(** The abstract effect of cancelling. *)
Definition spec_cancel (host : bytes) (port : Z) (dir : bytes) (es : Spec.store) : Z * Spec.store :=
  match Spec.find host port dir es with
  | Some _ => (0%Z, Spec.deactivate host port dir es)
  | None => (1%Z, es)
  end.

Lemma wp_handle_cancel b text host port dir s st es acc Q :
  spec_of text host port dir → ready s st es acc →
  (∀ s', ready s' st (spec_cancel host port dir es).2 acc → only_pairs s s' →
     thread_pool s' = thread_pool s → Q (spec_cancel host port dir es).1 s') →
  wpb b (handle_cancel_command (Some text)) Q s.
Proof.
  intros Hs [Hst Ho Hpool] HQ. unfold handle_cancel_command.
  rewrite !(parse_spec_complete _ _ _ _ _ Hs). apply wpb_bind, wpb_gets, wpb_bind, wpb_in_heap.
  rewrite Hst. assert (wpb b (deactivate_sync_info (Some st) (Some host) port (Some dir))
    (λ r h, r = (spec_cancel host port dir es).1 ∧ owns h st (spec_cancel host port dir es).2 ∧
       clock h = clock (heap s)) (heap s)) as Hd.
  { eapply wpb_mono; [eapply wpb_bind_inv, (owns_deactivate b st host port dir es (λ a h,
      a = AInt (spec_cancel host port dir es).1 ∧ owns h st (spec_cancel host port dir es).2 ∧
      clock h = clock (heap s))); [done|]|].
    - intros h'. unfold spec_cancel. simpl. by destruct (Spec.find host port dir es).
    - intros r h ([= ->] & H1 & H2). done. }
  eapply wpb_mono; [exact Hd|]. intros r h (-> & H1 & H2).
  assert (∀ o', quiet (logfile (mgr s)) (net s) o' → Q (spec_cancel host port dir es).1 (set_net o' (set_heap h s))) as Hq.
  { intros o' Ho'. by apply HQ. }
  unfold spec_cancel in *. destruct (Spec.find host port dir es); cbn [fst snd] in Hq |- *.
  - rewrite decide_True by done. apply wpb_bind, wp_log. intros o' Ho' _ _ _. by apply wpb_ret, Hq.
  - rewrite decide_False by lia. apply wpb_bind, wp_log. intros o' Ho' _ _ _. by apply wpb_ret, Hq.
Qed.

Lemma deactivate_find host port dir h2 p2 d2 es :
  Spec.find host port dir (Spec.deactivate h2 p2 d2 es) = None ↔ Spec.find host port dir es = None.
Proof. by rewrite !spec_find_None, deactivate_keys. Qed.

(** C36: cancelling answers 0 for a source that is in the store and 1 for
    any other; all it does is mark the pair inactive.  No queued job of the
    pair is withdrawn, the pool is not even called, and the pair is not
    removed: adding it again is refused as already present. *)
Theorem cancel_only_marks (p : pair_text) s (st : loc) (es : Spec.store) (acc : list sync_job)
    (Hp : pair_text_ok p) (Hready : ready s st es acc) (Hlen : (Z.of_nat (S (length es)) ≤ int_max)%Z) :
  let host := pa_shost (pair_of p) in let port := pa_sport (pair_of p) in let dir := pa_sdir (pair_of p) in
  ∃ r s1, handle_cancel_command (Some (source_text p)) s = Ret r s1 ∧
    (r = 0%Z ∧ Spec.find host port dir es ≠ None ∨ r = 1%Z ∧ Spec.find host port dir es = None) ∧
    ready s1 st (Spec.deactivate host port dir es) acc ∧
    thread_pool s1 = thread_pool s ∧ only_pairs s s1 ∧
    (r = 0%Z → ∃ s2, handle_add_command (Some (source_text p)) (Some (target_text p)) s1 = Ret 1%Z s2 ∧
       thread_pool s2 = thread_pool s).
Proof.
  intros host port dir. pose proof Hp as [Hp1 _].
  assert (Spec.find host port dir es = None → Spec.deactivate host port dir es = es) as Hid.
  { clear. unfold Spec.find. induction es as [|e es IH]; simpl; [done|].
    destruct (has_key host port dir e); [done|]. intros Hn. by rewrite IH. }
  assert (wp (handle_cancel_command (Some (source_text p))) (λ r s1, r = (spec_cancel host port dir es).1 ∧
    ready s1 st (spec_cancel host port dir es).2 acc ∧ only_pairs s s1 ∧ thread_pool s1 = thread_pool s) s)
    as (r & s1 & E & -> & H1 & H2 & H3)%wp_returns by (eapply wp_handle_cancel; by auto).
  exists (spec_cancel host port dir es).1, s1. unfold spec_cancel in *.
  destruct (Spec.find host port dir es) as [e|] eqn:Hf; simpl in *.
  2: { rewrite Hid by done. split_and!; auto. by intros [=]. }
  split_and!; auto. intros _.
  assert (wp (handle_add_command (Some (source_text p)) (Some (target_text p)))
    (λ r s2, r = 1%Z ∧ thread_pool s2 = thread_pool s) s1) as (r & s2 & E2 & -> & H4)%wp_returns.
  { eapply wp_add_present; [done|exact H1| | |].
    - pose proof (f_equal length (deactivate_keys host port dir es)) as El. rewrite !length_fmap in El. lia.
    - rewrite deactivate_find. fold host port dir. by rewrite Hf.
    - intros s' _ _ ->. done. }
  by exists s2.
Qed.
End properties.

(** ** Examples, with the linked queue as the pool *)

#[export] Instance demo_sink : JobSink pmem := queue_sink [] (Forall_nil_2 _).

(** A manager that has started: its log is open on descriptor 3, its store at
    address 1 is empty and its pool has two workers and four places. *)
Definition demo_manager : manager :=
  Manager (Some (lit "m.log")) (Some (lit "config")) 2 9000 4 (Some 3%Z) 4 (Some 1%positive) 0.

Definition demo_net (config : bytes) (dials : list (option sock)) : os :=
  Os {[3%Z := FFile (lit "m.log") 0; 4%Z := FListen 9000]} {[lit "m.log" := []; lit "config" := config]}
    ∅ [] dials [] [] (Tm 125 0 1 0 0 0) [] [].

Definition demo_heap : sheap := SHeap ∅ {[1%positive := Store NULL false 0]} 2 [] 7.

Definition demo_running (config : bytes) (dials : list (option sock)) : gst pmem :=
  Gst demo_manager (demo_net config dials) demo_heap (sink_new 2 4 []) 0
    (Some 3%Z) [] true.

Lemma demo_owns : owns demo_heap 1 [].
Proof.
  exists []. split_and!; try done.
  - exists NULL. split_and!; try done. constructor.
  - intros a [i Hi]. simpl in Hi. by rewrite lookup_empty in Hi.
Qed.

Lemma demo_pool p : sink_new 2 4 [] = Some p →
  sink_inv p ∧ sink_accepted p = [] ∧ sink_closed p = false ∧ sink_room p 4.
Proof. intros E. apply (sink_new_spec 2 4 []); [| |exact E]; unfold int_max; lia. Qed.

Lemma demo_ready config dials : ready (demo_running config dials) 1 [] [].
Proof.
  split; [done|apply demo_owns|].
  destruct (sink_new 2 4 []) as [p|] eqn:E; [|by vm_compute in E]. exists p.
  pose proof (demo_pool p E) as (H1 & H2 & _). by split_and!.
Qed.

Definition demo_text : pair_text := PairText (lit "/src@10.0.0.1:8001") (lit "/dst@10.0.0.2:8002") pair_a.

Lemma demo_text_ok : pair_text_ok demo_text.
Proof.
  split; [exists (lit "8001")|exists (lit "8002")]; vm_compute; split_and!; try done; try lia; set_solver.
Qed.


Lemma failed_add_stays_registered_witness :
  ∃ s1, handle_add_command (Some (lit "/src@10.0.0.1:8001")) (Some (lit "/dst@10.0.0.2:8002"))
      (demo_running [] []) = Ret (-1)%Z s1 ∧
    ∃ s2, handle_add_command (Some (lit "/src@10.0.0.1:8001"))
      (Some (lit "/dst@10.0.0.2:8002")) (set_net (demo_net [] [Some (Sock [list_text []] false [] [])]) s1) = Ret 1%Z s2.
Proof.
  destruct (@failed_add_stays_registered pmem demo_sink demo_text (demo_running [] []) 1%positive [] [])
    as (s1 & E & _ & Hagain); [apply demo_text_ok|apply demo_ready|by vm_compute|done|by intros c l|].
  exists s1. split; [exact E|]. destruct (Hagain (demo_net [] [Some (Sock [list_text []] false [] [])])) as (s2 & E2 & _).
  by exists s2.
Defined.

Lemma cancel_only_marks_witness :
  ∃ s1, handle_cancel_command (Some (lit "/src@10.0.0.1:8001")) (demo_running [] []) = Ret 1%Z s1 ∧
    thread_pool s1 = thread_pool (demo_running [] []).
Proof.
  destruct (@cancel_only_marks pmem demo_sink demo_text (demo_running [] []) 1%positive [] [])
    as (r & s1 & E & [[_ Hf]|[-> _]] & _ & Hp & _); [apply demo_text_ok|apply demo_ready|by vm_compute|done|].
  by exists s1.
Defined.

(** The entry of the pair, in a heap of its own. *)
Definition demo_heap_a : sheap := SHeap {[2%positive := new_entry 7 pair_a]} ∅ 3 [] 7.

Lemma demo_roomy h config dials : roomy (set_heap h (demo_running config dials)) [] 4.
Proof.
  destruct (sink_new 2 4 []) as [p|] eqn:E; [|by vm_compute in E]. exists p.
  pose proof (demo_pool p E) as (H1 & H2 & _ & H3). by split_and!.
Qed.

Lemma directory_sync_jobs_witness :
  ∃ s', start_directory_sync (Some 2%positive)
      (set_heap demo_heap_a (demo_running [] [Some (Sock [list_text [lit "a"; lit "b"; lit "c"; lit "d"]] false [] [])])) =
        Ret 0%Z s' ∧
    accepting s' (job_for (new_entry 7 pair_a) <$> [lit "a"; lit "b"; lit "c"; lit "d"]).
Proof.
  destruct (@directory_sync_jobs pmem demo_sink
      (set_heap demo_heap_a (demo_running [] [Some (Sock [list_text [lit "a"; lit "b"; lit "c"; lit "d"]] false [] [])]))
      2%positive (new_entry 7 pair_a)
      (Sock [list_text [lit "a"; lit "b"; lit "c"; lit "d"]] false [] []) [lit "a"; lit "b"; lit "c"; lit "d"] [] [])
    as (s' & E & Ha & _);
    [done|done|by vm_compute|done|done|done|done|by apply (bool_decide_unpack _)|by vm_compute; lia|
     apply demo_roomy|].
  exists s'. split; [exact E|exact Ha].
Defined.
