(* ===== verification/EndToEnd.v ===== *)
(** * A file from client to client

    The source client of [Client.v], the worker of [Transfer.v] and the target
    client of [Client.v] put together.  The network between them is the
    assignment of what was sent on a connection to what arrives on its other
    end: if the messages arrive as they were sent, the target ends up with a
    copy of the file; if the network joins two of them, which TCP may do, the
    target loses data. *)
From S2P Require Import Prelude.
From S2P Require Import CString.
From S2P Require Import Common.
From S2P Require Import OS.
From S2P Require Import Utils.
From S2P Require Import Client.
From S2P Require Import Transfer.
From stdpp Require Import gmap strings list.
From Stdlib Require Import Ascii ZArith Lia.

(** ** Commands as the client reads them *)

(** A path that can be named in a PUSH command: one word, short enough for
    the array it is read into. *)
Definition pushable (path : bytes) : Prop := plain path ∧ (NUL ∉ path) ∧ length path < MAX_PATH.

#[global] Instance pushable_dec path : Decision (pushable path).
Proof. unfold pushable. apply _. Defined.

(** The size argument of a PUSH command: -1, 0 or the size of a chunk. *)
Definition push_arg (z : Z) : Prop := (-1 ≤ z ≤ Z.of_nat MAX_BUFFER_SIZE)%Z.

Lemma length_dec_arg z : push_arg z → length (dec z) ≤ 4.
Proof.
  intros [H1 H2]. change (Z.of_nat MAX_BUFFER_SIZE) with 8192%Z in H2.
  destruct (decide (z = -1)%Z) as [->|]; [vm_compute; lia|].
  apply (length_dec_le z 3). change (10 ^ Z.of_nat 4)%Z with 10000%Z. lia.
Qed.

Lemma length_command path z c :
  pushable path → push_arg z → length (lit "PUSH " ++ path ++ lit " " ++ dec z ++ [c]) < MAX_COMMAND_SIZE - 1.
Proof.
  intros (_ & _ & Hp) Hz. apply length_dec_arg in Hz. rewrite !length_app.
  change (length (lit "PUSH ")) with 5. change (length (lit " ")) with 1. cbn [length].
  assert (MAX_PATH + 100 < MAX_COMMAND_SIZE - 1) by (vm_compute; lia). lia.
Qed.

Lemma push_command_eq path z c :
  pushable path → push_arg z → push_command path z c = lit "PUSH " ++ path ++ lit " " ++ dec z ++ [c].
Proof. intros Hp Hz. apply snprintf_id. pose proof (length_command path z c Hp Hz). lia. Qed.

Lemma not_in_command path z c x :
  x ∉ path → x ∉ dec z → x ∉ lit "PUSH " → x ≠ SP → x ≠ c →
  x ∉ lit "PUSH " ++ path ++ lit " " ++ dec z ++ [c].
Proof. intros. rewrite !elem_of_app. set_unfold. tauto. Qed.

(** Every command of the session reaches [handle_push_command]. *)
Lemma command_line_eq path z c :
  pushable path → c = NL ∨ c = SP →
  command_line (lit "PUSH " ++ path ++ lit " " ++ dec z ++ [c]) =
    lit "PUSH " ++ path ++ lit " " ++ dec z ++ (if decide (c = NL) then [] else [c]).
Proof.
  intros ((_ & Hp) & Hn & _) Hc. unfold command_line.
  assert (NL ∉ path) as Hnl by (rewrite Forall_forall in Hp; intros Hin%Hp; done).
  assert ((NL ∉ dec z) ∧ (NUL ∉ dec z)) as [Hd1 Hd2] by (split; by apply dec_not_in).
  rewrite cstr_id by (apply not_in_command; try done; [set_solver|by destruct Hc as [->| ->]]).
  destruct Hc as [->| ->].
  - rewrite decide_True by done. rewrite app_nil_r.
    assert (lit "PUSH " ++ path ++ lit " " ++ dec z ++ [NL] = (lit "PUSH " ++ path ++ lit " " ++ dec z) ++ [NL]) as ->.
    { by rewrite <-!app_assoc. }
    rewrite strchr_app by (rewrite !elem_of_app; set_solver). by rewrite take_app_length.
  - rewrite decide_False by done. rewrite (proj2 (strchr_None _ _)); [done|].
    by apply not_in_command; try done; set_solver.
Qed.

Lemma run_push client_fd path z c s :
  pushable path → push_arg z → c = NL ∨ c = SP →
  run_command client_fd (command_line (push_command path z c)) s = handle_push_command client_fd path z s.
Proof.
  intros Hp Hz Hc. rewrite push_command_eq, command_line_eq by done.
  set (r := if decide (c = NL) then [] else [c]). assert (stops r) as Hr.
  { unfold r. case_decide; [apply stops_nil|]. destruct Hc as [->| ->]; [done|]. by apply stops_cons. }
  unfold run_command.
  change (starts_with CMD_LIST (lit "PUSH " ++ path ++ lit " " ++ dec z ++ r)) with false.
  change (starts_with CMD_PULL (lit "PUSH " ++ path ++ lit " " ++ dec z ++ r)) with false.
  change (starts_with CMD_PUSH (lit "PUSH " ++ path ++ lit " " ++ dec z ++ r)) with true. cbn iota.
  unfold bind, sscanf. change (parse_fmt (lit "PUSH %s %d")) with
    (DLit "P" :: DLit "U" :: DLit "S" :: DLit "H" :: DSpace :: DStr :: DSpace :: DInt :: []).
  rewrite scan_push by apply Hp. rewrite scan_str; [|apply Hp|by apply ends_word_cons].
  assert (scan [DSpace; DInt] (lit " " ++ dec z ++ r) ([] ++ [VStr path]) = (2%Z, [VStr path; VInt z])) as ->.
  { trans (scan [DInt] (skip_ws (dec z ++ r)) ([] ++ [VStr path])); [reflexivity|].
    rewrite (skip_ws_plain _ _ (dec_plain z)). rewrite scan_int; [done| |done].
    destruct Hz. change (Z.of_nat MAX_BUFFER_SIZE) with 8192%Z in *. unfold int_min, int_max. lia. }
  simpl. rewrite bool_decide_true by apply Hp. done.
Qed.

(** ** The target client in a PUSH session *)

(** The connection with [l] still to arrive. *)
Definition with_rx (l : list bytes) (c : sock) : sock := Sock l (rx_reset c) (tx c) (tx_script c).

Definition put_conn (fd : Z) (c : sock) (s : cst) : cst := Cst (set_fds <[fd := FSock c]> (cos s)) (current_fd s).

Lemma received_first d l c : rx c = d :: l → d ≠ [] → received (length d) c = with_rx l c.
Proof. intros H Hd. unfold received. rewrite H, cut_first, decide_False by done. done. Qed.

Lemma loop_command f client_fd path z t l c s :
  pushable path → push_arg z → t = NL ∨ t = SP →
  fds (cos s) !! client_fd = Some (FSock c) → rx c = push_command path z t :: l →
  connection_loop (S f) client_fd s =
    bind (handle_push_command client_fd path z) (λ _, connection_loop f client_fd)
      (put_conn client_fd (with_rx l c) s).
Proof.
  intros Hp Hz Ht Hfd Hrx. cbn [connection_loop].
  pose proof (length_command path z t Hp Hz) as Hlen. rewrite <-push_command_eq in Hlen by done.
  assert (push_command path z t ≠ []) as Hne by done.
  assert (0 < length (push_command path z t)) as H0 by (destruct (push_command path z t); simpl; [done|lia]).
  erewrite bind_Ret.
  2: { unfold in_os, zoom. erewrite recv_some by (done || lia). rewrite take_ge by lia.
       rewrite (received_first _ l) by done. reflexivity. }
  cbn iota beta. rewrite decide_False by lia. unfold bind at 1. rewrite run_push by done. done.
Qed.

(** The chunks of a session, one after the other. *)
Lemma session_chunks chunks path tail :
  pushable path → Forall portion_ok chunks →
  ∀ fuel client_fd c w p old s,
  receiving client_fd c w p old s → rx c = chunk_messages path chunks ++ tail →
  length (concat (rx c)) < fuel → Forall (.≠ []) tail →
  ∃ fuel' s', connection_loop fuel client_fd s = connection_loop fuel' client_fd s' ∧
    length (concat tail) < fuel' ∧
    receiving client_fd (with_rx tail c) w p (old ++ concat chunks) s' ∧
    files (cos s') = <[p := old ++ concat chunks]> (files (cos s)) ∧
    dirs (cos s') = dirs (cos s) ∧ sys (cos s') = sys (cos s) ∧ closed (cos s') = closed (cos s) ∧
    fds (cos s') = <[w := FFile p (length (old ++ concat chunks))]>
      (<[client_fd := FSock (with_rx tail c)]> (fds (cos s))).
Proof.
  intros Hp Hch. induction Hch as [|d chunks [Hd Hdl] Hch IH]; intros fuel client_fd c w p old s H Hrx Hf Htail.
  { exists fuel, s. simpl in Hrx. rewrite app_nil_r. assert (with_rx tail c = c) as ->.
    { destruct c. simpl in *. by subst. }
    split; [done|]. split; [by rewrite <-Hrx|]. split; [done|]. destruct H as [H1 H2 H3 _ _ _ _].
    split; [by rewrite insert_id|]. split_and!; [done..|]. by rewrite (insert_id _ client_fd), insert_id. }
  set (cmd := push_command path (Z.of_nat (length d)) SP).
  assert (rx c = cmd :: d :: chunk_messages path chunks ++ tail) as Hrx' by done.
  assert (push_arg (Z.of_nat (length d))) as Harg by (unfold push_arg; lia).
  assert (0 < length d) as Hd0 by (destruct d; simpl; [done|lia]).
  destruct fuel as [|f]; [lia|].
  rewrite (loop_command f client_fd path _ SP (d :: chunk_messages path chunks ++ tail) c) by
    (done || by right || apply H).
  set (c1 := with_rx _ c). set (s1 := put_conn client_fd c1 s).
  assert (receiving client_fd c1 w p old s1) as H1.
  { pose proof (receiving_ne _ _ _ _ _ _ H). destruct H as [A1 A2 A3 A4 A5 A6 A7]. split; simpl; try done.
    - apply lookup_insert_eq.
    - by rewrite lookup_insert_ne.
    - rewrite Hrx' in A7. by apply Forall_cons in A7 as [_ ?]. }
  erewrite bind_Ret.
  2: { assert (Z.to_nat (Z.of_nat (length d)) ≤ length (concat (rx c1))).
       { simpl. rewrite length_app. lia. }
       apply (push_stored client_fd path (Z.of_nat (length d)) c1 w p old s1); [done| |done].
       destruct Harg. change (Z.of_nat MAX_BUFFER_SIZE) with 8192%Z in *. unfold int_max. lia. }
  rewrite Nat2Z.id. pose proof (receiving_stored _ _ _ _ _ (length d) _ H1) as H2.
  assert (received (length d) c1 = with_rx (chunk_messages path chunks ++ tail) c) as Ec.
  { by rewrite (received_first d (chunk_messages path chunks ++ tail)). }
  assert (take (length d) (concat (rx c1)) = d) as Ed by (simpl; apply take_app_length).
  rewrite Ec, Ed in H2.
  destruct (IH f client_fd _ w p (old ++ d) _ H2) as (f' & s' & E & Hf' & H3 & F1 & F3 & F4 & F5 & F2); [done| |done|].
  { simpl in *. rewrite Hrx' in Hf. simpl in Hf. rewrite !length_app in Hf. lia. }
  exists f', s'. rewrite E. rewrite <-app_assoc in *. split; [done|]. split; [done|]. split; [exact H3|].
  rewrite F1, F2. unfold stored. rewrite Ec, Ed. simpl. rewrite insert_insert_eq.
  pose proof (receiving_ne _ _ _ _ _ _ H).
  split; [done|]. split_and!; [by rewrite F3|by rewrite F4|by rewrite F5|]. rewrite (insert_insert_ne _ client_fd w) by done. by rewrite !insert_insert_eq.
Qed.

Lemma recv_end fd m c o :
  fds o !! fd = Some (FSock c) → rx c = [] →
  ∃ z, (z <= 0)%Z ∧ sys_recv fd m o = Ret (z, []) (set_fds <[fd := FSock c]> o).
Proof.
  intros Hfd Hrx. unfold sys_recv, get_sock, bind, gets, put_sock, modify, delivered, ret. rewrite Hfd, Hrx.
  destruct (rx_reset c); eexists; split; [|done| |done]; simpl; lia.
Qed.

(** The beginning of a session. *)
Lemma push_opens client_fd path c s :
  current_fd s = (-1)%Z → sys (cos s) = [] → io (cos s) = [] →
  dirs (cos s) !! relative_path path = None →
  fds (cos s) !! client_fd = Some (FSock c) → Forall (.≠ []) (rx c) →
  ∃ w s', handle_push_command client_fd path (-1) s = Ret tt s' ∧
    fds (cos s) !! w = None ∧ fds (cos s') = <[w := FFile (relative_path path) 0]> (fds (cos s)) ∧
    files (cos s') = <[relative_path path := []]> (files (cos s)) ∧
    dirs (cos s') = dirs (cos s) ∧ sys (cos s') = [] ∧ closed (cos s') = closed (cos s) ∧
    receiving client_fd c w (relative_path path) [] s'.
Proof.
  intros Hcur Hsys Hio Hdir Hfd Hrx. set (w := new_fd (fds (cos s))).
  assert (fds (cos s) !! w = None) as Hfresh by apply new_fd_fresh.
  unfold handle_push_command, close_current. rewrite decide_True by done.
  unfold bind, gets. rewrite Hcur. rewrite decide_False by lia.
  unfold in_os, zoom, open_trunc, bind, sys_ok, get. simpl. rewrite Hsys, Hdir.
  unfold set_current, modify, open_fd, ret. simpl. fold w.
  eexists w, _. split; [done|]. split; [done|]. simpl. do 5 (split; [done|]).
  split; simpl; try done.
  - by rewrite lookup_insert_ne by congruence.
  - apply lookup_insert_eq.
  - apply lookup_insert_eq.
  - apply new_fd_nonneg.
Qed.

Lemma chunk_messages_ne path chunks : Forall portion_ok chunks → Forall (.≠ []) (chunk_messages path chunks).
Proof.
  intros H. unfold chunk_messages. induction H as [|d l [Hd _] Hl IH]; simpl; [done|].
  constructor; [done|]. by constructor.
Qed.

(** The last command closes the file, the end of the stream the connection. *)
Lemma session_closes f client_fd path c w p data s :
  pushable path → receiving client_fd c w p data s → rx c = [push_command path 0 NL] → 1 < f →
  ∃ s', connection_loop f client_fd s = Ret tt s' ∧ current_fd s' = (-1)%Z ∧
    files (cos s') = files (cos s) ∧ dirs (cos s') = dirs (cos s) ∧ sys (cos s') = sys (cos s) ∧ io (cos s') = [] ∧
    closed (cos s') = closed (cos s) ∧ fds (cos s') !! client_fd = Some (FSock (with_rx [] c)) ∧
    delete client_fd (fds (cos s')) = delete client_fd (delete w (fds (cos s))).
Proof.
  intros Hp H Hrx Hf. destruct f as [|[|f]]; [lia..|].
  rewrite (loop_command (S f) client_fd path 0 NL [] c);
    [|exact Hp|unfold push_arg; lia|by left|apply H|exact Hrx].
  pose proof (receiving_ne _ _ _ _ _ _ H) as Hne.
  unfold handle_push_command. rewrite decide_False, decide_True by done.
  set (s1 := put_conn client_fd (with_rx [] c) s).
  rewrite (bind_Ret _ _ _ tt (Cst (close_fd w (cos s1)) (-1))).
  2: { unfold bind, gets. change (current_fd s1) with (current_fd s).
       rewrite (rv_current _ _ _ _ _ _ H), decide_True by apply H. reflexivity. }
  cbn [connection_loop].
  destruct (recv_end client_fd (MAX_COMMAND_SIZE - 1) (with_rx [] c) (close_fd w (cos s1))) as (z & Hz & Er);
    [simpl; rewrite lookup_delete_ne, lookup_insert_eq by done; done|done|].
  erewrite bind_Ret by (unfold in_os, zoom; cbn [cos current_fd]; rewrite Er; reflexivity).
  cbn iota beta. rewrite decide_True by done. eexists. split; [reflexivity|]. simpl.
  split_and!; [done..|by apply H| | |].
  { by rewrite lookup_insert_ne, (rv_file _ _ _ _ _ _ H). }
  { by rewrite lookup_insert_eq. }
  apply map_eq. intros k. rewrite !lookup_delete. repeat case_decide; try done.
  - subst k. by rewrite lookup_insert_ne, lookup_delete_eq.
  - by rewrite lookup_insert_ne, lookup_delete_ne, lookup_insert_ne.
Qed.

Lemma target_stores client_fd path chunks c s :
  pushable path → Forall portion_ok chunks →
  fds (cos s) !! client_fd = Some (FSock c) → rx c = push_session path chunks →
  current_fd s = (-1)%Z → sys (cos s) = [] → io (cos s) = [] →
  dirs (cos s) !! relative_path path = None →
  ∃ s', handle_client_connection client_fd s = Ret tt s' ∧ current_fd s' = (-1)%Z ∧
    files (cos s') = <[relative_path path := concat chunks]> (files (cos s)) ∧
    fds (cos s') = delete client_fd (fds (cos s)) ∧
    dirs (cos s') = dirs (cos s) ∧ sys (cos s') = [] ∧ io (cos s') = [] ∧
    closed (cos s') = closed (cos s) ++ [with_rx [] c].
Proof.
  intros Hp Hch Hfd Hrx Hcur Hsys Hio Hdir. set (p := relative_path path).
  set (tail := [push_command path 0 NL]). set (l := chunk_messages path chunks ++ tail).
  assert (rx c = push_command path (-1) NL :: l) as Hrx' by done.
  assert (push_arg (-1) ∧ push_arg 0) as [Ha1 Ha0] by (split; unfold push_arg; lia).
  assert (Forall (.≠ []) l) as Hl by (apply Forall_app; split; [by apply chunk_messages_ne|by repeat constructor]).
  unfold handle_client_connection. unfold bind at 1, get.
  unfold rx_left. rewrite Hfd. cbn [length].
  assert (∃ s', connection_loop (S (length (concat (rx c)))) client_fd s = Ret tt s' ∧
    current_fd s' = (-1)%Z ∧ files (cos s') = <[p := concat chunks]> (files (cos s)) ∧
    delete client_fd (fds (cos s')) = delete client_fd (fds (cos s)) ∧
    dirs (cos s') = dirs (cos s) ∧ sys (cos s') = [] ∧ io (cos s') = [] ∧
    closed (cos s') = closed (cos s) ∧ fds (cos s') !! client_fd = Some (FSock (with_rx [] c)))
    as (s' & E & E1 & E2 & E3 & E4 & E5 & E6 & E7 & E8).
  2: { erewrite bind_Ret by exact E. eexists. split; [reflexivity|]. simpl. by rewrite E1, E2, E3, E4, E5, E6, E7, E8. }
  rewrite (loop_command _ client_fd path (-1) NL l c); [|exact Hp|exact Ha1|by left|exact Hfd|exact Hrx'].
  destruct (push_opens client_fd path (with_rx l c) (put_conn client_fd (with_rx l c) s))
    as (w & s1 & E1 & Hw & F1 & F2 & F3 & F4 & F5 & H1); [done..|apply lookup_insert_eq|done|].
  erewrite bind_Ret by exact E1. fold p in F1, F2, H1.
  destruct (session_chunks chunks path tail Hp Hch (length (concat (rx c))) client_fd (with_rx l c) w p [] s1)
    as (f & s2 & E2 & Hf & H2 & G1 & G3 & G4 & G5 & G2); [done|done| |by repeat constructor|].
  { rewrite Hrx'. cbn [concat]. rewrite length_app. simpl rx.
    assert (0 < length (push_command path (-1) NL)); [|lia].
    assert (push_command path (-1) NL ≠ []) by done. destruct (push_command path (-1) NL); simpl; [done|lia]. }
  rewrite E2. clear E2. rewrite app_nil_l in *.
  assert (1 < f) as Hf1.
  { unfold tail in Hf. simpl in Hf. rewrite app_nil_r in Hf. assert (push_command path 0 NL ≠ []) by done.
    destruct (push_command path 0 NL); simpl in *; [done|lia]. }
  destruct (session_closes f client_fd path _ w p (concat chunks) s2 Hp H2 eq_refl Hf1) as (s' & E & K1 & K2 & K3 & K4 & K5 & K7 & K8 & K6).
  exists s'. split_and!; [done|done|..].
  - rewrite K2, G1, F2. simpl. by rewrite insert_insert_eq.
  - rewrite K6, G2, F1. simpl in *. apply map_eq. intros k. rewrite !lookup_delete. repeat case_decide; try done.
    { subst. by rewrite lookup_insert_ne in Hw by done. }
    by rewrite !lookup_insert_ne by done.
  - by rewrite K3, G3, F3.
  - by rewrite K4, G4, F4.
  - done.
  - by rewrite K7, G5, F5.
  - done.
Qed.

(** ** The source client *)

(** Serving leaves the files as they are, and the coming calls can go on. *)
Record unchanged (o o' : os) : Prop := {
  un_files : files o' = files o;
  un_dirs : dirs o' = dirs o;
  un_sys : sys o' = sys o;
  un_io : Forall progress (io o')
}.

Lemma unchanged_trans o1 o2 o3 : unchanged o1 o2 → unchanged o2 o3 → unchanged o1 o3.
Proof. intros [] []. split; congruence || done. Qed.

(** A [read] fills no more than the buffer. *)
Lemma read_fits fd p off data n B o o1 :
  fds o !! fd = Some (FFile p off) → files o !! p = Some data → n ≤ length data - off →
  sys_read fd B o = Ret (Z.of_nat n, take n (drop off data)) o1 → n ≤ B.
Proof.
  intros Hfd Hfile Hn E. apply (f_equal (λ r, match r with Ret (_, d) _ => length d | _ => 0 end)) in E.
  rewrite length_take, length_drop in E. revert E.
  unfold sys_read, bind, get. rewrite Hfd. unfold content. rewrite Hfile. simpl.
  destruct (next_io o) as [a o2| | |]; simpl; try lia.
  destruct (served a _) as [d|] eqn:Hd; simpl; [|lia].
  apply served_prefix, prefix_length in Hd. rewrite length_take in Hd. lia.
Qed.

(** With nothing cut short, the first [send] is enough. *)
Lemma send_rest_once client_fd c d o :
  fds o !! client_fd = Some (FSock c) → smooth c → d ≠ [] →
  send_rest (send_fuel client_fd o) client_fd d o = Ret true (set_fds <[client_fd := FSock (sent_all c [d])]> o).
Proof.
  intros Hc Hs Hd. unfold send_fuel. rewrite Hc, Hs. cbn [length]. destruct d as [|x l] eqn:Ex; [done|].
  cbn [send_rest]. erewrite bind_Ret by (by apply (send_whole client_fd c)).
  rewrite decide_False by lia. rewrite Nat2Z.id, drop_ge by done. reflexivity.
Qed.

(** Then the file goes out in pieces that fit a buffer. *)
Lemma send_file_pieces fuel client_fd c fd p off data o :
  fds o !! client_fd = Some (FSock c) → smooth c →
  fds o !! fd = Some (FFile p off) → files o !! p = Some data → off ≤ length data →
  Forall progress (io o) → length data - off < fuel →
  ∃ pieces o', send_file fuel client_fd fd o = Ret tt o' ∧
    Forall portion_ok pieces ∧ concat pieces = drop off data ∧ closed o' = closed o ∧ unchanged o o' ∧
    fds o' = delete fd (<[client_fd := FSock (sent_all c pieces)]> (fds o)).
Proof.
  revert c off o. induction fuel as [|f IH]; intros c off o Hc Hs Hfd Hfile Hoff Hio Hf; [lia|].
  assert (fd ≠ client_fd) as Hne by congruence. cbn [send_file].
  destruct (read_some fd p off data MAX_BUFFER_SIZE o)
    as (n & o1 & Hn & H0 & E & E1 & E2 & E3 & E4 & E5 & E6); [vm_compute; lia|done..|].
  pose proof (read_fits _ _ _ _ _ _ _ _ Hfd Hfile Hn E) as Hmax.
  erewrite bind_Ret by exact E. cbn iota beta.
  destruct (decide (Z.of_nat n <= 0)%Z) as [Hz|Hpos].
  { exists [], (close_fd fd o1). rewrite drop_ge by lia. split; [done|]. split; [done|]. split; [done|].
    assert (unchanged o (close_fd fd o1)) as Hun by by split. revert Hun.
    unfold close_fd; simpl. rewrite E1, lookup_insert_eq, delete_insert_eq, E6.
    rewrite sent_all_nil, insert_id by done. done. }
  assert (take n (drop off data) ≠ []) as Hne'.
  { intros Hnil. apply (f_equal length) in Hnil. rewrite length_take, length_drop in Hnil. simpl in Hnil. lia. }
  assert (fds o1 !! client_fd = Some (FSock c)) as Hc1 by (by rewrite E1, lookup_insert_ne).
  erewrite bind_Ret by reflexivity. erewrite bind_Ret by (by apply (send_rest_once client_fd c)).
  cbn iota. set (d := take n (drop off data)) in *.
  destruct (IH (sent_all c [d]) (off + n) (set_fds <[client_fd := FSock (sent_all c [d])]> o1))
    as (pieces & o' & E' & Hp & Hcat & Hcl & Hun & F).
  - simpl. apply lookup_insert_eq.
  - done.
  - simpl. by rewrite lookup_insert_ne, E1, lookup_insert_eq.
  - simpl. by rewrite E2.
  - lia.
  - done.
  - lia.
  - exists (d :: pieces), o'. split; [done|]. split.
    { constructor; [|done]. split; [done|]. unfold d. rewrite length_take. lia. }
    split; [simpl; rewrite Hcat; unfold d; by rewrite <-drop_drop, take_drop|].
    split; [rewrite Hcl; simpl; by rewrite E6|].
    split; [eapply unchanged_trans; [|exact Hun]; by split|].
    rewrite F. simpl. rewrite E1, sent_all_app, insert_insert_eq.
    rewrite (insert_insert_ne _ client_fd fd) by done. by rewrite delete_insert_eq.
Qed.

(** A path PULL can name: it ends at the newline, and spaces before it are skipped. *)
Definition fetchable (path : bytes) : Prop := (NUL ∉ path) ∧ (NL ∉ path) ∧ head path ≠ Some SP.

#[global] Instance fetchable_dec path : Decision (fetchable path).
Proof. unfold fetchable. apply _. Defined.

Lemma command_line_cut cmd path :
  (NUL ∉ cmd) → (NL ∉ cmd) → fetchable path → command_line (cmd ++ path ++ [NL]) = cmd ++ path.
Proof.
  intros Hc1 Hc2 (H1 & H2 & _). unfold command_line.
  rewrite cstr_id by (rewrite !elem_of_app; set_unfold; naive_solver).
  rewrite app_assoc. rewrite strchr_app by (rewrite elem_of_app; naive_solver). by rewrite take_app_length.
Qed.

Lemma skip_spaces_fetchable path : fetchable path → skip_spaces path = path.
Proof.
  intros (_ & _ & H). destruct path as [|c path]; [done|]. simpl. rewrite decide_False; [done|]. by intros ->.
Qed.

Lemma run_pull client_fd path s :
  fetchable path →
  run_command client_fd (command_line (lit "PULL " ++ path ++ [NL])) s =
    in_os (handle_pull_command client_fd path) s.
Proof.
  intros H. rewrite command_line_cut by (done || set_solver). unfold run_command.
  change (starts_with CMD_LIST (lit "PULL " ++ path)) with false.
  change (starts_with CMD_PULL (lit "PULL " ++ path)) with true. cbn iota.
  change (skip_spaces (drop (length CMD_PULL) (lit "PULL " ++ path))) with (skip_spaces path). by rewrite skip_spaces_fetchable.
Qed.

(** A connection on which one command arrives and nothing after it. *)
Lemma connection_one client_fd c msg s s2 c2 :
  fds (cos s) !! client_fd = Some (FSock c) → rx c = [msg] → msg ≠ [] → length msg < MAX_COMMAND_SIZE →
  run_command client_fd (command_line msg) (put_conn client_fd (with_rx [] c) s) = Ret tt s2 →
  fds (cos s2) !! client_fd = Some (FSock c2) → rx c2 = [] →
  ∃ s', handle_client_connection client_fd s = Ret tt s' ∧ current_fd s' = current_fd s2 ∧
    closed (cos s') = closed (cos s2) ++ [c2] ∧ files (cos s') = files (cos s2) ∧
    dirs (cos s') = dirs (cos s2) ∧ sys (cos s') = sys (cos s2) ∧ io (cos s') = io (cos s2) ∧
    fds (cos s') = delete client_fd (fds (cos s2)).
Proof.
  intros Hc Hrx Hmsg Hfit Hrun Hc2 Hrx2. assert (0 < length msg) as Hlen by (destruct msg; simpl; [done|lia]).
  unfold handle_client_connection. unfold bind at 1, get. unfold rx_left. rewrite Hc, Hrx.
  assert (∃ f, S (length (concat [msg])) = S (S f)) as [f ->].
  { cbn [concat]. rewrite app_nil_r. exists (length msg - 1). lia. }
  destruct (recv_end client_fd (MAX_COMMAND_SIZE - 1) c2 (cos s2)) as (z & Hz & Er); [done|done|].
  eexists. split.
  { cbn [connection_loop]. erewrite (bind_Ret (bind _ _) _ _ tt).
    2: { erewrite bind_Ret.
         2: { unfold in_os, zoom. erewrite (recv_some client_fd _ c msg []) by (done || lia).
              rewrite take_ge by lia. rewrite (received_first msg []) by done. reflexivity. }
         cbn iota beta. rewrite decide_False by lia. erewrite bind_Ret by exact Hrun.
         cbn [connection_loop]. erewrite bind_Ret by (unfold in_os, zoom; rewrite Er; reflexivity).
         cbn iota beta. rewrite decide_True by done. reflexivity. }
    unfold in_os, zoom, sys_close, modify. reflexivity. }
  split_and!; try done; simpl; by rewrite ?lookup_insert_eq, ?delete_insert_eq.
Qed.

(** The source client, asked for a file on a fresh connection. *)
Lemma source_serves client_fd path data c s :
  fds (cos s) !! client_fd = Some (FSock c) → smooth c → tx c = [] →
  rx c = [lit "PULL " ++ path ++ [NL]] → fetchable path →
  length (lit "PULL " ++ path ++ [NL]) < MAX_COMMAND_SIZE →
  files (cos s) !! relative_path path = Some data → (Z.of_nat (length data) ≤ long_max)%Z →
  sys (cos s) = [] → Forall progress (io (cos s)) →
  ∃ s' c' pieces, handle_client_connection client_fd s = Ret tt s' ∧
    closed (cos s') = closed (cos s) ++ [c'] ∧
    tx c' = size_header (Z.of_nat (length data)) :: pieces ∧ Forall portion_ok pieces ∧
    concat pieces = data ∧ unchanged (cos s) (cos s').
Proof.
  intros Hc Hs Htx Hrx Hp Hfit Hfile Hsize Hsys Hio.
  set (c1 := with_rx [] c). set (s1 := put_conn client_fd c1 s).
  assert (sent c1 (dec (Z.of_nat (length data)) ++ [SP]) = sent_all c1 [size_header (Z.of_nat (length data))]) as Esent.
  { unfold sent, sent_all, size_header. simpl. rewrite Hs. by rewrite decide_False by (by destruct (dec _)). }
  set (c2 := sent_all c1 [size_header (Z.of_nat (length data))]) in *.
  assert (fds (cos s1) !! client_fd = Some (FSock c1)) as Hc1 by apply lookup_insert_eq.
  pose proof (new_fd_fresh (fds (cos s1))) as Hfresh.
  assert (new_fd (fds (cos s1)) ≠ client_fd) as Hne by congruence.
  set (fd := new_fd (fds (cos s1))) in *.
  set (o2 := set_fds (λ m, <[client_fd := FSock c2]> (<[fd := FFile (relative_path path) 0]> m)) (cos s1)).
  destruct (send_file_pieces (S (length data)) client_fd c2 fd (relative_path path) 0 data o2)
    as (pieces & o3 & E3 & Hpieces & Hcat & Hcl & Hun & F3).
  1: simpl; apply lookup_insert_eq.
  2: simpl; by rewrite lookup_insert_ne, lookup_insert_eq by done.
  1-5: done || lia.
  destruct (connection_one client_fd c (lit "PULL " ++ path ++ [NL]) s (Cst o3 (current_fd s)) (sent_all c2 pieces))
    as (s' & E & _ & Ecl & E1 & E2 & E4 & E5 & _); [done..| | |done|].
  - rewrite run_pull by done. unfold in_os, zoom.
    rewrite (pull_header client_fd path data c1) by (done || unfold send_ans; simpl; by rewrite Hs).
    rewrite Esent. match goal with |- context [send_file ?n _ _ ?x] => change (send_file n _ _ x) with (send_file n client_fd fd o2) end.
    by rewrite E3.
  - simpl. rewrite F3, lookup_delete_ne, lookup_insert_eq by done. done.
  - exists s', (sent_all c2 pieces), pieces. simpl in *. split_and!; [done|by rewrite Ecl, Hcl|by rewrite Htx|done|done|].
    destruct Hun. split; by rewrite ?E1, ?E2, ?E4, ?E5.
Qed.

(** ** Source client, worker, target client *)

(** The fresh connection on which [l] arrives, message by message. *)
Definition arriving (l : list bytes) : sock := Sock l false [] [].

Definition source_path (job : sync_job) : bytes := job_path (job_source_dir job) (job_filename job).
Definition target_path (job : sync_job) : bytes := job_path (job_target_dir job) (job_filename job).

(** The command the worker sends to the source. *)
Definition pull_message (job : sync_job) : bytes := lit "PULL " ++ source_path job ++ [NL].

Lemma pull_message_fits job : snprintf MAX_COMMAND_SIZE (pull_message job) = pull_message job ∧
  length (pull_message job) < MAX_COMMAND_SIZE.
Proof.
  assert (length (pull_message job) < MAX_COMMAND_SIZE) as H.
  { unfold pull_message, source_path, job_path. rewrite !length_app. change (length (lit "PULL ")) with 5.
    cbn [length]. pose proof (length_snprintf (MAX_PATH * 2) (job_source_dir job ++ lit "/" ++ job_filename job)).
    assert (0 < MAX_PATH * 2) by (vm_compute; lia).
    assert (MAX_PATH * 2 + 10 < MAX_COMMAND_SIZE) by (vm_compute; lia). lia. }
  split; [by apply snprintf_id|done].
Qed.

(** The two connections of the worker, when the file was transferred. *)
Definition asked (job : sync_job) : sock := Sock [] false [pull_message job] [].
Definition pushed (job : sync_job) (pieces : list bytes) : sock :=
  Sock [] false (push_session (target_path job) pieces) [].

(** What the source answers for a file with this content. *)
Definition file_reply (data : bytes) (pieces : list bytes) : list bytes :=
  size_header (Z.of_nat (length data)) :: pieces.

(** Whatever the source sends after the file is left unread, and so is
    whatever the target sends. *)
Lemma worker_session_more logfile self job data pieces rest more o ds :
  inet_pton (job_source_host job) = 1%Z → inet_pton (job_target_host job) = 1%Z →
  (Z.of_nat (length data) ≤ long_max)%Z → Forall portion_ok pieces → concat pieces = data →
  sys o = [] → dials o = Some (arriving (file_reply data pieces ++ rest)) :: Some (arriving more) :: ds →
  ∃ o', sync_single_file logfile self job o = Ret 0%Z o' ∧
    closed o' = closed o ++ [Sock rest false [pull_message job] [];
      Sock more false (push_session (target_path job) pieces) []] ∧ sys o' = [] ∧ dials o' = ds.
Proof.
  intros Hsource Htarget Hsize Hpieces Hcat Hsys Hdials. destruct (pull_message_fits job) as [Hpm _].
  assert (length ([] ++ concat pieces) = length data) as Hlen by (by rewrite <-Hcat).
  destruct (sync_relays logfile self job [] pieces rest (arriving (file_reply data pieces ++ rest)) (arriving more) ds o)
    as (o' & E & C & ?); try done.
  - simpl rx. by rewrite Hlen, app_nil_r.
  - rewrite Hlen, app_nil_r. unfold size_header. rewrite length_app.
    pose proof (length_dec_le (Z.of_nat (length data)) 18). unfold long_max in Hsize.
    change (10 ^ Z.of_nat 19)%Z with 10000000000000000000%Z in *.
    assert (100 < MAX_BUFFER_SIZE) by (vm_compute; lia). simpl. lia.
  - by rewrite Hlen.
  - exists o'. split; [exact E|]. split; [|done]. rewrite C, <-Hpm. done.
Qed.

Lemma worker_session logfile self job data pieces o ds :
  inet_pton (job_source_host job) = 1%Z → inet_pton (job_target_host job) = 1%Z →
  (Z.of_nat (length data) ≤ long_max)%Z → Forall portion_ok pieces → concat pieces = data →
  sys o = [] → dials o = Some (arriving (file_reply data pieces)) :: Some (arriving []) :: ds →
  ∃ o', sync_single_file logfile self job o = Ret 0%Z o' ∧
    closed o' = closed o ++ [asked job; pushed job pieces] ∧ sys o' = [] ∧ dials o' = ds.
Proof.
  intros Hsource Htarget Hsize Hpieces Hcat Hsys Hdials. apply (worker_session_more _ _ _ data pieces []); try done.
  by rewrite app_nil_r.
Qed.

(** The worker's part: what the source sent arrives message by message. *)
Definition worker_relays (logfile : ptr Z) (self : Z) (job : sync_job) (replies messages : list bytes) : Prop :=
  ∀ o ds, sys o = [] → dials o = Some (arriving replies) :: Some (arriving []) :: ds →
    ∃ o' cs ct, sync_single_file logfile self job o = Ret 0%Z o' ∧ closed o' = closed o ++ [cs; ct] ∧
      tx cs = [pull_message job] ∧ tx ct = messages.

(** The target's part. *)
Definition target_receives (messages : list bytes) (path data : bytes) : Prop :=
  ∀ client_fd s, fds (cos s) !! client_fd = Some (FSock (arriving messages)) →
    current_fd s = (-1)%Z → sys (cos s) = [] → io (cos s) = [] →
    dirs (cos s) !! path = None →
    ∃ s', handle_client_connection client_fd s = Ret tt s' ∧ current_fd s' = (-1)%Z ∧
      files (cos s') = <[path := data]> (files (cos s)).

(** C8: a file is copied from client to client: the source client, asked by
    the worker's PULL command, sends messages which, arriving one by one,
    make the worker send messages which, arriving one by one at the target
    client, leave there a file with the content of the source's file, and
    nothing else changed.  The file may have any content and any size. *)
Theorem file_synchronised (job : sync_job) (data : bytes) (client_fd : Z) (ss : cst)
    (Hsource : inet_pton (job_source_host job) = 1%Z) (Htarget : inet_pton (job_target_host job) = 1%Z)
    (Hfetch : fetchable (source_path job)) (Hpush : pushable (target_path job))
    (Hc : fds (cos ss) !! client_fd = Some (FSock (arriving [pull_message job])))
    (Hfile : files (cos ss) !! relative_path (source_path job) = Some data)
    (Hsize : (Z.of_nat (length data) ≤ long_max)%Z)
    (Hsys : sys (cos ss) = []) (Hio : Forall progress (io (cos ss))) :
  ∃ ss' replies messages,
    handle_client_connection client_fd ss = Ret tt ss' ∧
    tx <$> closed (cos ss') = (tx <$> closed (cos ss)) ++ [replies] ∧
    (∀ logfile self, worker_relays logfile self job replies messages) ∧
    target_receives messages (relative_path (target_path job)) data.
Proof.
  destruct (pull_message_fits job) as [_ Hfit].
  destruct (source_serves client_fd (source_path job) data (arriving [pull_message job]) ss)
    as (ss' & c' & pieces & E & Hcl & Htx & Hpieces & Hcat & _); [done..|].
  exists ss', (tx c'), (push_session (target_path job) pieces).
  split; [done|]. split; [by rewrite Hcl, fmap_app|]. split.
  - intros logfile self o ds Hsys' Hdials. rewrite Htx in Hdials.
    destruct (worker_session logfile self job data pieces o ds) as (o' & E' & C' & _); [done..|].
    by exists o', (asked job), (pushed job pieces).
  - intros fd s Hfd Hcur Hsys' Hio' Hdir.
    destruct (target_stores fd (target_path job) pieces (arriving (push_session (target_path job) pieces)) s)
      as (s' & E' & Hcur' & F & _); [done..|].
    exists s'. rewrite <-Hcat. done.
Qed.

(** The source of the example. *)
Definition source_demo : cst :=
  Cst (Os {[4%Z := FSock (arriving [pull_message xfer_job])]} {[lit "src/f" := lit "hello"]} ∅ [] [] [] []
         (Tm 125 0 1 0 0 0) [] []) (-1).

Lemma file_synchronised_witness :
  ∃ ss' replies messages,
    handle_client_connection 4 source_demo = Ret tt ss' ∧
    tx <$> closed (cos ss') = [replies] ∧
    (∀ logfile self, worker_relays logfile self xfer_job replies messages) ∧
    target_receives messages (lit "dst/f") (lit "hello").
Proof.
  apply (file_synchronised xfer_job (lit "hello") 4 source_demo).
  - reflexivity.
  - reflexivity.
  - apply (bool_decide_unpack _). vm_compute. exact I.
  - apply (bool_decide_unpack _). vm_compute. exact I.
  - reflexivity.
  - reflexivity.
  - unfold long_max. simpl. lia.
  - reflexivity.
  - constructor.
Defined.

(** ** However the content is cut into portions *)

(** [data] arrives from the source as the rest [d0] of the portion with the
    size header, and the portions [l]. *)
Record portioned (data d0 : bytes) (l : list bytes) : Prop := {
  po_data : d0 ++ concat l = data;
  po_first : length (size_header (Z.of_nat (length data)) ++ d0) < MAX_BUFFER_SIZE;
  po_rest : Forall portion_ok l
}.

Definition portions (data d0 : bytes) (l : list bytes) : list bytes :=
  (size_header (Z.of_nat (length data)) ++ d0) :: l.

Lemma portioned_chunks data d0 l :
  portioned data d0 l → Forall portion_ok (chunks_of d0 l) ∧ concat (chunks_of d0 l) = data.
Proof.
  intros [<- Hf Hl]. unfold chunks_of. rewrite length_app in Hf. case_decide as H; [by subst|].
  split; [|done]. constructor; [split; [done|lia]|done].
Qed.

Lemma worker_portions logfile self job data d0 l :
  inet_pton (job_source_host job) = 1%Z → inet_pton (job_target_host job) = 1%Z →
  (Z.of_nat (length data) ≤ long_max)%Z → portioned data d0 l →
  worker_relays logfile self job (portions data d0 l) (push_session (target_path job) (chunks_of d0 l)).
Proof.
  intros Hsource Htarget Hsize [<- Hf Hl] o ds Hsys Hdials. destruct (pull_message_fits job) as [Hpm _].
  destruct (sync_relays logfile self job d0 l [] (arriving (portions (d0 ++ concat l) d0 l)) (arriving []) ds o)
    as (o' & E & C & _); try done; [by rewrite app_nil_r|].
  eexists o', _, _. split; [exact E|]. split; [exact C|]. split; [|done].
  cbn [tx]. rewrite app_nil_l. f_equal. exact Hpm.
Qed.

(** The target is ready to serve a connection. *)
Definition target_ready (path : bytes) (s : cst) : Prop :=
  current_fd s = (-1)%Z ∧ sys (cos s) = [] ∧ io (cos s) = [] ∧ dirs (cos s) !! path = None.

Lemma target_session job data d0 l client_fd s :
  pushable (target_path job) → portioned data d0 l → target_ready (relative_path (target_path job)) s →
  ∃ s', handle_client_connection client_fd
      (put_conn client_fd (arriving (push_session (target_path job) (chunks_of d0 l))) s) = Ret tt s' ∧
    files (cos s') = <[relative_path (target_path job) := data]> (files (cos s)) ∧
    fds (cos s') = delete client_fd (fds (cos s)) ∧ current_fd s' = (-1)%Z.
Proof.
  intros Hpush H (Hcur & Hsys & Hio & Hdir). destruct (portioned_chunks _ _ _ H) as [P E].
  set (c := arriving (push_session (target_path job) (chunks_of d0 l))).
  destruct (target_stores client_fd (target_path job) (chunks_of d0 l) c (put_conn client_fd c s))
    as (s' & R & C & F & G & _); [done|done|apply lookup_insert_eq|done..|].
  exists s'. split_and!; [exact R|by rewrite F, E| |done]. rewrite G. simpl. by rewrite delete_insert_eq.
Qed.

(** C19: how the network cuts the content of a file into portions makes no
    difference: two ways of cutting it make the worker send the target
    different messages, with which the target client, in the same state, ends
    up with the same files and the same open descriptors. *)
Theorem portions_equivalent (job : sync_job) (data d1 d2 : bytes) (l1 l2 : list bytes)
    (Hsource : inet_pton (job_source_host job) = 1%Z) (Htarget : inet_pton (job_target_host job) = 1%Z)
    (Hpush : pushable (target_path job)) (Hsize : (Z.of_nat (length data) ≤ long_max)%Z)
    (H1 : portioned data d1 l1) (H2 : portioned data d2 l2) :
  ∃ messages1 messages2,
    (∀ logfile self, worker_relays logfile self job (portions data d1 l1) messages1 ∧
       worker_relays logfile self job (portions data d2 l2) messages2) ∧
    ∀ client_fd s, target_ready (relative_path (target_path job)) s → ∃ s1 s2,
      handle_client_connection client_fd (put_conn client_fd (arriving messages1) s) = Ret tt s1 ∧
      handle_client_connection client_fd (put_conn client_fd (arriving messages2) s) = Ret tt s2 ∧
      files (cos s1) = files (cos s2) ∧ fds (cos s1) = fds (cos s2) ∧ current_fd s1 = current_fd s2.
Proof.
  exists (push_session (target_path job) (chunks_of d1 l1)), (push_session (target_path job) (chunks_of d2 l2)).
  split; [by intros; split; apply worker_portions|]. intros fd s Hs.
  destruct (target_session job data d1 l1 fd s) as (s1 & R1 & F1 & G1 & C1); [done..|].
  destruct (target_session job data d2 l2 fd s) as (s2 & R2 & F2 & G2 & C2); [done..|].
  exists s1, s2. split_and!; [exact R1|exact R2|congruence..].
Qed.

Lemma portions_equivalent_witness :
  ∃ messages1 messages2,
    (∀ logfile self, worker_relays logfile self xfer_job [lit "5 "; lit "hello"] messages1 ∧
       worker_relays logfile self xfer_job [lit "5 he"; lit "l"; lit "lo"] messages2).
Proof.
  destruct (portions_equivalent xfer_job (lit "hello") [] (lit "he") [lit "hello"] [lit "l"; lit "lo"])
    as (m1 & m2 & H & _); [reflexivity|reflexivity|..].
  - apply (bool_decide_unpack _). vm_compute. exact I.
  - unfold long_max. simpl. lia.
  - split; [reflexivity|vm_compute; lia|]. apply (bool_decide_unpack _). vm_compute. exact I.
  - split; [reflexivity|vm_compute; lia|]. apply (bool_decide_unpack _). vm_compute. exact I.
  - exists m1, m2. exact H.
Defined.

(** ** When the network joins messages *)

(** A chunk and its command arrive as one portion. *)
Definition joined_session : list bytes :=
  [lit "PUSH /dst/f -1" ++ [NL]; lit "PUSH /dst/f 5 hello"; lit "PUSH /dst/f 0" ++ [NL]].

Definition target_demo (arrives : list bytes) : cst :=
  Cst (Os {[4%Z := FSock (arriving arrives)]} ∅ ∅ [] [] [] [] (Tm 125 0 1 0 0 0) [] []) (-1).

(** The file the client ends up with, and whether a file is still open. *)
Definition target_result (arrives : list bytes) : option (option bytes * bool) :=
  match handle_client_connection 4 (target_demo arrives) with
  | Ret _ s => Some (files (cos s) !! lit "dst/f", bool_decide (0 ≤ current_fd s)%Z)
  | _ => None
  end.

