(* ===== verification/Directory.v ===== *)
(** * A directory from client to client

    The whole path of a pair: the source client answers LIST, the manager's
    [start_directory_sync] makes a job of every name, a worker works the jobs
    off, each with a PULL at the source client and a PUSH session at the
    target client, and the target client's accept loop serves the sessions.
    Every process runs its own code ([serve] of [Client.v], [Manager.v],
    [worker_thread] of [Worker.v]); the network between them hands on what
    was sent, message by message, except that the messages of a listing
    arrive together, which [start_directory_sync] relies on. *)
From S2P Require Import Prelude.
From S2P Require Import LinkedList.
From S2P Require Import CString.
From S2P Require Import Common.
From S2P Require Import PoolSteps.
From S2P Require Import OS.
From S2P Require Import Utils.
From S2P Require Import DirSpec.
From S2P Require Import SyncInfo.
From S2P Require Import JobSink.
From S2P Require Import JobQueue.
From S2P Require Import Client.
From S2P Require Import Transfer.
From S2P Require Import Worker.
From S2P Require Import Manager.
From S2P Require Import ManagerSpec.
From S2P Require Import EndToEnd.
From stdpp Require Import gmap strings list.
From Stdlib Require Import Ascii ZArith Lia.

(** ** The clients' accept loops *)

(** What the loop of [serve] does with the connections that have arrived, up to
    where it waits for the next one. *)
Fixpoint serve_all (connections : list (option sock)) : M cst unit :=
  match connections with
  | [] => ret tt
  | None :: l => serve_all l
  | Some c :: l =>
      client_fd <- in_os (open_fd (FSock c)) ;;
      handle_client_connection client_fd ;;;
      serve_all l
  end.

Lemma bind_inv {S A B} (c : M S A) (f : A → M S B) s b s' :
  bind c f s = Ret b s' → ∃ a s1, c s = Ret a s1 ∧ f a s1 = Ret b s'.
Proof. unfold bind. destruct (c s); [eauto|done..]. Qed.

Lemma serve_all_serve l rest s s' : serve_all l s = Ret tt s' → serve (l ++ rest) s = serve rest s'.
Proof.
  revert s. induction l as [|[c|] l IH]; intros s; cbn [serve_all serve app]; [by intros [= ->]| |apply IH].
  intros (fd & s1 & E1 & ([] & s2 & E2 & H)%bind_inv)%bind_inv.
  erewrite bind_Ret by exact E1. erewrite bind_Ret by exact E2. by apply IH.
Qed.

Lemma serve_all_app l1 l2 s s' : serve_all l1 s = Ret tt s' → serve_all (l1 ++ l2) s = serve_all l2 s'.
Proof.
  revert s. induction l1 as [|[c|] l IH]; intros s; cbn [serve_all serve app]; [by intros [= ->]| |apply IH].
  intros (fd & s1 & E1 & ([] & s2 & E2 & H)%bind_inv)%bind_inv.
  erewrite bind_Ret by exact E1. erewrite bind_Ret by exact E2. by apply IH.
Qed.

(** A connection that is served to its end. *)
Lemma serve_all_one c l s s' :
  (∀ fd, fd = new_fd (fds (cos s)) →
     handle_client_connection fd (Cst (set_fds <[fd := FSock c]> (cos s)) (current_fd s)) = Ret tt s') →
  serve_all (Some c :: l) s = serve_all l s'.
Proof.
  intros H. cbn [serve_all]. erewrite bind_Ret by reflexivity. by erewrite bind_Ret by (by apply H).
Qed.

(** What a source holds for a job. *)
Record available (m : gmap bytes bytes) (job : sync_job) (data : bytes) : Prop := {
  av_name : fetchable (source_path job);
  av_file : m !! relative_path (source_path job) = Some data;
  av_size : (Z.of_nat (length data) ≤ long_max)%Z
}.

(** The pieces a file is sent in. *)
Definition pieces_of (data : bytes) (pieces : list bytes) : Prop :=
  Forall portion_ok pieces ∧ concat pieces = data.

(** The connections on which the PULL commands of the jobs arrive. *)
Definition pulls (js : list sync_job) : list (option sock) := (λ j, Some (arriving [pull_message j])) <$> js.

Lemma serve_pulls js datas s :
  Forall2 (available (files (cos s))) js datas → sys (cos s) = [] → Forall progress (io (cos s)) →
  ∃ s' parts, serve_all (pulls js) s = Ret tt s' ∧ Forall2 pieces_of datas parts ∧
    tx <$> closed (cos s') = (tx <$> closed (cos s)) ++ zip_with file_reply datas parts ∧
    unchanged (cos s) (cos s').
Proof.
  revert datas s. induction js as [|j js IH]; intros datas s H Hsys Hio.
  { apply Forall2_nil_inv_l in H as ->. exists s, []. split_and!; [done|constructor|by rewrite app_nil_r|by split]. }
  apply Forall2_cons_inv_l in H as (data & datas' & [Hf Hm Hl] & H' & ->).
  set (fd := new_fd (fds (cos s))).
  set (s0 := Cst (set_fds <[fd := FSock (arriving [pull_message j])]> (cos s)) (current_fd s)).
  destruct (source_serves fd (source_path j) data (arriving [pull_message j]) s0)
    as (s1 & c' & pieces & E & Hcl & Htx & Hp & Hcat & Hun); [apply lookup_insert_eq|done..| |done|done|done|done|].
  { apply pull_message_fits. }
  destruct Hun as [U1 U2 U3 U4]. destruct (IH datas' s1) as (s2 & parts & E2 & Hparts & Htx2 & Hun2).
  { by rewrite U1. } { by rewrite U3. } { done. }
  exists s2, (pieces :: parts). split_and!.
  - change (pulls (j :: js)) with (Some (arriving [pull_message j]) :: pulls js).
    by rewrite (serve_all_one _ _ _ s1) by (by intros ? ->).
  - by constructor.
  - rewrite Htx2, Hcl, fmap_app. simpl. by rewrite Htx, <-app_assoc.
  - eapply unchanged_trans; [|exact Hun2]. by split.
Qed.

(** The connections on which the sessions of the jobs arrive. *)
Definition sessions (js : list sync_job) (parts : list (list bytes)) : list (option sock) :=
  zip_with (λ j ps, Some (arriving (push_session (target_path j) ps))) js parts.

(** The files [kvs] were written, in this order. *)
Definition deliver (kvs : list (bytes * bytes)) (m : gmap bytes bytes) : gmap bytes bytes :=
  foldl (λ m kv, <[kv.1 := kv.2]> m) m kvs.

Definition destination (j : sync_job) : bytes := relative_path (target_path j).

Lemma serve_sessions js datas parts s :
  Forall2 pieces_of datas parts → length js = length datas →
  Forall (λ j, pushable (target_path j) ∧ dirs (cos s) !! destination j = None) js →
  current_fd s = (-1)%Z → sys (cos s) = [] → io (cos s) = [] →
  ∃ s', serve_all (sessions js parts) s = Ret tt s' ∧ current_fd s' = (-1)%Z ∧
    files (cos s') = deliver (zip (destination <$> js) datas) (files (cos s)) ∧
    dirs (cos s') = dirs (cos s) ∧ sys (cos s') = [] ∧ io (cos s') = [].
Proof.
  intros H. revert js s. induction H as [|data pieces datas parts [Hp Hcat] H IH]; intros js s Hl Hjs Hcur Hsys Hio;
    destruct js as [|j js]; try done.
  { by exists s. }
  apply Forall_cons in Hjs as [[Hj Hd] Hjs]. set (fd := new_fd (fds (cos s))).
  set (c := arriving (push_session (target_path j) pieces)).
  set (s0 := Cst (set_fds <[fd := FSock c]> (cos s)) (current_fd s)).
  destruct (target_stores fd (target_path j) pieces c s0) as (s1 & E & E1 & E2 & E3 & E4 & E5 & E6 & _);
    [done|done|apply lookup_insert_eq|done..|].
  destruct (IH js s1) as (s2 & F & F1 & F2 & F3 & F4); [by injection Hl|by rewrite E4|done..|].
  exists s2. split_and!; [|done|by rewrite F2, E2, Hcat|by rewrite F3, E4|apply F4|apply F4].
  change (sessions (j :: js) (pieces :: parts)) with (Some c :: sessions js parts).
  by rewrite (serve_all_one _ _ _ s1) by (by intros ? ->).
Qed.

(** ** The worker *)

(** Both clients of the job have addresses that can be connected to. *)
Definition reachable_hosts (j : sync_job) : Prop :=
  inet_pton (job_source_host j) = 1%Z ∧ inet_pton (job_target_host j) = 1%Z.

(** What the source and the target answer to the worker's connections. *)
Definition answers (datas : list bytes) (parts : list (list bytes)) : list (option sock) :=
  concat (zip_with (λ d ps, [Some (arriving (file_reply d ps)); Some (arriving [])]) datas parts).

(** The connections the worker has had. *)
Definition conversations (js : list sync_job) (parts : list (list bytes)) : list sock :=
  concat (zip_with (λ j ps, [asked j; pushed j ps]) js parts).

Section worker.
Variable logfile : ptr Z.
Variable self : Z.

Lemma wp_worker_copies datas parts fuel m ll o ds :
  Forall2 pieces_of datas parts → Forall (λ d, Z.of_nat (length d) ≤ long_max)%Z datas →
  idle m ll → shutdown (pool m) ≠ 0%Z → log_open logfile o → sys o = [] →
  Forall reachable_hosts (contents ll) → length ll = length datas → length ll ≤ fuel →
  dials o = answers datas parts ++ ds →
  wp (worker_thread logfile self fuel) (λ _ s', idle s'.1 [] ∧ handed s'.1 = handed m ++ contents ll ∧
    log_open logfile s'.2 ∧ closed s'.2 = closed o ++ conversations (contents ll) parts) (m, o).
Proof.
  intros Hparts. revert fuel m ll o.
  induction Hparts as [|data pieces datas parts [Hp Hcat] Hparts IH];
    intros fuel m ll o Hsizes Hi Hsd Hlog Hsys Hhosts Hlen Hf Hdials; (destruct fuel as [|f]; simpl in Hf).
  1-3: cbn [worker_thread]; apply wpb_bind, wpb_zoom; eapply wp_dequeue_shut; [exact Hi|exact Hsd|..];
    [intros -> m' Hi' Hj Hh|intros a j l m' ->; simpl in *; lia].
  1, 2: apply wpb_ret; simpl; rewrite Hh, !app_nil_r; by split_and!.
  1: done.
  cbn [worker_thread]; apply wpb_bind, wpb_zoom; eapply wp_dequeue_shut; [exact Hi|exact Hsd|..].
  { intros -> m' _ _ _. done. }
  intros a j l m' -> Hi' Hsd' Hj Hnot Hh. simpl in Hhosts, Hlen, Hf.
  apply Forall_cons in Hhosts as [[Hsrc Htgt] Hhosts]. apply Forall_cons in Hsizes as [Hsize Hsizes].
  apply wpb_bind, wpb_zoom. eapply wp_deref_job; [simpl; by rewrite Hj, lookup_insert_eq|].
  destruct (worker_session logfile self (with_job_next NULL j) data pieces o (answers datas parts ++ ds))
    as (o' & E & Hcl & Hsys' & Hd'); [done..|].
  pose proof (wp_sync logfile self (with_job_next NULL j) o Hlog) as Hsync. unfold wpb in Hsync. rewrite E in Hsync.
  apply wpb_bind, wpb_zoom. unfold wpb at 1. simpl snd. rewrite E. apply wpb_bind, wpb_zoom.
  eapply wp_free_job; [simpl; by rewrite Hj, lookup_insert_eq|].
  eapply wpb_mono; [apply (IH f _ l o')|]; simpl; try done; [by apply idle_delete|by apply Hsync|lia|lia|].
  intros _ s' (A1 & A2 & A3 & A4). split_and!; [done| |done|].
  - simpl in A2. by rewrite A2, Hh, <-app_assoc.
  - rewrite A4, Hcl. unfold conversations. simpl. by rewrite <-app_assoc.
Qed.
End worker.

(** The worker's part in copying [js]: what the source sent arrives message by
    message, and what the worker sends are the sessions. *)
Definition worker_copies (js : list sync_job) (datas : list bytes) (parts : list (list bytes)) : Prop :=
  ∀ logfile self m ll o ds, idle m ll → contents ll = js → shutdown (pool m) ≠ 0%Z →
    log_open logfile o → sys o = [] → dials o = answers datas parts ++ ds →
    ∃ m' o', worker_thread logfile self (length js) (m, o) = Ret tt (m', o') ∧ idle m' [] ∧
      closed o' = closed o ++ conversations js parts.

Lemma worker_copies_all js datas parts :
  Forall2 pieces_of datas parts → Forall (λ d, Z.of_nat (length d) ≤ long_max)%Z datas →
  Forall reachable_hosts js → length js = length datas → worker_copies js datas parts.
Proof.
  intros Hp Hs Hh Hl logfile self m ll o ds Hi <- Hsd Hlog Hsys Hd.
  rewrite length_contents in *.
  destruct (proj1 (wp_returns _ _ _) (wp_worker_copies logfile self datas parts (length ll) m ll o ds
    Hp Hs Hi Hsd Hlog Hsys Hh Hl ltac:(lia) Hd)) as ([] & [m' o'] & E & A1 & _ & _ & A4).
  by exists m', o'.
Qed.

(** ** The listing *)

Definition list_message (path : bytes) : bytes := lit "LIST " ++ path ++ [NL].

(** The messages of a listing. *)
Definition listing (names : list bytes) : list bytes := ((λ d, d ++ [NL]) <$> names) ++ [lit "." ++ [NL]].

Lemma concat_listing names : concat (listing names) = list_text names.
Proof. unfold listing, list_text. by rewrite concat_app. Qed.

Lemma run_list client_fd path s :
  fetchable path →
  run_command client_fd (command_line (list_message path)) s = in_os (handle_list_command client_fd path) s.
Proof.
  intros H. unfold list_message. rewrite command_line_cut by (done || set_solver). unfold run_command.
  change (starts_with CMD_LIST (lit "LIST " ++ path)) with true. cbn iota.
  change (skip_spaces (drop (length CMD_LIST) (lit "LIST " ++ path))) with (skip_spaces path). by rewrite skip_spaces_fetchable.
Qed.

Lemma serve_list path entries s :
  fetchable path → length (list_message path) < MAX_COMMAND_SIZE → sys (cos s) = [] →
  dirs (cos s) !! relative_path path = Some entries → Forall (λ d, length d ≤ MAX_FILENAME) entries →
  ∃ s', (∀ rest, serve (Some (arriving [list_message path]) :: rest) s = serve rest s') ∧
    tx <$> closed (cos s') = (tx <$> closed (cos s)) ++
      [listing (filter (listed (cos s) (relative_path path)) entries)] ∧
    files (cos s') = files (cos s) ∧ sys (cos s') = [] ∧ io (cos s') = io (cos s) ∧
    fds (cos s') = fds (cos s) ∧ current_fd s' = current_fd s.
Proof.
  intros Hp Hfit Hsys Hdir Hnames. set (fd := new_fd (fds (cos s))). set (c := arriving [list_message path]).
  set (s0 := Cst (set_fds <[fd := FSock c]> (cos s)) (current_fd s)).
  set (o1 := cos (put_conn fd (with_rx [] c) s0)).
  set (c2 := sent_all (with_rx [] c) (listing (filter (listed (cos s) (relative_path path)) entries))).
  destruct (connection_one fd c (list_message path) s0 (Cst (set_fds <[fd := FSock c2]> o1) (current_fd s)) c2)
    as (s' & E & Ecur & Ecl & E1 & _ & E3 & E4 & Ef); [apply lookup_insert_eq|done..| |apply lookup_insert_eq|done|].
  { rewrite run_list by done. unfold in_os, zoom. fold o1.
    by rewrite (list_sends fd path entries (with_rx [] c) o1) by (done || apply lookup_insert_eq). }
  exists s'. split_and!.
  - intros rest. apply (serve_all_serve [_]). by rewrite (serve_all_one _ _ _ s') by (by intros ? ->).
  - by rewrite Ecl, fmap_app.
  - by rewrite E1.
  - by rewrite E3.
  - by rewrite E4.
  - rewrite Ef. simpl. rewrite !insert_insert_eq. apply delete_insert_id, new_fd_fresh.
  - done.
Qed.

(** ** The theorem *)

(** The paths of the file [d] of the pair [i], at the source and at the target. *)
Definition source_file (i : sync_info) (d : bytes) : bytes := source_dir i ++ lit "/" ++ d.
Definition target_file (i : sync_info) (d : bytes) : bytes := target_dir i ++ lit "/" ++ d.

Lemma job_for_paths i d :
  info_fits i → length d < MAX_FILENAME →
  source_path (job_for i d) = source_file i d ∧ target_path (job_for i d) = target_file i d ∧
  reachable_hosts (job_for i d) = (inet_pton (source_host i) = 1%Z ∧ inet_pton (target_host i) = 1%Z).
Proof.
  intros (H1 & H2 & H3 & H4) Hd. unfold source_path, target_path, reachable_hosts, job_path, job_for, make_job, strncpy_z.
  cbn [job_source_dir job_filename job_target_dir job_source_host job_target_host].
  rewrite !take_ge by lia. assert (MAX_PATH + MAX_FILENAME < MAX_PATH * 2) by (vm_compute; lia).
  by rewrite !snprintf_id by (rewrite !length_app; change (length (lit "/")) with 1; lia).
Qed.

(** The final directories tell file names apart. *)
Lemma target_file_inj i d d' :
  target_dir i ≠ [] → relative_path (target_file i d) = relative_path (target_file i d') → d = d'.
Proof.
  unfold target_file, relative_path. destruct (target_dir i) as [|c l]; [done|]. intros _. simpl.
  intros E. assert (l ++ "/"%char :: d = l ++ "/"%char :: d') as E'.
  { destruct c as [[] [] [] [] [] [] [] []]; by simplify_eq. }
  apply app_inv_head in E'. by injection E'.
Qed.

Lemma relative_file dir d : dir ≠ [] → relative_path (dir ++ lit "/" ++ d) = relative_path dir ++ lit "/" ++ d.
Proof. destruct dir as [|c l]; [done|]. intros _. by destruct c as [[] [] [] [] [] [] [] []]. Qed.

(** What the entries of the directory are reported as, and what they hold. *)
Definition names_of (i : sync_info) (entries : list bytes) (src : cst) : list bytes :=
  filter (listed (cos src) (relative_path (source_dir i))) entries.

Definition content_of (i : sync_info) (src : cst) (d : bytes) : bytes :=
  default [] (files (cos src) !! relative_path (source_file i d)).

(** The pair [i] can be synchronised from [src] to [tgt]. *)
Record sync_setup (i : sync_info) (entries : list bytes) (src tgt : cst) : Prop := {
  su_fits : info_fits i;
  su_full : source_host i ≠ [] ∧ source_dir i ≠ [] ∧ target_host i ≠ [] ∧ target_dir i ≠ [];
  su_hosts : inet_pton (source_host i) = 1%Z ∧ inet_pton (target_host i) = 1%Z;
  su_fetch : fetchable (source_dir i);
  su_dir : dirs (cos src) !! relative_path (source_dir i) = Some entries;
  su_entries : Forall (λ d, length d < MAX_FILENAME ∧ length (source_file i d) < MAX_PATH) entries;
  su_names : Forall (λ d, listable d ∧ pushable (target_file i d) ∧
    dirs (cos tgt) !! relative_path (target_file i d) = None) (names_of i entries src);
  su_sizes : Forall (λ d, Z.of_nat (length (content_of i src d)) ≤ long_max)%Z (names_of i entries src);
  su_src : sys (cos src) = [] ∧ Forall progress (io (cos src));
  su_tgt : current_fd tgt = (-1)%Z ∧ sys (cos tgt) = [] ∧ io (cos tgt) = []
}.

Lemma length_relative p : length (relative_path p) ≤ length p.
Proof. destruct p as [|[[] [] [] [] [] [] [] []] p]; simpl; lia. Qed.

Lemma zip_fmap {A} (f g : A → bytes) l : zip (f <$> l) (g <$> l) = (λ x, (f x, g x)) <$> l.
Proof. induction l as [|x l IH]; [done|]. rewrite !fmap_cons. simpl. f_equal. exact IH. Qed.

Lemma deliver_app l1 l2 m : deliver (l1 ++ l2) m = deliver l2 (deliver l1 m).
Proof. apply foldl_app. Qed.

Lemma deliver_found {A} (k v : A → bytes) l m x :
  (∀ y, y ∈ l → k y = k x → v y = v x) → x ∈ l → deliver ((λ y, (k y, v y)) <$> l) m !! k x = Some (v x).
Proof.
  induction l as [|y l IH] using rev_ind; intros Hv Hx; [by apply elem_of_nil in Hx|].
  rewrite fmap_app, deliver_app. simpl. destruct (decide (k y = k x)) as [E|E].
  - rewrite E, lookup_insert_eq. f_equal. apply Hv; [set_solver|done].
  - rewrite lookup_insert_ne by done. apply IH; [set_solver|]. set_unfold. naive_solver.
Qed.

Lemma deliver_kept {A} (k v : A → bytes) l m p :
  (∀ y, y ∈ l → p ≠ k y) → deliver ((λ y, (k y, v y)) <$> l) m !! p = m !! p.
Proof.
  induction l as [|y l IH] using rev_ind; intros Hp; [done|].
  rewrite fmap_app, deliver_app. simpl. rewrite lookup_insert_ne by (apply not_eq_sym, Hp; set_solver).
  apply IH. set_solver.
Qed.

(** The files [names] of the pair [i] reach [tgt] when the jobs [js] are worked
    off in this order, the source being in the state [src1]. *)
Definition copied (i : sync_info) (names : list bytes) (src src1 tgt : cst) (js : list sync_job) : Prop :=
  ∃ datas parts src2 tgt2,
    (∀ rest, serve (pulls js ++ rest) src1 = serve rest src2) ∧
    tx <$> closed (cos src2) = (tx <$> closed (cos src1)) ++ zip_with file_reply datas parts ∧
    worker_copies js datas parts ∧
    (∀ rest, serve (sessions js parts ++ rest) tgt = serve rest tgt2) ∧
    (∀ d, d ∈ names → files (cos tgt2) !! relative_path (target_file i d) =
       files (cos src) !! relative_path (source_file i d)) ∧
    (∀ p, (∀ d, d ∈ names → p ≠ relative_path (target_file i d)) →
       files (cos tgt2) !! p = files (cos tgt) !! p).

Section setup.
Context (i : sync_info) (entries : list bytes) (src tgt : cst) (Hsu : sync_setup i entries src tgt).
Let names := names_of i entries src.

Lemma names_entries d : d ∈ names → d ∈ entries ∧ listed (cos src) (relative_path (source_dir i)) d = true.
Proof. intros [H ?]%list_elem_of_filter. by split; [|apply Is_true_true]. Qed.

Lemma name_short d : d ∈ names → length d < MAX_FILENAME.
Proof. intros [H _]%names_entries. pose proof (su_entries _ _ _ _ Hsu) as HF. rewrite Forall_forall in HF. by apply HF. Qed.

Lemma name_content d :
  d ∈ names → files (cos src) !! relative_path (source_file i d) = Some (content_of i src d).
Proof.
  intros Hd. destruct (names_entries d Hd) as [He Hl].
  pose proof (su_entries _ _ _ _ Hsu) as HF. rewrite Forall_forall in HF. destruct (HF d He) as [_ Hs].
  unfold listed in Hl. apply andb_true_iff in Hl as [_ Hl%bool_decide_eq_true].
  pose proof (length_relative (source_file i d)). unfold content_of, source_file in *.
  rewrite relative_file in * by apply Hsu. rewrite snprintf_id in Hl by lia. by destruct Hl as [x ->].
Qed.

Lemma name_fetchable d : d ∈ names → fetchable (source_file i d).
Proof.
  intros Hd. pose proof (su_names _ _ _ _ Hsu) as HF. rewrite Forall_forall in HF.
  destruct (HF d Hd) as ((H1 & H2 & H3 & _) & _). destruct (su_fetch _ _ _ _ Hsu) as (F1 & F2 & F3).
  pose proof (su_full _ _ _ _ Hsu) as (_ & Hne & _). unfold source_file. split_and!.
  - rewrite !elem_of_app. set_unfold. naive_solver.
  - rewrite !elem_of_app. set_unfold. naive_solver.
  - by destruct (source_dir i).
Qed.
Lemma name_paths d :
  d ∈ names → source_path (job_for i d) = source_file i d ∧ target_path (job_for i d) = target_file i d.
Proof.
  intros Hd. destruct (job_for_paths i d) as (E1 & E2 & _); [apply Hsu|by apply name_short|done].
Qed.

(** The jobs of [l], in this order, at the source, the workers and the target. *)
Lemma jobs_copied l src1 :
  (∀ d, d ∈ l → d ∈ names) → files (cos src1) = files (cos src) →
  sys (cos src1) = [] → Forall progress (io (cos src1)) →
  let js := job_for i <$> l in let datas := content_of i src <$> l in
  ∃ parts src2 tgt2,
    (∀ rest, serve (pulls js ++ rest) src1 = serve rest src2) ∧
    tx <$> closed (cos src2) = (tx <$> closed (cos src1)) ++ zip_with file_reply datas parts ∧
    worker_copies js datas parts ∧
    (∀ rest, serve (sessions js parts ++ rest) tgt = serve rest tgt2) ∧
    files (cos tgt2) = deliver ((λ d, (relative_path (target_file i d), content_of i src d)) <$> l) (files (cos tgt)).
Proof.
  intros Hl Hfiles Hsys Hio js datas.
  pose proof (su_names _ _ _ _ Hsu) as HN. rewrite Forall_forall in HN.
  pose proof (su_sizes _ _ _ _ Hsu) as HS. rewrite Forall_forall in HS.
  destruct (serve_pulls js datas src1) as (src2 & parts & E1 & Hparts & Htx & _); [|done|done|].
  { unfold js, datas. apply Forall2_fmap, Forall_Forall2_diag, Forall_forall. intros d Hd%Hl.
    split; [..|by apply HS]; destruct (name_paths d Hd) as [-> _]; [by apply name_fetchable|].
    rewrite Hfiles. by apply name_content. }
  assert (length js = length datas) as Hlen by (unfold js, datas; by rewrite !length_fmap).
  destruct (serve_sessions js datas parts tgt) as (tgt2 & E2 & _ & F & _); [done|done| |apply Hsu..|].
  { apply Forall_fmap, Forall_forall. intros d Hd%Hl. simpl. unfold destination.
    destruct (name_paths d Hd) as [_ ->]. by destruct (HN d Hd) as (_ & ? & ?). }
  exists parts, src2, tgt2. split_and!; [intros; by apply serve_all_serve|done| |intros; by apply serve_all_serve|].
  - apply worker_copies_all; [done| | |done].
    + apply Forall_fmap, Forall_forall. intros d Hd%Hl. by apply HS.
    + apply Forall_fmap, Forall_forall. intros d Hd%Hl. simpl.
      destruct (job_for_paths i d) as (_ & _ & ->); [apply Hsu|by apply name_short|apply Hsu].
  - rewrite F. f_equal. unfold js, datas. rewrite <-zip_fmap, <-list_fmap_compose. f_equal.
    apply list_fmap_ext. intros k d Hd%list_elem_of_lookup_2%Hl. simpl. unfold destination.
    by destruct (name_paths d Hd) as [_ ->].
Qed.
Lemma permuted_copied src1 js :
  files (cos src1) = files (cos src) → sys (cos src1) = [] → Forall progress (io (cos src1)) →
  js ≡ₚ job_for i <$> names → copied i names src src1 tgt js.
Proof.
  intros F1 F2 F3 (l & -> & Hl)%Permutation_map_inv.
  assert (∀ d, d ∈ l ↔ d ∈ names) as Hin by (intros d; by rewrite Hl).
  destruct (jobs_copied l src1) as (parts & src2 & tgt2 & G1 & G2 & G3 & G4 & G5);
    [intros d; by rewrite Hin|done..|].
  exists (content_of i src <$> l), parts, src2, tgt2. split_and!; [done..| |]; rewrite G5.
  - intros d Hd. rewrite (name_content d Hd).
    apply (deliver_found (λ d, relative_path (target_file i d))); [|by apply Hin].
    intros d' _ E. apply target_file_inj in E as ->; [done|apply Hsu].
  - intros p Hp. apply deliver_kept. intros d Hd%Hin. by apply Hp.
Qed.
End setup.

Section theorem.
Context {P : Type} `{JobSink P}.

(** The manager asks a source for its directory. *)
Lemma directory_listed i entries src tgt (s : gst P) (a : loc) ds acc (names := names_of i entries src) :
  sync_setup i entries src tgt → infos (heap s) !! a = Some i → sys (net s) = [] →
  dials (net s) = Some (arriving [concat (listing names)]) :: ds →
  length (concat (listing names)) < MAX_BUFFER_SIZE → roomy s acc (length names) →
  ∃ src1 s',
    (∀ rest, serve (Some (arriving [list_command i]) :: rest) src = serve rest src1) ∧
    tx <$> closed (cos src1) = (tx <$> closed (cos src)) ++ [listing names] ∧
    files (cos src1) = files (cos src) ∧ sys (cos src1) = [] ∧ io (cos src1) = io (cos src) ∧
    fds (cos src1) = fds (cos src) ∧ current_fd src1 = current_fd src ∧
    start_directory_sync (Some a) s = Ret 0%Z s' ∧ accepting s' (acc ++ (job_for i <$> names)) ∧
    tx <$> closed (net s') = (tx <$> closed (net s)) ++ [[list_command i]].
Proof.
  intros [Hfits Hfull Hhosts Hfetch Hdir Hentries Hnames _ Hsrc _] Hi Hsys Hdials Hlen Hroom.
  rewrite Forall_forall in Hnames.
  assert (length (list_message (source_dir i)) < MAX_COMMAND_SIZE) as Hfit.
  { unfold list_message. rewrite !length_app. change (length (lit "LIST ")) with 5. cbn [length].
    destruct Hfits as (_ & ? & _). assert (MAX_PATH + 10 < MAX_COMMAND_SIZE) by (vm_compute; lia). lia. }
  assert (list_command i = list_message (source_dir i)) as Hcmd by (by apply snprintf_id).
  destruct (serve_list (source_dir i) entries src) as (src1 & E1 & Htx1 & F1 & F2 & F3 & F4 & F5);
    [done|done|apply Hsrc|done| |].
  { eapply Forall_impl; [exact Hentries|]. intros d [? _]. lia. }
  rewrite concat_listing in *.
  destruct (start_sync_lists s a i (arriving [list_text names]) names ds acc)
    as (s' & E2 & Hacc & _ & _ & Hcl); [done|done|apply Hhosts|done|done|done|done| |done|done|].
  { apply Forall_forall. intros d Hd. by apply Hnames. }
  exists src1, s'. rewrite Hcmd in *. split_and!; try done. by rewrite Hcl, fmap_app.
Qed.

(** C7: a directory is copied from client to client.  The source client
    answers the manager's LIST with messages which, arriving together, make
    [start_directory_sync] hand the pool one job per visible file.  In
    whatever order the workers finish these jobs, the source client answers
    their PULL commands, the workers turn the answers into PUSH sessions, and
    the target client, serving the sessions, ends up with a copy of every one
    of the files, its other files being untouched.  That order may be the one
    of any run of the pool's threads that accepted these jobs and whose
    workers [destroy_thread_pool] has joined. *)
Theorem directory_synchronised (i : sync_info) (entries : list bytes) (src tgt : cst)
    (s : gst P) (a : loc) (ds : list (option sock)) (acc : list sync_job)
    (Hsu : sync_setup i entries src tgt) (names := names_of i entries src)
    (Hi : infos (heap s) !! a = Some i) (Hsys : sys (net s) = [])
    (Hdials : dials (net s) = Some (arriving [concat (listing names)]) :: ds)
    (Hlen : length (concat (listing names)) < MAX_BUFFER_SIZE) (Hroom : roomy s acc (length names)) :
  ∃ src1 s',
    (∀ rest, serve (Some (arriving [list_command i]) :: rest) src = serve rest src1) ∧
    tx <$> closed (cos src1) = (tx <$> closed (cos src)) ++ [listing names] ∧
    start_directory_sync (Some a) s = Ret 0%Z s' ∧ accepting s' (acc ++ (job_for i <$> names)) ∧
    tx <$> closed (net s') = (tx <$> closed (net s)) ++ [[list_command i]] ∧
    (∀ js, js ≡ₚ job_for i <$> names → copied i names src src1 tgt js) ∧
    ∀ n b av pool, 0 < n → (0 < b ≤ int_max)%Z → reachable (init n b av) pool →
      joined (PoolSteps.main pool) → accepted pool = job_for i <$> names →
      copied i names src src1 tgt (finished pool).
Proof.
  destruct (directory_listed i entries src tgt s a ds acc)
    as (src1 & s' & E1 & Htx1 & F1 & F2 & F3 & _ & _ & E2 & Hacc & Htx2); [done..|].
  pose proof (su_src _ _ _ _ Hsu) as [_ Hio]. rewrite <-F3 in Hio.
  exists src1, s'. split_and!; [done|done|done|done|done|..].
  - intros js Hjs. by eapply permuted_copied.
  - intros n b av pool Hn Hb Hr Hj Ha. eapply permuted_copied; [exact Hsu|done..|].
    destruct (joined_drained n b av pool) as (_ & _ & Hf & _); [done..|]. by rewrite Ha in Hf.
Qed.
(** C39: the listing must not arrive as it was sent: the source client sends
    one message per name, and if the network hands the manager the first of
    them on its own, [start_directory_sync] makes a job of the first name only
    and reports success; the other names are still on the connection when it
    is closed. *)
Theorem split_listing_loses_names (i : sync_info) (d : bytes) (names : list bytes)
    (s : gst P) (a : loc) (ds : list (option sock)) (acc : list sync_job)
    (Hi : infos (heap s) !! a = Some i)
    (Hfull : source_host i ≠ [] ∧ source_dir i ≠ [] ∧ target_host i ≠ [] ∧ target_dir i ≠ [])
    (Hhost : inet_pton (source_host i) = 1%Z) (Hsys : sys (net s) = [])
    (Hdials : dials (net s) = Some (arriving (listing (d :: names))) :: ds)
    (Hd : listable d) (Hlen : length d < MAX_FILENAME) (Hroom : roomy s acc 1) :
  ∃ s', start_directory_sync (Some a) s = Ret 0%Z s' ∧ accepting s' (acc ++ [job_for i d]) ∧
    rx <$> closed (net s') = (rx <$> closed (net s)) ++ [listing names].
Proof.
  destruct (start_sync_portion s a i (arriving (listing (d :: names))) [d] [] (listing names) ds acc)
    as (s' & E & Hacc & _ & _ & Hcl); try done.
  - unfold listing, name_lines. simpl. by rewrite !app_nil_r.
  - by constructor.
  - by left.
  - destruct Hd as [Hne _]. unfold name_lines. simpl. rewrite !length_app. destruct d; simpl; [done|lia].
  - unfold name_lines. simpl. rewrite !length_app. simpl.
    assert (MAX_FILENAME + 10 < MAX_BUFFER_SIZE) by (vm_compute; lia). lia.
  - exists s'. split; [exact E|]. split; [exact Hacc|]. by rewrite Hcl, fmap_app.
Qed.
End theorem.

(** ** An example: two files *)

Definition demo_src : cst :=
  Cst (Os ∅ (<[lit "src/a" := lit "one"]> {[lit "src/b" := lit "two words"]})
         {[lit "src" := [lit "."; lit "sub"; lit "a"; lit ".."; lit "b"]]} [] [] [] []
         (Tm 125 0 1 0 0 0) [] []) (-1).

Definition demo_tgt : cst := Cst (Os ∅ {[lit "dst/b" := lit "old"]} ∅ [] [] [] [] (Tm 125 0 1 0 0 0) [] []) (-1).

Lemma demo_setup : sync_setup (new_entry 7 pair_a) [lit "."; lit "sub"; lit "a"; lit ".."; lit "b"] demo_src demo_tgt.
Proof.
  assert (names_of (new_entry 7 pair_a) [lit "."; lit "sub"; lit "a"; lit ".."; lit "b"] demo_src =
    [lit "a"; lit "b"]) as E by (vm_compute; reflexivity).
  split; rewrite ?E; try done; try (apply (bool_decide_unpack _); vm_compute; exact I).
Qed.

Lemma demo_room n h net : n ≤ 4 → roomy (set_heap h (demo_running [] net)) [] n.
Proof.
  intros Hn. destruct (demo_roomy h [] net) as (p & H1 & H2 & H3 & H4).
  exists p. split_and!; [done|done|done|]. destruct H4 as (Q1 & Q2 & Q3). split; [done|]. split; [done|].
  lia.
Qed.

Lemma directory_synchronised_witness :
  ∃ parts tgt2,
    (∀ rest, serve (sessions [job_for (new_entry 7 pair_a) (lit "b"); job_for (new_entry 7 pair_a) (lit "a")] parts ++ rest)
      demo_tgt = serve rest tgt2) ∧
    files (cos tgt2) !! lit "dst/a" = Some (lit "one") ∧ files (cos tgt2) !! lit "dst/b" = Some (lit "two words").
Proof.
  destruct (@directory_synchronised pmem demo_sink (new_entry 7 pair_a)
      [lit "."; lit "sub"; lit "a"; lit ".."; lit "b"] demo_src demo_tgt
      (set_heap demo_heap_a (demo_running [] [Some (arriving [list_text [lit "a"; lit "b"]])])) 2%positive [] [])
    as (src1 & s' & _ & _ & _ & _ & _ & Hjs & _).
  - apply demo_setup.
  - reflexivity.
  - reflexivity.
  - reflexivity.
  - vm_compute. lia.
  - apply demo_room. vm_compute. lia.
  - destruct (Hjs [job_for (new_entry 7 pair_a) (lit "b"); job_for (new_entry 7 pair_a) (lit "a")])
      as (datas & parts & src2 & tgt2 & _ & _ & _ & E & F & _).
    + apply Permutation_swap.
    + exists parts, tgt2. split; [exact E|].
      split; [trans (files (cos demo_src) !! lit "src/a")|trans (files (cos demo_src) !! lit "src/b")];
        try reflexivity; [apply (F (lit "a"))|apply (F (lit "b"))]; vm_compute; set_solver.
Defined.

Lemma split_listing_loses_names_witness :
  ∃ s', start_directory_sync (Some 2%positive) (set_heap demo_heap_a
      (demo_running [] [Some (arriving (listing [lit "a"; lit "b"]))])) = Ret 0%Z s' ∧
    accepting s' [job_for (new_entry 7 pair_a) (lit "a")].
Proof.
  destruct (@split_listing_loses_names pmem demo_sink (new_entry 7 pair_a) (lit "a") [lit "b"]
    (set_heap demo_heap_a (demo_running [] [Some (arriving (listing [lit "a"; lit "b"]))])) 2%positive [] [])
    as (s' & E & Hacc & _); [done|done|by vm_compute|done|done|by apply (bool_decide_unpack _)|by vm_compute; lia| |].
  { apply demo_room. lia. }
  exists s'. split; [exact E|exact Hacc].
Defined.
