(* ===== verification/ConfigFile.v ===== *)
(** * Loading the configuration file

    [load_config_file] read against the text of a well-formed file: comments,
    empty lines, and lines with a source and a target.  The theorem holds over
    every network and for every pool that meets [JobSink]. *)
From S2P Require Import Prelude.
From S2P Require Import LinkedList.
From S2P Require Import CString.
From S2P Require Import Common.
From S2P Require Import OS.
From S2P Require Import Utils.
From S2P Require Import DirSpec.
From S2P Require Import SyncInfo.
From S2P Require Import JobSink.
From S2P Require Import JobQueue.
From S2P Require Import Manager.
From S2P Require Import ManagerSpec.
From stdpp Require Import gmap strings list.
From Stdlib Require Import Ascii ZArith Lia.

(** ** The text of the file *)

Inductive config_item :=
| Blank
| Comment (text : bytes)
| PairLine (p : pair_text).

Definition item_line (it : config_item) : bytes :=
  match it with
  | Blank => []
  | Comment text => "#"%char :: text
  | PairLine p => source_text p ++ SP :: target_text p
  end.

Definition config_text (items : list config_item) : bytes :=
  concat ((λ it, item_line it ++ [NL]) <$> items).

(** A word of a pair's line: it fits the array [sscanf] stores it in and does
    not begin a comment. *)
Definition config_word (w : bytes) : Prop :=
  plain w ∧ (NUL ∉ w) ∧ length w < MAX_PATH * 2 ∧ list.head w ≠ Some "#"%char.

Definition item_ok (it : config_item) : Prop :=
  length (item_line it) < MAX_COMMAND_SIZE - 1 ∧ (NL ∉ item_line it) ∧
  match it with
  | PairLine p => config_word (source_text p) ∧ config_word (target_text p) ∧ pair_text_ok p
  | _ => True
  end.

(** The pairs the file asks for, in order. *)
Fixpoint pairs_of (items : list config_item) : list pair_args :=
  match items with
  | PairLine p :: l => pair_of p :: pairs_of l
  | _ :: l => pairs_of l
  | [] => []
  end.

(** The store after all of them have been added to [es]. *)
Definition add_all (now : Z) (ps : list pair_args) (es : Spec.store) : Spec.store :=
  foldl (λ es p, (Spec.add (new_entry now p) es).2) es ps.

(** Jobs the pairs may give rise to. *)
Definition jobs_of (now : Z) (ps : list pair_args) (js : list sync_job) : Prop :=
  Forall (λ j, ∃ p line, p ∈ ps ∧ listable line ∧ j = job_for (new_entry now p) line) js.

Lemma jobs_of_lines now p lines :
  Forall listable lines → jobs_of now [p] (job_for (new_entry now p) <$> lines).
Proof.
  intros H. apply Forall_fmap. eapply Forall_impl; [exact H|]. intros line Hl. exists p, line.
  split; [by left|done].
Qed.

Lemma jobs_of_app now ps1 ps2 j1 j2 :
  jobs_of now ps1 j1 → jobs_of now ps2 j2 → jobs_of now (ps1 ++ ps2) (j1 ++ j2).
Proof.
  intros H1 H2. apply Forall_app. split; [eapply Forall_impl; [exact H1|]|eapply Forall_impl; [exact H2|]];
    intros j (q & line & Hq & Hl & ->); exists q, line; rewrite elem_of_app; auto.
Qed.

Lemma pairs_of_cons it items : pairs_of (it :: items) = pairs_of [it] ++ pairs_of items.
Proof. by destruct it. Qed.

Lemma length_pairs_of items : length (pairs_of items) ≤ length items.
Proof. induction items as [|[| |p] l IH]; simpl; lia. Qed.

Lemma length_add_all now ps es : length (add_all now ps es) ≤ length es + length ps.
Proof.
  revert es. induction ps as [|p ps IH]; intros es; simpl; [lia|]. etrans; [apply IH|].
  pose proof (spec_call_length now (CAdd p) es) as Hl. simpl in Hl.
  destruct (Spec.add _ es). simpl in *. lia.
Qed.

(** ** Reading lines *)

Lemma fgets_line_text n t r :
  NL ∉ t → length t < n → fgets_line n (t ++ NL :: r) = t ++ [NL].
Proof.
  revert n. induction t as [|c t IH]; intros [|n] Ht Hn; simpl in *; try lia.
  - done.
  - rewrite decide_False by set_solver. by rewrite IH by (set_solver || lia).
Qed.

Lemma fgets_text n fd path off t r o :
  fds o !! fd = Some (FFile path off) → drop off (content o path) = t ++ NL :: r →
  NL ∉ t → length t < n - 1 →
  fgets n fd o = Ret (Some (t ++ [NL])) (set_fds <[fd := FFile path (off + length (t ++ [NL]))]> o).
Proof.
  intros Hfd Hc Ht Hn. unfold fgets, bind, get. rewrite Hfd, Hc, fgets_line_text by done.
  by destruct (t ++ [NL]) eqn:E; [destruct t|].
Qed.

Lemma fgets_end n fd path off o :
  fds o !! fd = Some (FFile path off) → drop off (content o path) = [] → fgets n fd o = Ret None o.
Proof.
  intros Hfd Hc. unfold fgets, bind, get. rewrite Hfd, Hc. by destruct (n - 1).
Qed.

Lemma pair_line_no_nul (w1 w2 : bytes) : NUL ∉ w1 → NUL ∉ w2 → NUL ∉ w1 ++ SP :: w2 ++ [NL].
Proof.
  intros H1 H2. rewrite elem_of_app, elem_of_cons, elem_of_app, list_elem_of_singleton.
  by intros [?|[[=]|[?|[=]]]].
Qed.

Section loading.
Context {P : Type} `{JobSink P}.
Implicit Types (s : gst P).

Lemma wlp_config_line it s st es acc Q :
  item_ok it → ready s st es acc → (Z.of_nat (S (length es)) ≤ int_max)%Z →
  (∀ s' js, ready s' st (add_all (clock (heap s)) (pairs_of [it]) es) (acc ++ js) →
     jobs_of (clock (heap s)) (pairs_of [it]) js → only_pairs s s' → Q tt s') →
  wlp (config_line (item_line it ++ [NL])) Q s.
Proof.
  intros (Hlen & Hnl & Hit) Hr Hmax HQ. destruct it as [|text|p].
  - apply (HQ s []); [by rewrite app_nil_r|constructor|done].
  - apply (HQ s []); [by rewrite app_nil_r|constructor|done].
  - destruct Hit as ((W1 & N1 & L1 & C1) & (W2 & N2 & L2 & _) & Hp).
    destruct p as [src dst a]. cbn [source_text target_text] in *. pose proof W1 as [Hne Hpl].
    destruct src as [|c src]; [done|]. cbn [app config_line item_line source_text target_text].
    rewrite decide_False.
    2: { apply Forall_cons in Hpl as [Hc _]. intros [->| ->]; [by vm_compute in Hc|done]. }
    apply wpb_bind. replace (c :: (src ++ SP :: dst) ++ [NL]) with ((c :: src) ++ SP :: dst ++ [NL])
      by (simpl; by rewrite <-app_assoc).
    rewrite cstr_id by (by apply pair_line_no_nul).
    rewrite sscanf_two by (done || by apply ends_word_cons). apply wpb_ret, wpb_bind.
    eapply (wlp_handle_add (PairText (c :: src) dst a)); [done..|].
    intros r s' lines Hs' Hop Hl _. apply wpb_ret, (HQ _ (job_for (new_entry (clock (heap s)) a) <$> lines));
      [done|by apply jobs_of_lines|done].
Qed.

(** What the loop keeps: the manager's structure, and every descriptor but the
    log's and the file's own. *)
Record loaded fd s s' : Prop := {
  ld_mgr : mgr s' = mgr s;
  ld_flag : shutdown_flag s' = shutdown_flag s;
  ld_reg : registered s' = registered s;
  ld_fds : ∀ k, k ≠ fd → logfile (mgr s) ≠ Some k → fds (net s') !! k = fds (net s) !! k
}.

(** The log is not the file being read, nor open on it. *)
Definition log_apart fd path s : Prop :=
  logfile (mgr s) ≠ Some fd ∧ ∀ k off, logfile (mgr s) = Some k → fds (net s) !! k ≠ Some (FFile path off).

Lemma wlp_config_lines items fuel fd path off s st es acc Q :
  Forall item_ok items → length items ≤ fuel → log_apart fd path s →
  fds (net s) !! fd = Some (FFile path off) → drop off (content (net s) path) = config_text items →
  ready s st es acc → (Z.of_nat (length es + length items) ≤ int_max)%Z →
  (∀ s' js, ready s' st (add_all (clock (heap s)) (pairs_of items) es) (acc ++ js) →
     jobs_of (clock (heap s)) (pairs_of items) js → loaded fd s s' → Q tt s') →
  wlp (config_lines fuel fd) Q s.
Proof.
  intros Hok. revert fuel off s es acc Q. induction Hok as [|it items Hit Hok IH];
    intros fuel off s es acc Q Hf [Ha1 Ha2] Hfd Hc Hr Hmax HQ.
  - destruct fuel; cbn [config_lines]; apply wpb_bind, wpb_in_net; unfold wpb at 1;
      erewrite fgets_end by done; apply wpb_ret; replace (set_net (net s) s) with s by (by destruct s);
      apply (HQ _ []); [by rewrite app_nil_r|constructor|done|by rewrite app_nil_r|constructor|done].
  - destruct fuel as [|f]; simpl in Hf; [lia|]. pose proof Hit as (Hlen & Hnl & _).
    unfold config_text in Hc. simpl in Hc. rewrite <-app_assoc in Hc. simpl in Hc. fold (config_text items) in Hc.
    cbn [config_lines]. apply wpb_bind, wpb_in_net. unfold wpb at 1. erewrite fgets_text by done.
    set (o1 := set_fds _ _). apply wpb_bind. eapply wlp_config_line; [done|by apply ready_net|simpl in *; lia|].
    simpl. intros s1 j1 Hr1 Hj1 [E1 E2 E3 E5 E4]. simpl in E1, E2, E3, E4, E5.
    assert (fds (net s1) !! fd = fds o1 !! fd) as Hfd1 by (by apply E2).
    assert (files (net s1) !! path = files (net s) !! path) as Hfile.
    { apply E2. intros k o' Hk. simpl. rewrite lookup_insert_ne by congruence. by apply Ha2. }
    eapply (IH f (off + length (item_line it ++ [NL]))); [lia| | | |exact Hr1| |].
    + split; [by rewrite E1|]. intros k o' Hk Hko. rewrite E1 in Hk.
      destruct (quiet_path _ _ _ _ _ _ E2 Hk Hko) as [o2 Ho2]. simpl in Ho2.
      rewrite lookup_insert_ne in Ho2 by congruence. by apply (Ha2 k o2).
    + rewrite Hfd1. simpl. apply lookup_insert_eq.
    + unfold content in Hc |- *. rewrite Hfile, <-drop_drop, Hc.
      by rewrite length_app, Nat.add_1_r, drop_past.
    + pose proof (length_add_all (clock (heap s)) (pairs_of [it]) es).
      pose proof (length_pairs_of [it]). simpl in *. lia.
    + intros s2 j2 Hr2 Hj2 [F1 F2 F4 F3]. rewrite E4 in Hr2, Hj2. rewrite pairs_of_cons in HQ.
      apply (HQ _ (j1 ++ j2)); [|by apply jobs_of_app|].
      * unfold add_all in *. by rewrite foldl_app, app_assoc.
      * split; [by rewrite F1|by rewrite F2|by rewrite F4|]. intros k Hk1 Hk2. rewrite F3 by (done || by rewrite E1).
        rewrite (q_fds _ _ _ E2) by done. simpl. by rewrite lookup_insert_ne.
Qed.

Lemma length_config_text items : length items ≤ length (config_text items).
Proof.
  induction items as [|it l IH]; [done|]. unfold config_text in *. cbn [fmap list_fmap concat].
  rewrite !length_app. simpl in *. lia.
Qed.

Lemma open_read_file path o c :
  sys o = [] → files o !! path = Some c →
  open_read path o = Ret (new_fd (fds o)) (set_fds <[new_fd (fds o) := FFile path 0]> o).
Proof.
  intros Hs Hf. unfold open_read, bind, sys_ok, get, open_fd. by rewrite Hs, Hf.
Qed.

Lemma wlp_load_config localtime items path s st es acc Q :
  config_file_path (mgr s) = Some path → files (net s) !! path = Some (config_text items) →
  sys (net s) = [] →
  (∀ k, logfile (mgr s) = Some k → ∃ lp off, fds (net s) !! k = Some (FFile lp off) ∧ lp ≠ path) →
  Forall item_ok items → ready s st es acc → (Z.of_nat (length es + length items) ≤ int_max)%Z →
  (∀ s' js, ready s' st (add_all (clock (heap s)) (pairs_of items) es) (acc ++ js) →
     jobs_of (clock (heap s)) (pairs_of items) js → mgr s' = mgr s → shutdown_flag s' = shutdown_flag s →
     registered s' = registered s →
     (∀ k, logfile (mgr s) ≠ Some k → fds (net s') !! k = fds (net s) !! k) → Q 0%Z s') →
  wlp (load_config_file localtime) Q s.
Proof.
  intros Hcfg Hfile Hsys Hlog Hok Hr Hmax HQ. set (fd := new_fd (fds (net s))).
  pose proof (new_fd_nonneg (fds (net s))) as Hfd. pose proof (new_fd_fresh (fds (net s))) as Hfresh.
  unfold load_config_file. apply wpb_bind, wpb_gets. rewrite Hcfg. apply wpb_bind, wpb_in_net.
  unfold wpb at 1. erewrite open_read_file by done. fold fd in Hfd, Hfresh |- *. rewrite decide_False by lia.
  apply wpb_bind, wpb_gets. apply wpb_bind. set (s1 := set_net _ s).
  assert (content (net s1) path = config_text items) as Hc by (unfold content; simpl; by rewrite Hfile).
  rewrite Hc. assert (logfile (mgr s) ≠ Some fd) as Hlfd.
  { intros Hl. destruct (Hlog fd Hl) as (lp & off & E & _). congruence. }
  eapply (wlp_config_lines items _ fd path 0 s1); [done|apply length_config_text| | |by rewrite Hc|
    by apply ready_net|done|].
  - split; [done|]. intros k off Hk. simpl. rewrite lookup_insert_ne by (intros ->; by apply Hlfd).
    destruct (Hlog k Hk) as (lp & off' & E & Hne). congruence.
  - simpl. apply lookup_insert_eq.
  - intros s2 js Hr2 Hj [E1 E2 E4 E3]. simpl in E1, E2, E3, E4, Hr2, Hj. apply wpb_bind, wpb_in_net, wpb_modify.
    pose proof Hr2 as [Hst (ll & Hrep & _) _]. apply wpb_bind, wpb_gets. simpl. rewrite Hst.
    apply wpb_bind, wpb_in_heap. eapply wp_print_sync_info_store; [done|]. intros out.
    apply wpb_ret, (HQ _ js); [|done..|].
    + destruct Hr2. by split.
    + intros k Hk. simpl. destruct (decide (k = fd)) as [->|Hne]; [by rewrite lookup_delete_eq|].
      rewrite lookup_delete_ne, E3 by done. by rewrite lookup_insert_ne.
Qed.

(** C23: loading a well-formed configuration file, over any network: every
    pair of the file is added to the store, in order, the first line for a
    source winning; comments and empty lines do nothing; a source that does
    not answer stops neither the loading nor the registration of its pair.
    Every job the pool got is for a line that the source of a listed pair
    sent, and all descriptors but the log's are as before. *)
Theorem config_file_loads (localtime : Z → tm) (items : list config_item) (path : bytes) s
    (st : loc) (es : Spec.store) (acc : list sync_job)
    (Hcfg : config_file_path (mgr s) = Some path)
    (Hfile : files (net s) !! path = Some (config_text items)) (Hsys : sys (net s) = [])
    (Hlog : ∀ k, logfile (mgr s) = Some k → ∃ lp off, fds (net s) !! k = Some (FFile lp off) ∧ lp ≠ path)
    (Hok : Forall item_ok items) (Hready : ready s st es acc)
    (Hlen : (Z.of_nat (length es + length items) ≤ int_max)%Z) :
  wlp (load_config_file localtime) (λ r s', r = 0%Z ∧ mgr s' = mgr s ∧
    ∃ js, ready s' st (add_all (clock (heap s)) (pairs_of items) es) (acc ++ js) ∧
      jobs_of (clock (heap s)) (pairs_of items) js ∧
      ∀ k, logfile (mgr s) ≠ Some k → fds (net s') !! k = fds (net s) !! k) s.
Proof. eapply wlp_load_config; [done..|]. intros s' js H1 H2 H3 _ _ H4. eauto 7. Qed.
End loading.

(** ** An example: a comment, an empty line and a pair *)

Definition demo_items : list config_item := [Comment (lit " pairs"); Blank; PairLine demo_text].

Lemma demo_items_ok : Forall item_ok demo_items.
Proof.
  assert (∀ it, bool_decide (length (item_line it) < MAX_COMMAND_SIZE - 1 ∧ NL ∉ item_line it) = true →
    length (item_line it) < MAX_COMMAND_SIZE - 1 ∧ NL ∉ item_line it) as Hl by (by intros it ?%bool_decide_eq_true).
  assert (∀ w, bool_decide ((w ≠ [] ∧ Forall (λ c, isspace c = false) w) ∧ (NUL ∉ w) ∧
    length w < MAX_PATH * 2 ∧ list.head w ≠ Some "#"%char) = true → config_word w) as Hw
    by (by intros w ?%bool_decide_eq_true).
  assert (∀ it, match it with PairLine _ => False | _ => True end →
    bool_decide (length (item_line it) < MAX_COMMAND_SIZE - 1 ∧ NL ∉ item_line it) = true → item_ok it) as Hi
    by (intros [] H1 [H2 H3]%Hl; by split_and!).
  apply Forall_cons. split; [apply Hi; by vm_compute|].
  apply Forall_cons. split; [apply Hi; by vm_compute|].
  apply Forall_singleton. destruct (Hl (PairLine demo_text)) as [H1 H2]; [by vm_compute|].
  split_and!; [exact H1|exact H2| | |apply demo_text_ok]; apply Hw; by vm_compute.
Qed.

Definition demo_localtime (t : Z) : tm := Tm 125 0 1 0 0 t.

Lemma config_file_loads_witness :
  wlp (load_config_file demo_localtime) (λ r s', r = 0%Z ∧
    ∃ js, ready s' 1 [new_entry 7 pair_a] js ∧ jobs_of 7 [pair_a] js)
    (demo_running (config_text demo_items) []).
Proof.
  eapply wpb_mono.
  - apply (@config_file_loads pmem demo_sink demo_localtime demo_items (lit "config")
      (demo_running (config_text demo_items) []) 1%positive [] []);
      [done|done|done| |apply demo_items_ok|apply demo_ready|by vm_compute].
    intros k [= <-]. exists (lit "m.log"), 0. split; [done|]. by vm_compute.
  - intros r s' (Hr & _ & js & H1 & H2 & _). split; [done|]. by exists js.
Defined.
