(* ===== verification/ManagerLife.v ===== *)
(** * The life of the manager: start, commands from a console, end

    [initialize_manager], [cleanup_manager], the two loops and [main] of
    [Manager.v], for every pool that meets [JobSink]. *)
From S2P Require Import Prelude.
From S2P Require Import LinkedList.
From S2P Require Import CString.
From S2P Require Import Common.
From S2P Require Import OS.
From S2P Require Import Utils.
From S2P Require Import DirSpec.
From S2P Require Import SyncInfo.
From S2P Require Import JobSink.
From S2P Require Import JobQueue.
From S2P Require Import Manager.
From S2P Require Import ManagerSpec.
From S2P Require Import ConfigFile.
From stdpp Require Import gmap strings list.
From Stdlib Require Import Ascii ZArith Lia.

(** ** Words of a command *)

(** What may follow the last word of a command. *)
Definition blank (r : bytes) : Prop := skip_ws r = [].

#[global] Instance blank_dec r : Decision (blank r).
Proof. unfold blank. apply _. Defined.

Lemma blank_ends_word r : blank r → ends_word r.
Proof.
  intros Hr c r' ->. unfold blank in Hr. simpl in Hr. destruct (isspace c); done.
Qed.

(** A word of a command from the console, with the array it goes to. *)
Definition arg_word (n : nat) (w : bytes) : Prop := plain w ∧ length w < n.

#[global] Instance arg_word_dec n w : Decision (arg_word n w).
Proof. unfold arg_word, plain. apply _. Defined.

Definition console_fmt : list directive := [DStr; DSpace; DStr; DSpace; DStr].

Lemma scan_blank ds r acc : blank r → acc ≠ [] → scan (DSpace :: DStr :: ds) r acc = (Z.of_nat (length acc), acc).
Proof.
  intros Hr Ha. cbn [scan]. rewrite Hr. unfold scan_eof. by rewrite decide_False.
Qed.

Lemma scan_next ds w r acc :
  plain w → ends_word r → scan (DSpace :: DStr :: ds) (SP :: w ++ r) acc = scan ds r (acc ++ [VStr w]).
Proof.
  intros Hw Hr. rewrite scan_space, skip_ws_blank, skip_ws_plain by done. by apply scan_str.
Qed.

Section words.
Context {S : Type}.

Lemma sscanf_words (n1 n2 n3 : nat) (b : bytes) (r : Z * list sval) :
  scan console_fmt b [] = r → fits [n1; n2; n3] r.2 = true →
  sscanf (S := S) b "%s %s %s" [n1; n2; n3] = ret r.
Proof.
  intros Hs Hf. unfold sscanf. change (parse_fmt (lit "%s %s %s")) with console_fmt. rewrite Hs. by rewrite Hf.
Qed.

Lemma sscanf_word1 n1 n2 n3 w1 r :
  arg_word n1 w1 → blank r →
  sscanf (S := S) (w1 ++ r) "%s %s %s" [n1; n2; n3] = ret (1%Z, [VStr w1]).
Proof.
  intros [H1 L1] Hr. apply sscanf_words.
  - unfold console_fmt. rewrite (scan_str _ w1 r []) by (done || by apply blank_ends_word).
    by apply scan_blank.
  - simpl. by rewrite bool_decide_true.
Qed.

Lemma sscanf_word2 n1 n2 n3 w1 w2 r :
  arg_word n1 w1 → arg_word n2 w2 → blank r →
  sscanf (S := S) (w1 ++ SP :: w2 ++ r) "%s %s %s" [n1; n2; n3] = ret (2%Z, [VStr w1; VStr w2]).
Proof.
  intros [H1 L1] [H2 L2] Hr. apply sscanf_words.
  - unfold console_fmt. rewrite (scan_str _ w1 _ []) by (done || by apply ends_word_cons).
    rewrite scan_next by (done || by apply blank_ends_word). by apply scan_blank.
  - simpl. by rewrite !bool_decide_true.
Qed.

Lemma sscanf_word3 n1 n2 n3 w1 w2 w3 r :
  arg_word n1 w1 → arg_word n2 w2 → arg_word n3 w3 → ends_word r →
  sscanf (S := S) (w1 ++ SP :: w2 ++ SP :: w3 ++ r) "%s %s %s" [n1; n2; n3] =
    ret (3%Z, [VStr w1; VStr w2; VStr w3]).
Proof.
  intros [H1 L1] [H2 L2] [H3 L3] Hr. apply sscanf_words.
  - unfold console_fmt. rewrite (scan_str _ w1 _ []) by (done || by apply ends_word_cons).
    rewrite scan_next by (done || by apply ends_word_cons). by rewrite scan_next by done.
  - simpl. by rewrite !bool_decide_true.
Qed.
End words.

Section life.
Context {P : Type} `{JobSink P}.
Implicit Types (s : gst P).

(** ** Initialisation that fails *)

(** Every call of the operating system and every allocation succeeds. *)
Definition no_failures s : Prop := sys (net s) = [] ∧ avail (heap s) = [].

Lemma create_store_ok h :
  avail h = [] →
  create_sync_info_store h = Ret (Some (brk h)) (bump (set_stores <[brk h := Store NULL false 0]> h)).
Proof.
  intros Ha. unfold create_sync_info_store, bind, lib_ok, get, modify, ret. rewrite Ha. simpl.
  by rewrite Ha.
Qed.

Lemma open_trunc_ok path o :
  sys o = [] → dirs o !! path = None →
  open_trunc path o = Ret (new_fd (fds o))
    (set_fds <[new_fd (fds o) := FFile path 0]> (set_files <[path := []]> o)).
Proof.
  intros Hs Hd. unfold open_trunc, bind, sys_ok, get, modify, open_fd. by rewrite Hs, Hd.
Qed.

Lemma rep_fresh h st : stores h !! st = Some (Store NULL false 0) → rep h st [].
Proof. intros Hst. exists NULL. split_and!; [done|done|constructor|done]. Qed.

(** A store that is gone cannot be destroyed. *)
Lemma destroy_freed_store h st :
  stores h !! st = None → destroy_sync_info_store (Some st) h = UB UseAfterFree.
Proof.
  intros Hst. unfold destroy_sync_info_store, lock, deref_store, bind, get. by rewrite Hst.
Qed.

(** When the thread pool cannot be created, [initialize_manager] destroys
    the store but keeps the pointer to it, and [cleanup_manager], which [main]
    calls next, destroys it again: the mutex of a freed store is locked. *)
Theorem failed_pool_double_free s (path : bytes)
    (Hpath : logfile_path (mgr s) = Some path) (Hdir : dirs (net s) !! path = None)
    (Hok : no_failures s) (Hpool : thread_pool s = NULL)
    (Hnew : sink_new (worker_limit (mgr s)) (queue_limit (mgr s)) (creation s) = NULL) :
  ∃ s1, initialize_manager s = Ret (-1)%Z s1 ∧ cleanup_manager s1 = UB UseAfterFree.
Proof.
  destruct Hok as [Hsys Hav].
  assert (wp initialize_manager (λ r s1, r = (-1)%Z ∧ thread_pool s1 = NULL ∧
    ∃ st, sync_store (mgr s1) = Some st ∧ stores (heap s1) !! st = None) s)
    as (r & s1 & E & -> & Hp1 & st & Hst & Hgone)%wp_returns.
  { unfold initialize_manager. apply wpb_bind, wpb_gets, wpb_bind, wpb_in_net. rewrite Hpath.
    unfold wpb at 1. erewrite open_trunc_ok by done.
    rewrite decide_False by (pose proof (new_fd_nonneg (fds (net s))); lia).
    apply wpb_bind, wpb_modify, wpb_bind, wpb_modify, wpb_bind, wpb_in_net.
    unfold wpb at 1. rewrite create_server_ok by done.
    apply wpb_bind, wpb_modify. rewrite decide_False by (match goal with |- context [new_fd ?m] =>
      pose proof (new_fd_nonneg m); lia end).
    apply wpb_bind, wpb_in_heap. unfold wpb at 1. simpl. rewrite create_store_ok by done.
    apply wpb_bind, wpb_modify, wpb_bind, wpb_gets, wpb_bind, wpb_modify. simpl. rewrite Hnew.
    apply wpb_bind, wpb_in_heap. eapply (wp_destroy_sync_info_store _ _ []).
    { apply rep_fresh. simpl. apply lookup_insert_eq. }
    intros h' Hs' _ _ _ _. apply wpb_ret. simpl. split_and!; [done..|].
    eexists. split; [done|]. rewrite Hs'. apply lookup_delete_eq. }
  exists s1. split; [done|]. unfold cleanup_manager, in_pool. unfold bind at 1. rewrite Hp1.
  unfold bind at 1, modify. unfold bind at 1, gets. cbn [mgr set_thread_pool]. rewrite Hst.
  unfold bind at 1, in_heap, zoom. cbn [heap set_thread_pool]. by rewrite destroy_freed_store.
Qed.

(** When the log file cannot be opened, [cleanup_manager] closes
    descriptor 0: [server_sockfd] is still the 0 that [memset] put there. *)
Theorem failed_log_closes_stdin s (l : list bool)
    (Hconf : configured (mgr s)) (Hsys : sys (net s) = false :: l) (Hpool : thread_pool s = NULL) :
  ∃ s1 s2, initialize_manager s = Ret (-1)%Z s1 ∧ cleanup_manager s1 = Ret tt s2 ∧
    fds (net s2) = delete 0%Z (fds (net s)).
Proof.
  destruct Hconf as (_ & _ & _ & _ & _ & Hlog & Hfd & Hst & _).
  assert (wp initialize_manager (λ r s1, r = (-1)%Z ∧ mgr s1 = mgr s ∧ thread_pool s1 = NULL ∧
    fds (net s1) = fds (net s)) s) as (r & s1 & E & -> & Em & Ep & Ef)%wp_returns.
  { unfold initialize_manager. apply wpb_bind, wpb_gets, wpb_bind, wpb_in_net.
    unfold wpb at 1, open_trunc, bind, sys_ok, get, ret. rewrite Hsys. done. }
  exists s1. assert (wp cleanup_manager (λ _ s2, fds (net s2) = delete 0%Z (fds (net s))) s1)
    as ([] & s2 & E2 & H2)%wp_returns; [|by exists s2].
  unfold cleanup_manager. apply wpb_bind. unfold wpb at 1, in_pool. rewrite Ep.
  apply wpb_bind, wpb_modify, wpb_bind, wpb_gets, wpb_bind, wpb_in_heap. simpl. rewrite Em, Hst.
  apply wpb_ret, wpb_bind, wpb_modify, wpb_bind. rewrite Hlog. apply wpb_ret, wpb_bind.
  rewrite Hfd. simpl. apply wpb_bind, wpb_in_net, wpb_modify, wpb_modify, wpb_bind, wpb_modify, wpb_modify.
  simpl. by rewrite Ef.
Qed.

(** ** A start on which every call succeeds *)

(** What [initialize_manager] leaves: the log open on [lf], the listening
    socket on [sf], an empty store and a fresh pool. *)
Record started s s' (path : bytes) (lf sf : Z) : Prop := {
  st_mgr : mgr s' = with_sync_store (Some 1%positive) (with_server_sockfd sf (with_logfile (Some lf) (mgr s)));
  st_new : (0 ≤ lf)%Z ∧ (0 ≤ sf)%Z ∧ lf ≠ sf ∧ fds (net s) !! lf = None ∧ fds (net s) !! sf = None;
  st_log : ∃ off, fds (net s') !! lf = Some (FFile path off);
  st_listen : fds (net s') !! sf = Some (FListen (htons (port (mgr s))));
  st_fds : ∀ k, k ≠ lf → k ≠ sf → fds (net s') !! k = fds (net s) !! k;
  st_files : ∀ q, q ≠ path → files (net s') !! q = files (net s) !! q;
  st_sys : sys (net s') = [];
  st_dials : dials (net s') = dials (net s);
  st_flag : shutdown_flag s' = shutdown_flag s;
  st_reg : registered s' = registered s;
  st_clock : clock (heap s') = clock (heap s)
}.

(** What the start relies on: the log can be opened, nothing fails, and the
    pool is created. *)
Record can_start s (path : bytes) : Prop := {
  cs_path : logfile_path (mgr s) = Some path;
  cs_dir : dirs (net s) !! path = None;
  cs_sys : sys (net s) = [];
  cs_heap : heap s = empty_heap (clock (heap s));
  cs_workers : (0 < worker_limit (mgr s))%Z;
  cs_limit : (0 < queue_limit (mgr s) ≤ int_max)%Z;
  cs_pool : sink_new (worker_limit (mgr s)) (queue_limit (mgr s)) (creation s) ≠ NULL
}.

Lemma wp_initialize b s path Q :
  can_start s path →
  (∀ s' lf sf, started s s' path lf sf → ready s' 1 [] [] → Q 0%Z s') →
  wpb b initialize_manager Q s.
Proof.
  intros [Hpath Hdir Hsys Hheap Hw Hl Hpool] HQ.
  destruct (sink_new _ _ _) as [p|] eqn:Ep; [|done]. clear Hpool.
  pose proof Ep as (Hp1 & Hp2 & _)%sink_new_spec; [|done|done].
  set (lf := new_fd (fds (net s))). pose proof (new_fd_nonneg (fds (net s))) as Hlf.
  pose proof (new_fd_fresh (fds (net s))) as Hlf'. fold lf in Hlf, Hlf'.
  set (f1 := <[lf := FFile path 0]> (fds (net s))). set (sf := new_fd f1).
  pose proof (new_fd_nonneg f1) as Hsf. pose proof (new_fd_fresh f1) as Hsf'. fold sf in Hsf, Hsf'.
  assert (lf ≠ sf) as Hne by (intros E; unfold f1 in Hsf'; by rewrite <-E, lookup_insert_eq in Hsf').
  unfold initialize_manager. apply wpb_bind, wpb_gets, wpb_bind, wpb_in_net. rewrite Hpath.
  unfold wpb at 1. erewrite open_trunc_ok by done. rewrite decide_False by lia.
  apply wpb_bind, wpb_modify, wpb_bind, wpb_modify, wpb_bind, wpb_in_net.
  unfold wpb at 1. rewrite create_server_ok by done.
  apply wpb_bind, wpb_modify. simpl. fold lf. fold f1. fold sf. rewrite decide_False by lia.
  apply wpb_bind, wpb_in_heap. unfold wpb at 1. simpl.
  destruct (create_store_empty (clock (heap s))) as (h & Hh & Ho & Hck & _).
  rewrite Hheap, Hh. apply wpb_bind, wpb_modify, wpb_bind, wpb_gets, wpb_bind, wpb_modify. simpl. rewrite Ep.
  apply wpb_bind, wp_log. intros o' Ho' Hs' Hd' _. simpl in Ho', Hs', Hd'. apply wpb_ret, (HQ _ lf sf).
  - split; simpl; try done.
    + split_and!; try done. unfold f1 in Hsf'. by rewrite lookup_insert_ne in Hsf'.
    + destruct (q_log _ _ _ Ho' lf eq_refl) as [E|(q & o1 & o2 & E1 & E2)]; simpl in *.
      * exists 0. rewrite E, lookup_insert_ne by done. apply lookup_insert_eq.
      * rewrite lookup_insert_ne in E1 by done. rewrite lookup_insert_eq in E1. injection E1 as <- <-. eauto.
    + eapply quiet_other; [exact Ho'|simpl; apply lookup_insert_eq|done].
    + intros k H1 H2. rewrite (q_fds _ _ _ Ho') by congruence. simpl. by rewrite !lookup_insert_ne.
    + intros q Hq. rewrite (q_files _ _ _ Ho'); simpl.
      * by rewrite lookup_insert_ne.
      * intros k off [= <-]. rewrite lookup_insert_ne, lookup_insert_eq by done. congruence.
    + by rewrite Hs'.
  - split; [done|exact Ho|]. exists p. by split_and!.
Qed.

(** When every call succeeds, [initialize_manager] returns 0 with the log
    open, a socket listening at the port, an empty store and a pool that has
    accepted nothing; every other descriptor and file is as it was. *)
Theorem initialize_ready s (path : bytes) (Hstart : can_start s path) :
  ∃ s' lf sf, initialize_manager s = Ret 0%Z s' ∧ started s s' path lf sf ∧ ready s' 1 [] [].
Proof.
  assert (wp initialize_manager (λ r s', r = 0%Z ∧ ∃ lf sf, started s s' path lf sf ∧ ready s' 1 [] []) s)
    as (r & s' & E & -> & lf & sf & H1 & H2)%wp_returns by (eapply wp_initialize; eauto 6).
  by exists s', lf, sf.
Qed.

(** ** Cleaning up *)

(** Exactly the log and the listening socket of [s] are closed in [s']. *)
Definition own_fds_closed s s' : Prop := ∀ k, fds (net s') !! k =
  if decide (logfile (mgr s) = Some k ∨ k = server_sockfd (mgr s) ∧ (0 ≤ k)%Z) then None else fds (net s) !! k.

Lemma wp_cleanup b s st es acc Q :
  ready s st es acc →
  (∀ s', thread_pool s' = NULL → sync_store (mgr s') = NULL → logfile (mgr s') = NULL →
     dom (infos (heap s')) = ∅ → stores (heap s') = delete st (stores (heap s)) →
     files (net s') = files (net s) →
     own_fds_closed s s' →
     Q tt s') →
  wpb b cleanup_manager Q s.
Proof.
  intros [Hst (ll & Hrep & _ & Hdom & _) (p & Hp & Hinv & _)] HQ. unfold own_fds_closed in HQ. unfold cleanup_manager. apply wpb_bind.
  eapply wpb_in_pool; [done|].
  assert (wpb b sink_destroy (λ _ _, True) p) as Hd.
  { pose proof (sink_destroy_spec p Hinv) as Hd. unfold wpb in *. by destruct (sink_destroy p). }
  eapply wpb_mono; [exact Hd|]. intros [] p' _.
  apply wpb_bind, wpb_modify, wpb_bind, wpb_gets, wpb_bind, wpb_in_heap. simpl. rewrite Hst.
  eapply wp_destroy_sync_info_store; [exact Hrep|]. intros h' Hs' _ _ _ Hi.
  assert (dom (infos h') = ∅) as Hinf by (rewrite Hi, Hdom; set_solver).
  apply wpb_bind, wpb_modify, wpb_bind. destruct (mgr s) as [lp cp wl po ql lf sf ss sr] eqn:Em. simpl in *.
  destruct lf as [lf|].
  - apply wpb_bind, wpb_in_net, wpb_modify, wpb_bind, wpb_modify, wpb_modify, wpb_bind. simpl. case_decide as Hs.
    + apply wpb_bind, wpb_in_net, wpb_modify, wpb_modify, wpb_bind, wpb_modify, wpb_modify. apply HQ; simpl; rewrite ?Em; try done.
      intros k. simpl. case_decide as Hk; [destruct Hk as [[= <-]|[-> _]]|].
      * destruct (decide (lf = sf)) as [->|?]; [apply lookup_delete_eq|].
        rewrite lookup_delete_ne by done. apply lookup_delete_eq.
      * apply lookup_delete_eq.
      * rewrite !lookup_delete_ne; [done|..]; naive_solver.
    + apply wpb_ret, wpb_bind, wpb_modify, wpb_modify. apply HQ; simpl; rewrite ?Em; try done.
      intros k. simpl. case_decide as Hk; [destruct Hk as [[= <-]|[-> ?]]; [apply lookup_delete_eq|lia]|].
      rewrite lookup_delete_ne; [done|]. naive_solver.
  - apply wpb_ret, wpb_bind. simpl. case_decide as Hs.
    + apply wpb_bind, wpb_in_net, wpb_modify, wpb_modify, wpb_bind, wpb_modify, wpb_modify. apply HQ; simpl; rewrite ?Em; try done.
      intros k. simpl. case_decide as Hk; [destruct Hk as [?|[-> _]]; [done|apply lookup_delete_eq]|].
      rewrite lookup_delete_ne; [done|]. naive_solver.
    + apply wpb_ret, wpb_bind, wpb_modify, wpb_modify. apply HQ; simpl; rewrite ?Em; try done.
      intros k. simpl. case_decide as Hk; [destruct Hk as [?|[-> ?]]; [done|lia]|done].
Qed.
(** [cleanup_manager] returns with the pool, the store, its pairs and the
    log gone, and of all descriptors closes exactly the log's and the
    listening socket's. *)
Theorem cleanup_releases s (st : loc) (es : Spec.store) (acc : list sync_job) (Hready : ready s st es acc) :
  ∃ s', cleanup_manager s = Ret tt s' ∧ thread_pool s' = NULL ∧ sync_store (mgr s') = NULL ∧
    logfile (mgr s') = NULL ∧ dom (infos (heap s')) = ∅ ∧ stores (heap s') = delete st (stores (heap s)) ∧
    files (net s') = files (net s) ∧
    own_fds_closed s s'.
Proof.
  assert (wp cleanup_manager (λ _ s', thread_pool s' = NULL ∧ sync_store (mgr s') = NULL ∧
    logfile (mgr s') = NULL ∧ dom (infos (heap s')) = ∅ ∧ stores (heap s') = delete st (stores (heap s)) ∧
    files (net s') = files (net s) ∧
    own_fds_closed s s') s) as ([] & s' & E & Hs')%wp_returns; [|by exists s'].
  eapply wp_cleanup; [exact Hready|]. intros s' H1 H2 H3 H4 H5 H6 H7. by split_and!.
Qed.

(** ** Commands of the console *)

(** The replies to "add" and "cancel" for each result. *)
Definition add_reply (result : Z) (arg1 : bytes) : bytes :=
  if decide (result = 0)%Z then lit "Added sync pair successfully" ++ [NL]
  else if decide (result = 1)%Z then lit "Already in queue: " ++ arg1 ++ [NL]
  else lit "Error adding sync pair" ++ [NL].

Definition cancel_reply (result : Z) (arg1 : bytes) : bytes :=
  if decide (result = 0)%Z then lit "Synchronization stopped for " ++ arg1 ++ [NL]
  else if decide (result = 1)%Z then lit "Directory not being synchronized: " ++ arg1 ++ [NL]
  else lit "Error canceling synchronization" ++ [NL].

Lemma console_add a1 a2 r s :
  arg_word MAX_PATH a1 → arg_word MAX_PATH a2 → ends_word r →
  console_command (CMD_ADD ++ SP :: a1 ++ SP :: a2 ++ r) s =
    (result <- handle_add_command (Some a1) (Some a2) ;; ret (add_reply result a1, false)) s.
Proof.
  intros H1 H2 Hr. unfold console_command. rewrite sscanf_word3 by (done || by apply (bool_decide_unpack _)). done.
Qed.

Lemma console_cancel a1 r s :
  arg_word MAX_PATH a1 → blank r →
  console_command (CMD_CANCEL ++ SP :: a1 ++ r) s =
    (result <- handle_cancel_command (Some a1) ;; ret (cancel_reply result a1, false)) s.
Proof.
  intros H1 Hr. unfold console_command. rewrite sscanf_word2 by (done || by apply (bool_decide_unpack _)). done.
Qed.

Lemma console_shutdown r s :
  blank r →
  console_command (CMD_SHUTDOWN ++ r) s =
    (handle_shutdown_command ;;; ret (lit "Shutting down manager..." ++ [NL], true)) s.
Proof.
  intros Hr. unfold console_command. rewrite sscanf_word1 by (done || by apply (bool_decide_unpack _)). done.
Qed.

(** The three commands of the console do what they say: "add" and "cancel"
    with their arguments run [handle_add_command] and [handle_cancel_command]
    on exactly these arguments and reply according to the result, "shutdown"
    runs [handle_shutdown_command] and ends the connection.  A command word
    on its own that is none of these is answered "Invalid command" and
    changes nothing. *)
Theorem console_dispatch s (a1 a2 r w : bytes)
    (H1 : arg_word MAX_PATH a1) (H2 : arg_word MAX_PATH a2) (Hr : blank r) (Hw : arg_word 64 w)
    (Hother : w ≠ CMD_SHUTDOWN) :
  console_command (CMD_ADD ++ SP :: a1 ++ SP :: a2 ++ r) s =
    (result <- handle_add_command (Some a1) (Some a2) ;; ret (add_reply result a1, false)) s ∧
  console_command (CMD_CANCEL ++ SP :: a1 ++ r) s =
    (result <- handle_cancel_command (Some a1) ;; ret (cancel_reply result a1, false)) s ∧
  console_command (CMD_SHUTDOWN ++ r) s =
    (handle_shutdown_command ;;; ret (lit "Shutting down manager..." ++ [NL], true)) s ∧
  console_command (w ++ r) s = Ret (lit "Invalid command: " ++ (w ++ r) ++ [NL], false) s.
Proof.
  split_and!; [apply console_add; [done|done|by apply blank_ends_word]|by apply console_cancel|
    by apply console_shutdown|].
  unfold console_command. rewrite sscanf_word1 by done. unfold bind, ret. simpl.
  by rewrite bool_decide_false.
Qed.

(** Two inputs the console's peer can send are undefined: a message of
    white space only, after which [strcmp] reads a command that was never
    written, and a first word of 64 bytes or more, which overflows the array
    it is scanned into. *)
Theorem console_input_undefined s (b w r : bytes)
    (Hb : blank b) (Hw : plain w) (Hr : ends_word r) (Hlong : 64 ≤ length w) :
  console_command b s = UB UninitialisedRead ∧ console_command (w ++ r) s = UB BufferOverflow.
Proof.
  split.
  - unfold console_command, bind, sscanf. change (parse_fmt (lit "%s %s %s")) with console_fmt.
    unfold console_fmt. cbn [scan]. rewrite Hb. done.
  - unfold console_command, bind. by erewrite sscanf_overflow.
Qed.
(** ** Shutting down *)

(** The manager has been told to stop, and so has its pool. *)
Record stopping s s' (acc : list sync_job) : Prop := {
  sd_mgr : mgr s' = with_shutdown_requested 1 (mgr s);
  sd_heap : heap s' = heap s;
  sd_flag : shutdown_flag s' = 1%Z;
  sd_pool : ∃ p, thread_pool s' = Some p ∧ sink_inv p ∧ sink_accepted p = acc ∧ sink_closed p = true;
  sd_net : quiet (logfile (mgr s)) (net s) (net s');
  sd_closed : closed (net s') = closed (net s)
}.

Lemma wp_handle_shutdown b s acc Q :
  accepting s acc → (∀ s', stopping s s' acc → Q 0%Z s') → wpb b handle_shutdown_command Q s.
Proof.
  intros (p & Hp & Hinv & Hacc) HQ. unfold handle_shutdown_command.
  apply wpb_bind, wpb_modify, wpb_bind, wpb_modify.
  apply wpb_bind, wp_log. intros o1 Ho1 _ _ C1. apply wpb_bind, wp_log. intros o2 Ho2 _ _ C2.
  apply wpb_bind. eapply wpb_in_pool; [exact Hp|].
  assert (wpb b sink_shutdown (λ _ p', sink_inv p' ∧ sink_accepted p' = sink_accepted p ∧ sink_closed p' = true) p) as Hd.
  { pose proof (sink_shutdown_spec p Hinv) as Hd. unfold wpb in *. by destruct (sink_shutdown p). }
  eapply wpb_mono; [exact Hd|]. intros [] p' (I' & A' & C').
  apply wpb_bind, wp_log. intros o3 Ho3 _ _ C3. apply wpb_bind, wp_log. intros o4 Ho4 _ _ C4.
  apply wpb_ret, HQ. simpl in *. split; try done; simpl.
  - exists p'. split_and!; [done..|congruence|done].
  - by repeat (etrans; [eassumption|]).
  - congruence.
Qed.

Lemma running_false s : shutdown_flag s = 1%Z → running s = false.
Proof. intros E. unfold running. rewrite E. by rewrite andb_false_r. Qed.

(** A loop that is told to stop does not look at further events. *)
Lemma server_loop_stops events s : running s = false → server_loop events s = Ret tt s.
Proof. intros E. destruct events; simpl; unfold bind, gets; by rewrite E. Qed.

Lemma console_loop_stops fd events s : running s = false → console_loop fd events s = Ret tt s.
Proof. intros E. destruct events; simpl; unfold bind, gets; by rewrite E. Qed.

Lemma start_line_no_nul r : NUL ∉ r → NUL ∉ CMD_SHUTDOWN ++ r.
Proof.
  intros Hr. rewrite elem_of_app. intros [Hc|?]; [|done].
  assert (¬ (NUL ∈ CMD_SHUTDOWN)) as Hn by (by apply (bool_decide_unpack _)). done.
Qed.

(** C33: "shutdown" from a console that connects ends the main loop whatever
    other events there are: the reply is sent, the connection closed, the pool
    told to stop with every accepted job still in it, and no descriptor other
    than the log is changed. *)
Theorem shutdown_ends_server s (c : sock) (r : bytes) (l : list bytes) (acc : list sync_job)
    (evs : list select_ev) (events : list server_ev)
    (Hrun : running s = true) (Hacc : accepting s acc) (Hr : blank r) (Hnul : NUL ∉ r)
    (Hlen : length (CMD_SHUTDOWN ++ r) < MAX_COMMAND_SIZE)
    (Hrx : rx c = (CMD_SHUTDOWN ++ r) :: l) (Htx : tx_script c = []) :
  ∃ s', server_loop (SrvConsole c (SelReady :: evs) :: events) s = Ret tt s' ∧
    running s' = false ∧ heap s' = heap s ∧
    (∃ p, thread_pool s' = Some p ∧ sink_inv p ∧ sink_accepted p = acc ∧ sink_closed p = true) ∧
    (∀ k, logfile (mgr s) ≠ Some k → fds (net s') !! k = fds (net s) !! k) ∧
    closed (net s') = closed (net s) ++
      [Sock l (rx_reset c) (tx c ++ [lit "Shutting down manager..." ++ [NL]]) []].
Proof.
  set (fd := new_fd (fds (net s))). pose proof (new_fd_nonneg (fds (net s))) as Hfd.
  pose proof (new_fd_fresh (fds (net s))) as Hfresh. fold fd in Hfd, Hfresh.
  set (c1 := Sock l (rx_reset c) (tx c) (tx_script c)).
  set (s1 := set_net (set_fds <[fd := FSock c1]> (net s)) s).
  assert (wp (console_command (CMD_SHUTDOWN ++ r)) (λ a s2, a = (lit "Shutting down manager..." ++ [NL], true) ∧
    stopping s1 s2 acc) s1) as (a & s2 & E & -> & [D1 D2 D3 D4 D5 D6])%wp_returns.
  { unfold wpb. rewrite console_shutdown by done.
    change (wp (handle_shutdown_command ;;; ret (lit "Shutting down manager..." ++ [NL], true))
      (λ a s2, a = (lit "Shutting down manager..." ++ [NL], true) ∧ stopping s1 s2 acc) s1).
    apply wpb_bind, (wp_handle_shutdown _ _ acc); [by destruct Hacc as (p & ?); exists p|].
    intros s2 Hs2. by apply wpb_ret. }
  assert (fds (net s2) !! fd = Some (FSock c1)) as Hsock.
  { eapply quiet_other; [exact D5|simpl; apply lookup_insert_eq|done]. }
  assert (reply_text (lit "Shutting down manager..." ++ [NL]) = lit "Shutting down manager..." ++ [NL]) as Et
    by (by vm_compute).
  set (s3 := set_net (close_fd fd (set_fds <[fd := FSock (sent c1 (lit "Shutting down manager..." ++ [NL]))]> (net s2))) s2).
  assert (wp (server_loop (SrvConsole c (SelReady :: evs) :: events)) (λ _ s', s' = s3) s)
    as ([] & s' & E' & ->)%wp_returns.
  { cbn [server_loop]. apply wpb_bind, wpb_gets. rewrite Hrun. cbn [negb].
    apply wpb_bind, wpb_in_net. unfold wpb at 1, open_fd. fold fd.
    apply wpb_bind. unfold handle_console_connection. rewrite decide_False by lia. cbn [console_loop].
    apply wpb_bind, wpb_bind, wpb_gets. change (running _) with (running s). rewrite Hrun. cbn [negb].
    apply wpb_bind, wpb_in_net. unfold wpb at 1.
    erewrite recv_first; [|apply lookup_insert_eq|exact Hrx|lia].
    rewrite decide_False by (rewrite length_app; simpl; lia).
    rewrite cstr_id by (by apply start_line_no_nul). apply wpb_bind. unfold wpb at 1.
    replace (set_net _ _) with s1 by (unfold s1, set_net, set_fds; simpl; by rewrite insert_insert_eq).
    rewrite E. apply wpb_bind, wpb_in_net. rewrite Et. unfold wpb at 1. erewrite sys_send_all by done.
    apply wpb_ret, wpb_in_net, wpb_modify. unfold wpb. by rewrite server_loop_stops by (by apply running_false). }
  exists s3. split; [exact E'|].
  assert (∀ k, logfile (mgr s) ≠ Some k → fds (net s3) !! k = fds (net s) !! k) as Hk.
  { intros k Hk. simpl. destruct (decide (k = fd)) as [->|Hne]; [by rewrite lookup_delete_eq|].
    rewrite lookup_delete_ne, lookup_insert_ne, (q_fds _ _ _ D5) by done. simpl. by rewrite lookup_insert_ne. }
  split_and!; [by apply running_false|done|exact D4|exact Hk|].
  simpl. rewrite lookup_insert_eq, D6. simpl. unfold sent. simpl. by rewrite Htx.
Qed.
(** ** The whole program *)

(** Rounds of the main loop in which nothing happens. *)
Definition idle_event (e : server_ev) : Prop :=
  match e with SrvTimeout | SrvNoAccept => True | _ => False end.

Lemma server_loop_idle pre events s :
  running s = true → Forall idle_event pre → server_loop (pre ++ events) s = server_loop events s.
Proof.
  intros Hrun Hpre. induction Hpre as [|e pre He _ IH]; [done|]. simpl. unfold bind at 1, gets at 1.
  rewrite Hrun. by destruct e.
Qed.

(** A signal ends the loop. *)
Lemma server_loop_signal b pre events s Q :
  running s = true → Forall idle_event pre → registered s = true →
  Q tt (set_mgr (with_shutdown_requested 1) (set_flag 1 s)) →
  wpb b (server_loop (pre ++ SrvSignal :: events)) Q s.
Proof.
  intros Hrun Hpre Hreg HQ. unfold wpb. rewrite server_loop_idle by done. fold (wpb b (server_loop (SrvSignal :: events)) Q s).
  cbn [server_loop]. apply wpb_bind, wpb_gets. rewrite Hrun. cbn [negb]. unfold signal_handler.
  apply wpb_bind, wpb_bind, wpb_modify, wpb_bind, wpb_gets. simpl. rewrite Hreg. apply wpb_modify.
  unfold wpb. by rewrite server_loop_stops by (by apply running_false).
Qed.

End life.

(** ** Examples *)

Definition demo_argv : list bytes :=
  [lit "nfs_manager"; lit "-l"; lit "m.log"; lit "-c"; lit "config"; lit "-n"; lit "2"; lit "-p"; lit "9000";
   lit "-b"; lit "4"].

Definition demo_configured : manager :=
  Manager (Some (lit "m.log")) (Some (lit "config")) 2 9000 4 NULL 0 NULL 0.

(** Before [initialize_manager]; [calls] and [script] say what fails. *)
Definition demo_fresh (calls script : list bool) : gst pmem :=
  Gst demo_configured (Os ∅ {[lit "config" := config_text demo_items]} ∅ calls [] [] [] (Tm 125 0 1 0 0 0) [] [])
    (empty_heap 7) NULL 0 NULL script false.

Lemma failed_pool_double_free_witness :
  ∃ s1, initialize_manager (demo_fresh [] [false]) = Ret (-1)%Z s1 ∧ cleanup_manager s1 = UB UseAfterFree.
Proof.
  apply (@failed_pool_double_free pmem demo_sink (demo_fresh [] [false]) (lit "m.log")); reflexivity || by split.
Defined.

Lemma failed_log_closes_stdin_witness :
  ∃ s1 s2, initialize_manager (demo_fresh [false] []) = Ret (-1)%Z s1 ∧ cleanup_manager s1 = Ret tt s2 ∧
    fds (net s2) = delete 0%Z (fds (net (demo_fresh [false] []))).
Proof.
  apply (@failed_log_closes_stdin pmem demo_sink (demo_fresh [false] []) []); [|done|done].
  unfold configured, int_max. simpl. split_and!; eauto; lia.
Defined.

Lemma demo_can_start s :
  mgr s = demo_configured → dirs (net s) = ∅ → sys (net s) = [] → heap s = empty_heap 7 → creation s = [] →
  can_start s (lit "m.log").
Proof.
  intros E1 E2 E3 E4 E5. split; rewrite ?E1, ?E2, ?E3, ?E4, ?E5; done.
Qed.

Lemma initialize_ready_witness :
  ∃ s' lf sf, initialize_manager (demo_fresh [] []) = Ret 0%Z s' ∧
    started (demo_fresh [] []) s' (lit "m.log") lf sf ∧ ready s' 1 [] [].
Proof. apply (@initialize_ready pmem demo_sink). by apply demo_can_start. Defined.

Lemma cleanup_releases_witness :
  ∃ s', cleanup_manager (demo_running [] []) = Ret tt s' ∧ fds (net s') !! 3%Z = None ∧ fds (net s') !! 4%Z = None.
Proof.
  destruct (@cleanup_releases pmem demo_sink (demo_running [] []) 1%positive [] []) as (s' & E & _ & _ & _ & _ & _ & _ & Hf);
    [apply demo_ready|]. exists s'. split; [exact E|]. rewrite (Hf 3%Z), (Hf 4%Z). split; vm_compute; reflexivity.
Defined.

Lemma console_dispatch_witness :
  console_command (lit "cancel /src@10.0.0.1:8001") (demo_running [] []) =
    (result <- handle_cancel_command (Some (lit "/src@10.0.0.1:8001")) ;;
     ret (cancel_reply result (lit "/src@10.0.0.1:8001"), false)) (demo_running [] []).
Proof.
  apply (@console_dispatch pmem demo_sink (demo_running [] []) (lit "/src@10.0.0.1:8001") (lit "/dst@10.0.0.2:8002") []
    (lit "status")); by apply (bool_decide_unpack _).
Defined.

Lemma console_input_undefined_witness :
  console_command [NL] (demo_running [] []) = UB UninitialisedRead ∧
  console_command (replicate 64 "a"%char ++ []) (demo_running [] []) = UB BufferOverflow.
Proof.
  apply (@console_input_undefined pmem demo_sink); [done|by apply (bool_decide_unpack _)|apply ends_word_nil|].
  by apply (bool_decide_unpack _).
Defined.

Definition demo_console : sock := Sock [lit "shutdown"] false [] [].

Lemma shutdown_ends_server_witness :
  ∃ s', server_loop [SrvConsole demo_console [SelReady]] (demo_running [] []) = Ret tt s' ∧
    closed (net s') = [Sock [] false [lit "Shutting down manager..." ++ [NL]] []].
Proof.
  destruct (@shutdown_ends_server pmem demo_sink (demo_running [] []) demo_console [] [] [] [] [])
    as (s' & E & _ & _ & _ & _ & Hc); [done|apply demo_ready|done|by apply (bool_decide_unpack _)| |done|done|].
  { vm_compute. lia. }
  exists s'. split; [exact E|exact Hc].
Defined.

