(* ===== verification/ManagerTypes.v ===== *)
(** * The types of the manager's data

    What the declarations of [common.h] leave implicit, as a typing of the
    model: every character array holds a string with its terminator, ports
    are positive [int]s, [active] is a truth value.  Whatever is asked of the
    manager, with whatever texts, and whatever the network answers, the
    entries of the store and the jobs of the pool are well typed, and no
    request does anything undefined. *)
From S2P Require Import Prelude.
From S2P Require Import LinkedList.
From S2P Require Import CString.
From S2P Require Import Common.
From S2P Require Import OS.
From S2P Require Import Utils.
From S2P Require Import DirSpec.
From S2P Require Import SyncInfo.
From S2P Require Import JobSink.
From S2P Require Import JobQueue.
From S2P Require Import Manager.
From S2P Require Import ManagerSpec.
From S2P Require Import ManagerLife.
From stdpp Require Import gmap strings list.
From Stdlib Require Import Ascii ZArith Lia.

(** ** Typing *)

(** A string in an array of [n] characters. *)
Definition text_ok (n : nat) (s : bytes) : Prop := length s < n ∧ (NUL ∉ s).

Definition port_ok (z : Z) : Prop := (0 < z ≤ int_max)%Z.

Record info_ok (i : sync_info) : Prop := {
  io_shost : text_ok MAX_HOST_SIZE (source_host i);
  io_sport : port_ok (source_port i);
  io_sdir : text_ok MAX_PATH (source_dir i);
  io_thost : text_ok MAX_HOST_SIZE (target_host i);
  io_tport : port_ok (target_port i);
  io_tdir : text_ok MAX_PATH (target_dir i);
  io_active : active i = 0%Z ∨ active i = 1%Z;
  io_errors : error_count i = 0%Z
}.

Record job_ok (j : sync_job) : Prop := {
  jo_shost : text_ok MAX_HOST_SIZE (job_source_host j);
  jo_sport : port_ok (job_source_port j);
  jo_sdir : text_ok MAX_PATH (job_source_dir j);
  jo_thost : text_ok MAX_HOST_SIZE (job_target_host j);
  jo_tport : port_ok (job_target_port j);
  jo_tdir : text_ok MAX_PATH (job_target_dir j);
  jo_name : text_ok MAX_FILENAME (job_filename j) ∧ job_filename j ≠ []
}.

Lemma text_ok_cut n m s : 0 < n → text_ok m s ∨ (NUL ∉ s) → text_ok n (strncpy_z n s).
Proof.
  intros Hn Hs. assert (NUL ∉ s) as Hnul by (by destruct Hs as [[_ ?]|?]).
  unfold strncpy_z. split; [rewrite length_take; lia|].
  intros Hin. apply Hnul. by eapply subseteq_take.
Qed.

Lemma new_entry_ok now p :
  (NUL ∉ pa_shost p) → (NUL ∉ pa_sdir p) → (NUL ∉ pa_thost p) → (NUL ∉ pa_tdir p) →
  port_ok (pa_sport p) → port_ok (pa_tport p) → info_ok (new_entry now p).
Proof. intros. split; simpl; try done; try (apply (text_ok_cut _ 0); [vm_compute; lia|by right]). by right. Qed.

(** The job made of a well-typed entry and a line of a listing. *)
Lemma job_for_ok i line : info_ok i → listable line → job_ok (job_for i line).
Proof.
  intros [A1 A2 A3 A4 A5 A6 _ _] (H1 & _ & H3 & _). split; simpl; try done;
    try (by eapply text_ok_cut; [vm_compute; lia|left]).
  split; [eapply (text_ok_cut _ 0); [vm_compute; lia|by right]|]. by destruct line.
Qed.

(** Where the parts of a specification come from. *)
Lemma spec_of_typed s host port dir :
  (NUL ∉ s) → spec_of s host port dir → (NUL ∉ host) ∧ (NUL ∉ dir) ∧ port_ok port.
Proof.
  intros Hn (rest & -> & _ & _ & _ & _ & -> & Hp). rewrite !elem_of_app, !elem_of_cons, !elem_of_app in Hn.
  split_and!; [tauto|tauto|]. split; [done|]. apply atoi_range.
Qed.

Lemma deactivate_ok host port dir es :
  Forall info_ok es → Forall info_ok (Spec.deactivate host port dir es).
Proof.
  induction 1 as [|e es He Hes IH]; simpl; [constructor|]. case_match; constructor; try done.
  destruct He. by split; simpl; auto.
Qed.

(** ** Requests *)

(** What can be asked of the manager: the commands of the configuration file
    and the console, with any texts, and a signal. *)
Inductive request :=
| RAdd (source target : ptr bytes)
| RCancel (source : ptr bytes)
| RShutdown
| RSignal.

Definition c_string (s : ptr bytes) : Prop := from_option (λ t, NUL ∉ t) True s.

Definition request_ok (r : request) : Prop :=
  match r with
  | RAdd source target => c_string source ∧ c_string target
  | RCancel source => c_string source
  | _ => True
  end.

#[global] Instance c_string_dec s : Decision (c_string s).
Proof. destruct s; unfold c_string; simpl; apply _. Defined.
#[global] Instance request_ok_dec r : Decision (request_ok r).
Proof. destruct r; simpl; apply _. Defined.

Lemma spec_or_error s :
  (∃ host port dir, spec_of s host port dir) ∨ (parse_directory_spec (Some s) (Some no_out)).1 = (-1)%Z.
Proof.
  destruct (parse_directory_spec (Some s) (Some no_out)) as [r out] eqn:E.
  destruct (decide (r = 0%Z)) as [->|Hr].
  - left. apply parse_spec_sound in E as (h & p & d & Hs & _). eauto.
  - right. simpl. destruct out as [out|].
    + destruct (parse_spec_fits s no_out r out) as [_ [?|?]]; [by split|done|done|done].
    + revert E. unfold parse_directory_spec. repeat case_match; by intros [= <-].
Qed.

Section requests.
Context {P : Type} `{JobSink P}.
Implicit Types (s : gst P).

Definition run_request (r : request) : M (gst P) Z :=
  match r with
  | RAdd source target => handle_add_command source target
  | RCancel source => handle_cancel_command source
  | RShutdown => handle_shutdown_command
  | RSignal => signal_handler ;;; ret 0%Z
  end.

Fixpoint run_requests (rs : list request) : M (gst P) unit :=
  match rs with
  | [] => ret tt
  | r :: rs => run_request r ;;; run_requests rs
  end.

(** The entries of the store and the jobs of the pool have their types, and
    the store has room for [n] more entries. *)
Definition well_typed (n : nat) s : Prop :=
  ∃ st es acc, ready s st es acc ∧ Forall info_ok es ∧ Forall job_ok acc ∧
    (Z.of_nat (length es + n) ≤ int_max)%Z.

Lemma well_typed_less n m s : m ≤ n → well_typed n s → well_typed m s.
Proof. intros Hm (st & es & acc & ? & ? & ? & ?). exists st, es, acc. split_and!; [done..|lia]. Qed.

(** A text that is no specification is refused, and nothing happens. *)
Lemma add_refused source target s :
  (parse_directory_spec (Some source) (Some no_out)).1 = (-1)%Z ∨
  (parse_directory_spec (Some target) (Some no_out)).1 = (-1)%Z →
  handle_add_command (Some source) (Some target) s = Ret (-1)%Z s.
Proof.
  unfold handle_add_command. destruct (parse_directory_spec (Some source) _) as [r o].
  destruct (parse_directory_spec (Some target) _) as [r' o']. simpl.
  by intros [->| ->]; repeat case_match.
Qed.

Lemma cancel_refused source s :
  (parse_directory_spec (Some source) (Some no_out)).1 = (-1)%Z →
  handle_cancel_command (Some source) s = Ret (-1)%Z s.
Proof.
  unfold handle_cancel_command. destruct (parse_directory_spec (Some source) _) as [r o]. simpl.
  by intros ->.
Qed.

Lemma add_typed source target n s :
  c_string source → c_string target → well_typed (S n) s →
  wlp (handle_add_command source target) (λ _ s', well_typed n s') s.
Proof.
  intros Hs Ht Hw. pose proof (well_typed_less (S n) n s ltac:(lia) Hw) as Hn.
  destruct source as [source|], target as [target|]; try exact Hn.
  destruct (spec_or_error source) as [(h1 & p1 & d1 & S1)|E]; [|unfold wpb; rewrite add_refused by auto; exact Hn].
  destruct (spec_or_error target) as [(h2 & p2 & d2 & S2)|E]; [|unfold wpb; rewrite add_refused by auto; exact Hn].
  destruct (spec_of_typed _ _ _ _ Hs S1) as (? & ? & ?), (spec_of_typed _ _ _ _ Ht S2) as (? & ? & ?).
  destruct Hw as (st & es & acc & Hr & Hes & Hacc & Hmax).
  set (a := PairArgs h1 p1 d1 h2 p2 d2). assert (info_ok (new_entry (clock (heap s)) a)) as He by (by apply new_entry_ok).
  eapply (wlp_handle_add (PairText source target a)); [done|exact Hr|lia|].
  intros r s' lines Hr' _ Hl _. simpl pair_of in Hr'.
  exists st, (Spec.add (new_entry (clock (heap s)) a) es).2, (acc ++ (job_for (new_entry (clock (heap s)) a) <$> lines)).
  split; [exact Hr'|]. split_and!.
  - unfold Spec.add. case_match; [done|by constructor].
  - apply Forall_app. split; [done|]. apply Forall_fmap. eapply Forall_impl; [exact Hl|].
    intros line Hline. by apply job_for_ok.
  - unfold Spec.add. case_match; simpl; lia.
Qed.

Lemma cancel_typed source n s :
  well_typed n s → wlp (handle_cancel_command source) (λ _ s', well_typed n s') s.
Proof.
  intros Hw. destruct source as [source|]; [|exact Hw].
  destruct (spec_or_error source) as [(h & p & d & Hs)|E]; [|unfold wpb; rewrite cancel_refused by auto; exact Hw].
  destruct Hw as (st & es & acc & Hr & Hes & Hacc & Hmax).
  eapply wp_handle_cancel; [exact Hs|exact Hr|]. intros s' Hr' _ _.
  exists st, (spec_cancel h p d es).2, acc. split; [done|]. unfold spec_cancel in *.
  destruct (Spec.find h p d es); simpl; split_and!; try done; [by apply deactivate_ok|].
  pose proof (f_equal length (deactivate_keys h p d es)) as El. rewrite !length_fmap in El. lia.
Qed.

Lemma request_typed r n s :
  request_ok r → well_typed (S n) s → wlp (run_request r) (λ _ s', well_typed n s') s.
Proof.
  intros Hr Hw. pose proof (well_typed_less (S n) n s ltac:(lia) Hw) as Hn. destruct r as [source target|source| |]; simpl.
  - destruct Hr. by apply add_typed.
  - by apply cancel_typed.
  - destruct Hn as (st & es & acc & [R1 R2 R3] & Hes & Hacc & Hmax).
    eapply wp_handle_shutdown; [exact R3|]. intros s' [E1 E2 _ (p & ? & ? & ? & _) _ _].
    exists st, es, acc. split; [|done]. split; [by rewrite E1|by rewrite E2|by exists p].
  - unfold signal_handler. apply wpb_bind, wpb_bind, wpb_modify, wpb_bind, wpb_gets.
    destruct (registered _); [apply wpb_modify, wpb_ret|apply wpb_ret, wpb_ret];
      destruct Hn as (st & es & acc & [R1 R2 R3] & ?); exists st, es, acc; by split.
Qed.

Lemma requests_typed (rs : list request) s :
  Forall request_ok rs → well_typed (length rs) s → wlp (run_requests rs) (λ _ s', well_typed 0 s') s.
Proof.
  intros Hrs. revert s. induction Hrs as [|r rs Hr Hrs IH]; intros s Hs; [exact Hs|].
  cbn [run_requests]. apply wpb_bind. eapply wpb_mono; [by apply (request_typed r (length rs))|]. intros ? s' Hs'. by apply IH.
Qed.

(** C18: the manager's data stay well typed: whatever requests are made, with
    whatever texts (C strings), over whatever network, none of them does
    anything undefined, and afterwards every entry of the store and every job
    the pool has accepted holds strings that fit their arrays, ports that are
    positive [int]s and a truth value for [active]. *)
Theorem manager_well_typed (rs : list request) s
    (Hrs : Forall request_ok rs) (Hs : well_typed (length rs) s) :
  wlp (run_requests rs) (λ _ s', well_typed 0 s') s.
Proof. by apply requests_typed. Qed.
End requests.

Lemma manager_well_typed_witness :
  wlp (run_requests [RAdd (Some (lit "/src@10.0.0.1:8001")) (Some (lit "/dst@10.0.0.2:8002"));
      RAdd (Some (lit "nonsense")) NULL; RCancel (Some (lit "/src@10.0.0.1:8001")); RSignal; RShutdown])
    (λ _ s', well_typed 0 s') (demo_running [] [Some (Sock [lit "a" ++ [NL] ++ lit "b"] true [] [])]).
Proof.
  apply (@manager_well_typed pmem demo_sink).
  - apply (bool_decide_unpack _). vm_compute. exact I.
  - exists 1%positive, [], []. split_and!; [apply demo_ready|constructor|constructor|by vm_compute].
Defined.
