(* ===== verification/Console.v ===== *)
(** * The console: [src/nfs_console.c]

    [process_user_command] splits and validates a line, [send_command_to_manager]
    sends it and waits for the answer, and [main] reads lines until the input
    ends, the connection fails or "shutdown" has been sent.  The standard
    input is the byte string still to be read; the texts printed on the
    standard output are not modelled, and [strdup] is taken to succeed. *)
From S2P Require Import Prelude.
From S2P Require Import LinkedList.
From S2P Require Import CString.
From S2P Require Import Common.
From S2P Require Import OS.
From S2P Require Import Utils.
From S2P Require Import DirSpec.
From S2P Require Import SyncInfo.
From S2P Require Import JobSink.
From S2P Require Import JobQueue.
From S2P Require Import Manager.
From S2P Require Import ManagerSpec.
From S2P Require Import ConfigFile.
From S2P Require Import ManagerLife.
From stdpp Require Import gmap strings list.
From Stdlib Require Import Ascii ZArith Lia.

(** ** Operations *)

(** The time stamp of a log line. *)
Definition stamp (now : tm) : bytes := lit "[" ++ default [] (get_timestamp now 32) ++ lit "] ".

Definition console_log_command (logfile : ptr Z) (command : bytes) : M os unit :=
  now <- gets now ;;
  match logfile with
  | Some fd => append_log fd (stamp now ++ lit "Command " ++ command ++ [NL])
  | NULL => ret tt
  end.

(** [strcpy] into an array of [n] bytes. *)
Definition strcpy {S} (n : nat) (src : bytes) : M S bytes :=
  if decide (length src < n) then ret src else undef BufferOverflow.

Definition line_text (input : bytes) : bytes :=
  match strchr input NL with Some i => take i input | None => input end.

(** The result and what is left in [command] and [args]; the caller's arrays
    have 64 and [MAX_PATH * 2] bytes. *)
Definition process_user_command {S} (input : bytes) : M S (Z * bytes * bytes) :=
  let input_copy := line_text input in
  p <- match strchr input_copy SP with
       | Some space =>
           command <- strcpy 64 (take space input_copy) ;;
           args <- strcpy (MAX_PATH * 2) (drop (1 + space) input_copy) ;;
           ret (command, args)
       | None => command <- strcpy 64 input_copy ;; ret (command, [])
       end ;;
  let '(command, args) := p in
  if bool_decide (command = CMD_ADD) then
    r <- sscanf args "%s %s" [MAX_PATH; MAX_PATH] ;;
    ret ((if decide (r.1 ≠ 2) then -1 else 0)%Z, command, args)
  else if bool_decide (command = CMD_CANCEL) then
    ret ((if decide (args = []) then -1 else 0)%Z, command, args)
  else if bool_decide (command = CMD_SHUTDOWN) then ret (0%Z, command, args)
  else ret ((-1)%Z, command, args).

Definition send_command_to_manager (sockfd : Z) (command : bytes) (logfile : ptr Z) : M os Z :=
  r <- send_command sockfd (Some command) ;;
  if decide (r ≠ 0)%Z then ret (-1)%Z else
  r <- receive_response sockfd MAX_BUFFER_SIZE ;;
  let '(received, response) := r in
  if decide (received < 0)%Z then ret (-1)%Z else
  match logfile with
  | Some fd =>
      now <- gets now ;;
      append_log fd (stamp now ++ lit "Response: " ++ response) ;;;
      ret 0%Z
  | NULL => ret 0%Z
  end.

(** [full_command] *)
Definition full_command (command args : bytes) : bytes :=
  if decide (0 < length args) then snprintf MAX_COMMAND_SIZE (command ++ SP :: args) else command.

(** The loop of [main] over the standard input. *)
Fixpoint console_session (fuel : nat) (sockfd logfile : Z) (stdin : bytes) : M os unit :=
  let line := fgets_line (MAX_COMMAND_SIZE - 1) stdin in
  let rest := drop (length line) stdin in
  match line, fuel with
  | [], _ => ret tt
  | _ :: _, 0 => no_fuel
  | c :: _, S f =>
      if decide (c = NL) then console_session f sockfd logfile rest else
      let input := cstr line in
      if starts_with (lit "help") input then console_session f sockfd logfile rest else
      r <- process_user_command input ;;
      let '(z, command, args) := r in
      if decide (z ≠ 0)%Z then console_session f sockfd logfile rest else
      let full := full_command command args in
      console_log_command (Some logfile) full ;;;
      z <- send_command_to_manager sockfd full (Some logfile) ;;
      if decide (z ≠ 0)%Z then ret tt else
      if bool_decide (command = CMD_SHUTDOWN) then ret tt else
      console_session f sockfd logfile rest
  end.

Record console_args := ConsoleArgs { ca_log : ptr bytes; ca_host : ptr bytes; ca_port : Z }.

(** [None] is the jump to [usage]. *)
Fixpoint console_options (argv : list bytes) (a : console_args) : option console_args :=
  match argv with
  | [] => Some a
  | [_] => None
  | opt :: arg :: rest =>
      if bool_decide (opt = lit "-l") then console_options rest (ConsoleArgs (Some arg) (ca_host a) (ca_port a))
      else if bool_decide (opt = lit "-h") then console_options rest (ConsoleArgs (ca_log a) (Some arg) (ca_port a))
      else if bool_decide (opt = lit "-p") then
        let port := atoi arg in
        if decide (port <= 0)%Z then None
        else console_options rest (ConsoleArgs (ca_log a) (ca_host a) port)
      else None
  end.

Definition console_main (argv : list bytes) (stdin : bytes) : M os Z :=
  match console_options (tail argv) (ConsoleArgs NULL NULL 0) with
  | Some (ConsoleArgs (Some logfile_path) (Some host) port) =>
      if decide (port = 0)%Z then ret 1%Z else
      logfile <- open_trunc logfile_path ;;
      if decide (logfile < 0)%Z then ret 1%Z else
      sockfd <- connect_to_server (Some host) port ;;
      if decide (sockfd < 0)%Z then sys_close logfile ;;; ret 1%Z else
      console_session (length stdin) sockfd logfile stdin ;;;
      cleanup_socket sockfd ;;;
      sys_close logfile ;;;
      ret 0%Z
  | _ => ret 1%Z
  end.

(** ** The text of a line *)

Lemma strchr_none_app s c r : c ∉ s → strchr (s ++ r) c = (λ n, length s + n) <$> strchr r c.
Proof.
  induction s as [|x s IH]; simpl; intros Hc; [by destruct (strchr r c)|].
  rewrite decide_False by set_solver. rewrite IH by set_solver. by destruct (strchr r c).
Qed.

(** The rest of a line, after its text. *)
Definition line_end (r : bytes) : Prop := r = [] ∨ ∃ r', r = NL :: r'.

Lemma line_text_app t r : NL ∉ t → line_end r → line_text (t ++ r) = t.
Proof.
  intros Ht [->|[r' ->]]; unfold line_text.
  - rewrite app_nil_r. by rewrite (proj2 (strchr_None t NL)).
  - rewrite strchr_app by done. apply take_before.
Qed.

Lemma length_line_text s : length (line_text s) ≤ length s.
Proof. unfold line_text. destruct (strchr s NL); [rewrite length_take|]; lia. Qed.

Lemma length_word s : length (word s).1 + length (word s).2 = length s.
Proof.
  induction s as [|c s IH]; simpl; [done|]. destruct (isspace c); simpl; [done|].
  destruct (word s). simpl in *. lia.
Qed.

Lemma length_skip_ws s : length (skip_ws s) ≤ length s.
Proof. induction s as [|c s IH]; simpl; [lia|]. destruct (isspace c); simpl; lia. Qed.

Lemma skip_ws_idem s : skip_ws (skip_ws s) = skip_ws s.
Proof. induction s as [|c s IH]; simpl; [done|]. destruct (isspace c) eqn:E; [done|]. simpl. by rewrite E. Qed.

(** "%s %s" on a text shorter than both arrays: it counts the words. *)
Definition two_words (s : bytes) : Prop := skip_ws s ≠ [] ∧ skip_ws (word (skip_ws s)).2 ≠ [].

#[global] Instance two_words_dec s : Decision (two_words s).
Proof. unfold two_words. apply _. Defined.

Lemma scan_two_words {S} s n (st : S) :
  length s < n →
  ∃ r, sscanf s "%s %s" [n; n] st = Ret r st ∧ (r.1 = 2%Z ↔ two_words s).
Proof.
  intros Hn. unfold sscanf. change (parse_fmt (lit "%s %s")) with [DStr; DSpace; DStr]. cbn [scan].
  pose proof (length_skip_ws s) as L1. unfold two_words. destruct (skip_ws s) as [|c1 s1] eqn:E1.
  { eexists. split; [reflexivity|]. split; [done|]. by intros []. }
  pose proof (length_word (c1 :: s1)) as L2. destruct (word (c1 :: s1)) as [w1 r1] eqn:E2. cbn [fst snd] in L2.
  cbn [fst snd]. rewrite skip_ws_idem. pose proof (length_skip_ws r1) as L3. destruct (skip_ws r1) as [|c2 s2] eqn:E3.
  { cbn [app]. unfold scan_eof. rewrite decide_False by done. simpl. rewrite bool_decide_true by lia.
    eexists. split; [reflexivity|]. split; [done|]. by intros []. }
  pose proof (length_word (c2 :: s2)) as L4. destruct (word (c2 :: s2)) as [w2 r2] eqn:E4. cbn [fst snd] in L4.
  simpl. rewrite !bool_decide_true by lia. eexists. split; [reflexivity|].
  split; [done|]. intros _. done.
Qed.

(** ** [process_user_command] *)

(** What the console accepts. *)
Definition valid_command (command args : bytes) : Prop :=
  command = CMD_ADD ∧ two_words args ∨ command = CMD_CANCEL ∧ args ≠ [] ∨ command = CMD_SHUTDOWN.

Lemma commands_distinct : CMD_ADD ≠ CMD_CANCEL ∧ CMD_ADD ≠ CMD_SHUTDOWN ∧ CMD_CANCEL ≠ CMD_SHUTDOWN.
Proof. by vm_compute. Qed.

Lemma process_split {S} (command args r : bytes) (st : S) :
  SP ∉ command → NL ∉ command → length command < 64 →
  NL ∉ args → length args < MAX_PATH → line_end r →
  ∃ z, process_user_command (command ++ SP :: args ++ r) st = Ret (z, command, args) st ∧
    (z = 0 ∧ valid_command command args ∨ z = -1 ∧ ¬ valid_command command args)%Z.
Proof.
  intros Hsp Hnl Hlen Hnla Hla Hr. unfold process_user_command.
  replace (command ++ SP :: args ++ r) with ((command ++ SP :: args) ++ r) by (by rewrite <-app_assoc).
  rewrite line_text_app; [|rewrite elem_of_app, elem_of_cons; by intros [?|[?|?]]|done].
  rewrite strchr_app by done. rewrite take_before.
  change (drop (1 + length command)) with (drop (A := ascii) (Datatypes.S (length command))). rewrite drop_past. unfold strcpy.
  rewrite !decide_True by (unfold MAX_PATH in *; lia). unfold bind, ret. unfold valid_command.
  pose proof commands_distinct as (D1 & D2 & D3). repeat case_bool_decide; subst.
  - destruct (scan_two_words args MAX_PATH st Hla) as (x & E & Hx). rewrite E.
    case_decide; (eexists; split; [done|]); [right|left]; (split; [done|]); naive_solver.
  - case_decide; (eexists; split; [done|]); [right|left]; (split; [done|]); naive_solver.
  - eexists. split; [done|]. left. auto.
  - eexists. split; [done|]. right. split; [done|]. naive_solver.
Qed.

(** [process_user_command] splits a line at its first space into the
    command and its arguments, drops the newline, and accepts exactly "add"
    with two words, "cancel" with something after it, and "shutdown". *)
Theorem process_user_command_correct (command args r : bytes)
    (Hcmd : (SP ∉ command) ∧ (NL ∉ command) ∧ length command < 64)
    (Hargs : (NL ∉ args) ∧ length args < MAX_PATH) (Hr : line_end r) :
  ∃ z, process_user_command (S := unit) (command ++ SP :: args ++ r) tt = Ret (z, command, args) tt ∧
    (z = 0 ∧ valid_command command args ∨ z = -1 ∧ ¬ valid_command command args)%Z.
Proof. destruct Hcmd as (H1 & H2 & H3), Hargs as [H4 H5]. by apply process_split. Qed.

(** A command word of 64 bytes or more overflows the array [command] of
    the console's [main], and arguments of 2048 bytes or more its array
    [args], although [main] reads lines of up to 4095 bytes. *)
Theorem process_user_command_overflow (command args r : bytes)
    (Hcmd : (SP ∉ command) ∧ (NL ∉ command)) (Hargs : NL ∉ args) (Hr : line_end r)
    (Hlong : 64 ≤ length command ∨ MAX_PATH * 2 ≤ length args) :
  process_user_command (S := unit) (command ++ SP :: args ++ r) tt = UB BufferOverflow.
Proof.
  destruct Hcmd as [H1 H2]. unfold process_user_command.
  replace (command ++ SP :: args ++ r) with ((command ++ SP :: args) ++ r) by (by rewrite <-app_assoc).
  rewrite line_text_app; [|rewrite elem_of_app, elem_of_cons; by intros [?|[?|?]]|done].
  rewrite strchr_app by done. rewrite take_before.
  change (drop (1 + length command)) with (drop (A := ascii) (S (length command))). rewrite drop_past. unfold strcpy, bind.
  case_decide; [|done]. destruct Hlong as [?|Hlong]; [lia|]. unfold ret. by rewrite decide_False by lia.
Qed.

(** ** Sessions *)

(** Only the two descriptors may differ. *)
Definition others_kept (sockfd logfile : Z) (o o' : os) : Prop :=
  ∀ k, k ≠ sockfd → k ≠ logfile → fds o' !! k = fds o !! k.

#[global] Instance others_kept_refl a b : Reflexive (others_kept a b).
Proof. by intros o k. Qed.

#[global] Instance others_kept_trans a b : Transitive (others_kept a b).
Proof. intros o1 o2 o3 H1 H2 k Ha Hb. by rewrite H2, H1. Qed.

Lemma others_kept_sock a b x o : others_kept a b o (set_fds <[a := x]> o).
Proof. intros k Ha Hb. simpl. by rewrite lookup_insert_ne. Qed.

Lemma others_kept_log a b text o : ∃ o', append_log b text o = Ret tt o' ∧ others_kept a b o o'.
Proof.
  destruct (append_log_quiet b text o) as (o' & E & Ho). exists o'. split; [done|].
  intros k _ Hk. apply (q_fds _ _ _ Ho). congruence.
Qed.

Lemma wp_command_any b sockfd l d Q o :
  (∀ r o', others_kept sockfd l o o' → Q r o') → wpb b (send_command sockfd (Some d)) Q o.
Proof.
  intros HQ. destruct (fds o !! sockfd) as [[| |c| |]|] eqn:E.
  3: { eapply send_command_spec; [done|]. intros r c'. apply HQ, others_kept_sock. }
  all: unfold send_command, sys_send, get_sock; apply wpb_bind, wpb_bind, wpb_gets; rewrite E; apply wpb_ret;
    rewrite decide_True by lia; by apply wpb_ret, HQ.
Qed.

Lemma wp_receive_any b sockfd l n Q o :
  (∀ r o', others_kept sockfd l o o' → Q r o') → wpb b (receive_response sockfd n) Q o.
Proof.
  intros HQ. unfold receive_response. apply wpb_bind. destruct (fds o !! sockfd) as [[| |c| |]|] eqn:E.
  3: { eapply sys_recv_spec; [done|]. intros [r d] c'.
       case_decide; apply wpb_ret, HQ, others_kept_sock. }
  all: unfold sys_recv, get_sock; apply wpb_bind, wpb_gets; rewrite E; apply wpb_ret;
    rewrite decide_True by lia; by apply wpb_ret, HQ.
Qed.

Lemma wp_append_any b sockfd l text Q o :
  (∀ o', others_kept sockfd l o o' → Q tt o') → wpb b (append_log l text) Q o.
Proof.
  intros HQ. destruct (others_kept_log sockfd l text o) as (o' & E & Ho). unfold wpb. rewrite E. by apply HQ.
Qed.

Lemma wp_send_to_manager b sockfd l command Q o :
  (∀ r o', others_kept sockfd l o o' → Q r o') → wpb b (send_command_to_manager sockfd command (Some l)) Q o.
Proof.
  intros HQ. unfold send_command_to_manager. apply wpb_bind, (wp_command_any _ _ l). intros r o1 H1.
  case_decide; [by apply wpb_ret, HQ|]. apply wpb_bind, (wp_receive_any _ _ l). intros [z d] o2 H2.
  case_decide; [apply wpb_ret, HQ; by etrans|]. apply wpb_bind, wpb_gets, wpb_bind, (wp_append_any _ sockfd).
  intros o3 H3. apply wpb_ret, HQ. do 2 (etrans; [eassumption|]). done.
Qed.

(** A line of less than 64 bytes overflows nothing. *)
Lemma wp_process_short {S} b (input : bytes) (Q : Z * bytes * bytes → S → Prop) st :
  length (line_text input) < 64 → (∀ r, Q r st) → wpb b (process_user_command input) Q st.
Proof.
  intros Hl HQ. unfold process_user_command. set (t := line_text input) in *. apply wpb_bind.
  assert (∀ (command args : bytes) Q', length command < 64 → length args < 64 → Q' (command, args) st →
    wpb b (command <- strcpy 64 command ;; args <- strcpy (MAX_PATH * 2) args ;; ret (command, args)) Q' st) as Hcpy.
  { intros command args Q' H1 H2 HQ'. unfold strcpy. rewrite decide_True by done. apply wpb_bind, wpb_ret.
    rewrite decide_True by (unfold MAX_PATH; lia). apply wpb_bind, wpb_ret. by apply wpb_ret. }
  assert (∀ command args : bytes, length args < 64 → wpb b
    (if bool_decide (command = CMD_ADD) then
       r <- sscanf args "%s %s" [MAX_PATH; MAX_PATH] ;;
       ret ((if decide (r.1 ≠ 2) then -1 else 0)%Z, command, args)
     else if bool_decide (command = CMD_CANCEL) then
       ret ((if decide (args = []) then -1 else 0)%Z, command, args)
     else if bool_decide (command = CMD_SHUTDOWN) then ret (0%Z, command, args)
     else ret ((-1)%Z, command, args)) Q st) as Hrest.
  { intros command args Ha. case_bool_decide.
    - destruct (scan_two_words args MAX_PATH st) as (x & E & _); [unfold MAX_PATH; lia|].
      apply wpb_bind. unfold wpb. rewrite E. apply HQ.
    - case_bool_decide; [apply HQ|]. case_bool_decide; apply HQ. }
  destruct (strchr t SP) as [i|].
  - apply Hcpy; [rewrite length_take; lia|rewrite length_drop; lia|]. apply Hrest. rewrite length_drop. lia.
  - unfold strcpy. rewrite decide_True by done. apply wpb_bind, wpb_ret, wpb_ret. apply Hrest. simpl. lia.
Qed.

(** Standard input made of these lines. *)
Definition input_of (lines : list bytes) : bytes := concat ((λ l, l ++ [NL]) <$> lines).

Definition short_line (l : bytes) : Prop := (NL ∉ l) ∧ length l < 64.

Lemma short_line_text l : short_line l → length (line_text (cstr (l ++ [NL]))) < 64.
Proof.
  intros [Hnl Hl]. destruct (decide (NUL ∈ l)) as [Hn|Hn].
  - apply list_elem_of_split in Hn as (l1 & l2 & ->). rewrite length_app in Hl. simpl in Hl.
    pose proof (length_line_text (cstr ((l1 ++ NUL :: l2) ++ [NL]))).
    assert (length (cstr ((l1 ++ NUL :: l2) ++ [NL])) ≤ length l1); [|lia].
    clear. rewrite <-app_assoc. induction l1 as [|x l1 IH]; simpl; [lia|]. case_decide; simpl; [lia|].
    simpl in IH. lia.
  - rewrite cstr_id by (rewrite elem_of_app, list_elem_of_singleton; by intros [?|?]).
    rewrite line_text_app; [lia|done|right; by exists []].
Qed.

Lemma wp_console_session b fuel sockfd l lines o Q :
  Forall short_line lines → length lines ≤ fuel →
  (∀ o', others_kept sockfd l o o' → Q tt o') →
  wpb b (console_session fuel sockfd l (input_of lines)) Q o.
Proof.
  intros Hs. revert fuel o. induction Hs as [|t lines Ht Hs IH]; intros fuel o Hf HQ.
  { destruct fuel; by apply wpb_ret, HQ. }
  destruct fuel as [|f]; [simpl in Hf; lia|]. cbn [console_session].
  assert (input_of (t :: lines) = t ++ NL :: input_of lines) as E
    by (unfold input_of; simpl; by rewrite <-app_assoc).
  pose proof Ht as [Hnl Hl]. rewrite E, fgets_line_text by (done || change (MAX_COMMAND_SIZE - 1) with (Z.to_nat 4095); lia).
  rewrite length_app, Nat.add_1_r, drop_past.
  assert (∀ o1, others_kept sockfd l o o1 →
    wpb b (console_session f sockfd l (input_of lines)) Q o1) as Hnext.
  { intros o1 H1. apply IH; [simpl in Hf; lia|]. intros o2 H2. apply HQ. by etrans. }
  pose proof (short_line_text t Ht) as Hlt.
  destruct (t ++ [NL]) as [|c line] eqn:Et; [by destruct t|]. rewrite <-Et in *.
  case_decide; [by apply Hnext|]. destruct (starts_with _ _); [by apply Hnext|].
  apply wpb_bind, wp_process_short; [done|]. intros [[z command] args].
  case_decide; [by apply Hnext|]. apply wpb_bind. unfold console_log_command.
  apply wpb_bind, wpb_gets. apply (wp_append_any _ sockfd). intros o1 H1.
  apply wpb_bind, wp_send_to_manager. intros r o2 H2.
  assert (others_kept sockfd l o o2) as H12 by (by etrans).
  case_decide; [by apply wpb_ret, HQ|]. case_bool_decide; [by apply wpb_ret, HQ|]. by apply Hnext.
Qed.

Lemma length_input_of lines : length lines ≤ length (input_of lines).
Proof.
  induction lines as [|t lines IH]; [done|]. unfold input_of in *. cbn [fmap list_fmap concat].
  rewrite !length_app. simpl in *. lia.
Qed.

Lemma open_trunc_spec b path Q o :
  (∀ o', fds o' = fds o → Q (-1)%Z o') →
  (∀ fd o', (0 ≤ fd)%Z → fds o !! fd = None → fds o' = <[fd := FFile path 0]> (fds o) → Q fd o') →
  wpb b (open_trunc path) Q o.
Proof.
  intros Hfail Hok. unfold open_trunc. apply wpb_bind, sys_ok_spec. intros ok o1 [E1 E2 E3].
  apply wpb_bind, wpb_get. destruct ok; [|by apply wpb_ret, Hfail].
  destruct (dirs o1 !! path); [by apply wpb_ret, Hfail|]. apply wpb_bind, wpb_modify. unfold wpb, open_fd. simpl.
  apply Hok; [apply new_fd_nonneg|rewrite <-E1; apply new_fd_fresh|]. simpl. by f_equal.
Qed.

(** Whatever its arguments, the network and the manager do, on input lines
    of less than 64 bytes the console does nothing undefined, terminates, and
    leaves no descriptor open. *)
Theorem console_main_returns (argv : list bytes) (lines : list bytes) (o : os)
    (Hlines : Forall short_line lines) :
  ∃ r o', console_main argv (input_of lines) o = Ret r o' ∧ (r = 0 ∨ r = 1)%Z ∧ fds o' = fds o.
Proof.
  apply wp_returns. unfold console_main.
  destruct (console_options _ _) as [[[lp|] [host|] port]|]; try (apply wpb_ret; by auto).
  case_decide; [apply wpb_ret; by auto|]. apply wpb_bind, open_trunc_spec.
  { intros o' Ho'. rewrite decide_True by lia. apply wpb_ret. by auto. }
  intros l o1 Hl Hlf E1. rewrite decide_False by lia. apply wpb_bind, connect_to_server_spec.
  { intros o2 [E2 _ _]. rewrite decide_True by lia. apply wpb_bind, wpb_modify, wpb_ret. split; [by auto|].
    simpl. by rewrite E2, E1, delete_insert_id. }
  intros fd c o2 Hfd Hfdf [E2 _ _] _. rewrite decide_False by lia.
  apply wpb_bind, wp_console_session; [done|apply length_input_of|]. intros o3 H3.
  apply wpb_bind. unfold cleanup_socket. rewrite decide_True by lia. apply wpb_modify, wpb_bind, wpb_modify, wpb_ret.
  split; [by auto|]. apply map_eq. intros k. simpl.
  destruct (decide (k = l)) as [->|Hkl]; [by rewrite lookup_delete_eq, Hlf|]. rewrite lookup_delete_ne by done.
  destruct (decide (k = fd)) as [->|Hkf].
  { rewrite lookup_delete_eq. rewrite E1, lookup_insert_ne in Hfdf by done. by rewrite Hfdf. }
  rewrite lookup_delete_ne, H3 by done. by rewrite E2, E1, !lookup_insert_ne.
Qed.

(** ** The console and the manager agree *)

Lemma plain_not_in w c : plain w → isspace c = true → c ∉ w.
Proof. intros [_ Hw] Hc Hin. rewrite Forall_forall in Hw. rewrite Hw in Hc by done. done. Qed.

Lemma two_words_plain w1 w2 : plain w1 → plain w2 → two_words (w1 ++ SP :: w2).
Proof.
  intros H1 H2. unfold two_words. rewrite (skip_ws_plain w1) by done.
  rewrite (word_plain w1) by (exact (proj2 H1) || by apply ends_word_cons). simpl.
  rewrite <-(app_nil_r w2), skip_ws_plain, app_nil_r by done. split; [by destruct w1|apply H2].
Qed.

Lemma process_word {S} (r : bytes) (st : S) :
  line_end r → process_user_command (CMD_SHUTDOWN ++ r) st = Ret (0%Z, CMD_SHUTDOWN, []) st.
Proof. intros Hr. unfold process_user_command. rewrite line_text_app by (done || by apply (bool_decide_unpack _)). done. Qed.

(** What a user can ask for. *)
Inductive user_command :=
| UAdd (source target : bytes)
| UCancel (source : bytes)
| UShutdown.

Definition user_word (w : bytes) : Prop := plain w ∧ (NUL ∉ w).

Definition user_command_ok (u : user_command) : Prop :=
  match u with
  | UAdd a1 a2 => user_word a1 ∧ user_word a2 ∧ length (a1 ++ SP :: a2) < MAX_PATH
  | UCancel a => user_word a ∧ length a < MAX_PATH
  | UShutdown => True
  end.

(** What is typed, and what the manager should do. *)
Definition user_text (u : user_command) : bytes :=
  match u with
  | UAdd a1 a2 => CMD_ADD ++ SP :: a1 ++ SP :: a2
  | UCancel a => CMD_CANCEL ++ SP :: a
  | UShutdown => CMD_SHUTDOWN
  end.

Definition user_meaning {P} `{JobSink P} (u : user_command) : M (gst P) (bytes * bool) :=
  match u with
  | UAdd a1 a2 => result <- handle_add_command (Some a1) (Some a2) ;; ret (add_reply result a1, false)
  | UCancel a => result <- handle_cancel_command (Some a) ;; ret (cancel_reply result a, false)
  | UShutdown => handle_shutdown_command ;;; ret (lit "Shutting down manager..." ++ [NL], true)
  end.

Lemma full_command_short command args :
  args ≠ [] → length (command ++ SP :: args) < MAX_COMMAND_SIZE → full_command command args = command ++ SP :: args.
Proof.
  intros Ha Hl. unfold full_command. rewrite decide_True by (destruct args; [done|simpl; lia]).
  by apply snprintf_id.
Qed.

Lemma console_sends u :
  user_command_ok u →
  ∃ command args, (∀ st : os, process_user_command (user_text u ++ [NL]) st = Ret (0%Z, command, args) st) ∧
    full_command command args = user_text u.
Proof.
  assert (∀ command args : bytes, (SP ∉ command) → (NL ∉ command) → length command < 64 → (NL ∉ args) →
    length args < MAX_PATH → args ≠ [] → valid_command command args →
    (∀ st : os, process_user_command ((command ++ SP :: args) ++ [NL]) st = Ret (0%Z, command, args) st) ∧
    full_command command args = command ++ SP :: args) as Hgen.
  { intros command args H1 H2 H3 H4 H5 H6 Hv. split.
    - intros st. destruct (process_split command args [NL] st) as (z & E & [[-> _]|[_ ?]]); try done;
        [right; by exists []|]. rewrite <-E. by rewrite <-app_assoc.
    - apply full_command_short; [done|]. rewrite length_app. simpl.
      change MAX_COMMAND_SIZE with (Z.to_nat 4096). unfold MAX_PATH in H5. lia. }
  destruct u as [a1 a2|a|]; cbn [user_text user_command_ok].
  - intros ([P1 N1] & [P2 N2] & Hl). exists CMD_ADD, (a1 ++ SP :: a2).
    apply Hgen; try (by apply (bool_decide_unpack _)); [|done|by destruct a1|left; by auto using two_words_plain].
    rewrite elem_of_app, elem_of_cons.
    intros [?|[?|?]]; [by apply (plain_not_in a1 NL)|done|by apply (plain_not_in a2 NL)].
  - intros ([P1 N1] & Hl). exists CMD_CANCEL, a.
    apply Hgen; try (by apply (bool_decide_unpack _)); [by apply plain_not_in|done|apply P1|right; left].
    split; [done|apply P1].
  - intros _. exists CMD_SHUTDOWN, []. split; [|done]. intros st. apply process_word. right. by exists [].
Qed.

Lemma user_text_line u :
  user_command_ok u →
  (NL ∉ user_text u) ∧ (NUL ∉ user_text u) ∧ length (user_text u) < MAX_COMMAND_SIZE - 1 ∧
  starts_with (lit "help") (user_text u ++ [NL]) = false ∧ list.head (user_text u) ≠ Some NL ∧ user_text u ≠ [].
Proof.
  assert (∀ c (command args : bytes), c ∉ command → c ≠ SP → c ∉ args → c ∉ command ++ SP :: args) as Hn.
  { intros c command args H1 H2 H3. rewrite elem_of_app, elem_of_cons. by intros [?|[?|?]]. }
  assert (MAX_PATH + 64 < MAX_COMMAND_SIZE - 1) as Hm.
  { change MAX_COMMAND_SIZE with (Z.to_nat 4096). unfold MAX_PATH. lia. }
  destruct u as [a1 a2|a|]; cbn [user_text user_command_ok].
  - intros ([P1 N1] & [P2 N2] & Hl). split_and!.
    + apply Hn; [by apply (bool_decide_unpack _)|done|]. by apply Hn; [apply plain_not_in| |apply plain_not_in].
    + apply Hn; [by apply (bool_decide_unpack _)|done|]. by apply Hn.
    + assert (length CMD_ADD = 3) by done. rewrite length_app. cbn [length]. lia.
    + done.
    + done.
    + done.
  - intros ([P1 N1] & Hl). split_and!.
    + apply Hn; [by apply (bool_decide_unpack _)|done|]. by apply plain_not_in.
    + by apply Hn; [apply (bool_decide_unpack _)| |].
    + assert (length CMD_CANCEL = 6) by done. rewrite length_app. cbn [length]. lia.
    + done.
    + done.
    + done.
  - intros _. split_and!; try (by apply (bool_decide_unpack _)); try done.
Qed.

Lemma delivered_tx n c : tx (delivered n c).2 = tx c.
Proof. unfold delivered. destruct (rx c); [by destruct (rx_reset c)|done]. Qed.

(** What the answer to a command leaves of the connection. *)
Lemma wp_answer b sockfd l c command Q o :
  fds o !! sockfd = Some (FSock c) → tx_script c = [] → l ≠ sockfd → command ≠ [] →
  (∀ r o' c', fds o' !! sockfd = Some (FSock c') → tx c' = tx c ++ [command] → Q r o') →
  wpb b (send_command_to_manager sockfd command (Some l)) Q o.
Proof.
  intros Hfd Htx Hl Hne HQ. unfold send_command_to_manager. apply wpb_bind. unfold wpb at 1.
  erewrite send_command_all by done. rewrite decide_False by auto. set (o1 := set_fds _ o).
  assert (fds o1 !! sockfd = Some (FSock (sent c command))) as Hfd1 by apply lookup_insert_eq.
  assert (tx (sent c command) = tx c ++ [command]) as Ht by (simpl; by rewrite decide_False).
  unfold receive_response. apply wpb_bind, wpb_bind. unfold sys_recv, get_sock. apply wpb_bind, wpb_gets. rewrite Hfd1.
  pose proof (delivered_tx (MAX_BUFFER_SIZE - 1) (sent c command)) as Hd.
  destruct (delivered _ (sent c command)) as [[d|] c2]; cbn [snd] in Hd; apply wpb_bind, wpb_modify, wpb_ret.
  - rewrite decide_False by lia. apply wpb_ret. rewrite decide_False by lia. apply wpb_bind, wpb_gets, wpb_bind.
    destruct (append_log_quiet l (stamp (now (set_fds <[sockfd:=FSock c2]> o1)) ++ lit "Response: " ++ cstr d)
      (set_fds <[sockfd:=FSock c2]> o1)) as (o3 & E & Ho3).
    unfold wpb at 1. rewrite E. apply wpb_ret, (HQ _ _ c2); [|by rewrite Hd].
    rewrite (q_fds _ _ _ Ho3) by congruence. apply lookup_insert_eq.
  - rewrite decide_True by lia. apply wpb_ret. rewrite decide_True by lia. apply wpb_ret, (HQ _ _ c2); [|by rewrite Hd].
    apply lookup_insert_eq.
Qed.

(** C25: the console and the manager agree on the protocol: when a user types
    "add", "cancel" or "shutdown" with proper arguments, the console sends one
    message, and that message, received by [handle_console_connection], runs
    the corresponding operation on exactly the arguments typed. *)
Theorem console_manager_agree {P} `{JobSink P} (u : user_command) (sockfd l : Z) (c : sock) (o : os)
    (Hu : user_command_ok u) (Hfd : fds o !! sockfd = Some (FSock c)) (Htx : tx_script c = [])
    (Hl : l ≠ sockfd) :
  ∃ o' c', console_session (length (user_text u ++ [NL])) sockfd l (user_text u ++ [NL]) o = Ret tt o' ∧
    fds o' !! sockfd = Some (FSock c') ∧ tx c' = tx c ++ [user_text u] ∧
    ∀ s : gst P, console_command (user_text u) s = user_meaning u s.
Proof.
  destruct (console_sends u Hu) as (command & args & Hproc & Hfull).
  destruct (user_text_line u Hu) as (L1 & L2 & L3 & L4 & L5 & L6).
  assert (wp (console_session (length (user_text u ++ [NL])) sockfd l (user_text u ++ [NL]))
    (λ _ o', ∃ c', fds o' !! sockfd = Some (FSock c') ∧ tx c' = tx c ++ [user_text u]) o)
    as ([] & o' & E & c' & H1 & H2)%wp_returns.
  { rewrite length_app, Nat.add_1_r. cbn [console_session]. rewrite (fgets_line_text _ _ []) by done.
    rewrite length_app, Nat.add_1_r, (drop_past (user_text u) NL []).
    destruct (user_text u) as [|x t] eqn:Eu; [done|]. cbn [app]. rewrite decide_False by (simpl in L5; congruence).
    rewrite <-Eu in *. change (x :: t ++ [NL]) with ((x :: t) ++ [NL]). rewrite <-Eu.
    rewrite cstr_id by (rewrite elem_of_app, list_elem_of_singleton; by intros [?|?]). rewrite L4.
    apply wpb_bind. unfold wpb at 1. rewrite Hproc. rewrite decide_False by auto. apply wpb_bind.
    unfold console_log_command. apply wpb_bind, wpb_gets. rewrite Hfull.
    destruct (append_log_quiet l (stamp (now o) ++ lit "Command " ++ user_text u ++ [NL]) o) as (o1 & E1 & Ho1).
    unfold wpb at 1. rewrite E1. apply wpb_bind.
    eapply (wp_answer _ _ _ c); [|exact Htx|exact Hl|exact L6|].
    { by rewrite (q_fds _ _ _ Ho1) by congruence. }
    intros r o2 c2 H1 H2. case_decide; [apply wpb_ret; by eauto|]. case_bool_decide; [apply wpb_ret; by eauto|].
    destruct (length (user_text u)); apply wpb_ret; by eauto. }
  exists o', c'. split_and!; [done..|]. intros s. destruct u as [a1 a2|a|]; cbn [user_text user_meaning].
  - destruct Hu as ([P1 _] & [P2 _] & Hl'). rewrite length_app in Hl'. cbn [length] in Hl'.
    rewrite <-(app_nil_r a2) at 1. apply console_add; [by split; [|lia]|by split; [|lia]|apply ends_word_nil].
  - destruct Hu as ([P1 _] & Hl'). rewrite <-(app_nil_r a) at 1. by apply console_cancel.
  - rewrite <-(app_nil_r CMD_SHUTDOWN). by apply console_shutdown.
Qed.

(** ** Examples *)

Lemma process_user_command_correct_witness :
  ∃ z, process_user_command (S := unit) (lit "add" ++ SP :: lit "/a@h:1 /b@h:2" ++ [NL]) tt =
      Ret (z, lit "add", lit "/a@h:1 /b@h:2") tt ∧ z = 0%Z.
Proof.
  destruct (process_user_command_correct (lit "add") (lit "/a@h:1 /b@h:2") [NL]) as (z & E & [[-> _]|[_ Hn]]).
  - split_and!; by apply (bool_decide_unpack _).
  - split; by apply (bool_decide_unpack _).
  - right. by exists [].
  - by exists 0%Z.
  - destruct Hn. left. split; [done|]. by apply (bool_decide_unpack _).
Defined.

Lemma process_user_command_overflow_witness :
  process_user_command (S := unit) (replicate 64 "a"%char ++ SP :: [] ++ [NL]) tt = UB BufferOverflow.
Proof.
  apply (process_user_command_overflow (replicate 64 "a"%char) [] [NL]); [split; by apply (bool_decide_unpack _)|
    by apply (bool_decide_unpack _)|right; by exists []|left; by vm_compute].
Defined.

Lemma console_main_returns_witness :
  ∃ r o', console_main [lit "nfs_console"; lit "-l"; lit "c.log"; lit "-h"; lit "10.0.0.9"; lit "-p"; lit "9000"]
      (input_of [lit "help"; lit "cancel /src@10.0.0.1:8001"; lit "shutdown"]) demo_os = Ret r o' ∧
    (r = 0 ∨ r = 1)%Z ∧ fds o' = fds demo_os.
Proof. apply console_main_returns. repeat apply Forall_cons_2; by apply (bool_decide_unpack _). Defined.

(** A console connected on descriptor 3 whose log is on descriptor 4. *)
Definition console_os : os :=
  Os {[3%Z := FSock (Sock [lit "ok"] false [] []); 4%Z := FFile (lit "c.log") 0]} {[lit "c.log" := []]} ∅ [] [] [] []
    (Tm 125 0 1 0 0 0) [] [].

Lemma console_manager_agree_witness :
  ∃ o' c', console_session (length (lit "add /a@h:1 /b@h:2" ++ [NL])) 3 4 (lit "add /a@h:1 /b@h:2" ++ [NL]) console_os = Ret tt o' ∧
    fds o' !! 3%Z = Some (FSock c') ∧ tx c' = [lit "add /a@h:1 /b@h:2"] ∧
    ∀ s : gst pmem, console_command (lit "add /a@h:1 /b@h:2") s =
      (result <- handle_add_command (Some (lit "/a@h:1")) (Some (lit "/b@h:2")) ;;
       ret (add_reply result (lit "/a@h:1"), false)) s.
Proof.
  apply (@console_manager_agree pmem demo_sink (UAdd (lit "/a@h:1") (lit "/b@h:2")) 3 4 (Sock [lit "ok"] false [] []) console_os);
    [|reflexivity|reflexivity|discriminate].
  split_and!; by apply (bool_decide_unpack _).
Defined.
