(* ===== verification/Programs.v ===== *)
(** * The worker and the client as programs that wait

    [Transfer.v] and [Client.v] run a function of the sources on a scripted
    operating system.  Here the same functions are programs in the sense of a
    free monad: what a thread does on its own is one action of its state, and
    every call on a connection is a node, at which the thread may have to
    wait.  [run] is the program on the scripted operating system; the
    agreement theorems say that this is the function of [Transfer.v], and of
    [Client.v].  [Network.v] lets many of these programs run against each
    other. *)
From S2P Require Import Prelude.
From S2P Require Import CString.
From S2P Require Import Common.
From S2P Require Import OS.
From S2P Require Import Utils.
From S2P Require Import Client.
From S2P Require Import Transfer.
From stdpp Require Import gmap strings list.
From Stdlib Require Import Ascii ZArith Lia.

(** ** Threads that have an operating system *)

Class OnOs (S : Type) := {
  os_of : S → os;
  with_os : os → S → S;
  os_of_with o s : os_of (with_os o s) = o;
  with_os_of s : with_os (os_of s) s = s;
  with_os_with o o' s : with_os o (with_os o' s) = with_os o s
}.

#[global, refine] Instance onos_os : OnOs os := {| os_of o := o; with_os o _ := o |}.
Proof. all: done. Defined.

#[global, refine] Instance onos_cst : OnOs cst := {| os_of := cos; with_os o s := Cst o (current_fd s) |}.
Proof. all: done || by intros []. Defined.

Definition lift {S A} `{OnOs S} (c : M os A) : M S A := zoom os_of with_os c.

Lemma lift_os {A} (c : M os A) o : lift c o = c o.
Proof. unfold lift, zoom. simpl. by destruct (c o). Qed.

(** ** Programs *)

#[warnings="-register-all"] Inductive prog (S A : Type) : Type :=
| Done (a : A)
| Local (c : M S (prog S A))                             (* nothing of the network *)
| Dial (host : bytes) (port : Z) (k : Z → prog S A)      (* connect_to_server *)
| Send (fd : Z) (data : bytes) (k : Z → prog S A)
| Recv (fd : Z) (n : nat) (k : Z * bytes → prog S A)
| Close (fd : Z) (k : prog S A).
Arguments Done {S A} a.
Arguments Local {S A} c.
Arguments Dial {S A} host port k.
Arguments Send {S A} fd data k.
Arguments Recv {S A} fd n k.
Arguments Close {S A} fd k.

Section prog.
Context {S : Type} `{OnOs S}.

(** What a program does on the scripted operating system. *)
Fixpoint run {A} (p : prog S A) : M S A :=
  match p with
  | Done a => ret a
  | Local c => λ s,
      match c s with
      | Ret p' s' => run p' s'
      | UB k => UB k
      | Blocked => Blocked
      | NoFuel => NoFuel
      end
  | Dial host port k => bind (lift (connect_to_server (Some host) port)) (λ fd, run (k fd))
  | Send fd data k => bind (lift (sys_send fd data)) (λ z, run (k z))
  | Recv fd n k => bind (lift (sys_recv fd n)) (λ r, run (k r))
  | Close fd k => bind (lift (sys_close fd)) (λ _, run k)
  end.

Fixpoint pbind {A B} (p : prog S A) (f : A → prog S B) : prog S B :=
  match p with
  | Done a => f a
  | Local c => Local (λ s,
      match c s with
      | Ret p' s' => Ret (pbind p' f) s'
      | UB k => UB k
      | Blocked => Blocked
      | NoFuel => NoFuel
      end)
  | Dial host port k => Dial host port (λ fd, pbind (k fd) f)
  | Send fd data k => Send fd data (λ z, pbind (k z) f)
  | Recv fd n k => Recv fd n (λ r, pbind (k r) f)
  | Close fd k => Close fd (pbind k f)
  end.

Definition local {A} (c : M S A) : prog S A := Local (bind c (λ a, ret (Done a))).

(** Induction on the program a thread has left to run. *)
Lemma prog_rect_local {A} (P : prog S A → Prop)
    (HDone : ∀ a, P (Done a))
    (HLocal : ∀ c, (∀ s p s', c s = Ret p s' → P p) → P (Local c))
    (HDial : ∀ host port k, (∀ fd, P (k fd)) → P (Dial host port k))
    (HSend : ∀ fd d k, (∀ z, P (k z)) → P (Send fd d k))
    (HRecv : ∀ fd n k, (∀ r, P (k r)) → P (Recv fd n k))
    (HClose : ∀ fd k, P k → P (Close fd k)) :
  ∀ p, P p.
Proof.
  fix IH 1. intros [a|c|h port k|fd d k|fd n k|fd k].
  - apply HDone.
  - apply HLocal. intros s. destruct (c s) as [q t| | |]; intros p s' E; [|discriminate..].
    injection E as <- <-. apply IH.
  - apply HDial. intros. apply IH.
  - apply HSend. intros. apply IH.
  - apply HRecv. intros. apply IH.
  - apply HClose, IH.
Qed.

(** Two computations that agree on the way. *)
Lemma bind_ext {A B} (c c' : M S A) (f g : A → M S B) s :
  c s = c' s → (∀ a s', c s = Ret a s' → f a s' = g a s') → bind c f s = bind c' g s.
Proof. unfold bind. intros <- Hf. destruct (c s); auto. Qed.

Lemma run_bind {A B} (p : prog S A) (f : A → prog S B) s :
  run (pbind p f) s = bind (run p) (λ a, run (f a)) s.
Proof.
  revert s. induction p as [a|c IH|h port k IH|fd d k IH|fd n k IH|fd k IH] using prog_rect_local;
    intros s; simpl; [done|..].
  - unfold bind. destruct (c s) eqn:E; try done. by eapply IH.
  - rewrite bind_assoc. apply bind_ext; [done|]. intros a s' _. apply IH.
  - rewrite bind_assoc. apply bind_ext; [done|]. intros a s' _. apply IH.
  - rewrite bind_assoc. apply bind_ext; [done|]. intros a s' _. apply IH.
  - rewrite bind_assoc. apply bind_ext; [done|]. intros a s' _. apply IH.
Qed.

Lemma run_local {A} (c : M S A) s : run (local c) s = c s.
Proof. unfold local, bind, ret. simpl. by destruct (c s). Qed.

(** [run] of a program against a function, and of what follows them. *)
Lemma run_step {A B} (p : prog S A) (c : M S A) (f : A → prog S B) (g : A → M S B) s :
  run p s = c s → (∀ a s', c s = Ret a s' → run (f a) s' = g a s') → run (pbind p f) s = bind c g s.
Proof. intros E Hf. rewrite run_bind. apply bind_ext; [done|]. intros a s' Ha. apply Hf. by rewrite <-E. Qed.
End prog.

Notation "x <~ p ;; q" := (pbind p (λ x, q))
  (at level 100, p at next level, right associativity) : prog_scope.
Notation "p ;~ q" := (pbind p (λ _, q))
  (at level 100, right associativity) : prog_scope.

(** ** [sync_single_file] *)

Section worker.
Variable logfile : ptr Z.
Variable self : Z.
Abbreviation thread := (prog os).

Definition close_both_prog (source_fd target_fd : Z) : thread unit :=
  Close source_fd (Close target_fd (Done tt)).

Definition send_command_prog (sockfd : Z) (command : bytes) : thread Z :=
  sent <~ Send sockfd command Done ;;
  if decide (sent < 0)%Z then Done (-1)%Z else
  if decide (sent ≠ Z.of_nat (length command)) then Done (-1)%Z else Done 0%Z.

Definition push_chunk_prog (target_fd : Z) (target_path chunk : bytes) : thread unit :=
  send_command_prog target_fd (push_command target_path (Z.of_nat (length chunk)) SP) ;~
  Send target_fd chunk (λ _, Done tt).

Fixpoint transfer_prog (fuel : nat) (source_fd target_fd : Z) (target_path : bytes)
    (file_size total_transferred : Z) : thread Z :=
  if decide (file_size <= total_transferred)%Z then Done total_transferred else
  match fuel with
  | 0 => local no_fuel
  | S f =>
      r <~ Recv source_fd MAX_BUFFER_SIZE Done ;;
      let '(chunk_size, buffer) := r in
      if decide (chunk_size <= 0)%Z then Done total_transferred else
      push_chunk_prog target_fd target_path buffer ;~
      transfer_prog f source_fd target_fd target_path file_size (total_transferred + chunk_size)
  end.

(** Every turn of the loop adds at least one byte to the total. *)
Definition transfer_fuel (file_size total_transferred : Z) : nat := Z.to_nat (file_size - total_transferred).

Definition sync_content_prog (job : sync_job) (target_path : bytes) (source_fd target_fd : Z)
    (data : bytes) (header_len : nat) (file_size : Z) : thread Z :=
  r <~ send_command_prog target_fd (push_command target_path (-1) NL) ;;
  if decide (r ≠ 0)%Z then close_both_prog source_fd target_fd ;~ Done (-1)%Z else
  let first := drop header_len data in
  (if decide (header_len < length data) then push_chunk_prog target_fd target_path first else Done tt) ;~
  total_transferred <~
    transfer_prog (transfer_fuel file_size (Z.of_nat (length first)))
      source_fd target_fd target_path file_size (Z.of_nat (length first)) ;;
  send_command_prog target_fd (push_command target_path 0 NL) ;~
  close_both_prog source_fd target_fd ;~
  local (log_job logfile self job
    (λ _, lit "[PULL] [SUCCESS] [" ++ dec total_transferred ++ lit " bytes pulled]")) ;~
  local (log_job logfile self job
    (λ _, lit "[PUSH] [SUCCESS] [" ++ dec total_transferred ++ lit " bytes pushed]")) ;~
  Done 0%Z.

Definition sync_connected_prog (job : sync_job) (source_path target_path : bytes)
    (source_fd target_fd : Z) : thread Z :=
  r <~ send_command_prog source_fd (snprintf MAX_COMMAND_SIZE (lit "PULL " ++ source_path ++ [NL])) ;;
  if decide (r ≠ 0)%Z then close_both_prog source_fd target_fd ;~ Done (-1)%Z else
  r <~ Recv source_fd (MAX_BUFFER_SIZE - 1) Done ;;
  let '(received, data) := r in
  if decide (received <= 0)%Z then close_both_prog source_fd target_fd ;~ Done (-1)%Z else
  let response := cstr data in
  match strchr response SP with
  | None => close_both_prog source_fd target_fd ;~ Done (-1)%Z
  | Some space_pos =>
      let file_size := atol response in
      if decide (file_size < 0)%Z then
        local (log_job logfile self job (λ _, lit "[PULL] [ERROR] [File: " ++ job_filename job ++ lit " - " ++
          drop (S space_pos) response ++ lit "]")) ;~
        close_both_prog source_fd target_fd ;~
        Done (-1)%Z
      else sync_content_prog job target_path source_fd target_fd data (S space_pos) file_size
  end.

Definition sync_prog (job : sync_job) : thread Z :=
  let source_path := snprintf (MAX_PATH * 2) (job_source_dir job ++ lit "/" ++ job_filename job) in
  let target_path := snprintf (MAX_PATH * 2) (job_target_dir job ++ lit "/" ++ job_filename job) in
  source_fd <~ Dial (job_source_host job) (job_source_port job) Done ;;
  if decide (source_fd < 0)%Z then
    local (log_job logfile self job
      (λ o, lit "[PULL] [ERROR] [Connection failed to source: " ++ errtext o ++ lit "]")) ;~
    Done (-1)%Z
  else
  target_fd <~ Dial (job_target_host job) (job_target_port job) Done ;;
  if decide (target_fd < 0)%Z then
    local (log_job logfile self job
      (λ o, lit "[PUSH] [ERROR] [Connection failed to target: " ++ errtext o ++ lit "]")) ;~
    Close source_fd (Done tt) ;~
    Done (-1)%Z
  else sync_connected_prog job source_path target_path source_fd target_fd.

(** The same function: one lemma per block. *)
Lemma run_dial host port o : run (Dial host port Done) o = connect_to_server (Some host) port o.
Proof. cbn [run]. unfold bind. rewrite lift_os. by destruct (connect_to_server (Some host) port o). Qed.

Lemma run_recv fd n o : run (Recv fd n Done) o = sys_recv fd n o.
Proof. cbn [run]. unfold bind. rewrite lift_os. by destruct (sys_recv fd n o). Qed.

Lemma run_send_command fd command o : run (send_command_prog fd command) o = send_command fd (Some command) o.
Proof.
  unfold send_command_prog, send_command. simpl. apply bind_ext; [by rewrite lift_os|].
  intros z s' _. case_decide; [done|]. by case_decide.
Qed.

Lemma run_close_both s t o : run (close_both_prog s t) o = close_both s t o.
Proof. reflexivity. Qed.

Lemma run_push_chunk fd path chunk o : run (push_chunk_prog fd path chunk) o = push_chunk fd path chunk o.
Proof.
  unfold push_chunk_prog, push_chunk. apply run_step; [apply run_send_command|]. intros _ s' _.
  simpl. apply bind_ext; [by rewrite lift_os|]. done.
Qed.

(** Two amounts of fuel that are both enough give the same result. *)
Lemma transfer_fuels f1 f2 s t path size total o :
  transfer f1 s t path size total o ≠ NoFuel → transfer f2 s t path size total o ≠ NoFuel →
  transfer f1 s t path size total o = transfer f2 s t path size total o.
Proof.
  revert f2 total o. induction f1 as [|f1 IH]; intros [|f2] total o; cbn [transfer];
    case_decide; try done. unfold bind.
  destruct (sys_recv s MAX_BUFFER_SIZE o) as [[z d] o1| | |]; try done. case_decide; [done|].
  destruct (push_chunk t path d o1) as [[] o2| | |]; try done. apply IH.
Qed.

(** The announced size is enough fuel. *)
Lemma transfer_by_size fuel s t path size total o :
  transfer_fuel size total ≤ fuel → transfer fuel s t path size total o ≠ NoFuel.
Proof.
  unfold transfer_fuel. revert total o. induction fuel as [|f IH]; intros total o Hf; cbn [transfer].
  - by rewrite decide_True by lia.
  - case_decide as Hsz; [done|]. unfold bind.
    assert (wpb True (sys_recv s MAX_BUFFER_SIZE) (λ r o', True) o) as Hr by (by apply wp_recv).
    unfold wpb in Hr. destruct (sys_recv s MAX_BUFFER_SIZE o) as [[z d] o1| | |]; try done. case_decide as Hz; [done|].
    assert (wpb False (push_chunk t path d) (λ r o', True) o1) as Hp by (by apply wp_push_chunk).
    unfold wpb in Hp. destruct (push_chunk t path d o1) as [[] o2| | |]; try done. apply IH. lia.
Qed.

Lemma run_transfer fuel s t path size total o :
  run (transfer_prog fuel s t path size total) o = transfer fuel s t path size total o.
Proof.
  revert total o. induction fuel as [|f IH]; intros total o; cbn [transfer_prog transfer]; case_decide; try done.
  apply run_step; [apply run_recv|]. intros [z d] o1 _. case_decide; [done|].
  apply run_step; [apply run_push_chunk|]. intros _ o2 _. apply IH.
Qed.

Lemma run_sync_content job path s t data header size o :
  run (sync_content_prog job path s t data header size) o =
    sync_content logfile self job path s t data header size o.
Proof.
  unfold sync_content_prog, sync_content. apply run_step; [apply run_send_command|]. intros r o1 _.
  case_decide. { apply run_step; [apply run_close_both|done]. }
  apply run_step. { case_decide; [apply run_push_chunk|done]. }
  intros _ o2 _. unfold bind at 1, gets. apply run_step.
  { rewrite run_transfer. apply transfer_fuels; [by apply transfer_by_size|].
    assert (wpb False (transfer (S (rx_left s o2)) s t path size (Z.of_nat (length (drop header data)))) (λ _ _, True) o2) as Ht.
    { apply wp_transfer; [lia|done]. }
    unfold wpb in Ht. by destruct (transfer _ _ _ _ _ _ o2). }
  intros total o3 _. apply run_step; [apply run_send_command|]. intros _ o4 _.
  apply run_step; [apply run_close_both|]. intros _ o5 _.
  apply run_step; [apply run_local|]. intros _ o6 _. by apply run_step; [apply run_local|].
Qed.

Lemma run_sync_connected job sp tp s t o :
  run (sync_connected_prog job sp tp s t) o = sync_connected logfile self job sp tp s t o.
Proof.
  unfold sync_connected_prog, sync_connected. apply run_step; [apply run_send_command|]. intros r o1 _.
  case_decide. { apply run_step; [apply run_close_both|done]. }
  apply run_step; [apply run_recv|]. intros [z d] o2 _.
  case_decide. { apply run_step; [apply run_close_both|done]. }
  destruct (strchr (cstr d) SP). 2: { apply run_step; [apply run_close_both|done]. }
  case_decide; [|apply run_sync_content].
  apply run_step; [apply run_local|]. intros _ o3 _. apply run_step; [apply run_close_both|done].
Qed.

Lemma run_sync job o : run (sync_prog job) o = sync_single_file logfile self job o.
Proof.
  unfold sync_prog, sync_single_file. apply run_step; [apply run_dial|]. intros s o1 _.
  case_decide. { apply run_step; [apply run_local|done]. }
  apply run_step; [apply run_dial|]. intros t o2 _. case_decide; [|apply run_sync_connected].
  apply run_step; [apply run_local|]. intros _ o3 _. by apply run_step.
Qed.
End worker.

(** ** [handle_client_connection] *)

Section client.
Abbreviation thread := (prog cst).

Fixpoint list_entries_prog (client_fd : Z) (relative : bytes) (entries : list bytes) : thread unit :=
  match entries with
  | [] => Done tt
  | d_name :: rest =>
      (if starts_with (lit ".") d_name then Done tt else
       let full_path := snprintf MAX_PATH (relative ++ lit "/" ++ d_name) in
       regular <~ local (in_os (stat_regular full_path)) ;;
       if regular : bool then
         Send client_fd (snprintf (MAX_FILENAME + 2) (d_name ++ [NL])) (λ _, Done tt)
       else Done tt) ;~
      list_entries_prog client_fd relative rest
  end.

Definition list_prog (client_fd : Z) (dir_path : bytes) : thread unit :=
  let relative := relative_path dir_path in
  dir <~ local (in_os (sys_opendir relative)) ;;
  match dir with
  | None => Done tt
  | Some entries =>
      list_entries_prog client_fd relative entries ;~
      Send client_fd (lit "." ++ [NL]) (λ _, Done tt)
  end.

Fixpoint send_rest_prog (fuel : nat) (client_fd : Z) (data : bytes) : thread bool :=
  match data, fuel with
  | [], _ => Done true
  | _, 0 => local no_fuel
  | _, S f =>
      sent <~ Send client_fd data Done ;;
      if decide (sent < 0)%Z then Done false
      else send_rest_prog f client_fd (drop (Z.to_nat sent) data)
  end.

Fixpoint send_file_prog (fuel : nat) (client_fd fd : Z) : thread unit :=
  match fuel with
  | 0 => local no_fuel
  | S f =>
      r <~ local (in_os (sys_read fd MAX_BUFFER_SIZE)) ;;
      let '(bytes_read, buffer) := r in
      if decide (bytes_read <= 0)%Z then Close fd (Done tt) else
      n <~ local (in_os (gets (send_fuel client_fd))) ;;
      ok <~ send_rest_prog n client_fd buffer ;;
      if ok : bool then send_file_prog f client_fd fd else Close fd (Done tt)
  end.

Definition pull_prog (client_fd : Z) (file_path : bytes) : thread unit :=
  fd <~ local (in_os (open_read (relative_path file_path))) ;;
  if decide (fd < 0)%Z then
    e <~ local (in_os (gets error_response)) ;;
    Send client_fd e (λ _, Done tt)
  else
  size <~ local (in_os (sys_fstat fd)) ;;
  match size with
  | None =>
      e <~ local (in_os (gets error_response)) ;;
      Send client_fd e (λ _, Close fd (Done tt))
  | Some size =>
      Send client_fd (snprintf 32 (dec size ++ [SP])) Done ;~
      n <~ local (in_os (gets (file_left fd))) ;;
      send_file_prog (S n) client_fd fd
  end.

Fixpoint receive_chunk_prog (fuel : nat) (client_fd total_received chunk_size : Z) : thread unit :=
  if decide (chunk_size <= total_received)%Z then Done tt else
  match fuel with
  | 0 => local no_fuel
  | S f =>
      let rest := (chunk_size - total_received)%Z in
      let to_receive :=
        if decide (rest < Z.of_nat MAX_BUFFER_SIZE)%Z then rest else Z.of_nat MAX_BUFFER_SIZE in
      r <~ Recv client_fd (Z.to_nat to_receive) Done ;;
      let '(received, buffer) := r in
      if decide (received <= 0)%Z then Done tt else
      fd <~ local (gets current_fd) ;;
      written <~ local (in_os (sys_write fd buffer)) ;;
      if decide (written ≠ received) then Done tt else
      total <~ local (int_result (total_received + received)) ;;
      receive_chunk_prog f client_fd total chunk_size
  end.

Definition close_current_prog : thread unit :=
  fd <~ local (gets current_fd) ;;
  if decide (0 <= fd)%Z then Close fd (Done tt) else Done tt.

Definition push_prog (client_fd : Z) (file_path : bytes) (chunk_size : Z) : thread unit :=
  let relative := relative_path file_path in
  if decide (chunk_size = -1)%Z then
    close_current_prog ;~
    fd <~ local (in_os (open_trunc relative)) ;;
    local (set_current fd)
  else if decide (chunk_size = 0)%Z then
    fd <~ local (gets current_fd) ;;
    if decide (0 <= fd)%Z then Close fd (local (set_current (-1))) else Done tt
  else
  fd <~ local (gets current_fd) ;;
  if decide (fd < 0)%Z then Done tt else
  receive_chunk_prog (transfer_fuel chunk_size 0) client_fd 0 chunk_size.

Definition command_prog (client_fd : Z) (buffer : bytes) : thread unit :=
  if starts_with CMD_LIST buffer then
    list_prog client_fd (skip_spaces (drop (length CMD_LIST) buffer))
  else if starts_with CMD_PULL buffer then
    pull_prog client_fd (skip_spaces (drop (length CMD_PULL) buffer))
  else if starts_with CMD_PUSH buffer then
    r <~ local (sscanf buffer "PUSH %s %d" [MAX_PATH; 0]) ;;
    match r with
    | (2%Z, [VStr file_path; VInt chunk_size]) => push_prog client_fd file_path chunk_size
    | _ => Done tt
    end
  else Done tt.

(** One turn of the loop of [handle_client_connection]: is there another?  If
    not, the connection has been closed. *)
Definition connection_prog (client_fd : Z) : thread bool :=
  r <~ Recv client_fd (MAX_COMMAND_SIZE - 1) Done ;;
  let '(received, buffer) := r in
  if decide (received <= 0)%Z then Close client_fd (Done false) else
  command_prog client_fd (command_line buffer) ;~
  Done true.

(** The turns from [p] on, at most [fuel] more after it. *)
Fixpoint turns (fuel : nat) (client_fd : Z) (p : thread bool) : M cst unit :=
  more <- run p ;;
  if more : bool then
    match fuel with
    | 0 => no_fuel
    | S f => turns f client_fd (connection_prog client_fd)
    end
  else ret tt.

Lemma run_in_os {A} (c : M os A) s : run (local (in_os c)) s = in_os c s.
Proof. apply run_local. Qed.

Lemma run_send_unit fd d s : run (Send fd d (λ _, Done tt)) s = in_os (sys_send fd d ;;; ret tt) s.
Proof. cbn [run]. unfold in_os, lift, zoom, bind. simpl. by destruct (sys_send fd d (cos s)). Qed.

Lemma run_close fd s : run (Close fd (Done tt)) s = in_os (sys_close fd) s.
Proof. reflexivity. Qed.

Lemma in_os_bind {A B} (c : M os A) (f : A → M os B) s : in_os (bind c f) s = bind (in_os c) (λ a, in_os (f a)) s.
Proof. unfold in_os, zoom, bind. by destruct (c (cos s)). Qed.

Lemma run_list_entries fd relative entries s :
  run (list_entries_prog fd relative entries) s = in_os (list_entries fd relative entries) s.
Proof.
  revert s. induction entries as [|d entries IH]; intros s; [by destruct s|].
  cbn [list_entries_prog list_entries]. rewrite in_os_bind. apply run_step; [|intros _ s' _; apply IH].
  destruct (starts_with (lit ".") d); [by destruct s|]. rewrite in_os_bind.
  apply run_step; [apply run_in_os|]. intros [] s' _; [apply run_send_unit|by destruct s'].
Qed.

Lemma run_list_prog fd path s : run (list_prog fd path) s = in_os (handle_list_command fd path) s.
Proof.
  unfold list_prog, handle_list_command. rewrite in_os_bind. apply run_step; [apply run_in_os|].
  intros [entries|] s1 _; [|by destruct s1]. rewrite in_os_bind. apply run_step; [apply run_list_entries|].
  intros _ s2 _. apply run_send_unit.
Qed.

Lemma run_send fd d s : run (Send fd d Done) s = in_os (sys_send fd d) s.
Proof. cbn [run]. unfold in_os, lift, zoom, bind. simpl. by destruct (sys_send fd d (cos s)). Qed.

Lemma run_receive fd n s : run (Recv fd n Done) s = in_os (sys_recv fd n) s.
Proof. cbn [run]. unfold in_os, lift, zoom, bind. simpl. by destruct (sys_recv fd n (cos s)). Qed.

Lemma run_send_rest fuel fd data s : run (send_rest_prog fuel fd data) s = in_os (send_rest fuel fd data) s.
Proof.
  revert data s. induction fuel as [|f IH]; intros [|c data] s; try by destruct s.
  cbn [send_rest_prog send_rest]. rewrite in_os_bind. apply run_step; [apply run_send|]. intros z s' _.
  case_decide; [by destruct s'|apply IH].
Qed.

Lemma run_send_file fuel client_fd fd s :
  run (send_file_prog fuel client_fd fd) s = in_os (send_file fuel client_fd fd) s.
Proof.
  revert s. induction fuel as [|f IH]; intros s; [by destruct s|].
  cbn [send_file_prog send_file]. rewrite in_os_bind. apply run_step; [apply run_in_os|]. intros [z d] s1 _.
  case_decide; [apply run_close|]. rewrite in_os_bind. apply run_step; [apply run_in_os|]. intros n s2 _.
  rewrite in_os_bind. apply run_step; [apply run_send_rest|]. intros [] s3 _; [apply IH|apply run_close].
Qed.

Lemma run_pull_prog fd path s : run (pull_prog fd path) s = in_os (handle_pull_command fd path) s.
Proof.
  unfold pull_prog, handle_pull_command. rewrite in_os_bind. apply run_step; [apply run_in_os|]. intros f s1 _.
  case_decide.
  { rewrite in_os_bind. apply run_step; [apply run_in_os|]. intros e s2 _. apply run_send_unit. }
  rewrite in_os_bind. apply run_step; [apply run_in_os|]. intros [size|] s2 _.
  - rewrite in_os_bind. apply run_step; [apply run_send|]. intros _ s3 _.
    rewrite in_os_bind. apply run_step; [apply run_in_os|]. intros n s4 _. apply run_send_file.
  - rewrite in_os_bind. apply run_step; [apply run_in_os|]. intros e s3 _.
    cbn [run]. rewrite in_os_bind. by apply bind_ext.
Qed.

(** Receiving a chunk: both amounts of fuel are enough. *)
Lemma receive_fuels f1 f2 fd total size s :
  receive_chunk f1 fd total size s ≠ NoFuel → receive_chunk f2 fd total size s ≠ NoFuel →
  receive_chunk f1 fd total size s = receive_chunk f2 fd total size s.
Proof.
  revert f2 total s. induction f1 as [|f1 IH]; intros [|f2] total s; cbn [receive_chunk];
    case_decide; try done. unfold bind.
  destruct (in_os _ s) as [[z d] s1| | |]; try done. case_decide; [done|].
  destruct (gets current_fd s1) as [w s2| | |]; try done.
  destruct (in_os _ s2) as [n s3| | |]; try done. case_decide; [done|].
  destruct (int_result _ s3) as [t s4| | |]; try done. apply IH.
Qed.

Lemma receive_by_size fuel fd total size s :
  transfer_fuel size total ≤ fuel → receive_chunk fuel fd total size s ≠ NoFuel.
Proof.
  unfold transfer_fuel. revert total s. induction fuel as [|f IH]; intros total s Hf; cbn [receive_chunk].
  - by rewrite decide_True by lia.
  - case_decide as Hsz; [done|]. unfold bind.
    assert (∀ n, wp (in_os (sys_recv fd n)) (λ _ _, True) s) as Hr by (intros n; by apply wpb_in_os, wp_recv).
    match goal with |- context [sys_recv fd ?n] => specialize (Hr n) end. unfold wpb in Hr. destruct (in_os (sys_recv fd _) s) as [[z d] s1| | |]; try done.
    case_decide as Hz; [done|]. destruct (gets current_fd s1) as [w s2| | |] eqn:E2; try done.
    assert (wp (in_os (sys_write w d)) (λ _ _, True) s2) as Hw by (by apply wpb_in_os, (wp_write _ _ _ w)).
    unfold wpb in Hw. destruct (in_os (sys_write w d) s2) as [n s3| | |]; try done.
    case_decide; [done|]. unfold int_result. case_decide; [|done]. apply IH. lia.
Qed.

Lemma run_receive_chunk fuel fd total size s :
  run (receive_chunk_prog fuel fd total size) s = receive_chunk fuel fd total size s.
Proof.
  revert total s. induction fuel as [|f IH]; intros total s; cbn [receive_chunk_prog receive_chunk];
    case_decide; try done.
  apply run_step; [apply run_receive|]. intros [z d] s1 _. case_decide; [done|].
  apply run_step; [apply run_local|]. intros w s2 _. apply run_step; [apply run_local|]. intros n s3 _.
  case_decide; [done|]. apply run_step; [apply run_local|]. intros t s4 _. apply IH.
Qed.

Lemma run_push_prog fd path size s :
  (size ≤ int_max)%Z → run (push_prog fd path size) s = handle_push_command fd path size s.
Proof.
  intros Hsize. unfold push_prog, handle_push_command. case_decide.
  { apply run_step. 2: { intros _ s1 _. apply run_step; [apply run_in_os|]. intros w s2 _. apply run_local. }
    unfold close_current_prog, close_current. apply run_step; [apply run_local|]. intros w s1 _.
    by case_decide. }
  case_decide.
  { apply run_step; [apply run_local|]. intros w s1 _. case_decide; [|done].
    cbn [run]. apply bind_ext; [done|]. intros _ s2 _. apply (run_local (set_current (-1))). }
  apply run_step; [apply run_local|]. intros w s1 _. case_decide; [done|].
  rewrite run_receive_chunk. unfold bind, get. apply receive_fuels; [by apply receive_by_size|].
  pose proof (wp_receive_chunk (S (rx_left fd (cos s1))) fd 0 size s1 ltac:(done) Hsize ltac:(lia)) as Hr.
  unfold wpb in Hr. by destruct (receive_chunk _ fd 0 size s1).
Qed.

Lemma run_command_prog fd line s : run (command_prog fd line) s = run_command fd line s.
Proof.
  unfold command_prog, run_command. destruct (starts_with CMD_LIST line); [apply run_list_prog|].
  destruct (starts_with CMD_PULL line); [apply run_pull_prog|].
  destruct (starts_with CMD_PUSH line); [|done].
  apply run_step; [apply run_local|]. intros r s1 E. unfold sscanf in E.
  destruct (scan_values (parse_fmt (lit "PUSH %s %d")) line [] _ (Forall_nil_2 _) eq_refl) as [Hv _].
  destruct (scan _ _ _) as [z vs]. simpl in Hv. destruct (fits _ _); [|done]. injection E as <- <-.
  repeat case_match; try done. simplify_eq. apply run_push_prog.
  by apply Forall_cons in Hv as [_ [[_ ?] _]%Forall_cons].
Qed.

(** One turn, as a function. *)
Lemma run_connection fd s :
  run (connection_prog fd) s =
    (r <- in_os (sys_recv fd (MAX_COMMAND_SIZE - 1)) ;;
     let '(received, buffer) := r in
     if decide (received <= 0)%Z then in_os (sys_close fd) ;;; ret false else
     run_command fd (command_line buffer) ;;; ret true) s.
Proof.
  apply run_step; [apply run_receive|]. intros [z d] s1 _. case_decide; [done|].
  apply run_step; [apply run_command_prog|done].
Qed.

(** A connection, turn by turn, is the loop and the closing. *)
Lemma turns_loop fuel fd s :
  turns fuel fd (connection_prog fd) s = bind (connection_loop (S fuel) fd) (λ _, in_os (sys_close fd)) s.
Proof.
  revert s. induction fuel as [|f IH]; intros s; cbn [turns]; unfold bind at 1; rewrite run_connection;
    cbn [connection_loop]; rewrite bind_assoc; unfold bind;
    destruct (in_os (sys_recv fd (MAX_COMMAND_SIZE - 1)) s) as [[z d] s1| | |]; try done; case_decide; try done;
    destruct (run_command fd (command_line d) s1) as [[] s2| | |]; try done.
  apply IH.
Qed.

Lemma connection_fuels f1 f2 fd s :
  connection_loop f1 fd s ≠ NoFuel → connection_loop f2 fd s ≠ NoFuel →
  connection_loop f1 fd s = connection_loop f2 fd s.
Proof.
  revert f2 s. induction f1 as [|f1 IH]; intros [|f2] s; cbn [connection_loop]; try done. unfold bind.
  destruct (in_os _ s) as [[z d] s1| | |]; try done. case_decide; [done|].
  destruct (run_command _ _ s1) as [[] s2| | |]; try done. apply IH.
Qed.

Lemma turns_serve fuel fd s :
  rx_left fd (cos s) ≤ fuel → turns fuel fd (connection_prog fd) s = handle_client_connection fd s.
Proof.
  intros Hf. rewrite turns_loop. unfold handle_client_connection. unfold bind at 2, get. apply bind_ext; [|done].
  apply connection_fuels.
  - pose proof (wpo_connection_loop (S fuel) fd s ltac:(lia)) as H. unfold wpo in H.
    by destruct (connection_loop _ fd s).
  - pose proof (wpo_connection_loop (S (rx_left fd (cos s))) fd s ltac:(lia)) as H. unfold wpo in H.
    by destruct (connection_loop _ fd s).
Qed.
End client.

