(* ===== verification/Replay.v ===== *)
(** * Threads, call by call

    A program of [Programs.v] as a thread that takes one step at a time.
    Calls on connections are events: what a [recv] delivers and whether a
    connection is accepted comes from outside.  [setup] fills in a scripted
    operating system what comes from outside; [replay_step] says that a step
    of the thread and the rest of its run, on a system set up for what is
    still to come, are the run from before the step on a system set up for
    the event as well.  It needs that what the thread does on its own does
    not look at its connections ([calm]), which is shown for both programs. *)
From S2P Require Import Prelude.
From S2P Require Import CString.
From S2P Require Import Common.
From S2P Require Import OS.
From S2P Require Import Utils.
From S2P Require Import Client.
From S2P Require Import Transfer.
From S2P Require Import EndToEnd.
From S2P Require Import Programs.
From stdpp Require Import gmap strings list.
From Stdlib Require Import Ascii ZArith Lia.

(** ** Filling in the connections *)

(** The connection behind a descriptor. *)
Definition conn_of (x : fdobj) : option sock := match x with FSock c => Some c | _ => None end.

Definition socks (o : os) : gmap Z sock := omap conn_of (fds o).

Definition set_sock (G : Z → sock) (fd : Z) (x : fdobj) : option fdobj :=
  Some (match x with FSock _ => FSock (G fd) | _ => x end).

(** The system [o] with the connections [G], coming connections [D] and closed
    connections [K]. *)
Definition setup_os (G : Z → sock) (D : list (option sock)) (K : list sock) (o : os) : os :=
  Os (map_imap (set_sock G) (fds o)) (files o) (dirs o) (sys o) D (dialled o) (io o) (now o) (errtext o) K.

Lemma setup_lookup G D K o fd :
  fds (setup_os G D K o) !! fd = fds o !! fd ≫= set_sock G fd.
Proof. simpl. apply map_lookup_imap. Qed.

Lemma setup_ext G G' D K o :
  (∀ fd, is_Some (socks o !! fd) → G fd = G' fd) → setup_os G D K o = setup_os G' D K o.
Proof.
  intros HG. unfold setup_os. f_equal. apply map_eq. intros fd. rewrite !map_lookup_imap.
  destruct (fds o !! fd) as [x|] eqn:E; [|done]. simpl. unfold set_sock. destruct x; try done.
  do 2 f_equal. apply HG. unfold socks. rewrite lookup_omap, E. by eexists.
Qed.

Lemma low_fd_ext f (m m' : gmap Z fdobj) n :
  (∀ k, is_Some (m !! k) ↔ is_Some (m' !! k)) → low_fd f m n = low_fd f m' n.
Proof.
  intros H. revert n. induction f as [|f IH]; intros n; [done|]. simpl.
  destruct (m !! n) eqn:E; destruct (m' !! n) eqn:E'; try done.
  - exfalso. destruct (proj1 (H n)) as [? ?]; [by rewrite E|congruence].
  - exfalso. destruct (proj2 (H n)) as [? ?]; [by rewrite E'|congruence].
Qed.

Lemma new_fd_ext (m m' : gmap Z fdobj) : (∀ k, is_Some (m !! k) ↔ is_Some (m' !! k)) → new_fd m = new_fd m'.
Proof.
  intros H. unfold new_fd. replace (size m') with (size m); [by apply low_fd_ext|].
  rewrite <-!size_dom. f_equal. apply set_eq. intros k. rewrite !elem_of_dom. apply H.
Qed.

Lemma setup_new_fd G D K o : new_fd (fds (setup_os G D K o)) = new_fd (fds o).
Proof.
  apply new_fd_ext. intros k. rewrite setup_lookup. destruct (fds o !! k) as [x|]; simpl; [|done].
  unfold set_sock. split; by eexists.
Qed.

Lemma setup_insert G D K fd x o :
  setup_os G D K (set_fds <[fd := x]> o) =
    set_fds <[fd := match x with FSock _ => FSock (G fd) | _ => x end]> (setup_os G D K o).
Proof. unfold setup_os, set_fds. simpl. f_equal. by apply map_imap_insert_Some. Qed.

(** Every [send] on a connection takes all it is given. *)
Definition steady (o : os) : Prop := ∀ fd c, socks o !! fd = Some c → tx_script c = [].

Lemma socks_lookup o fd c : socks o !! fd = Some c ↔ fds o !! fd = Some (FSock c).
Proof.
  unfold socks. rewrite lookup_omap. destruct (fds o !! fd) as [[]|]; simpl; naive_solver.
Qed.

Lemma socks_insert fd x o :
  conn_of x = None → socks o !! fd = None → socks (set_fds <[fd := x]> o) = socks o.
Proof.
  intros Hx Hfd. unfold socks in *. apply map_eq. intros k. rewrite !lookup_omap. simpl.
  destruct (decide (k = fd)) as [->|Hne]; [|by rewrite lookup_insert_ne].
  rewrite lookup_insert_eq. simpl. rewrite lookup_omap in Hfd. by rewrite Hx.
Qed.

Lemma socks_file o fd x : fds o !! fd = Some x → conn_of x = None → socks o !! fd = None.
Proof. intros E Hx. unfold socks. by rewrite lookup_omap, E. Qed.

Lemma socks_fresh o : socks o !! new_fd (fds o) = None.
Proof. unfold socks. by rewrite lookup_omap, new_fd_fresh. Qed.

Definition is_file (o : os) (fd : Z) : Prop := ∃ p off, fds o !! fd = Some (FFile p off).

(** ** Actions that do not look at the connections *)

Definition map_out {S A} (f : S → S) (r : outcome S A) : outcome S A :=
  match r with
  | Ret a s => Ret a (f s)
  | UB k => UB k
  | Blocked => Blocked
  | NoFuel => NoFuel
  end.

Section calm.
Context {S : Type} `{OnOs S}.

Definition setup (G : Z → sock) (D : list (option sock)) (K : list sock) (s : S) : S :=
  with_os (setup_os G D K (os_of s)) s.

Definition smooths (G : Z → sock) : Prop := ∀ fd, tx_script (G fd) = [].

(** Filling in what is there. *)
Lemma setup_self G s :
  (∀ fd c, socks (os_of s) !! fd = Some c → G fd = c) → setup G (dials (os_of s)) (closed (os_of s)) s = s.
Proof.
  intros HG. unfold setup. trans (with_os (os_of s) s); [|apply with_os_of]. f_equal.
  unfold setup_os. destruct (os_of s) as [m fs ds sy di dd io nw er cl]. simpl. f_equal. apply map_eq. intros fd.
  rewrite map_lookup_imap. destruct (m !! fd) as [x|] eqn:Ex; [|done]. simpl. destruct x; try done. unfold set_sock. simpl.
  do 2 f_equal. apply HG. unfold socks. simpl. by rewrite lookup_omap, Ex.
Qed.

Lemma setup_id G s :
  socks (os_of s) = ∅ → setup G (dials (os_of s)) (closed (os_of s)) s = s.
Proof. intros Hs. apply setup_self. intros fd c. by rewrite Hs, lookup_empty. Qed.

Record calm {A} (c : M S A) : Prop := {
  calm_setup s G D K : steady (os_of s) → smooths G → c (setup G D K s) = map_out (setup G D K) (c s);
  calm_socks s a s' : c s = Ret a s' → socks (os_of s') = socks (os_of s);
  calm_sys s a s' : c s = Ret a s' → sys (os_of s) = [] → sys (os_of s') = [];
  calm_files s a s' fd : c s = Ret a s' → is_file (os_of s) fd → is_file (os_of s') fd
}.

(** Nor do they close one. *)
Lemma calm_closed {A} (c : M S A) s a s' :
  calm c → steady (os_of s) → c s = Ret a s' → closed (os_of s') = closed (os_of s).
Proof.
  intros Hc Hs E. pose (G := λ fd, default (Sock [] false [] []) (socks (os_of s) !! fd)).
  pose proof (calm_setup _ Hc s G (dials (os_of s)) (closed (os_of s)) Hs) as H1.
  rewrite setup_self, E in H1 by (intros fd x Hx; unfold G; by rewrite Hx).
  assert (smooths G) as HG.
  { intros fd. unfold G. destruct (socks (os_of s) !! fd) eqn:Ex; [|done]. simpl. by eapply Hs. }
  apply H1 in HG. injection HG as HG. rewrite HG. unfold setup. by rewrite os_of_with.
Qed.

Lemma calm_ret {A} (a : A) : calm (ret a).
Proof. split; unfold ret; naive_solver. Qed.

Lemma calm_bind {A B} (c : M S A) (f : A → M S B) : calm c → (∀ a, calm (f a)) → calm (bind c f).
Proof.
  intros [C1 C2 C3 C4] Hf. split; unfold bind.
  - intros s G D K Hs HG. rewrite C1 by done. destruct (c s) as [a s1| | |] eqn:E; simpl; try done.
    apply Hf; [|done]. intros fd c0. rewrite (C2 _ _ _ E). apply Hs.
  - intros s b s'. destruct (c s) as [a s1| | |] eqn:E; try done. intros E2.
    rewrite (calm_socks _ (Hf a) _ _ _ E2). by eapply C2.
  - intros s b s'. destruct (c s) as [a s1| | |] eqn:E; try done. intros E2 Hsys.
    eapply (calm_sys _ (Hf a)); [done|]. by eapply C3.
  - intros s b s' fd. destruct (c s) as [a s1| | |] eqn:E; try done. intros E2 Hfd.
    eapply (calm_files _ (Hf a)); [done|]. by eapply C4.
Qed.

Lemma calm_stop {A} (r : outcome S A) : (∀ a s, r ≠ Ret a s) → calm (λ _, r).
Proof. intros Hr. split; [|intros; by destruct (Hr a s')..]. intros. destruct r; try done. by destruct (Hr a s0). Qed.

Lemma calm_no_fuel {A} : calm (@no_fuel S A).
Proof. by apply (calm_stop NoFuel). Qed.

Lemma calm_gets {A} (f : S → A) :
  (∀ s G D K, steady (os_of s) → smooths G → f (setup G D K s) = f s) → calm (gets f).
Proof.
  intros Hf. split; unfold gets; [|naive_solver..]. intros. simpl. by rewrite Hf.
Qed.

Lemma calm_modify (f : S → S) :
  (∀ s G D K, f (setup G D K s) = setup G D K (f s)) → (∀ s, socks (os_of (f s)) = socks (os_of s)) →
  (∀ s, sys (os_of (f s)) = sys (os_of s)) → (∀ s fd, is_file (os_of s) fd → is_file (os_of (f s)) fd) →
  calm (modify f).
Proof.
  intros H1 H2 H3 H4. split; unfold modify; [intros; simpl; by rewrite H1|..].
  - by intros s a s' [= _ <-].
  - intros s a s' [= _ <-]. by rewrite H3.
  - intros s a s' fd [= _ <-]. apply H4.
Qed.
End calm.

Lemma calm_lift {A} (c : M os A) : calm c → calm (in_os c).
Proof.
  intros [C1 C2 C3 C4]. split; unfold in_os, zoom.
  - intros s G D K Hs HG. unfold setup in C1. simpl in *. rewrite C1 by done. by destruct (c (cos s)).
  - intros s a s'. destruct (c (cos s)) eqn:E; try done. intros [= <- <-]. by eapply C2.
  - intros s a s'. destruct (c (cos s)) eqn:E; try done. intros [= <- <-]. by eapply C3.
  - intros s a s' fd. destruct (c (cos s)) eqn:E; try done. intros [= <- <-]. by eapply C4.
Qed.

(** Actions of the operating system. *)
Lemma calm_sys_ok : calm sys_ok.
Proof.
  split; unfold sys_ok, setup; simpl.
  - intros s G D K _ _. by destruct (sys s).
  - intros s a s'. destruct (sys s); by intros [= <- <-].
  - intros s a s'. destruct (sys s) eqn:E; intros [= <- <-]; simpl; [|done]. by rewrite E.
  - intros s a s' fd. by destruct (sys s); intros [= <- <-].
Qed.

Lemma calm_open_fd x : conn_of x = None → calm (open_fd x).
Proof.
  intros Hx. split; unfold open_fd, setup; simpl.
  - intros s G D K _ _. pose proof (setup_new_fd G D K s) as E. simpl in E. rewrite E. f_equal.
    rewrite setup_insert. by destruct x.
  - intros s a s' [= <- <-]. apply socks_insert; [done|apply socks_fresh].
  - by intros s a s' [= <- <-].
  - intros s a s' fd [= <- <-] (p & off & Hfd). exists p, off. simpl. rewrite lookup_insert_ne; [done|].
    intros <-. by rewrite new_fd_fresh in Hfd.
Qed.

Lemma calm_next_io : calm next_io.
Proof.
  split; unfold next_io, setup; simpl.
  - intros s G D K _ _. by destruct (io s).
  - intros s a s'. destruct (io s); by intros [= <- <-].
  - intros s a s'. by destruct (io s); intros [= <- <-].
  - intros s a s' fd. by destruct (io s); intros [= <- <-].
Qed.

(** Writing a descriptor of a file. *)
Lemma socks_offset fd p off p' off' s :
  fds s !! fd = Some (FFile p off) → socks (set_fds <[fd := FFile p' off']> s) = socks s.
Proof. intros E. apply socks_insert; [done|by eapply socks_file]. Qed.

Lemma file_offset fd p off s k : is_file s k → is_file (set_fds <[fd := FFile p off]> s) k.
Proof.
  intros (p' & off' & E). unfold is_file. simpl.
  destruct (decide (fd = k)) as [->|Hne]; [rewrite lookup_insert_eq|rewrite lookup_insert_ne by done]; eauto.
Qed.

Ltac file_cases s fd E :=
  rewrite ?map_lookup_imap; destruct (fds s !! fd) as [[| | |?p ?off|?p]|] eqn:E; simpl; try done;
  try (intros [= <- <-]; done).

Lemma calm_read fd n : calm (sys_read fd n).
Proof.
  split; unfold sys_read, setup, bind, get, next_io; simpl.
  - intros s G D K _ _. file_cases s fd E.
    destruct (io s) as [|b l]; simpl; [|destruct (served b _)]; unfold modify, ret; simpl; try done;
      apply (f_equal (Ret _)), eq_sym, (setup_insert G D K fd (FFile p _)).
  - intros s a s'. file_cases s fd E.
    destruct (io s) as [|b l]; simpl; [|destruct (served b _)]; intros [= _ <-]; try done;
      exact (socks_offset fd p off _ _ s E).
  - intros s a s'. file_cases s fd E.
    by destruct (io s) as [|b l]; simpl; [|destruct (served b _)]; intros [= _ <-].
  - intros s a s' k. file_cases s fd E.
    destruct (io s) as [|b l]; simpl; [|destruct (served b _)]; intros [= _ <-]; try done; intros Hk;
      exact (file_offset fd p _ s k Hk).
Qed.

Lemma setup_write G D K fd p off d o :
  setup_os G D K (write_at fd p off d o) = write_at fd p off d (setup_os G D K o).
Proof. unfold write_at. rewrite setup_insert. done. Qed.

Lemma calm_write fd d : calm (sys_write fd d).
Proof.
  split; unfold sys_write, setup, bind, get, next_io; simpl.
  - intros s G D K _ _. file_cases s fd E.
    destruct (io s) as [|b l]; simpl; [|destruct (served b _)]; unfold modify, ret; simpl; try done;
      apply (f_equal (Ret _)), eq_sym, setup_write.
  - intros s a s'. file_cases s fd E.
    destruct (io s) as [|b l]; simpl; [|destruct (served b _)]; intros [= _ <-]; try done;
      exact (socks_offset fd p off _ _ s E).
  - intros s a s'. file_cases s fd E.
    by destruct (io s) as [|b l]; simpl; [|destruct (served b _)]; intros [= _ <-].
  - intros s a s' k. file_cases s fd E.
    destruct (io s) as [|b l]; simpl; [|destruct (served b _)]; intros [= _ <-]; try done; intros Hk;
      exact (file_offset fd p _ s k Hk).
Qed.

Lemma calm_append_log fd text : calm (append_log fd text).
Proof.
  apply calm_modify; unfold setup; simpl.
  - intros s G D K. file_cases s fd E. apply eq_sym, setup_write.
  - intros s. file_cases s fd E. exact (socks_offset fd p off _ _ s E).
  - intros s. file_cases s fd E.
  - intros s k Hk. file_cases s fd E. exact (file_offset fd p _ s k Hk).
Qed.

Lemma calm_fstat fd : calm (sys_fstat fd).
Proof.
  apply calm_bind; [apply calm_sys_ok|]. intros ok. split; unfold setup, bind, get; simpl.
  - intros s G D K _ _. destruct ok; [|done]. file_cases s fd E.
  - intros s a s'. destruct ok; [|by intros [= _ <-]]. file_cases s fd E.
  - intros s a s'. destruct ok; [|by intros [= _ <-]]. file_cases s fd E.
  - intros s a s' k. destruct ok; [|by intros [= _ <-]]. file_cases s fd E.
Qed.

Lemma calm_open_read path : calm (open_read path).
Proof.
  apply calm_bind; [apply calm_sys_ok|]. intros ok.
  set (f := λ o : os, (files o !! path, dirs o !! path)).
  apply (calm_bind (gets f) (λ x, match ok, x.1, x.2 with
    | true, Some _, _ => open_fd (FFile path 0)
    | true, None, Some _ => open_fd (FDir path)
    | _, _, _ => ret (-1)%Z
    end)); [by apply calm_gets|].
  intros [[?|] [?|]]; destruct ok; simpl; (by apply calm_open_fd) || apply calm_ret.
Qed.

Lemma calm_open_trunc path : calm (open_trunc path).
Proof.
  apply calm_bind; [apply calm_sys_ok|]. intros ok.
  apply (calm_bind (gets (λ o, dirs o !! path)) (λ x, match ok, x with
    | true, None => modify (set_files <[path := []]>) ;;; open_fd (FFile path 0)
    | _, _ => ret (-1)%Z
    end)); [by apply calm_gets|].
  intros [?|]; destruct ok; try apply calm_ret. apply calm_bind; [by apply calm_modify|]. intros _.
  by apply calm_open_fd.
Qed.

Lemma calm_opendir path : calm (sys_opendir path).
Proof. apply calm_bind; [apply calm_sys_ok|]. intros ok. by apply calm_gets. Qed.

Lemma calm_stat_regular path : calm (stat_regular path).
Proof. apply calm_bind; [apply calm_sys_ok|]. intros ok. by apply calm_gets. Qed.

Lemma calm_send_fuel fd : calm (gets (send_fuel fd)).
Proof.
  apply calm_gets. unfold send_fuel, setup. simpl. intros s G D K Hs HG. rewrite map_lookup_imap.
  destruct (fds s !! fd) as [[| |c| |]|] eqn:E; try done. simpl. rewrite HG. f_equal.
  by rewrite (Hs fd c) by (by apply socks_lookup).
Qed.

Lemma calm_file_left fd : calm (gets (file_left fd)).
Proof.
  apply calm_gets. unfold file_left, setup. simpl. intros s G D K _ _. rewrite map_lookup_imap.
  by destruct (fds s !! fd) as [[]|] eqn:E.
Qed.

Lemma calm_error : calm (gets error_response).
Proof. by apply calm_gets. Qed.

Lemma calm_log_job logfile self job rest :
  (∀ s G D K, rest (setup_os G D K s) = rest s) → calm (log_job logfile self job rest).
Proof.
  intros Hr. unfold log_job. destruct logfile as [fd|]; [|apply calm_ret].
  apply calm_bind; [|intros; apply calm_append_log]. apply calm_gets. intros s G D K _ _. f_equal. by apply Hr.
Qed.

(** Actions of the client's own state. *)
Lemma calm_current : calm (gets current_fd).
Proof. by apply calm_gets. Qed.

Lemma calm_set_current fd : calm (set_current fd).
Proof. by apply calm_modify. Qed.

Lemma calm_sscanf (line : bytes) fmt sizes : calm (@sscanf cst line fmt sizes).
Proof. unfold sscanf. destruct (scan _ _ _). case_match; [apply calm_ret|by apply (calm_stop (UB _))]. Qed.

Lemma calm_int_result z : calm (@int_result cst z).
Proof. unfold int_result. case_decide; [apply calm_ret|by apply (calm_stop (UB _))]. Qed.

Create HintDb calm.
#[export] Hint Resolve calm_ret calm_no_fuel calm_lift calm_read calm_write calm_fstat calm_open_read
  calm_open_trunc calm_opendir calm_stat_regular calm_send_fuel calm_file_left calm_error calm_current
  calm_set_current calm_sscanf calm_int_result : calm.

(** ** Programs whose own actions are calm *)

Section programs.
Context {S : Type} `{OnOs S}.

Fixpoint calm_prog {A} (p : prog S A) : Prop :=
  match p with
  | Done _ => True
  | Local c => calm c ∧ ∀ s, match c s with Ret p' _ => calm_prog p' | _ => True end
  | Dial _ _ k => ∀ fd, calm_prog (k fd)
  | Send _ _ k => ∀ z, calm_prog (k z)
  | Recv _ _ k => ∀ r, calm_prog (k r)
  | Close _ k => calm_prog k
  end.

Lemma calm_local {A} (c : M S A) : calm c → calm_prog (local c).
Proof.
  intros Hc. split; [apply calm_bind; [done|]; intros; apply calm_ret|]. intros s. unfold bind. by destruct (c s).
Qed.

Lemma calm_pbind {A B} (p : prog S A) (f : A → prog S B) :
  calm_prog p → (∀ a, calm_prog (f a)) → calm_prog (pbind p f).
Proof.
  intros Hp Hf. induction p as [a|c IH|h port k IH|fd d k IH|fd n k IH|fd k IH] using prog_rect_local; simpl in *; auto.
  destruct Hp as [Hc Hp]. split.
  - apply (calm_bind c (λ p', ret (pbind p' f))); [done|]. intros. apply calm_ret.
  - intros s. specialize (Hp s). destruct (c s) eqn:E; try done. by eapply IH.
Qed.
End programs.

(** Along the text of a program. *)
Ltac calm_tac :=
  repeat lazymatch goal with
  | |- calm_prog (pbind _ _) => apply calm_pbind
  | |- calm_prog (local _) => apply calm_local
  | |- calm_prog (Done _) => exact I
  | |- True => exact I
  | |- calm_prog (Send _ _ _) => intros ?
  | |- calm_prog (Recv _ _ _) => intros ?
  | |- calm_prog (Dial _ _ _) => intros ?
  | |- calm_prog (Close _ _) => cbn [calm_prog]
  | |- calm_prog (match ?x with _ => _ end) => destruct x
  | |- calm (log_job _ _ _ _) => apply calm_log_job; done
  | |- calm _ => auto with calm
  | |- ∀ _, _ => intros ?
  end.

Lemma calm_send_command fd command : calm_prog (send_command_prog fd command).
Proof. unfold send_command_prog. calm_tac. Qed.

Lemma calm_push_chunk fd path chunk : calm_prog (push_chunk_prog fd path chunk).
Proof. apply calm_pbind; [apply calm_send_command|]. calm_tac. Qed.

Lemma calm_transfer fuel s t path size total : calm_prog (transfer_prog fuel s t path size total).
Proof.
  revert total. induction fuel as [|f IH]; intros total; cbn [transfer_prog]; calm_tac; [|done].
  apply calm_push_chunk.
Qed.

Lemma calm_sync logfile self job : calm_prog (sync_prog logfile self job).
Proof.
  unfold sync_prog, sync_connected_prog, sync_content_prog, close_both_prog. calm_tac.
  all: apply calm_send_command || apply calm_push_chunk || apply calm_transfer.
Qed.

Lemma calm_list fd path : calm_prog (list_prog fd path).
Proof.
  unfold list_prog. calm_tac.
  match goal with |- calm_prog (list_entries_prog _ _ ?l) => induction l as [|d entries IH]; cbn [list_entries_prog] end;
    calm_tac. done.
Qed.

Lemma calm_send_rest fuel fd data : calm_prog (send_rest_prog fuel fd data).
Proof. revert data. induction fuel as [|f IH]; intros [|c data]; cbn [send_rest_prog]; calm_tac; done. Qed.

Lemma calm_send_file fuel client_fd fd : calm_prog (send_file_prog fuel client_fd fd).
Proof. induction fuel as [|f IH]; cbn [send_file_prog]; calm_tac; [apply calm_send_rest|done]. Qed.

Lemma calm_pull fd path : calm_prog (pull_prog fd path).
Proof. unfold pull_prog. calm_tac. apply (calm_send_file (S _)). Qed.

Lemma calm_receive fuel fd total size : calm_prog (receive_chunk_prog fuel fd total size).
Proof. revert total. induction fuel as [|f IH]; intros total; cbn [receive_chunk_prog]; calm_tac; done. Qed.

Lemma calm_push fd path size : calm_prog (push_prog fd path size).
Proof. unfold push_prog, close_current_prog. calm_tac. apply calm_receive. Qed.

Lemma calm_connection fd : calm_prog (connection_prog fd).
Proof.
  unfold connection_prog, command_prog. calm_tac.
  all: apply calm_list || apply calm_pull || apply calm_push.
Qed.

(** ** Connecting *)

Definition no_data : sock := Sock [] false [] [].

(** A system whose next [connect] is answered by [a]. *)
Definition answered (a : option sock) (o : os) : os := set_dial (λ _, [a]) id o.

(** [connect_to_server] on a system whose next [connect] has the answer [a]. *)
Definition after_socket (o : os) : os := set_sys (λ _, tail (sys o)) o.
Definition after_connect (host : bytes) (port : Z) (o : os) : os :=
  set_dial tail (λ d, d ++ [(host, htons port)]) (after_socket o).

Definition cannot_connect (host : bytes) (o : os) : bool :=
  bool_decide (head (sys o) = Some false) || bool_decide (inet_pton host ≤ 0)%Z.

Lemma delete_raw fd x o :
  fds o !! fd = None → conn_of x = None → close_fd fd (set_fds <[fd := x]> o) = o.
Proof.
  intros Hf Hx. unfold close_fd, set_fds. simpl. rewrite delete_insert_id by done.
  rewrite lookup_insert_eq. destruct o. by destruct x.
Qed.

Lemma connect_eq host port a D o :
  dials o = a :: D →
  connect_to_server (Some host) port o =
    if cannot_connect host o then Ret (-1)%Z (after_socket o) else
    match a with
    | Some c => Ret (new_fd (fds o)) (set_fds <[new_fd (fds o) := FSock c]> (after_connect host port o))
    | None => Ret (-1)%Z (after_connect host port o)
    end.
Proof.
  intros Hd. unfold cannot_connect, after_connect, after_socket, connect_to_server, sys_socket, sys_ok, bind, open_fd.
  pose proof (new_fd_nonneg (fds o)). pose proof (new_fd_fresh (fds o)) as Hf.
  assert (∀ l, sys o = l → set_sys (λ _, l) o = o) as Hid by (intros l <-; by destruct o).
  destruct (sys o) as [|[] l] eqn:E; simpl; [|..|done].
  all: rewrite decide_False by lia; case_decide as Hp; [rewrite bool_decide_true by done|rewrite bool_decide_false by done].
  1, 3: unfold sys_close, modify, ret; simpl; f_equal; by rewrite ?(Hid []), delete_raw.
  all: unfold sys_connect; simpl; rewrite Hd; destruct a as [c|]; simpl.
  1, 3: unfold ret, set_fds, set_dial; simpl; by rewrite insert_insert_eq, ?E.
  all: unfold sys_close, modify, ret; simpl; f_equal; unfold close_fd; simpl;
    rewrite delete_insert_id, lookup_insert_eq by done; unfold set_dial, set_sys; simpl; by rewrite ?E.
Qed.

Lemma connect_cannot host port o :
  cannot_connect host o = true → connect_to_server (Some host) port o = Ret (-1)%Z (after_socket o).
Proof.
  intros Hc. destruct (dials o) as [|a D] eqn:E; [|by rewrite (connect_eq host port a D), Hc].
  revert Hc. unfold cannot_connect, after_socket, connect_to_server, sys_socket, sys_ok, bind, open_fd.
  pose proof (new_fd_nonneg (fds o)). pose proof (new_fd_fresh (fds o)) as Hf.
  assert (∀ l, sys o = l → set_sys (λ _, l) o = o) as Hid by (intros l <-; by destruct o).
  destruct (sys o) as [|[] l] eqn:Es; simpl; [|..|done].
  all: rewrite bool_decide_eq_true; intros Hp; rewrite decide_False by lia; rewrite decide_True by done.
  all: unfold sys_close, modify, ret; simpl; f_equal; by rewrite ?(Hid []), delete_raw.
Qed.

Section threads.
Context {S : Type} `{OnOs S}.

(** What happens between a thread and the network. *)
Inductive event :=
| ETau                                     (* nothing *)
| EDial (host : bytes) (port fd : Z)       (* a connection, at fd *)
| ERefused (host : bytes) (port : Z)
| ESend (fd : Z) (d : bytes)
| ERecv (fd : Z) (n : nat) (d : bytes)     (* the end of the stream: d = [] *)
| EClose (fd : Z).

(** [connect_to_server], when the peer answers [a]. *)
Definition connect_on (a : option sock) (host : bytes) (port : Z) (s : S) : outcome S Z :=
  lift (connect_to_server (Some host) port) (with_os (answered a (os_of s)) s).

Inductive tstep {A} : prog S A → S → event → prog S A → S → Prop :=
| t_local c s p s' :
    c s = Ret p s' → tstep (Local c) s ETau p s'
| t_no_dial host port k s fd s' :
    connect_on (Some no_data) host port s = Ret fd s' → (fd < 0)%Z →
    tstep (Dial host port k) s ETau (k fd) s'
| t_dial host port k s fd s' :
    connect_on (Some no_data) host port s = Ret fd s' → (0 ≤ fd)%Z →
    tstep (Dial host port k) s (EDial host port fd) (k fd) s'
| t_refused host port k s fd fd' s' s'' :
    connect_on (Some no_data) host port s = Ret fd s' → (0 ≤ fd)%Z →
    connect_on None host port s = Ret fd' s'' →
    tstep (Dial host port k) s (ERefused host port) (k fd') s''
| t_send fd d k s :
    is_Some (socks (os_of s) !! fd) → tstep (Send fd d k) s (ESend fd d) (k (Z.of_nat (length d))) s
| t_recv fd n k s d :
    is_Some (socks (os_of s) !! fd) →
    tstep (Recv fd n k) s (ERecv fd n d) (k (Z.of_nat (length d), d)) s
| t_close fd k s :
    is_Some (socks (os_of s) !! fd) →
    tstep (Close fd k) s (EClose fd) k (with_os (close_fd fd (os_of s)) s)
| t_close_file fd k s :
    socks (os_of s) !! fd = None → tstep (Close fd k) s ETau k (with_os (close_fd fd (os_of s)) s).

(** The connections before and after an event. *)
Definition moves (e : event) (G : Z → sock) (D : list (option sock)) (K : list sock)
    (G' : Z → sock) (D' : list (option sock)) (K' : list sock) : Prop :=
  match e with
  | ETau => (∀ k, G' k = G k) ∧ D' = D ∧ K' = K
  | EDial _ _ fd => (∀ k, k ≠ fd → G' k = G k) ∧ D = Some (G' fd) :: D' ∧ K' = K
  | ERefused _ _ => (∀ k, G' k = G k) ∧ D = None :: D' ∧ K' = K
  | ESend fd d => (∀ k, k ≠ fd → G' k = G k) ∧ G' fd = sent (G fd) d ∧ D' = D ∧ K' = K
  | ERecv fd n d => (∀ k, k ≠ fd → G' k = G k) ∧ delivered n (G fd) = (Some d, G' fd) ∧ D' = D ∧ K' = K
  | EClose fd => (∀ k, k ≠ fd → G' k = G k) ∧ D' = D ∧ K' = K ++ [G fd]
  end.


Lemma os_of_setup G D K s : os_of (setup G D K s) = setup_os G D K (os_of s).
Proof. apply os_of_with. Qed.

Lemma with_setup G D K o s : with_os (setup_os G D K o) s = setup G D K (with_os o s).
Proof. unfold setup. by rewrite os_of_with, with_os_with. Qed.

Lemma with_setup_of G D K o s : with_os o (setup G D K s) = with_os o s.
Proof. unfold setup. by rewrite with_os_with. Qed.

Lemma setup_same G G' D K s :
  (∀ fd, is_Some (socks (os_of s) !! fd) → G fd = G' fd) → setup G D K s = setup G' D K s.
Proof. intros H1. unfold setup. f_equal. by apply setup_ext. Qed.

Lemma setup_sock G D K s fd :
  is_Some (socks (os_of s) !! fd) → fds (setup_os G D K (os_of s)) !! fd = Some (FSock (G fd)).
Proof. intros [c Hc%socks_lookup]. by rewrite setup_lookup, Hc. Qed.

(** Changing the connection at [fd] afterwards or before. *)
Lemma setup_put G G' D K o fd :
  is_Some (socks o !! fd) → (∀ k, k ≠ fd → G' k = G k) →
  set_fds <[fd := FSock (G' fd)]> (setup_os G D K o) = setup_os G' D K o.
Proof.
  intros [c Hc%socks_lookup] HG. unfold setup_os, set_fds. simpl. f_equal. apply map_eq. intros k.
  destruct (decide (k = fd)) as [->|Hne].
  - by rewrite lookup_insert_eq, map_lookup_imap, Hc.
  - rewrite lookup_insert_ne, !map_lookup_imap by done. destruct (fds o !! k) as [[]|]; try done.
    simpl. unfold set_sock. by rewrite HG.
Qed.

Lemma setup_close G G' D K o fd :
  (∀ k, k ≠ fd → G' k = G k) →
  close_fd fd (setup_os G D K o) =
    setup_os G' D (match socks o !! fd with Some _ => K ++ [G fd] | None => K end) (close_fd fd o).
Proof.
  intros HG. unfold close_fd, setup_os. simpl. f_equal.
  - apply map_eq. intros k. rewrite map_lookup_imap. destruct (decide (k = fd)) as [->|Hne].
    + by rewrite !lookup_delete_eq.
    + rewrite !lookup_delete_ne, map_lookup_imap by done. destruct (fds o !! k) as [[]|]; try done.
      simpl. unfold set_sock. by rewrite HG.
  - rewrite map_lookup_imap. unfold socks. rewrite lookup_omap. by destruct (fds o !! fd) as [[]|].
Qed.

Lemma lift_with {A} (c : M os A) o s :
  lift c (with_os o s) = match c o with
    | Ret a o' => Ret a (with_os o' s)
    | UB k => UB k
    | Blocked => Blocked
    | NoFuel => NoFuel
    end.
Proof. unfold lift, zoom. rewrite os_of_with. destruct (c o); try done. by rewrite with_os_with. Qed.

(** What [connect_on] does. *)
Lemma connect_on_eq a host port s :
  connect_on a host port s =
    let o := answered a (os_of s) in
    if cannot_connect host (os_of s) then Ret (-1)%Z (with_os (after_socket o) s) else
    match a with
    | Some c => Ret (new_fd (fds (os_of s)))
        (with_os (set_fds <[new_fd (fds (os_of s)) := FSock c]> (after_connect host port o)) s)
    | None => Ret (-1)%Z (with_os (after_connect host port o) s)
    end.
Proof.
  unfold connect_on. rewrite lift_with. rewrite (connect_eq host port a []) by done.
  change (cannot_connect host (answered a (os_of s))) with (cannot_connect host (os_of s)).
  simpl. destruct (cannot_connect host (os_of s)); [done|]. by destruct a.
Qed.

Lemma setup_no_connect host port s fd s' G D K :
  connect_on (Some no_data) host port s = Ret fd s' → (fd < 0)%Z →
  lift (connect_to_server (Some host) port) (setup G D K s) = Ret fd (setup G D K s').
Proof.
  rewrite connect_on_eq. pose proof (new_fd_nonneg (fds (os_of s))).
  destruct (cannot_connect host (os_of s)) eqn:E; intros [= <- <-] Hfd; [|lia].
  unfold setup. rewrite lift_with, connect_cannot by done. by rewrite os_of_with, with_os_with.
Qed.

Lemma setup_connected host port s fd s' G G' D K :
  connect_on (Some no_data) host port s = Ret fd s' → (0 ≤ fd)%Z → (∀ k, k ≠ fd → G' k = G k) →
  lift (connect_to_server (Some host) port) (setup G (Some (G' fd) :: D) K s) = Ret fd (setup G' D K s').
Proof.
  rewrite connect_on_eq. destruct (cannot_connect host (os_of s)) eqn:E; intros [= <- <-] Hfd HG; [lia|].
  unfold setup at 1. rewrite lift_with, (connect_eq host port (Some (G' _)) D), setup_new_fd by done.
  change (cannot_connect host (setup_os _ _ _ _)) with (cannot_connect host (os_of s)). rewrite E.
  f_equal. unfold setup. rewrite os_of_with, with_os_with. f_equal. rewrite setup_insert.
  unfold setup_os, set_fds. simpl. f_equal. apply map_eq. intros k.
  destruct (decide (k = new_fd (fds (os_of s)))) as [->|Hne]; [by rewrite !lookup_insert_eq|].
  rewrite !lookup_insert_ne, !map_lookup_imap by done. destruct (fds (os_of s) !! k) as [[]|]; try done.
  simpl. unfold set_sock. by rewrite HG.
Qed.

Lemma setup_refused host port s fd s' fd' s'' G D K :
  connect_on (Some no_data) host port s = Ret fd s' → (0 ≤ fd)%Z → connect_on None host port s = Ret fd' s'' →
  lift (connect_to_server (Some host) port) (setup G (None :: D) K s) = Ret fd' (setup G D K s'').
Proof.
  rewrite !connect_on_eq. destruct (cannot_connect host (os_of s)) eqn:E; intros [= <- _] Hfd [= <- <-]; [lia|].
  unfold setup at 1. rewrite lift_with, (connect_eq host port None D) by done.
  change (cannot_connect host (setup_os _ _ _ _)) with (cannot_connect host (os_of s)). rewrite E.
  f_equal. unfold setup. by rewrite os_of_with, with_os_with.
Qed.

(** What a step leaves of the connections. *)
Definition after_event (e : event) (m m' : gmap Z sock) : Prop :=
  match e with
  | EDial _ _ fd => m !! fd = None ∧ m' = <[fd := no_data]> m
  | EClose fd => m' = delete fd m
  | _ => m' = m
  end.

Lemma setup_sent G G' D K s fd d :
  is_Some (socks (os_of s) !! fd) → tx_script (G fd) = [] →
  (∀ k, k ≠ fd → G' k = G k) → G' fd = sent (G fd) d →
  lift (sys_send fd d) (setup G D K s) = Ret (Z.of_nat (length d)) (setup G' D K s).
Proof.
  intros Hs Hsm HG HGd. unfold setup at 1. rewrite lift_with.
  unfold sys_send, get_sock, bind, gets. rewrite setup_sock by done. unfold send_ans. rewrite Hsm. simpl.
  unfold put_sock, modify, ret. by rewrite <-HGd, (setup_put G G').
Qed.

Lemma setup_delivered G G' D K s fd n d :
  is_Some (socks (os_of s) !! fd) → (∀ k, k ≠ fd → G' k = G k) → delivered n (G fd) = (Some d, G' fd) →
  lift (sys_recv fd n) (setup G D K s) = Ret (Z.of_nat (length d), d) (setup G' D K s).
Proof.
  intros Hs HG HGd. unfold setup at 1. rewrite lift_with.
  unfold sys_recv, get_sock, bind, gets. rewrite setup_sock, HGd by done.
  unfold put_sock, modify, ret. by rewrite (setup_put G G').
Qed.

Lemma replay_step {A} (p : prog S A) s e p' s' G D K G' D' K' :
  tstep p s e p' s' → calm_prog p → steady (os_of s) → smooths G → moves e G D K G' D' K' →
  run p (setup G D K s) = run p' (setup G' D' K' s').
Proof.
  intros Ht Hp Hst HG Hm.
  destruct Ht as [c s p s' E|h port k s fd s' E Hfd|h port k s fd s' E Hfd|h port k s fd fd' s' s'' E Hfd E'
    |fd d k s Hs|fd n k s d Hs|fd k s Hs|fd k s Hs]; simpl in Hm.
  - destruct Hm as (HG' & -> & ->). cbn [run]. rewrite (calm_setup c (proj1 Hp)) by done. rewrite E. simpl.
    f_equal. by apply setup_same.
  - destruct Hm as (HG' & -> & ->). cbn [run]. erewrite bind_Ret by (by eapply setup_no_connect).
    f_equal. apply setup_same. intros ? _. by rewrite HG'.
  - destruct Hm as (HG' & -> & ->). cbn [run]. by erewrite bind_Ret by (by eapply setup_connected).
  - destruct Hm as (HG' & -> & ->). cbn [run]. erewrite bind_Ret by (by eapply setup_refused).
    f_equal. apply setup_same. intros ? _. by rewrite HG'.
  - destruct Hm as (HG1 & HG2 & -> & ->). cbn [run]. erewrite bind_Ret by (by apply (setup_sent G G')). done.
  - destruct Hm as (HG1 & HG2 & -> & ->). cbn [run]. erewrite bind_Ret by (by apply (setup_delivered G G')). done.
  - destruct Hm as (HG1 & -> & ->). cbn [run]. unfold bind, lift, zoom, sys_close, modify.
    rewrite os_of_setup, (setup_close G G') by done. destruct Hs as [c Hc]. rewrite Hc.
    by rewrite with_setup_of, with_setup.
  - destruct Hm as (HG1 & -> & ->). cbn [run]. unfold bind, lift, zoom, sys_close, modify.
    rewrite os_of_setup, (setup_close G G') by done. rewrite Hs.
    by rewrite with_setup_of, with_setup.
Qed.
Lemma socks_put fd c o : socks (set_fds <[fd := FSock c]> o) = <[fd := c]> (socks o).
Proof. unfold socks. simpl. apply omap_insert_Some with (y := c). done. Qed.

Lemma socks_close fd o : socks (close_fd fd o) = delete fd (socks o).
Proof. unfold socks. simpl. apply omap_delete. Qed.

Lemma tstep_after {A} (p : prog S A) s e p' s' :
  tstep p s e p' s' → calm_prog p →
  calm_prog p' ∧ after_event e (socks (os_of s)) (socks (os_of s')) ∧ (sys (os_of s) = [] → sys (os_of s') = []).
Proof.
  intros Ht Hp.
  destruct Ht as [c s p s' E|h port k s fd s' E Hfd|h port k s fd s' E Hfd|h port k s fd fd' s' s'' E Hfd E'
    |fd d k s Hs|fd n k s d Hs|fd k s Hs|fd k s Hs]; simpl in Hp |- *.
  - destruct Hp as [Hc Hp]. specialize (Hp s). rewrite E in Hp. split_and!; [done|by eapply calm_socks|].
    by eapply calm_sys.
  - split; [done|]. rewrite connect_on_eq in E. pose proof (new_fd_nonneg (fds (os_of s))).
    destruct (cannot_connect h (os_of s)); injection E as <- <-; [|lia]. rewrite os_of_with. simpl.
    split; [done|]. by intros ->.
  - split; [done|]. rewrite connect_on_eq in E.
    destruct (cannot_connect h (os_of s)); injection E as <- <-; [lia|]. rewrite os_of_with, socks_put. simpl.
    split; [by split; [apply socks_fresh|]|]. by intros ->.
  - split; [done|]. rewrite connect_on_eq in E'. destruct (cannot_connect h (os_of s)); injection E' as <- <-;
      rewrite os_of_with; simpl; (split; [done|]); by intros ->.
  - done.
  - done.
  - rewrite os_of_with, socks_close. done.
  - rewrite os_of_with, socks_close. split_and!; [done| |done]. by apply delete_id.
Qed.

Lemma steady_after e (o o' : os) : after_event e (socks o) (socks o') → steady o → steady o'.
Proof.
  unfold steady. intros He Hst fd c. specialize (Hst fd c). destruct e; simpl in He.
  2: { destruct He as [_ ->]. rewrite lookup_insert_Some. naive_solver. }
  5: { rewrite He. intros [_ ?]%lookup_delete_Some. auto. }
  all: by rewrite He.
Qed.
End threads.
