(* ===== verification/Fate.v ===== *)
(** * What becomes of a job

    A job may be done, or the source may not have its file, or there may be
    nobody at the address of the target, or of the source.  What the two
    clients and the worker do in each case, as functions on what the peers
    have sent. *)
From S2P Require Import Prelude.
From S2P Require Import CString.
From S2P Require Import Common.
From S2P Require Import OS.
From S2P Require Import Utils.
From S2P Require Import Client.
From S2P Require Import Transfer.
From S2P Require Import EndToEnd.
From S2P Require Import Directory.
From S2P Require Import Programs.
From S2P Require Import Replay.
From stdpp Require Import gmap strings list.
From Stdlib Require Import Ascii ZArith Lia.

Inductive fate :=
| Copied (data : bytes)   (* the source has the file, with this content *)
| Missing                 (* the source has no such file *)
| NoTarget                (* the target cannot be connected to *)
| NoSource.               (* the source cannot be connected to *)

(** What [sync_single_file] returns. *)
Definition result (f : fate) : Z := match f with Copied _ => 0 | _ => -1 end.

Definition content (f : fate) : option bytes := match f with Copied data => Some data | _ => None end.

(** Which connections are made. *)
Definition has_source (f : fate) : bool := match f with NoSource => false | _ => true end.
Definition has_target (f : fate) : bool := match f with Copied _ | Missing => true | _ => false end.

(** What the source is asked. *)
Definition asks (job : sync_job) (f : fate) : list bytes := if has_target f then [pull_message job] else [].

(** A file is sent in pieces; an error is one message. *)
Definition cut_up (f : fate) (pieces : list bytes) : Prop :=
  match f with
  | Copied data => pieces_of data pieces
  | Missing => ∃ e, pieces = [snprintf 64 (lit "-1 " ++ e)]
  | _ => pieces = []
  end.

(** What the source answers. *)
Definition reply (f : fate) (pieces : list bytes) : list bytes :=
  match f with Copied data => file_reply data pieces | _ => pieces end.

(** What the target is sent. *)
Definition pushes (job : sync_job) (f : fate) (pieces : list bytes) : list bytes :=
  match f with Copied _ => push_session (target_path job) pieces | _ => [] end.

(** The source [o] is one for which the job has this fate. *)
Definition holds (o : os) (job : sync_job) (f : fate) : Prop :=
  match f with
  | Copied data => available (files o) job data
  | Missing => fetchable (source_path job) ∧ files o !! relative_path (source_path job) = None ∧
      dirs o !! relative_path (source_path job) = None
  | _ => True
  end.

(** What becomes of a job whose source, when it has one, is [o]. *)
Definition fate_at (route : bytes → Z → option nat) (o : os) (job : sync_job) : fate :=
  if route (job_source_host job) (job_source_port job) is None then NoSource else
  if route (job_target_host job) (job_target_port job) is None then NoTarget else
  match files o !! relative_path (source_path job) with Some data => Copied data | None => Missing end.

(** And the target. *)
Definition takes (o : os) (job : sync_job) (f : fate) : Prop :=
  match f with
  | Copied _ => pushable (target_path job) ∧ dirs o !! destination job = None
  | _ => True
  end.

(** ** The clients *)

(** A connection on which nothing arrives. *)
Lemma connection_none client_fd s :
  fds (cos s) !! client_fd = Some (FSock (arriving [])) →
  ∃ s', handle_client_connection client_fd s = Ret tt s' ∧ current_fd s' = current_fd s ∧
    closed (cos s') = closed (cos s) ++ [arriving []] ∧ files (cos s') = files (cos s) ∧
    dirs (cos s') = dirs (cos s) ∧ sys (cos s') = sys (cos s) ∧ io (cos s') = io (cos s).
Proof.
  intros Hc. unfold handle_client_connection. unfold bind at 1, get. unfold rx_left. rewrite Hc.
  destruct (recv_end client_fd (MAX_COMMAND_SIZE - 1) (arriving []) (cos s)) as (z & Hz & Er); [done|done|].
  eexists. split.
  { cbn [connection_loop arriving rx concat length]. erewrite (bind_Ret (bind _ _) _ _ tt).
    2: { erewrite bind_Ret by (unfold in_os, zoom; rewrite Er; reflexivity).
         cbn iota beta. rewrite decide_True by done. reflexivity. }
    unfold in_os, zoom, sys_close, modify. reflexivity. }
  split_and!; try done; simpl; by rewrite lookup_insert_eq.
Qed.

(** PULL of a file that is not there. *)
Lemma source_refuses client_fd job s :
  fds (cos s) !! client_fd = Some (FSock (arriving [pull_message job])) → holds (cos s) job Missing → sys (cos s) = [] →
  ∃ s' c', handle_client_connection client_fd s = Ret tt s' ∧ closed (cos s') = closed (cos s) ++ [c'] ∧
    tx c' = [error_response (cos s)] ∧ files (cos s') = files (cos s) ∧ dirs (cos s') = dirs (cos s) ∧
    sys (cos s') = sys (cos s) ∧ io (cos s') = io (cos s).
Proof.
  intros Hc (Hp & Hf & Hd) Hsys. set (c1 := with_rx [] (arriving [pull_message job])).
  set (s1 := put_conn client_fd c1 s). set (e := error_response (cos s)).
  assert (fds (cos s1) !! client_fd = Some (FSock c1)) as Hc1 by apply lookup_insert_eq.
  destruct (connection_one client_fd (arriving [pull_message job]) (pull_message job) s
    (Cst (set_fds <[client_fd := FSock (sent_all c1 [e])]> (cos s1)) (current_fd s)) (sent_all c1 [e]))
    as (s' & E & _ & Ecl & E1 & E2 & E4 & E5 & _); [done..|apply pull_message_fits| |apply lookup_insert_eq|done|].
  - unfold pull_message. rewrite run_pull by done. unfold in_os, zoom, handle_pull_command.
    assert (open_read (relative_path (source_path job)) (cos s1) = Ret (-1)%Z (cos s1)) as Eo.
    { unfold open_read, sys_ok, bind, get. change (sys (cos s1)) with (sys (cos s)). rewrite Hsys.
      change (files (cos s1)) with (files (cos s)). change (dirs (cos s1)) with (dirs (cos s)). by rewrite Hf, Hd. }
    erewrite bind_Ret by exact Eo.
    rewrite decide_True by done. unfold bind at 1, gets. change (error_response (cos s1)) with e.
    erewrite bind_Ret by (by apply (send_whole client_fd c1)). done.
  - exists s', (sent_all c1 [e]). by split_and!.
Qed.

(** The source, on a connection that carries what the job has it asked. *)
Lemma source_answers client_fd job f s :
  fds (cos s) !! client_fd = Some (FSock (arriving (asks job f))) → holds (cos s) job f →
  sys (cos s) = [] → Forall progress (io (cos s)) →
  ∃ s' c' pieces, handle_client_connection client_fd s = Ret tt s' ∧ closed (cos s') = closed (cos s) ++ [c'] ∧
    tx c' = reply f pieces ∧ cut_up f pieces ∧ unchanged (cos s) (cos s').
Proof.
  intros Hc Hh Hsys Hio. destruct f as [data| | |].
  - destruct Hh as [H1 H2 H3].
    destruct (source_serves client_fd (source_path job) data (arriving [pull_message job]) s)
      as (s' & c' & pieces & E & Hcl & Htx & Hp & Hcat & Hun); [done..|apply pull_message_fits|done|done|done|done|].
    by exists s', c', pieces.
  - destruct (source_refuses client_fd job s Hc Hh Hsys) as (s' & c' & E & Hcl & Htx & E1 & E2 & E3 & E4).
    exists s', c', [error_response (cos s)]. split_and!; [done|done|done|by eexists|].
    split; [done..|by rewrite E4].
  - destruct (connection_none client_fd s Hc) as (s' & E & _ & Hcl & E1 & E2 & E3 & E4).
    exists s', (arriving []), []. split_and!; [done..|]. split; [done..|by rewrite E4].
  - destruct (connection_none client_fd s Hc) as (s' & E & _ & Hcl & E1 & E2 & E3 & E4).
    exists s', (arriving []), []. split_and!; [done..|]. split; [done..|by rewrite E4].
Qed.

Lemma holds_unchanged o o' job f : unchanged o o' → holds o job f → holds o' job f.
Proof.
  intros [E1 E2 _ _]. destruct f; simpl; [|by rewrite E1, E2|done..].
  intros [H1 H2 H3]. split; [done|by rewrite E1|done].
Qed.

(** The connections on which the jobs' commands arrive, at the source. *)
Definition asking (js : list (sync_job * fate)) : list (option sock) :=
  (λ jf, Some (arriving (asks jf.1 jf.2))) <$> js.

Lemma serve_asking js s :
  Forall (λ jf, holds (cos s) jf.1 jf.2) js → sys (cos s) = [] → Forall progress (io (cos s)) →
  ∃ s' parts, serve_all (asking js) s = Ret tt s' ∧ Forall2 (λ jf, cut_up jf.2) js parts ∧
    tx <$> closed (cos s') = (tx <$> closed (cos s)) ++ zip_with (λ jf, reply jf.2) js parts ∧
    unchanged (cos s) (cos s').
Proof.
  revert s. induction js as [|[job f] js IH]; intros s H Hsys Hio.
  { exists s, []. split_and!; [done|constructor|by rewrite app_nil_r|by split]. }
  apply Forall_cons in H as [Hh H]. simpl in Hh. set (fd := new_fd (fds (cos s))).
  set (s0 := Cst (set_fds <[fd := FSock (arriving (asks job f))]> (cos s)) (current_fd s)).
  destruct (source_answers fd job f s0) as (s1 & c' & pieces & E & Hcl & Htx & Hp & Hun);
    [apply lookup_insert_eq|done..|].
  assert (unchanged (cos s) (cos s1)) as Hun1 by (by destruct Hun).
  destruct (IH s1) as (s2 & parts & E2 & Hparts & Htx2 & Hun2).
  { eapply Forall_impl; [exact H|]. intros jf. by apply holds_unchanged. }
  { by rewrite (un_sys _ _ Hun1). } { apply Hun1. }
  exists s2, (pieces :: parts). split_and!.
  - change (asking ((job, f) :: js)) with (Some (arriving (asks job f)) :: asking js).
    by rewrite (serve_all_one _ _ _ s1) by (by intros ? ->).
  - by constructor.
  - rewrite Htx2, Hcl, fmap_app. simpl. by rewrite Htx, <-app_assoc.
  - by eapply unchanged_trans.
Qed.

(** The files after [fs], when the job was done. *)
Definition written (job : sync_job) (f : fate) (fs : gmap bytes bytes) : gmap bytes bytes :=
  match f with Copied data => <[destination job := data]> fs | _ => fs end.

(** The target, on a connection that carries what it is sent for the job. *)
Lemma target_answers client_fd job f pieces s :
  fds (cos s) !! client_fd = Some (FSock (arriving (pushes job f pieces))) → cut_up f pieces → takes (cos s) job f →
  current_fd s = (-1)%Z → sys (cos s) = [] → io (cos s) = [] →
  ∃ s', handle_client_connection client_fd s = Ret tt s' ∧ current_fd s' = (-1)%Z ∧
    files (cos s') = written job f (files (cos s)) ∧ dirs (cos s') = dirs (cos s) ∧ sys (cos s') = [] ∧ io (cos s') = [] ∧
    closed (cos s') = closed (cos s) ++ [arriving []].
Proof.
  intros Hc Hp Ht Hcur Hsys Hio. destruct f as [data| | |].
  - destruct Ht as [Hpush Hdir], Hp as [Hp Hcat].
    destruct (target_stores client_fd (target_path job) pieces (arriving (push_session (target_path job) pieces)) s)
      as (s' & E & E1 & E2 & E3 & E4 & E5 & E6 & E7); [done..|]. rewrite Hcat in E2. by exists s'.
  - destruct (connection_none client_fd s Hc) as (s' & E & E0 & Hcl & E1 & E2 & E3 & E4).
    exists s'. rewrite E0, E3, E4. by split_and!.
  - destruct (connection_none client_fd s Hc) as (s' & E & E0 & Hcl & E1 & E2 & E3 & E4).
    exists s'. rewrite E0, E3, E4. by split_and!.
  - destruct (connection_none client_fd s Hc) as (s' & E & E0 & Hcl & E1 & E2 & E3 & E4).
    exists s'. rewrite E0, E3, E4. by split_and!.
Qed.

(** The connections on which the jobs' sessions arrive, at the target. *)
Definition pushing (js : list (sync_job * fate)) (parts : list (list bytes)) : list (option sock) :=
  zip_with (λ jf ps, Some (arriving (pushes jf.1 jf.2 ps))) js parts.

(** What the jobs have written. *)
Definition all_written (js : list (sync_job * fate)) (fs : gmap bytes bytes) : gmap bytes bytes :=
  foldl (λ fs jf, written jf.1 jf.2 fs) fs js.

Lemma serve_pushing js parts s :
  Forall2 (λ jf, cut_up jf.2) js parts → Forall (λ jf, takes (cos s) jf.1 jf.2) js →
  current_fd s = (-1)%Z → sys (cos s) = [] → io (cos s) = [] →
  ∃ s', serve_all (pushing js parts) s = Ret tt s' ∧ current_fd s' = (-1)%Z ∧
    files (cos s') = all_written js (files (cos s)) ∧
    dirs (cos s') = dirs (cos s) ∧ sys (cos s') = [] ∧ io (cos s') = [].
Proof.
  intros H. revert s. induction H as [|[job f] pieces js parts Hp H IH]; intros s Hjs Hcur Hsys Hio.
  { by exists s. }
  apply Forall_cons in Hjs as [Ht Hjs]. simpl in Hp, Ht. set (fd := new_fd (fds (cos s))).
  set (s0 := Cst (set_fds <[fd := FSock (arriving (pushes job f pieces))]> (cos s)) (current_fd s)).
  destruct (target_answers fd job f pieces s0) as (s1 & E & E1 & E2 & E3 & E4 & E5 & _);
    [apply lookup_insert_eq|done..|].
  destruct (IH s1) as (s2 & F & F1 & F2 & F3 & F4); [|done..|].
  { eapply Forall_impl; [exact Hjs|]. intros [j g]. unfold takes. by rewrite E3. }
  exists s2. split_and!; [|done|by rewrite F2, E2|by rewrite F3, E3|apply F4|apply F4].
  change (pushing ((job, f) :: js) (pieces :: parts)) with (Some (arriving (pushes job f pieces)) :: pushing js parts).
  by rewrite (serve_all_one _ _ _ s1) by (by intros ? ->).
Qed.

Lemma all_written_app js js' fs : all_written (js ++ js') fs = all_written js' (all_written js fs).
Proof. apply foldl_app. Qed.

(** A job that was done has left its file, unless another one has written it too. *)
Lemma all_written_found js job data fs :
  (job, Copied data) ∈ js →
  (∀ job' data', (job', Copied data') ∈ js → destination job' = destination job → data' = data) →
  all_written js fs !! destination job = Some data.
Proof.
  induction js as [|[job' f] js IH] using rev_ind; intros Hin Hsame; [by apply elem_of_nil in Hin|].
  rewrite all_written_app. simpl.
  assert ((job, Copied data) ∈ js → all_written js fs !! destination job = Some data) as Hjs.
  { intros H. apply IH; [done|]. intros j d Hj. apply (Hsame j). set_solver. }
  apply elem_of_app in Hin as [Hin|Hin%list_elem_of_singleton].
  - destruct f as [d| | |]; simpl; try (by apply Hjs). destruct (decide (destination job' = destination job)) as [E|E].
    + rewrite E, lookup_insert_eq. f_equal. apply (Hsame job'); [set_solver|done].
    + rewrite lookup_insert_ne by done. by apply Hjs.
  - injection Hin as <- <-. simpl. apply lookup_insert_eq.
Qed.

Lemma all_written_kept js p fs :
  (∀ job data, (job, Copied data) ∈ js → p ≠ destination job) → all_written js fs !! p = fs !! p.
Proof.
  induction js as [|[job f] js IH] using rev_ind; intros Hp; [done|]. rewrite all_written_app. simpl.
  rewrite <-IH by (intros j d Hj; apply (Hp j d); set_solver).
  destruct f as [d| | |]; try done. simpl. apply lookup_insert_ne. apply not_eq_sym, (Hp job d). set_solver.
Qed.

(** ** The worker *)

Lemma log_job_keeps logfile self job rest o :
  ∃ o', log_job logfile self job rest o = Ret tt o' ∧ closes [] o o' ∧
    ∀ fd c, fds o !! fd = Some (FSock c) → fds o' !! fd = Some (FSock c).
Proof.
  unfold log_job. destruct logfile as [w|]; [|exists o; split_and!; [done|by split; rewrite ?app_nil_r|done]].
  unfold bind, gets, append_log, modify. eexists. split; [done|].
  destruct (fds o !! w) as [[]|] eqn:E; (split; [by split; rewrite ?app_nil_r|]); try done.
  intros fd c Hc. simpl. by rewrite lookup_insert_ne by congruence.
Qed.

Lemma close_two s t cs ct o :
  s ≠ t → fds o !! s = Some (FSock cs) → fds o !! t = Some (FSock ct) →
  ∃ o', close_both s t o = Ret tt o' ∧ closes [cs; ct] o o'.
Proof.
  intros Hne Hs Ht. unfold close_both, bind, sys_close, modify. eexists. split; [done|]. split; [|done..].
  unfold close_fd. simpl. rewrite Hs, lookup_delete_ne, Ht by done. by rewrite <-app_assoc.
Qed.

(** An error of the source is a negative number and a space. *)
Lemma error_parses e :
  let m := snprintf 64 (lit "-1 " ++ e) in
  m ≠ [] ∧ length m < MAX_BUFFER_SIZE ∧ strchr (cstr m) SP = Some 2 ∧ atol (cstr m) = (-1)%Z.
Proof.
  intros m. assert (m = lit "-1 " ++ take 60 e) as -> by reflexivity. split; [done|]. split.
  { rewrite length_app, length_take. assert (100 < MAX_BUFFER_SIZE) by (vm_compute; lia). change (length (lit "-1 ")) with 3. lia. }
  rewrite cstr_app by (apply (bool_decide_unpack _); vm_compute; exact I). split; reflexivity.
Qed.

Section worker.
Variable logfile : ptr Z.
Variable self : Z.

(** The source has no such file: both connections are closed. *)
Lemma connected_refused s t job sp tp e rest cs ct o :
  s ≠ t → smooth cs → rx cs = snprintf 64 (lit "-1 " ++ e) :: rest →
  ∃ o', sync_connected logfile self job sp tp s t (conn2 s t cs ct o) = Ret (-1)%Z o' ∧
    closes [Sock rest (rx_reset cs) (tx cs ++ [snprintf MAX_COMMAND_SIZE (lit "PULL " ++ sp ++ [NL])]) (tx_script cs); ct] o o'.
Proof.
  intros Hne Hcs Hrx. destruct (error_parses e) as (Hm & Hlen & Hsp & Hval). unfold sync_connected.
  erewrite bind_Ret by (by apply command_s). rewrite decide_False by auto.
  erewrite bind_Ret by (eapply recv_portion; [exact Hne|exact Hrx|done|lia]).
  cbn iota beta. rewrite decide_False by (destruct (snprintf _ _); simpl; [done|lia]).
  rewrite Hsp, Hval. rewrite decide_True by done.
  match goal with |- context [bind (log_job _ _ job ?f) _ ?x] => destruct (log_job_keeps logfile self job f x) as (o1 & E1 & C1 & K1) end.
  erewrite bind_Ret by exact E1.
  destruct (close_two s t _ ct o1 Hne (K1 _ _ (conn2_s _ _ Hne _ _ _)) (K1 _ _ (conn2_t _ _ _ _ _))) as (o2 & E2 & C2).
  erewrite bind_Ret by exact E2. exists o2. split; [done|]. destruct C1 as [A1 A2 A3], C2 as [B1 B2 B3]. rewrite app_nil_r in A1.
  split; [by rewrite B1, A1|by rewrite B2, A2|by rewrite B3, A3].
Qed.

(** Both connections are made.  Whatever the source sends after its answer is
    left unread, and so is whatever the target sends. *)
Lemma worker_answered job f pieces rest more o ds :
  has_target f = true → reachable_hosts job →
  (∀ data, f = Copied data → (Z.of_nat (length data) ≤ long_max)%Z) → cut_up f pieces →
  sys o = [] → dials o = Some (arriving (reply f pieces ++ rest)) :: Some (arriving more) :: ds →
  ∃ o', sync_single_file logfile self job o = Ret (result f) o' ∧
    closed o' = closed o ++ [Sock rest false [pull_message job] []; Sock more false (pushes job f pieces) []].
Proof.
  intros Hf [Hsrc Htgt] Hsize Hp Hsys Hdials. destruct f as [data| | |]; try done.
  - destruct Hp as [Hp Hcat].
    destruct (worker_session_more logfile self job data pieces rest more o ds) as (o' & E & C & _); auto. by exists o'.
  - destruct Hp as [e ->]. unfold sync_single_file. erewrite bind_Ret by (by eapply connect_ok).
    pose proof (new_fd_nonneg (fds o)). rewrite decide_False by lia.
    set (s := new_fd (fds o)). set (o1 := set_fds _ _).
    erewrite bind_Ret by (eapply connect_ok; [done|done|by simpl; rewrite Hdials]).
    pose proof (new_fd_nonneg (fds o1)). rewrite decide_False by lia.
    assert (s ≠ new_fd (fds o1)) as Hst.
    { intros E. pose proof (new_fd_fresh (fds o1)) as Hfr. rewrite <-E in Hfr. simpl in Hfr.
      by rewrite lookup_insert_eq in Hfr. }
    destruct (connected_refused s (new_fd (fds o1)) job
      (job_path (job_source_dir job) (job_filename job)) (job_path (job_target_dir job) (job_filename job)) e rest
      (arriving ([snprintf 64 (lit "-1 " ++ e)] ++ rest)) (arriving more)
      (set_dial tail (λ d, d ++ [(job_target_host job, htons (job_target_port job))])
        (set_dial tail (λ d, d ++ [(job_source_host job, htons (job_source_port job))]) o)))
      as (o' & E & [C1 _ _]); [done..|]. exists o'. split; [exact E|]. rewrite C1. simpl. do 4 f_equal.
    apply pull_message_fits.
Qed.

(** There is no connection: the host is not an address, or [connect] is refused. *)
Definition fails (host : bytes) (x : list (option sock)) : Prop := ((inet_pton host ≤ 0)%Z ∧ x = []) ∨ x = [None].

Lemma connect_fails host port x ds o :
  sys o = [] → fails host x → dials o = x ++ ds →
  ∃ o', connect_to_server (Some host) port o = Ret (-1)%Z o' ∧ closed o' = closed o ∧ sys o' = [] ∧ fds o' = fds o.
Proof.
  intros Hs Hx Hds. destruct (cannot_connect host o) eqn:E.
  { rewrite connect_cannot by done. eexists. split; [done|]. simpl. by rewrite Hs. }
  destruct Hx as [[Hh _]| ->].
  - exfalso. revert E. unfold cannot_connect. by rewrite (bool_decide_true (inet_pton host ≤ 0)%Z), orb_true_r.
  - rewrite (connect_eq host port None ds), E by done. eexists. split; [done|]. simpl. by rewrite Hs.
Qed.

(** The target cannot be reached. *)
Lemma worker_no_target job c x o ds :
  inet_pton (job_source_host job) = 1%Z → fails (job_target_host job) x →
  sys o = [] → dials o = Some c :: x ++ ds →
  ∃ o', sync_single_file logfile self job o = Ret (-1)%Z o' ∧ closed o' = closed o ++ [c].
Proof.
  intros Hsrc Htgt Hsys Hdials. unfold sync_single_file. erewrite bind_Ret by (by eapply connect_ok).
  pose proof (new_fd_nonneg (fds o)). rewrite decide_False by lia.
  set (s := new_fd (fds o)). set (o1 := set_fds _ _).
  destruct (connect_fails (job_target_host job) (job_target_port job) x ds o1) as (o2 & E & Hcl & Hs2 & Hk);
    [done|done|by simpl; rewrite Hdials|].
  erewrite bind_Ret by exact E. rewrite decide_True by done.
  match goal with |- context [bind (log_job _ _ job ?f) _ ?x] => destruct (log_job_keeps logfile self job f x) as (o3 & E3 & [C1 _ _] & K3) end.
  erewrite bind_Ret by exact E3. unfold bind, sys_close, modify, ret. eexists. split; [done|].
  assert (fds o1 !! s = Some (FSock c)) as Hc by (simpl; apply lookup_insert_eq).
  unfold close_fd. simpl. rewrite (K3 s c) by (by rewrite Hk). by rewrite C1, Hcl, app_nil_r.
Qed.

(** The source cannot be reached. *)
Lemma worker_no_source job x o ds :
  fails (job_source_host job) x → sys o = [] → dials o = x ++ ds →
  ∃ o', sync_single_file logfile self job o = Ret (-1)%Z o' ∧ closed o' = closed o.
Proof.
  intros Hsrc Hsys Hdials. unfold sync_single_file.
  destruct (connect_fails (job_source_host job) (job_source_port job) x ds o) as (o2 & E & Hcl & Hs2 & Hk); [done..|].
  erewrite bind_Ret by exact E. rewrite decide_True by done.
  match goal with |- context [bind (log_job _ _ job ?f) _ ?x] => destruct (log_job_keeps logfile self job f x) as (o3 & E3 & [C1 _ _] & K3) end.
  erewrite bind_Ret by exact E3. exists o3. split; [done|]. by rewrite C1, Hcl, app_nil_r.
Qed.
End worker.
