(* ===== verification/Protocol.v ===== *)
(** * The order of the calls

    What the two programs of [Programs.v] may do next on their connections,
    as a predicate on the program that is left to run: a worker dials the
    source and then the target, asks the source once, then only receives from
    the source and sends to the target, and closes both; a client receives a
    command before it answers, sends nothing after the end of the stream, and
    closes the connection when it has seen that end at a command. *)
From S2P Require Import Prelude.
From S2P Require Import CString.
From S2P Require Import Common.
From S2P Require Import OS.
From S2P Require Import Utils.
From S2P Require Import Client.
From S2P Require Import Transfer.
From S2P Require Import EndToEnd.
From S2P Require Import Programs.
From S2P Require Import Replay.
From stdpp Require Import gmap strings list.
From Stdlib Require Import Ascii ZArith Lia.

(** ** The worker *)

Inductive wstage :=
| WDial                  (* no connection yet *)
| WSource (s : Z)        (* connected to the source *)
| WFail (s : Z)          (* to the source, and not to the target *)
| WAsk (s t : Z)         (* to both, the source not asked *)
| WMove (s t : Z)        (* the source asked *)
| WTarget (t : Z)        (* the source closed *)
| WEnd.                  (* both closed *)

(** The answer to a [Send] is the length of what was sent; a program that ends
    does so in [Q]. *)
Fixpoint worker_shape {A} (job : sync_job) (Q : A → wstage → Prop) (st : wstage) (p : prog os A) : Prop :=
  match p with
  | Done a => Q a st
  | Local c => ∀ s, match c s with Ret p' _ => worker_shape job Q st p' | _ => False end
  | Dial host port k =>
      match st with
      | WDial => host = job_source_host job ∧ port = job_source_port job ∧
          (∀ s, (0 ≤ s)%Z → worker_shape job Q (WSource s) (k s)) ∧
          (∀ s, (s < 0)%Z → worker_shape job Q WEnd (k s))
      | WSource s => host = job_target_host job ∧ port = job_target_port job ∧
          (∀ t, (0 ≤ t)%Z → t ≠ s → worker_shape job Q (WAsk s t) (k t)) ∧
          (∀ t, (t < 0)%Z → worker_shape job Q (WFail s) (k t))
      | _ => False
      end
  | Send fd d k => d ≠ [] ∧
      match st with
      | WAsk s t => fd = s ∧ d = pull_message job ∧ worker_shape job Q (WMove s t) (k (Z.of_nat (length d)))
      | WMove s t => fd = t ∧ worker_shape job Q (WMove s t) (k (Z.of_nat (length d)))
      | _ => False
      end
  | Recv fd n k => 0 < n ∧
      match st with
      | WMove s t => fd = s ∧
          ∀ d, length d ≤ n → worker_shape job Q (WMove s t) (k (Z.of_nat (length d), d))
      | _ => False
      end
  | Close fd k =>
      match st with
      | WFail s => fd = s ∧ worker_shape job Q WEnd k
      | WMove s t => fd = s ∧ worker_shape job Q (WTarget t) k
      | WTarget t => fd = t ∧ worker_shape job Q WEnd k
      | _ => False
      end
  end.

Section worker.
Variable logfile : ptr Z.
Variable self : Z.
Context (job : sync_job).
Implicit Types (st : wstage).

Lemma worker_shape_bind {A B} (Q : B → wstage → Prop) st (p : prog os A) (f : A → prog os B) :
  worker_shape job (λ a st', worker_shape job Q st' (f a)) st p → worker_shape job Q st (pbind p f).
Proof.
  revert st. induction p as [a|c IH|h port k IH|fd d k IH|fd n k IH|fd k IH] using prog_rect_local;
    intros st; simpl; [done|..].
  - intros H s. specialize (H s). destruct (c s) eqn:E; try done. by eapply IH.
  - destruct st; try done; intros (E1 & E2 & H1 & H2); (split; [done|]); split; [done| |done|]; split; eauto.
  - destruct st; try done; naive_solver.
  - destruct st; try done; naive_solver.
  - destruct st; try done; naive_solver.
Qed.

Lemma worker_shape_log {A} (Q : A → wstage → Prop) st rest (p : prog os A) :
  worker_shape job Q st p → worker_shape job Q st (local (log_job logfile self job rest) ;~ p).
Proof.
  intros H. apply worker_shape_bind. simpl. intros s. unfold bind.
  destruct (log_job_closes logfile self job rest s) as (o & -> & _). done.
Qed.

Lemma worker_shape_command {A} (Q : A → wstage → Prop) s t cmd (f : Z → prog os A) :
  cmd ≠ [] → worker_shape job Q (WMove s t) (f 0%Z) →
  worker_shape job Q (WMove s t) (pbind (send_command_prog t cmd) f).
Proof.
  intros Hc H. unfold send_command_prog. cbn [pbind worker_shape]. split; [done|]. split; [done|].
  rewrite decide_False by lia. by rewrite decide_False by auto.
Qed.

Lemma worker_shape_chunk {A} (Q : A → wstage → Prop) s t path d (p : prog os A) :
  d ≠ [] → worker_shape job Q (WMove s t) p →
  worker_shape job Q (WMove s t) (push_chunk_prog t path d ;~ p).
Proof.
  intros Hd H. unfold push_chunk_prog. apply worker_shape_bind. apply worker_shape_command; [done|].
  cbn [worker_shape]. done.
Qed.

Lemma worker_shape_close {A} (Q : A → wstage → Prop) s t (p : prog os A) :
  worker_shape job Q WEnd p → worker_shape job Q (WMove s t) (close_both_prog s t ;~ p).
Proof. intros H. simpl. done. Qed.

Lemma worker_shape_transfer fuel s t path size total (Q : Z → wstage → Prop) :
  transfer_fuel size total ≤ fuel → (∀ z, Q z (WMove s t)) →
  worker_shape job Q (WMove s t) (transfer_prog fuel s t path size total).
Proof.
  unfold transfer_fuel. intros Hf HQ. revert total Hf. induction fuel as [|f IH]; intros total Hf;
    cbn [transfer_prog]; case_decide; try apply HQ; [lia|].
  cbn [pbind worker_shape]. split; [vm_compute; lia|]. split; [done|]. intros d Hd. case_decide; [apply HQ|].
  apply worker_shape_chunk; [by intros ->|]. apply IH. lia.
Qed.

Lemma worker_shape_connected sp tp s t :
  snprintf MAX_COMMAND_SIZE (lit "PULL " ++ sp ++ [NL]) = pull_message job →
  worker_shape job (λ _ st, st = WEnd) (WAsk s t) (sync_connected_prog logfile self job sp tp s t).
Proof.
  intros Hpull. unfold sync_connected_prog. rewrite Hpull. unfold send_command_prog. cbn [pbind worker_shape].
  split; [done|]. split; [done|]. split; [done|].
  rewrite decide_False by lia. rewrite decide_False by auto. cbn [pbind]. rewrite decide_False by auto.
  cbn [pbind worker_shape]. split; [vm_compute; lia|]. split; [done|]. intros d Hd.
  case_decide as Hd0; [by apply worker_shape_close|].
  destruct (strchr (cstr d) SP) as [n|]; [|by apply worker_shape_close].
  case_decide; [by apply worker_shape_log, worker_shape_close|].
  unfold sync_content_prog. apply worker_shape_command; [done|]. rewrite decide_False by auto.
  set (rest := pbind (transfer_prog _ _ _ _ _ _) _).
  assert (worker_shape job (λ _ st, st = WEnd) (WMove s t) rest) as Hrest.
  { apply worker_shape_bind, worker_shape_transfer; [done|]. intros total.
    apply worker_shape_command; [done|]. apply worker_shape_close.
    by apply worker_shape_log, worker_shape_log. }
  case_decide as Hlen; [|done]. apply worker_shape_chunk; [|done].
  intros E. apply (f_equal length) in E. rewrite length_drop in E. simpl in E. lia.
Qed.

Lemma worker_shape_sync : worker_shape job (λ _ st, st = WEnd) WDial (sync_prog logfile self job).
Proof.
  unfold sync_prog. cbn [pbind worker_shape]. split; [done|]. split; [done|]. split.
  2: { intros s Hs. rewrite decide_True by done. by apply worker_shape_log. }
  intros s Hs. rewrite decide_False by lia. cbn [pbind worker_shape]. split; [done|]. split; [done|]. split.
  2: { intros t Ht. rewrite decide_True by done. by apply worker_shape_log. }
  intros t Ht Hts. rewrite decide_False by lia.
  apply worker_shape_connected. apply pull_message_fits.
Qed.
End worker.

(** ** The client *)

Inductive cstage :=
| CStart                 (* at the recv for a command *)
| CBody                  (* a command has come *)
| CEof                   (* the stream ended in a chunk *)
| CHang                  (* the stream ended at a command *)
| CClosed.

(** The program [p] serves the connection [fd] from the state [s]; what other
    descriptors it closes are not connections. *)
Fixpoint client_shape {A} (fd : Z) (Q : A → cstage → cst → Prop) (st : cstage) (p : prog cst A) (s : cst) : Prop :=
  match p with
  | Done a => Q a st s
  | Local c => match c s with Ret p' s' => client_shape fd Q st p' s' | _ => True end
  | Dial _ _ _ => False
  | Send fd' d k => st = CBody ∧ fd' = fd ∧ d ≠ [] ∧ client_shape fd Q CBody (k (Z.of_nat (length d))) s
  | Recv fd' n k => fd' = fd ∧ 0 < n ∧ (st = CStart ∨ st = CBody) ∧
      client_shape fd Q (if st is CStart then CHang else CEof) (k (0%Z, [])) s ∧
      ∀ d, d ≠ [] → length d ≤ n → client_shape fd Q CBody (k (Z.of_nat (length d), d)) s
  | Close fd' k =>
      match socks (cos s) !! fd' with
      | Some _ => st = CHang ∧ fd' = fd ∧ client_shape fd Q CClosed k (Cst (close_fd fd' (cos s)) (current_fd s))
      | None => client_shape fd Q st k (Cst (close_fd fd' (cos s)) (current_fd s))
      end
  end.

(** The static variable is -1 or a file's descriptor. *)
Definition current_ok (s : cst) : Prop := (0 ≤ current_fd s)%Z → is_file (cos s) (current_fd s).

Section client.
Variable fd : Z.

(** Between two calls. *)
Definition serving (s : cst) : Prop := current_ok s ∧ is_Some (socks (cos s) !! fd).

Lemma client_shape_bind {A B} (Q : B → cstage → cst → Prop) st (p : prog cst A) (f : A → prog cst B) s :
  client_shape fd (λ a st' s', client_shape fd Q st' (f a) s') st p s → client_shape fd Q st (pbind p f) s.
Proof.
  revert st s. induction p as [a|c IH|h port k IH|fd' d k IH|fd' n k IH|fd' k IH] using prog_rect_local;
    intros st s; simpl; [done|..].
  - destruct (c s) eqn:E; try done. by eapply IH.
  - done.
  - intros (H1 & H2 & H3 & H4). eauto.
  - intros (H1 & H2 & H3 & H4 & H5). split_and!; eauto.
  - destruct (socks (cos s) !! fd'); [intros (H1 & H2 & H3); eauto|apply IH].
Qed.

Lemma client_shape_mono {A} (Q Q' : A → cstage → cst → Prop) st (p : prog cst A) s :
  (∀ a st s, Q a st s → Q' a st s) → client_shape fd Q st p s → client_shape fd Q' st p s.
Proof.
  intros HQ. revert st s. induction p as [a|c IH|h port k IH|fd' d k IH|fd' n k IH|fd' k IH] using prog_rect_local;
    intros st s; simpl; [auto|..].
  - destruct (c s) eqn:E; try done. by eapply IH.
  - done.
  - intros (H1 & H2 & H3 & H4). eauto.
  - intros (H1 & H2 & H3 & H4 & H5). split_and!; eauto.
  - destruct (socks (cos s) !! fd'); [intros (H1 & H2 & H3); eauto|apply IH].
Qed.

Lemma serving_local {A} (c : M os A) s a s' :
  calm c → in_os c s = Ret a s' → serving s → serving s' ∧ socks (cos s') = socks (cos s) ∧ current_fd s' = current_fd s.
Proof.
  intros [_ C2 _ C4]. unfold in_os, zoom. destruct (c (cos s)) as [b o| | |] eqn:E; try done.
  intros [= <- <-] [H1 H2]. specialize (C2 _ _ _ E). unfold serving, current_ok in *. simpl in *. rewrite C2. split; [|done].
  split; [|done]. intros Hc. by apply (C4 _ _ _ _ E), H1.
Qed.

(** An action of the operating system that leaves the connections alone. *)
Lemma client_shape_os {A B} (c : M os A) (f : A → prog cst B) Q st s :
  calm c → serving s →
  (∀ a s', in_os c s = Ret a s' → serving s' → socks (cos s') = socks (cos s) → current_fd s' = current_fd s →
     client_shape fd Q st (f a) s') →
  client_shape fd Q st (x <~ local (in_os c) ;; f x) s.
Proof.
  intros Hc Hs H. cbn [pbind local client_shape]. unfold bind. destruct (in_os c s) as [a s'| | |] eqn:E; try done.
  destruct (serving_local c s a s' Hc E Hs) as (H1 & H2 & H3). simpl. by apply H.
Qed.

(** Closing a file that is not the current one. *)
Lemma serving_close_file w s :
  serving s → socks (cos s) !! w = None → w ≠ current_fd s →
  serving (Cst (close_fd w (cos s)) (current_fd s)).
Proof.
  intros [H1 H2] Hw Hne. unfold serving, current_ok. cbn [cos current_fd]. rewrite socks_close, delete_id by done.
  split; [|done]. intros Hc. destruct (H1 Hc) as (p & off & E). exists p, off. simpl. by rewrite lookup_delete_ne.
Qed.

Lemma client_shape_close {A} w (k : prog cst A) Q st s :
  serving s → socks (cos s) !! w = None → w ≠ current_fd s →
  (∀ s', serving s' → client_shape fd Q st k s') → client_shape fd Q st (Close w k) s.
Proof. intros Hs Hw Hne H. cbn [client_shape]. rewrite Hw. by apply H, serving_close_file. Qed.

(** Where a command leaves the client. *)
Definition after_command {A} (_ : A) (st : cstage) (s : cst) : Prop := (st = CBody ∨ st = CEof) ∧ serving s.

Lemma shape_done {A} (a : A) s : serving s → client_shape fd after_command CBody (Done a) s.
Proof. split; [by left|done]. Qed.

Lemma snprintf_ne n t : 1 < n → t ≠ [] → snprintf n t ≠ [].
Proof. intros Hn Ht. unfold snprintf. destruct n as [|[|n]]; [lia..|]. by destruct t. Qed.

Lemma shape_send {A} d (k : Z → prog cst A) Q s :
  d ≠ [] → client_shape fd Q CBody (k (Z.of_nat (length d))) s → client_shape fd Q CBody (Send fd d k) s.
Proof. done. Qed.

Lemma shape_list path s : serving s → client_shape fd after_command CBody (list_prog fd path) s.
Proof.
  intros Hs. unfold list_prog. apply client_shape_os; [apply calm_opendir|done|].
  intros [entries|] s1 _ Hs1 _ _; [|by apply shape_done]. apply client_shape_bind.
  clear Hs. revert s1 Hs1. induction entries as [|d entries IH]; intros s1 Hs1; cbn [list_entries_prog].
  { apply (shape_send (lit "." ++ [NL]) (λ _, Done tt)); [done|by apply shape_done]. }
  apply client_shape_bind. destruct (starts_with (lit ".") d); [by apply IH|].
  apply client_shape_os; [apply calm_stat_regular|done|]. intros [] s2 _ Hs2 _ _; [|by apply IH].
  apply shape_send; [|by apply IH]. apply snprintf_ne; [vm_compute; lia|by destruct d].
Qed.

Lemma shape_send_rest {A} fuel d (f : bool → prog cst A) Q s :
  (∀ b, client_shape fd Q CBody (f b) s) → client_shape fd Q CBody (pbind (send_rest_prog fuel fd d) f) s.
Proof.
  intros H. revert d. induction fuel as [|n IH]; intros [|c d]; cbn [send_rest_prog]; [apply H|done|apply H|].
  cbn [pbind]. apply shape_send; [done|]. case_decide; [apply H|]. apply IH.
Qed.

Lemma shape_send_file fuel w s :
  serving s → socks (cos s) !! w = None → w ≠ current_fd s →
  client_shape fd after_command CBody (send_file_prog fuel fd w) s.
Proof.
  revert s. induction fuel as [|n IH]; intros s Hs Hw Hne; cbn [send_file_prog]; [done|].
  apply client_shape_os; [apply calm_read|done|]. intros [z d] s1 _ Hs1 E1 E1'.
  case_decide.
  { apply client_shape_close; [done|by rewrite E1|by rewrite E1'|]. intros. by apply shape_done. }
  apply client_shape_os; [apply calm_send_fuel|done|]. intros m s2 _ Hs2 E2 E2'.
  apply shape_send_rest. intros [].
  - apply IH; [done|by rewrite E2, E1|by rewrite E2', E1'].
  - apply client_shape_close; [done|by rewrite E2, E1|by rewrite E2', E1'|]. intros. by apply shape_done.
Qed.

(** What [open_read] opens is neither a connection nor the current file. *)
Lemma open_read_new path s w s' :
  serving s → in_os (open_read path) s = Ret w s' → (0 ≤ w)%Z →
  socks (cos s) !! w = None ∧ w ≠ current_fd s.
Proof.
  intros [Hc _]. unfold in_os, zoom, open_read, bind, get, open_fd.
  assert (∃ b o, sys_ok (cos s) = Ret b o ∧ fds o = fds (cos s)) as (b & o & -> & Ef).
  { unfold sys_ok. destruct (sys (cos s)); eauto. }
  assert (w = new_fd (fds (cos s)) → socks (cos s) !! w = None ∧ w ≠ current_fd s) as Hgoal.
  { intros ->. split; [apply socks_fresh|]. intros E. pose proof (new_fd_nonneg (fds (cos s))).
    destruct (Hc ltac:(lia)) as (p & off & Ec). rewrite <-E, new_fd_fresh in Ec. done. }
  destruct b, (files o !! path), (dirs o !! path); intros [= <- _] Hw; try lia; by apply Hgoal; rewrite Ef.
Qed.

Lemma error_response_ne o : error_response o ≠ [].
Proof. apply snprintf_ne; [lia|done]. Qed.

Lemma shape_pull path s : serving s → client_shape fd after_command CBody (pull_prog fd path) s.
Proof.
  intros Hs. unfold pull_prog. apply client_shape_os; [apply calm_open_read|done|].
  intros w s1 E Hs1 E1 E1'. case_decide as Hw.
  { apply client_shape_os; [apply calm_error|done|]. intros e s2 Ee Hs2 _ _.
    apply shape_send; [|by apply shape_done]. injection Ee as <- _. apply error_response_ne. }
  destruct (open_read_new _ _ _ _ Hs E ltac:(lia)) as [N1 N2].
  apply client_shape_os; [apply calm_fstat|done|]. intros [size|] s2 _ Hs2 E2 E2'.
  - cbn [pbind]. apply shape_send; [apply snprintf_ne; [lia|by destruct (dec size)]|].
    apply client_shape_os; [apply calm_file_left|done|]. intros n s3 _ Hs3 E3 E3'.
    apply shape_send_file; [done|by rewrite E3, E2, E1|by rewrite E3', E2', E1'].
  - apply client_shape_os; [apply calm_error|done|]. intros e s3 Ee Hs3 E3 E3'.
    apply shape_send; [injection Ee as <- _; apply error_response_ne|].
    apply client_shape_close; [done|by rewrite E3, E2, E1|by rewrite E3', E2', E1'|].
    intros. by apply shape_done.
Qed.

Lemma shape_gets {A B} (g : cst → A) (f : A → prog cst B) Q st s :
  client_shape fd Q st (f (g s)) s → client_shape fd Q st (x <~ local (gets g) ;; f x) s.
Proof. done. Qed.

Lemma shape_receive fuel total size s :
  serving s → client_shape fd after_command CBody (receive_chunk_prog fuel fd total size) s.
Proof.
  revert total s. induction fuel as [|n IH]; intros total s Hs; cbn [receive_chunk_prog]; case_decide;
    try (by apply shape_done); [done|].
  cbn [pbind client_shape]. split; [done|]. split; [case_decide; [lia|vm_compute; lia]|]. split; [by right|].
  split; [split; [by right|done]|]. intros d Hd Hlen.
  rewrite decide_False by (destruct d; simpl; [done|lia]).
  apply shape_gets, client_shape_os; [apply calm_write|done|]. intros w s1 _ Hs1 _ _.
  destruct (decide (w ≠ Z.of_nat (length d))); [by apply shape_done|].
  cbn [pbind local client_shape]. unfold bind, int_result.
  destruct (decide (int_min ≤ total + Z.of_nat (length d) ≤ int_max)%Z); [|done]. by apply IH.
Qed.

Lemma open_trunc_file path o w o' : open_trunc path o = Ret w o' → (0 ≤ w)%Z → is_file o' w.
Proof.
  unfold open_trunc, bind, get, modify, open_fd. unfold sys_ok.
  destruct (sys o) as [|b l]; simpl; [|destruct b]; destruct (dirs o !! path); intros [= <- <-] Hw; try lia;
    eexists _, _; simpl; apply lookup_insert_eq.
Qed.

(** A new file becomes the current one. *)
Lemma shape_open path s :
  is_Some (socks (cos s) !! fd) →
  client_shape fd after_command CBody (w <~ local (in_os (open_trunc path)) ;; local (set_current w)) s.
Proof.
  intros Hs. cbn [pbind local client_shape]. unfold bind, in_os, zoom.
  destruct (open_trunc path (cos s)) as [w o| | |] eqn:E; try done. simpl.
  split; [by left|]. split; simpl.
  - intros Hw. by eapply open_trunc_file.
  - pose proof (calm_socks _ (calm_open_trunc path) _ _ _ E : socks o = socks (cos s)) as Eo.
    change (is_Some (socks o !! fd)). by rewrite Eo.
Qed.

Lemma current_no_sock s : current_ok s → (0 ≤ current_fd s)%Z → socks (cos s) !! current_fd s = None.
Proof. intros H Hc. destruct (H Hc) as (p & off & E). by eapply socks_file. Qed.

Lemma shape_push path size s : serving s → client_shape fd after_command CBody (push_prog fd path size) s.
Proof.
  intros [Hc Hs]. unfold push_prog. case_decide.
  { unfold close_current_prog. apply client_shape_bind, shape_gets.
    case_decide as Hcur; [|by apply shape_open]. cbn [client_shape]. rewrite current_no_sock by done.
    apply shape_open. cbn [cos]. by rewrite socks_close, delete_id by (by apply current_no_sock). }
  case_decide.
  { apply shape_gets. case_decide as Hcur; [|by apply shape_done].
    cbn [client_shape]. rewrite current_no_sock by done. simpl. split; [by left|]. split; simpl.
    - intros Hneg. simpl in Hneg. lia.
    - change (is_Some (socks (close_fd (current_fd s) (cos s)) !! fd)). by rewrite socks_close, delete_id by (by apply current_no_sock). }
  apply shape_gets. case_decide; [by apply shape_done|].
  by apply shape_receive.
Qed.

Lemma shape_command line s : serving s → client_shape fd after_command CBody (command_prog fd line) s.
Proof.
  intros Hs. unfold command_prog. destruct (starts_with CMD_LIST line); [by apply shape_list|].
  destruct (starts_with CMD_PULL line); [by apply shape_pull|].
  destruct (starts_with CMD_PUSH line); [|by apply shape_done].
  cbn [pbind local client_shape]. unfold bind, sscanf. destruct (scan _ _ _) as [z vs].
  destruct (fits _ _); [|done]. simpl.
  assert (∀ path size, client_shape fd after_command CBody (push_prog fd path size) s) as Hp by (intros; by apply shape_push).
  repeat case_match; by apply shape_done || apply Hp.
Qed.

(** Where a turn leaves the client: [true] means another turn. *)
Definition after_turn (more : bool) (st : cstage) (s : cst) : Prop :=
  current_ok s ∧
  match st with
  | CBody | CEof => more = true
  | CClosed => more = false
  | _ => False
  end.

Lemma shape_connection s : serving s → client_shape fd after_turn CStart (connection_prog fd) s.
Proof.
  intros Hs. unfold connection_prog. cbn [pbind client_shape]. split; [done|]. split; [vm_compute; lia|].
  split; [by left|]. split.
  - rewrite decide_True by done. cbn [pbind client_shape]. destruct Hs as [Hc [c Hfd]]. rewrite Hfd.
    split; [done|]. split; [done|]. split; [|done]. unfold current_ok, is_file. simpl. intros H0.
    destruct (Hc H0) as (p & off & E). exists p, off. rewrite lookup_delete_ne; [done|]. intros Heq.
    rewrite <-Heq in E. apply socks_lookup in Hfd. congruence.
  - intros d Hd Hlen. rewrite decide_False by (destruct d; simpl; [done|lia]).
    apply client_shape_bind. eapply client_shape_mono; [|by apply shape_command].
    intros [] st s' [[->| ->] [Hc _]]; by split.
Qed.
End client.
