(* ===== verification/Network.v ===== *)
(** * Workers and clients on a network

    Any number of workers, each in [sync_single_file], and of clients, each in
    its accept loop, take steps in any order.  A connection is a link with a
    queue of messages in each direction; what is sent is received message by
    message.  A [send] waits while the queue has no room for it, a [recv]
    while the queue is empty and the other end is open, an accept loop takes
    any connection that was made to its client.  At an address where no client
  listens a connection is refused.

    Shown for every reachable state: each thread's run so far, continued on
    whatever its peers may still send, is the function of [Transfer.v] or
    [Client.v] on the scripted operating system ([replayed], [served_as]). *)
From S2P Require Import Prelude.
From S2P Require Import CString.
From S2P Require Import Common.
From S2P Require Import OS.
From S2P Require Import Utils.
From S2P Require Import Client.
From S2P Require Import Transfer.
From S2P Require Import EndToEnd.
From S2P Require Import Directory.
From S2P Require Import Programs.
From S2P Require Import Replay.
From S2P Require Import Protocol.
From stdpp Require Import gmap strings list.
From Stdlib Require Import Ascii ZArith Lia.

(** A connection of a worker to a client: what is on its way up to the client
    and down to the worker, and whether the two ends are open. *)
Record link := Link {
  l_owner : nat;                     (* the worker *)
  l_node : nat;                      (* the client *)
  l_up : list bytes;
  l_down : list bytes;
  l_hup : list bytes;                (* history: everything sent up *)
  l_hdown : list bytes;              (* history: everything sent down *)
  l_wopen : bool;
  l_copen : bool;
  l_taken : bool                     (* the client has accepted it *)
}.

(** A worker in [sync_single_file]. *)
Record wrun := WRun {
  r_job : sync_job;
  r_prog : prog os Z;                (* what is left to run *)
  r_fds : gmap Z nat;                (* its connections *)
  r_dials : list (option nat);       (* history: the connections tried; None: it was refused *)
  r_closed : list nat;               (* history: the connections closed *)
  r_start : os                       (* history: where it started *)
}.

Record wthread := Wk { w_os : os; w_run : option wrun }.

(** A client in [handle_client_connection]. *)
Record session := Sess { s_link : nat; s_fd : Z; s_prog : prog cst bool }.

Record node := Nd {
  n_st : cst;
  n_sess : option session;
  n_served : list nat;               (* history: the connections served *)
  n_start : cst                      (* history: where it started *)
}.

(** A finished transfer: its job, result and connections. *)
Record transfer_done := Xfer {
  x_worker : nat; x_job : sync_job; x_result : Z; x_dials : list (option nat); x_closed : list nat; x_start : os
}.

Record net := Net {
  links : list link;
  wks : list wthread;
  nds : list node;
  xfers : list transfer_done         (* history *)
}.

(** Messages of no bytes are not messages. *)
Definition post (d : bytes) (q : list bytes) : list bytes := if decide (d = []) then q else q ++ [d].

Definition send_up (d : bytes) (k : link) : link :=
  Link (l_owner k) (l_node k) (post d (l_up k)) (l_down k) (post d (l_hup k)) (l_hdown k) (l_wopen k) (l_copen k) (l_taken k).
Definition send_down (d : bytes) (k : link) : link :=
  Link (l_owner k) (l_node k) (l_up k) (post d (l_down k)) (l_hup k) (post d (l_hdown k)) (l_wopen k) (l_copen k) (l_taken k).
Definition set_up (q : list bytes) (k : link) : link :=
  Link (l_owner k) (l_node k) q (l_down k) (l_hup k) (l_hdown k) (l_wopen k) (l_copen k) (l_taken k).
Definition set_down (q : list bytes) (k : link) : link :=
  Link (l_owner k) (l_node k) (l_up k) q (l_hup k) (l_hdown k) (l_wopen k) (l_copen k) (l_taken k).
Definition close_w (k : link) : link :=
  Link (l_owner k) (l_node k) (l_up k) (l_down k) (l_hup k) (l_hdown k) false (l_copen k) (l_taken k).
Definition close_c (k : link) : link :=
  Link (l_owner k) (l_node k) (l_up k) (l_down k) (l_hup k) (l_hdown k) (l_wopen k) false (l_taken k).
Definition take_link (k : link) : link :=
  Link (l_owner k) (l_node k) (l_up k) (l_down k) (l_hup k) (l_hdown k) (l_wopen k) (l_copen k) true.
Definition new_link (i j : nat) : link := Link i j [] [] [] [] true true false.

Definition with_prog (p : prog os Z) (r : wrun) : wrun :=
  WRun (r_job r) p (r_fds r) (r_dials r) (r_closed r) (r_start r).
Definition dialled_to (fd : Z) (l : nat) (r : wrun) : wrun :=
  WRun (r_job r) (r_prog r) (<[fd := l]> (r_fds r)) (r_dials r ++ [Some l]) (r_closed r) (r_start r).
Definition turned_away (r : wrun) : wrun :=
  WRun (r_job r) (r_prog r) (r_fds r) (r_dials r ++ [None]) (r_closed r) (r_start r).
Definition hung_up (fd : Z) (l : nat) (r : wrun) : wrun :=
  WRun (r_job r) (r_prog r) (delete fd (r_fds r)) (r_dials r) (r_closed r ++ [l]) (r_start r).

(** What a [recv] of at most [n] bytes takes from a queue. *)
Definition taken_from (n : nat) (q : list bytes) : bytes * list bytes :=
  match q with
  | [] => ([], [])
  | d :: l => (take n d, if decide (length d ≤ n) then l else drop n d :: l)
  end.

(** What a connection's worker, and its client, have sent on it. *)
Definition said (ls : list link) (l : nat) : list bytes := match ls !! l with Some k => l_hup k | None => [] end.
Definition replied (ls : list link) (l : nat) : list bytes := match ls !! l with Some k => l_hdown k | None => [] end.

(** What a [connect] was answered, with all that the client has sent. *)
Definition answer (ls : list link) (d : option nat) : option sock :=
  match d with Some l => Some (arriving (replied ls l)) | None => None end.

Section network.
Variable logfile : ptr Z.
Variable self : nat → Z.                      (* (int) pthread_self () *)
Variable cap : option nat.                    (* bytes a queue holds; None: any number *)
Variable route : bytes → Z → option nat.      (* the client that listens at an address *)

Definition room (q : list bytes) (d : bytes) : Prop :=
  match cap with
  | None => True
  | Some c => q = [] ∨ length (concat q) + length d ≤ c
  end.

(** Where a worker's event takes the links and its own records. *)
Inductive wmove (i : nat) : event → list link → wrun → list link → wrun → Prop :=
| wm_tau ls r : wmove i ETau ls r ls r
| wm_dial host port fd j ls r :
    route host port = Some j →
    wmove i (EDial host port fd) ls r (ls ++ [new_link i j]) (dialled_to fd (length ls) r)
| wm_refused host port ls r :
    route host port = None →
    wmove i (ERefused host port) ls r ls (turned_away r)
| wm_send fd d l k ls r :
    r_fds r !! fd = Some l → ls !! l = Some k → room (l_up k) d →
    wmove i (ESend fd d) ls r (<[l := send_up d k]> ls) r
| wm_recv fd n d l k q ls r :
    r_fds r !! fd = Some l → ls !! l = Some k → (l_down k = [] → l_copen k = false) →
    taken_from n (l_down k) = (d, q) →
    wmove i (ERecv fd n d) ls r (<[l := set_down q k]> ls) r
| wm_close fd l k ls r :
    r_fds r !! fd = Some l → ls !! l = Some k →
    wmove i (EClose fd) ls r (<[l := close_w k]> ls) (hung_up fd l r).

(** Where a client's event takes the link it serves. *)
Inductive cmove (fd : Z) : event → link → link → Prop :=
| cm_tau k : cmove fd ETau k k
| cm_send d k : room (l_down k) d → cmove fd (ESend fd d) k (send_down d k)
| cm_recv n d k q :
    (l_up k = [] → l_wopen k = false) → taken_from n (l_up k) = (d, q) →
    cmove fd (ERecv fd n d) k (set_up q k)
| cm_close k : cmove fd (EClose fd) k (close_c k).

Definition with_links (ls : list link) (n : net) : net := Net ls (wks n) (nds n) (xfers n).
Definition put_worker (i : nat) (w : wthread) (n : net) : net := Net (links n) (<[i := w]> (wks n)) (nds n) (xfers n).
Definition put_node (j : nat) (x : node) (n : net) : net := Net (links n) (wks n) (<[j := x]> (nds n)) (xfers n).

Inductive nstep : net → net → Prop :=
| n_worker n i o r e p' o' ls' r' :
    wks n !! i = Some (Wk o (Some r)) → tstep (r_prog r) o e p' o' → wmove i e (links n) r ls' r' →
    nstep n (put_worker i (Wk o' (Some (with_prog p' r'))) (with_links ls' n))
| n_accept n j st sv st0 l k fd o' :
    nds n !! j = Some (Nd st None sv st0) → links n !! l = Some k → l_node k = j → l_taken k = false →
    open_fd (FSock no_data) (cos st) = Ret fd o' →
    nstep n (put_node j (Nd (Cst o' (current_fd st)) (Some (Sess l fd (connection_prog fd))) sv st0)
      (with_links (<[l := take_link k]> (links n)) n))
| n_client n j st l fd p sv st0 e p' st' k k' :
    nds n !! j = Some (Nd st (Some (Sess l fd p)) sv st0) → links n !! l = Some k →
    tstep p st e p' st' → cmove fd e k k' →
    nstep n (put_node j (Nd st' (Some (Sess l fd p')) sv st0) (with_links (<[l := k']> (links n)) n))
| n_again n j st l fd sv st0 :
    nds n !! j = Some (Nd st (Some (Sess l fd (Done true))) sv st0) →
    nstep n (put_node j (Nd st (Some (Sess l fd (connection_prog fd))) sv st0) n)
| n_next n j st l fd sv st0 :
    nds n !! j = Some (Nd st (Some (Sess l fd (Done false))) sv st0) →
    nstep n (put_node j (Nd st None (sv ++ [l]) st0) n).

(** A worker takes a job, and is done with it. *)
Definition begins (i : nat) (job : sync_job) (n n' : net) : Prop :=
  ∃ o, wks n !! i = Some (Wk o None) ∧
    n' = put_worker i (Wk o (Some (WRun job (sync_prog logfile (self i) job) ∅ [] [] o))) n.

Definition ends (i : nat) (job : sync_job) (n n' : net) : Prop :=
  ∃ o z fs ds cl o0, wks n !! i = Some (Wk o (Some (WRun job (Done z) fs ds cl o0))) ∧
    n' = Net (links n) (<[i := Wk o None]> (wks n)) (nds n) (xfers n ++ [Xfer i job z ds cl o0]).

Definition nmove (n n' : net) : Prop :=
  nstep n n' ∨ (∃ i job, begins i job n n') ∨ (∃ i job, ends i job n n').
End network.
