(* ===== verification/NetReplay.v ===== *)
(** * Every interleaving is what the scripts describe

    The invariants of [Network.v].  For a worker: its run from the start of
    the transfer, on a system where everything it received and may still
    receive is scripted, is the rest of its run on a system where what is
    queued and may still come is scripted.  For a client the same, turn by
    turn.  When a thread has ended nothing is left to come, and what its
    function does on the script is what it did on the network. *)
From S2P Require Import Prelude.
From S2P Require Import CString.
From S2P Require Import Common.
From S2P Require Import OS.
From S2P Require Import Utils.
From S2P Require Import Client.
From S2P Require Import Transfer.
From S2P Require Import EndToEnd.
From S2P Require Import Directory.
From S2P Require Import Programs.
From S2P Require Import Replay.
From S2P Require Import Protocol.
From S2P Require Import Network.
From stdpp Require Import gmap strings list.
From Stdlib Require Import Ascii ZArith Lia.

(** ** Queues *)

Lemma taken_delivered n q d q' F hist :
  taken_from n q = (d, q') → (q = [] → F = []) →
  delivered n (Sock (q ++ F) false hist []) = (Some d, Sock (q' ++ F) false hist []).
Proof.
  unfold taken_from, delivered. destruct q as [|x l]; simpl.
  - intros [= <- <-] H. by rewrite H.
  - intros [= <- <-] _. do 2 f_equal. by case_decide.
Qed.

Lemma sent_post q hist d : sent (Sock q false hist []) d = Sock q false (post d hist) [].
Proof. unfold sent, post. simpl. by case_decide. Qed.

(** ** The worker's view of the links *)

(** What the client of the link may still send. *)
Definition down_future (F : nat → list bytes) (l : nat) (k : link) : list bytes := if l_copen k then F l else [].

(** The connection, with what is queued and to come. *)
Definition down_sock (F : nat → list bytes) (ls : list link) (l : nat) : sock :=
  match ls !! l with
  | Some k => Sock (l_down k ++ down_future F l k) false (l_hup k) []
  | None => no_data
  end.

(** The connection, with all that ever arrives. *)
Definition down_script (F : nat → list bytes) (ls : list link) (l : nat) : option sock :=
  Some (match ls !! l with Some k => arriving (l_hdown k ++ down_future F l k) | None => no_data end).

(** What [connect] answers. *)
Definition try_script (F : nat → list bytes) (ls : list link) (d : option nat) : option sock :=
  match d with Some l => down_script F ls l | None => None end.

Definition down_conn (F : nat → list bytes) (ls : list link) (fs : gmap Z nat) (fd : Z) : sock :=
  match fs !! fd with Some l => down_sock F ls l | None => no_data end.

Lemma down_conn_smooth F ls fs : smooths (down_conn F ls fs).
Proof. intros fd. unfold down_conn, down_sock. destruct (fs !! fd); [|done]. by destruct (ls !! n). Qed.

Section worker.
Variable logfile : ptr Z.
Variable self : nat → Z.
Variable cap : option nat.
Variable route : bytes → Z → option nat.

(** The run of [sync_single_file] from [o0] is the run of [p] from [o], where
    the connections [ds] were tried, of which [fs] are open and [cl] closed. *)
Definition replays (ls : list link) (i : nat) (job : sync_job) (o0 : os) (ds : list (option nat)) (cl : list nat) (fs : gmap Z nat)
    (p : prog os Z) (o : os) : Prop :=
  ∀ F D, run (sync_prog logfile (self i) job)
      (setup (λ _, no_data) ((try_script F ls <$> ds) ++ D) (closed o0) o0) =
    run p (setup (down_conn F ls fs) D (closed o0 ++ (down_sock F ls <$> cl)) o).

(** All connections are among those made. *)
Record among (ds : list (option nat)) (cl : list nat) (fs : gmap Z nat) : Prop := {
  am_closed l : l ∈ cl → Some l ∈ ds;
  am_open fd l : fs !! fd = Some l → Some l ∈ ds;
  am_inj fd fd' l : fs !! fd = Some l → fs !! fd' = Some l → fd = fd';
  am_apart fd l : fs !! fd = Some l → l ∉ cl
}.

Lemma replays_views ls ls' i job o0 ds cl fs p o :
  among ds cl fs →
  (∀ F, ∃ F0, ∀ l, Some l ∈ ds → down_script F ls' l = down_script F0 ls l ∧ down_sock F ls' l = down_sock F0 ls l) →
  replays ls i job o0 ds cl fs p o → replays ls' i job o0 ds cl fs p o.
Proof.
  intros [A1 A2 A3] HF H F D. destruct (HF F) as (F0 & H0).
  rewrite (list_fmap_ext _ (try_script F0 ls) ds); [|intros j [l|] Hl%list_elem_of_lookup_2; [apply (H0 l Hl)|done]].
  rewrite (list_fmap_ext (down_sock F ls') (down_sock F0 ls) cl);
    [|intros j l Hl%list_elem_of_lookup_2%A1; apply (H0 l Hl)].
  rewrite H. f_equal. apply setup_same. intros fd _. unfold down_conn.
  destruct (fs !! fd) as [l|] eqn:E; [|done]. symmetry. by eapply H0, A2.
Qed.

(** Others change other links. *)
Lemma replays_other ls ls' i job o0 ds cl fs p o :
  among ds cl fs → (∀ l, Some l ∈ ds → ls' !! l = ls !! l) →
  replays ls i job o0 ds cl fs p o → replays ls' i job o0 ds cl fs p o.
Proof.
  intros Ha Hl. apply replays_views; [done|]. intros F. exists F. intros l Hin.
  unfold down_script, down_sock. by rewrite Hl.
Qed.

(** The client of a link sends [x], or does something that the worker does not see. *)
Lemma replays_client ls i job o0 ds cl fs p o l0 k k' x :
  among ds cl fs → ls !! l0 = Some k → l_copen k = true →
  l_down k' = l_down k ++ x → l_hdown k' = l_hdown k ++ x → l_hup k' = l_hup k →
  replays ls i job o0 ds cl fs p o → replays (<[l0 := k']> ls) i job o0 ds cl fs p o.
Proof.
  intros Ha Hk Hc E1 E2 E3. apply replays_views; [done|]. intros F.
  exists (λ l, if decide (l = l0) then x ++ down_future F l0 k' else F l). intros l _.
  unfold down_script, down_sock. destruct (decide (l = l0)) as [->|Hne].
  - rewrite list_lookup_insert_eq by (by eapply lookup_lt_Some). rewrite Hk, E1, E2, E3.
    unfold down_future. rewrite Hc. cbn beta iota. rewrite decide_True by done. by rewrite <-!app_assoc.
  - rewrite list_lookup_insert_ne by done. unfold down_future. by rewrite decide_False by done.
Qed.

(** ** The worker's own steps *)

(** What a worker's step leaves of its records. *)
Lemma wmove_among i e ls r ls' r' :
  wmove cap route i e ls r ls' r' → (∀ l, Some l ∈ r_dials r → l < length ls) →
  (∀ host port fd, e = EDial host port fd → r_fds r !! fd = None) →
  among (r_dials r) (r_closed r) (r_fds r) → among (r_dials r') (r_closed r') (r_fds r').
Proof.
  clear logfile self. intros Hm Hlt Hnew [A1 A2 A3 A4]. destruct Hm as [ls r|host port fd j ls r Hr|host port ls r Hr|fd d l k ls r|fd n d l k q ls r|fd l k ls r Hl Hk];
    simpl; try done.
  - assert (Some (length ls) ∉ r_dials r) as Hnot by (intros Hin%Hlt; lia).
    split.
    + set_solver.
    + intros fd' l. rewrite lookup_insert_Some. set_solver.
    + intros fd1 fd2 l. rewrite !lookup_insert_Some. intros [[<- <-]|[? H1]] [[<- E2]|[? H2]]; try done.
      * by apply A2 in H2.
      * subst. by apply A2 in H1.
      * by eapply A3.
    + intros fd' l. rewrite lookup_insert_Some. intros [[<- <-]|[? H1]]; [by intros ?%A1|by eapply A4].
  - split; [set_solver..|done|done].
  - split.
    + intros x [Hx%A1|Hx%list_elem_of_singleton]%elem_of_app; [done|]. subst. by eapply A2.
    + intros fd' l'. rewrite lookup_delete_Some. intros [_ H]. by eapply A2.
    + intros fd1 fd2 l'. rewrite !lookup_delete_Some. intros [_ H1] [_ H2]. by eapply A3.
    + intros fd' l'. rewrite lookup_delete_Some, elem_of_app, list_elem_of_singleton. intros [Hne H1] [H2|H2].
      * by eapply A4.
      * subst. by apply Hne, (A3 _ _ l).
Qed.

Lemma down_conn_put F ls fs fd l k k' :
  fs !! fd = Some l → ls !! l = Some k →
  (∀ fd' l', fs !! fd' = Some l' → l' = l → fd' = fd) →
  (∀ fd', fd' ≠ fd → down_conn F (<[l := k']> ls) fs fd' = down_conn F ls fs fd') ∧
  down_conn F ls fs fd = Sock (l_down k ++ down_future F l k) false (l_hup k) [] ∧
  down_conn F (<[l := k']> ls) fs fd = Sock (l_down k' ++ down_future F l k') false (l_hup k') [].
Proof.
  intros Hfd Hl Hinj. unfold down_conn, down_sock. rewrite Hfd, Hl.
  rewrite list_lookup_insert_eq by (by eapply lookup_lt_Some). split; [|done].
  intros fd' Hne. destruct (fs !! fd') as [l'|] eqn:E; [|done].
  rewrite list_lookup_insert_ne; [done|]. intros <-. by apply Hne, (Hinj _ l).
Qed.

(** The views of the links from which nothing was received or closed. *)
Lemma views_put F ls l k k' (L : list nat) :
  ls !! l = Some k → l_hdown k' = l_hdown k → l_copen k' = l_copen k →
  (l ∈ L → l_down k' = l_down k ∧ l_hup k' = l_hup k) →
  (∀ l', down_script F (<[l := k']> ls) l' = down_script F ls l') ∧
  (∀ l', l' ∈ L → down_sock F (<[l := k']> ls) l' = down_sock F ls l').
Proof.
  intros Hl E1 E2 HL. unfold down_script, down_sock, down_future. split; intros l'.
  - destruct (decide (l' = l)) as [->|Hne]; [|by rewrite list_lookup_insert_ne].
    rewrite list_lookup_insert_eq by (by eapply lookup_lt_Some). by rewrite Hl, E1, E2.
  - intros Hin. destruct (decide (l' = l)) as [->|Hne]; [|by rewrite list_lookup_insert_ne].
    rewrite list_lookup_insert_eq by (by eapply lookup_lt_Some). destruct (HL Hin) as [-> ->]. by rewrite Hl, E2.
Qed.

Lemma try_script_app F ls k (ds : list (option nat)) :
  (∀ l, Some l ∈ ds → l < length ls) → try_script F (ls ++ [k]) <$> ds = try_script F ls <$> ds.
Proof.
  intros H. apply list_fmap_ext. intros n [l|] Hin%list_elem_of_lookup_2; [|done].
  unfold try_script, down_script. by rewrite lookup_app_l by auto.
Qed.

Lemma try_script_same F ls ls' (ds : list (option nat)) :
  (∀ l, down_script F ls' l = down_script F ls l) → try_script F ls' <$> ds = try_script F ls <$> ds.
Proof. intros H. apply list_fmap_ext. intros n [l|] _; [apply H|done]. Qed.

Lemma down_sock_app F ls k (ds : list nat) :
  (∀ l, l ∈ ds → l < length ls) → down_sock F (ls ++ [k]) <$> ds = down_sock F ls <$> ds.
Proof.
  intros H. apply list_fmap_ext. intros n l Hin%list_elem_of_lookup_2. unfold down_sock. by rewrite lookup_app_l by auto.
Qed.

(** The worker's connections before and after its move, and what is still to
    be dialled. *)
Definition dials_after (F : nat → list bytes) (e : event) (ls : list link) (r : wrun) (ls' : list link) (r' : wrun)
    (D : list (option sock)) : Prop :=
  ∃ D0, (try_script F ls' <$> r_dials r') ++ D = (try_script F ls <$> r_dials r) ++ D0 ∧
    moves e (down_conn F ls (r_fds r)) D0 (closed (r_start r) ++ (down_sock F ls <$> r_closed r))
      (down_conn F ls' (r_fds r')) D (closed (r_start r') ++ (down_sock F ls' <$> r_closed r')).

Lemma dials_after_dial F i host port fd j ls r D :
  (∀ l, Some l ∈ r_dials r → l < length ls) → among (r_dials r) (r_closed r) (r_fds r) →
  dials_after F (EDial host port fd) ls r (ls ++ [new_link i j]) (dialled_to fd (length ls) r) D.
Proof.
  intros Hlt Ham. exists (down_script F (ls ++ [new_link i j]) (length ls) :: D). simpl.
  assert ((ls ++ [new_link i j]) !! length ls = Some (new_link i j)) as Hnew.
  { by rewrite lookup_app_r, Nat.sub_diag by lia. }
  split_and!.
  - by rewrite fmap_app, <-app_assoc, try_script_app.
  - intros fd' Hne. unfold down_conn. simpl. rewrite lookup_insert_ne by done.
    destruct (r_fds r !! fd') as [l|] eqn:E; [|done]. unfold down_sock. rewrite lookup_app_l; [done|].
    by eapply Hlt, am_open.
  - unfold down_script, down_conn, down_sock. simpl. by rewrite lookup_insert_eq, Hnew.
  - f_equal. apply down_sock_app. intros l Hl. by apply Hlt, (am_closed _ _ _ Ham).
Qed.

(** A send or a receive. *)
Lemma dials_after_put F fd l k k' ls r D (P : sock → sock → Prop) :
  r_fds r !! fd = Some l → ls !! l = Some k → among (r_dials r) (r_closed r) (r_fds r) →
  l_hdown k' = l_hdown k → l_copen k' = l_copen k →
  P (Sock (l_down k ++ down_future F l k) false (l_hup k) []) (Sock (l_down k' ++ down_future F l k') false (l_hup k') []) →
  (try_script F (<[l := k']> ls) <$> r_dials r) ++ D = (try_script F ls <$> r_dials r) ++ D ∧
  (∀ fd', fd' ≠ fd → down_conn F (<[l := k']> ls) (r_fds r) fd' = down_conn F ls (r_fds r) fd') ∧
  P (down_conn F ls (r_fds r) fd) (down_conn F (<[l := k']> ls) (r_fds r) fd) ∧
  (down_sock F (<[l := k']> ls) <$> r_closed r) = (down_sock F ls <$> r_closed r).
Proof.
  intros Hfd Hl Ham E1 E2 HP.
  destruct (down_conn_put F ls (r_fds r) fd l k k' Hfd Hl) as (C1 & C2 & C3).
  { intros fd' l' Hfd' ->. by eapply am_inj. }
  destruct (views_put F ls l k k' (r_closed r) Hl E1 E2) as [V1 V2]; [intros Hin; exfalso; by eapply am_apart|].
  split_and!; [|done|by rewrite C2, C3|].
  - f_equal. by apply try_script_same.
  - apply list_fmap_ext. intros n l' Hin%list_elem_of_lookup_2. by apply V2.
Qed.

Lemma dials_after_close F fd l k ls r D :
  r_fds r !! fd = Some l → ls !! l = Some k → among (r_dials r) (r_closed r) (r_fds r) →
  dials_after F (EClose fd) ls r (<[l := close_w k]> ls) (hung_up fd l r) D.
Proof.
  intros Hfd Hl Ham. destruct (views_put F ls l k (close_w k) (l :: r_closed r) Hl) as [V1 V2]; [done..|].
  exists D. split_and!; [|split_and!; [|done|]].
  - f_equal. by apply try_script_same.
  - intros fd' Hne. unfold down_conn. simpl. rewrite lookup_delete_ne by done.
    destruct (r_fds r !! fd') as [l'|] eqn:E; [|done].
    destruct (down_conn_put F ls (r_fds r) fd l k (close_w k) Hfd Hl) as (C1 & _).
    { intros fd1 l1 Hfd1 ->. by eapply am_inj. }
    specialize (C1 fd' Hne). unfold down_conn in C1. by rewrite E in C1.
  - simpl. rewrite fmap_app, app_assoc. f_equal.
    + f_equal. apply list_fmap_ext. intros n l' Hin%list_elem_of_lookup_2. apply V2. by right.
    + simpl. unfold down_conn. rewrite Hfd. rewrite V2; [done|by left].
Qed.

Lemma wmove_dials F i e ls r ls' r' D :
  wmove cap route i e ls r ls' r' → (∀ l, Some l ∈ r_dials r → l < length ls) →
  among (r_dials r) (r_closed r) (r_fds r) → dials_after F e ls r ls' r' D.
Proof.
  intros Hm Hlt Ham.
  destruct Hm as [ls r|host port fd j ls r Hr|host port ls r Hr|fd d l k ls r Hfd Hl Hroom|fd n d l k q ls r Hfd Hl Hend Htk|fd l k ls r Hfd Hl].
  - by exists D.
  - by apply dials_after_dial.
  - exists (None :: D). split_and!; [|by split_and!]. simpl. by rewrite fmap_app, <-app_assoc.
  - destruct (dials_after_put F fd l k (send_up d k) ls r D (λ c c', c' = sent c d) Hfd Hl Ham) as (H1 & H2 & H3 & H4);
      [done|done|by rewrite sent_post|]. exists D. split_and!; [done|by split_and!; rewrite ?H4].
  - destruct (dials_after_put F fd l k (set_down q k) ls r D (λ c c', delivered n c = (Some d, c')) Hfd Hl Ham) as (H1 & H2 & H3 & H4);
      [done|done| |exists D; split_and!; [done|by split_and!; rewrite ?H4]].
    simpl. apply taken_delivered; [done|]. intros E. unfold down_future. simpl. by rewrite Hend.
  - by apply dials_after_close.
Qed.

Lemma replays_step i e ls r o ls' r' p' o' :
  tstep (r_prog r) o e p' o' → wmove cap route i e ls r ls' r' →
  calm_prog (r_prog r) → steady o → (∀ l, Some l ∈ r_dials r → l < length ls) →
  among (r_dials r) (r_closed r) (r_fds r) →
  replays ls i (r_job r) (r_start r) (r_dials r) (r_closed r) (r_fds r) (r_prog r) o →
  replays ls' i (r_job r') (r_start r') (r_dials r') (r_closed r') (r_fds r') p' o'.
Proof.
  intros Ht Hm Hcalm Hst Hlt Ham H F D.
  assert (r_start r' = r_start r ∧ r_job r' = r_job r) as [Es Ej] by (by destruct Hm).
  destruct (wmove_dials F i e ls r ls' r' D Hm Hlt Ham) as (D0 & ED & Hmoves).
  rewrite ED, Es, Ej, H. rewrite Es in Hmoves.
  by eapply replay_step; [exact Ht|done|done|apply down_conn_smooth|exact Hmoves].
Qed.
End worker.

(** ** The client's view of its link *)

Definition up_future (F : list bytes) (k : link) : list bytes := if l_wopen k then F else [].

Definition at_fd (fd : Z) (c : sock) : Z → sock := λ z, if decide (z = fd) then c else no_data.

Definition up_script (F : list bytes) (k : link) : sock := arriving (l_hup k ++ up_future F k).
Definition up_sock (F : list bytes) (k : link) : sock := Sock (l_up k ++ up_future F k) false (l_hdown k) [].

(** The turns on the connection [fd] from [base] are those of [p] from [st]. *)
Definition turn_replays (k : link) (fd : Z) (D : list (option sock)) (K : list sock) (base : cst)
    (p : prog cst bool) (st : cst) : Prop :=
  ∃ n, ∀ F f, turns (n + f) fd (connection_prog fd) (setup (at_fd fd (up_script F k)) D K base) =
    turns f fd p (setup (at_fd fd (up_sock F k)) D (K ++ (if l_copen k then [] else [up_sock F k])) st).

(** The worker of the link sends [x], closes, or does something the client does not see. *)
Lemma turn_replays_worker k k' x fd D K base p st :
  l_wopen k = true → l_up k' = l_up k ++ x → l_hup k' = l_hup k ++ x → l_hdown k' = l_hdown k →
  l_copen k' = l_copen k →
  turn_replays k fd D K base p st → turn_replays k' fd D K base p st.
Proof.
  intros Hw E1 E2 E3 E4 (n & H). exists n. intros F f. specialize (H (x ++ up_future F k') f).
  assert (up_script (x ++ up_future F k') k = up_script F k') as <-.
  { unfold up_script, up_future at 1. by rewrite Hw, E2, <-app_assoc. }
  assert (up_sock (x ++ up_future F k') k = up_sock F k') as <-.
  { unfold up_sock, up_future at 1. by rewrite Hw, E1, E3, <-app_assoc. }
  by rewrite E4.
Qed.

Lemma turns_run f fd p p' s s' : run p s = run p' s' → turns f fd p s = turns f fd p' s'.
Proof. intros E. by destruct f; cbn [turns]; unfold bind; rewrite E. Qed.

Section client.
Variable cap : option nat.

Lemma turn_replays_step k k' fd D K base e p st p' st' :
  tstep p st e p' st' → cmove cap fd e k k' → calm_prog p → steady (cos st) →
  l_copen k = true →
  turn_replays k fd D K base p st → turn_replays k' fd D K base p' st'.
Proof.
  intros Ht Hm Hcalm Hst Hc (n & H). exists n. intros F f.
  assert (up_script F k' = up_script F k) as ->.
  { by destruct Hm. }
  rewrite H. apply turns_run. eapply replay_step; [exact Ht|done|done| |].
  { intros z. unfold at_fd. by case_decide. }
  assert (∀ c z, at_fd fd c z = if decide (z = fd) then c else no_data) as Hat by done.
  rewrite Hc, app_nil_r. destruct Hm as [k|d k Hroom|m d k q Hend Htk|k]; simpl; rewrite ?Hc, ?app_nil_r.
  - done.
  - split_and!; try done; intros; rewrite !Hat; [by rewrite !decide_False by done|].
    rewrite !decide_True by done. symmetry. apply sent_post.
  - split_and!; try done; intros; rewrite !Hat; [by rewrite !decide_False by done|].
    rewrite !decide_True by done. apply taken_delivered; [done|]. intros E. unfold up_future. simpl. by rewrite Hend.
  - split_and!; try done. by rewrite Hat, decide_True by done.
Qed.

Lemma turn_replays_again k fd D K base st :
  turn_replays k fd D K base (Done true) st → turn_replays k fd D K base (connection_prog fd) st.
Proof.
  intros (n & H). exists (S n). intros F f. specialize (H F (S f)).
  replace (S n + f) with (n + S f) by lia. by rewrite H.
Qed.
End client.
