(* ===== verification/NetInv.v ===== *)
(** * What holds in every state of the network

    The invariant of [Network.v] and its preservation by every step.  A
    worker's part, a client's part and the finished transfers speak of links;
    a link has one worker and one client, so a step of another thread changes
    a link either not at all, or in a way the view of [NetReplay.v] allows
    for. *)
From S2P Require Import Prelude.
From S2P Require Import CString.
From S2P Require Import Common.
From S2P Require Import OS.
From S2P Require Import Utils.
From S2P Require Import Client.
From S2P Require Import Transfer.
From S2P Require Import EndToEnd.
From S2P Require Import Directory.
From S2P Require Import Programs.
From S2P Require Import Replay.
From S2P Require Import Protocol.
From S2P Require Import Network.
From S2P Require Import NetReplay.
From stdpp Require Import gmap strings list.
From Stdlib Require Import Ascii ZArith Lia.

Section network.
Variable logfile : ptr Z.
Variable self : nat → Z.
Variable cap : option nat.
Variable route : bytes → Z → option nat.

(** ** Workers *)

(** What a worker relies on of its links. *)
Definition link_is (ls : list link) (l : nat) (P : link → Prop) : Prop := ∃ k, ls !! l = Some k ∧ P k.

Definition to_source (ls : list link) (job : sync_job) (l : nat) : Prop :=
  link_is ls l (λ k, route (job_source_host job) (job_source_port job) = Some (l_node k)).
Definition to_target (ls : list link) (job : sync_job) (l : nat) : Prop :=
  link_is ls l (λ k, route (job_target_host job) (job_target_port job) = Some (l_node k)).

(** The connections a transfer has made so far. *)
Definition made (ls : list link) (i : nat) (job : sync_job) (ds : list (option nat)) : Prop :=
  (∀ l, Some l ∈ ds → link_is ls l (λ k, l_owner k = i)) ∧
  match ds with
  | [] | [None] => True
  | [Some a] | [Some a; None] => to_source ls job a
  | [Some a; Some b] => a ≠ b ∧ to_source ls job a ∧ to_target ls job b
  | _ => False
  end.

Definition was_sent (ls : list link) (l : nat) (m : list bytes) : Prop := link_is ls l (λ k, l_hup k = m).

(** No connection: the host is not an address, or nobody listens there. *)
Definition no_way (host : bytes) (port : Z) (ds : list (option nat)) : Prop :=
  ((inet_pton host ≤ 0)%Z ∧ ds = []) ∨ (route host port = None ∧ ds = [None]).

Definition no_source (job : sync_job) : list (option nat) → Prop := no_way (job_source_host job) (job_source_port job).
Definition no_target (job : sync_job) : list (option nat) → Prop := no_way (job_target_host job) (job_target_port job).

Definition stage_ok (ls : list link) (job : sync_job) (ds : list (option nat)) (cl : list nat) (fs : gmap Z nat) (st : wstage) : Prop :=
  match st with
  | WDial => fs = ∅ ∧ ds = [] ∧ cl = []
  | WSource s => ∃ a, fs = {[s := a]} ∧ ds = [Some a] ∧ cl = [] ∧ was_sent ls a []
  | WFail s => ∃ a x, fs = {[s := a]} ∧ ds = Some a :: x ∧ cl = [] ∧ was_sent ls a [] ∧ no_target job x
  | WAsk s t => ∃ a b, s ≠ t ∧ fs = <[s := a]> {[t := b]} ∧ ds = [Some a; Some b] ∧ cl = [] ∧ was_sent ls a []
  | WMove s t => ∃ a b, s ≠ t ∧ fs = <[s := a]> {[t := b]} ∧ ds = [Some a; Some b] ∧ cl = [] ∧ was_sent ls a [pull_message job]
  | WTarget t => ∃ a b, fs = {[t := b]} ∧ ds = [Some a; Some b] ∧ cl = [a] ∧ was_sent ls a [pull_message job]
  | WEnd => fs = ∅ ∧ cl = omap id ds ∧
      match ds with
      | [Some a; Some b] => was_sent ls a [pull_message job]
      | Some a :: x => was_sent ls a [] ∧ no_target job x
      | _ => no_source job ds
      end
  end.

Record links_ok (ls : list link) (i : nat) (job : sync_job) (ds : list (option nat)) (cl : list nat) (fs : gmap Z nat) (st : wstage) : Prop := {
  lo_among : among ds cl fs;
  lo_made : made ls i job ds;
  lo_open fd l : fs !! fd = Some l → link_is ls l (λ k, l_wopen k = true);
  lo_closed l : l ∈ cl → link_is ls l (λ k, l_wopen k = false);
  lo_stage : stage_ok ls job ds cl fs st
}.

Record worker_inv (ls : list link) (i : nat) (o : os) (r : wrun) : Prop := {
  wv_replays : replays logfile self ls i (r_job r) (r_start r) (r_dials r) (r_closed r) (r_fds r) (r_prog r) o;
  wv_calm : calm_prog (r_prog r);
  wv_steady : steady o;
  wv_sys : sys o = [] ∧ socks (r_start r) = ∅ ∧ sys (r_start r) = [];
  wv_socks fd : is_Some (socks o !! fd) ↔ is_Some (r_fds r !! fd);
  wv_links : ∃ st, worker_shape (r_job r) (λ _ st, st = WEnd) st (r_prog r) ∧
    links_ok ls i (r_job r) (r_dials r) (r_closed r) (r_fds r) st
}.

(** A worker that waits for a job. *)
Definition worker_idle (o : os) : Prop := socks o = ∅ ∧ sys o = [].

Definition xfer_inv (ls : list link) (x : transfer_done) : Prop :=
  worker_idle (x_start x) ∧
  (∃ o, replays logfile self ls (x_worker x) (x_job x) (x_start x) (x_dials x) (x_closed x) ∅ (Done (x_result x)) o) ∧
  links_ok ls (x_worker x) (x_job x) (x_dials x) (x_closed x) ∅ WEnd.

(** *** Steps of others *)

(** A link as its worker sees it, apart from what comes down. *)
Record same_worker_side (k k' : link) : Prop := {
  sw_owner : l_owner k' = l_owner k;
  sw_node : l_node k' = l_node k;
  sw_hup : l_hup k' = l_hup k;
  sw_wopen : l_wopen k' = l_wopen k
}.

Lemma link_is_same ls ls' l (P : link → Prop) :
  (∀ k, ls !! l = Some k → ∃ k', ls' !! l = Some k' ∧ same_worker_side k k') →
  (∀ k k', same_worker_side k k' → P k → P k') →
  link_is ls l P → link_is ls' l P.
Proof. intros H HP (k & Hk & Hp). destruct (H k Hk) as (k' & Hk' & Hs). exists k'. eauto. Qed.

Lemma links_ok_same ls ls' i job ds cl fs st :
  (∀ l k, Some l ∈ ds → ls !! l = Some k → ∃ k', ls' !! l = Some k' ∧ same_worker_side k k') →
  links_ok ls i job ds cl fs st → links_ok ls' i job ds cl fs st.
Proof.
  intros H [A1 [A2 A2'] A3 A4 A5].
  assert (∀ l (P : link → Prop), Some l ∈ ds → (∀ k k', same_worker_side k k' → P k → P k') →
    link_is ls l P → link_is ls' l P) as HL.
  { intros l P Hl. apply link_is_same. intros k. by apply H. }
  assert (∀ l, Some l ∈ ds → to_source ls job l → to_source ls' job l) as Hsrc.
  { intros l Hl. apply HL; [done|]. intros k k' [_ -> _ _]. done. }
  assert (∀ l, Some l ∈ ds → to_target ls job l → to_target ls' job l) as Htgt.
  { intros l Hl. apply HL; [done|]. intros k k' [_ -> _ _]. done. }
  assert (∀ l m, Some l ∈ ds → was_sent ls l m → was_sent ls' l m) as Hsent.
  { intros l m Hl. apply HL; [done|]. intros k k' [_ _ -> _]. done. }
  split; [done| | | |].
  - split.
    + intros l Hl. apply (HL l _ Hl); [|by apply A2]. intros k k' [-> _ _ _]. done.
    + destruct ds as [|[a|] [|[b|] [|? ?]]]; try done; try (apply Hsrc; [set_solver|done]).
      destruct A2' as (? & ? & ?). split_and!; [done|apply Hsrc|apply Htgt]; set_solver.
  - intros fd l Hfd. apply (HL l); [by eapply am_open| |by eapply A3]. intros k k' [_ _ _ ->]. done.
  - intros l Hl. apply (HL l); [by apply (am_closed _ _ _ A1)| |by apply A4]. intros k k' [_ _ _ ->]. done.
  - destruct st; simpl in *; try done.
    all: try (destruct A5 as (a & b & ? & ? & Hds & ? & ?); exists a, b; split_and!; try done; apply Hsent; [rewrite Hds; by left|done]).
    + destruct A5 as (a & ? & Hds & ? & ?). exists a. split_and!; try done. apply Hsent; [rewrite Hds; by left|done].
    + destruct A5 as (a & x & ? & Hds & ? & ? & ?). exists a, x. split_and!; try done. apply Hsent; [rewrite Hds; by left|done].
    + destruct A5 as (a & b & ? & Hds & ? & ?). exists a, b. split_and!; try done. apply Hsent; [rewrite Hds; by left|done].
    + destruct A5 as (? & ? & ?). split_and!; try done. destruct ds as [|[a|] [|[b|] [|? ?]]]; try done; try (apply Hsent; [by left|done]); (split; [|naive_solver]); (apply Hsent; [by left|naive_solver]).
Qed.

(** *** The worker's own steps *)

Lemma link_is_put ls l k k' (l' : nat) (P : link → Prop) :
  ls !! l = Some k → (l' = l → P k → P k') → link_is ls l' P → link_is (<[l := k']> ls) l' P.
Proof.
  intros Hl HP (k0 & Hk0 & Hp). unfold link_is. destruct (decide (l' = l)) as [->|Hne].
  - exists k'. rewrite list_lookup_insert_eq by (by eapply lookup_lt_Some). split; [done|].
    rewrite Hl in Hk0. injection Hk0 as <-. auto.
  - exists k0. by rewrite list_lookup_insert_ne.
Qed.

Lemma link_is_app ls k l (P : link → Prop) : link_is ls l P → link_is (ls ++ [k]) l P.
Proof. intros (k0 & Hk0 & Hp). exists k0. split; [by apply lookup_app_l_Some|done]. Qed.

Lemma link_is_new ls k (P : link → Prop) : P k → link_is (ls ++ [k]) (length ls) P.
Proof. intros HP. exists k. by rewrite lookup_app_r, Nat.sub_diag by lia. Qed.

Lemma made_app ls k i job ds : made ls i job ds → made (ls ++ [k]) i job ds.
Proof.
  intros [H1 H2]. split; [intros; by apply link_is_app, H1|].
  destruct ds as [|[a|] [|[b|] [|? ?]]]; try done; try (by apply link_is_app). destruct H2 as (? & ? & ?).
  split_and!; [done|by apply link_is_app..].
Qed.

Lemma made_put ls l k k' i job ds :
  ls !! l = Some k → l_owner k' = l_owner k → l_node k' = l_node k →
  made ls i job ds → made (<[l := k']> ls) i job ds.
Proof.
  intros Hl E1 E2 [H1 H2]. split.
  - intros l' Hin. eapply link_is_put; [done| |by apply H1]. intros _. by rewrite E1.
  - assert (∀ x P, link_is ls x (λ k, P (l_node k)) → link_is (<[l:=k']> ls) x (λ k, P (l_node k))) as HP.
    { intros x P. apply link_is_put with (k := k); [done|]. intros _. by rewrite E2. }
    destruct ds as [|[a|] [|[b|] [|? ?]]]; try done; try (by apply (HP a (λ n, _ = Some n))). destruct H2 as (? & ? & ?).
    split_and!; [done|by apply (HP a (λ n, _ = Some n))|by apply (HP b (λ n, _ = Some n))].
Qed.

Lemma post_ne d q : d ≠ [] → post d q = q ++ [d].
Proof. intros H. unfold post. by rewrite decide_False. Qed.

Lemma links_ok_lt ls i job ds cl fs st l : links_ok ls i job ds cl fs st → Some l ∈ ds → l < length ls.
Proof. intros H Hl. destruct (proj1 (lo_made _ _ _ _ _ _ _ H) l Hl) as (k & Hk & _). by eapply lookup_lt_Some. Qed.

Lemma link_is_any ls l (P : link → Prop) k : ls !! l = Some k → P k → link_is ls l P.
Proof. intros. by exists k. Qed.

(** The parts of [links_ok] that do not depend on the stage. *)
Lemma wmove_open e i ls r ls' r' st :
  wmove cap route i e ls r ls' r' → links_ok ls i (r_job r) (r_dials r) (r_closed r) (r_fds r) st →
  (∀ fd l, r_fds r' !! fd = Some l → link_is ls' l (λ k, l_wopen k = true)) ∧
  (∀ l, l ∈ r_closed r' → link_is ls' l (λ k, l_wopen k = false)).
Proof.
  intros Hm [A1 _ A3 A4 _].
  destruct Hm as [ls r|host port fd j ls r Hr|host port ls r Hr|fd d l k ls r Hfd Hl Hroom|fd n d l k q ls r Hfd Hl Hend Htk|fd l k ls r Hfd Hl].
  - done.
  - split; [|intros l Hin; by apply link_is_app, A4]. intros fd' l. simpl. rewrite lookup_insert_Some.
    intros [[<- <-]|[_ H]]; [by apply link_is_new|by eapply link_is_app, A3].
  - done.
  - split; intros; (eapply link_is_put; [done|done|by eauto]).
  - split; intros; (eapply link_is_put; [done|done|by eauto]).
  - split; simpl.
    + intros fd' l'. rewrite lookup_delete_Some. intros [Hne H].
      eapply link_is_put; [done| |by eapply A3]. intros ->. by destruct Hne; eapply am_inj.
    + intros l' [Hin|Hin%list_elem_of_singleton]%elem_of_app.
      * eapply link_is_put; [done|done|by apply A4].
      * subst. exists (close_w k). by rewrite list_lookup_insert_eq by (by eapply lookup_lt_Some).
Qed.

Lemma wmove_made e i ls r ls' r' :
  wmove cap route i e ls r ls' r' → r_dials r' = r_dials r → made ls i (r_job r) (r_dials r) →
  made ls' i (r_job r') (r_dials r').
Proof.
  intros Hm. destruct Hm as [ls r|host port fd j ls r Hr|host port ls r Hr|fd d l k ls r Hfd Hl Hroom|fd n d l k q ls r Hfd Hl Hend Htk|fd l k ls r Hfd Hl];
    simpl; intros Hd Hmade; try done; try (by eapply made_put).
  all: apply (f_equal length) in Hd; rewrite length_app in Hd; simpl in Hd; lia.
Qed.

Lemma was_sent_put ls l k k' a m :
  ls !! l = Some k → (a = l → l_hup k' = l_hup k) → was_sent ls a m → was_sent (<[l := k']> ls) a m.
Proof. intros Hl H. apply link_is_put with (k := k); [done|]. intros E. by rewrite H. Qed.

(** A connection is not tried only if the address is not one. *)
Lemma no_dial_host host port (o : os) fd o' :
  connect_on (Some no_data) host port o = Ret fd o' → (fd < 0)%Z → sys o = [] → (inet_pton host ≤ 0)%Z.
Proof.
  rewrite connect_on_eq. pose proof (new_fd_nonneg (fds (os_of o))). unfold cannot_connect. simpl. intros E Hfd Hsys.
  rewrite Hsys in E. simpl in E. case_bool_decide; [done|]. injection E as <- <-. simpl in *. lia.
Qed.

(** Where a transfer stands after a step. *)
Definition stage_after (ls : list link) (i : nat) (r : wrun) (p : prog os Z) : Prop :=
  ∃ st, worker_shape (r_job r) (λ _ st, st = WEnd) st p ∧ made ls i (r_job r) (r_dials r) ∧
    stage_ok ls (r_job r) (r_dials r) (r_closed r) (r_fds r) st.

Lemma stage_dialled i host port k fd j ls r st :
  route host port = Some j → fd ∉ dom (r_fds r) → (0 ≤ fd)%Z →
  worker_shape (r_job r) (λ _ st, st = WEnd) st (Dial host port k) →
  links_ok ls i (r_job r) (r_dials r) (r_closed r) (r_fds r) st →
  stage_after (ls ++ [new_link i j]) i (dialled_to fd (length ls) r) (k fd).
Proof.
  intros Hroute Hfresh Hfd Hsh Hok. pose proof (λ l, links_ok_lt _ _ _ _ _ _ _ l Hok) as Hlt. destruct Hok as [A1 A2 A3 A4 A5].
  cbn [worker_shape] in Hsh. destruct st; try done; destruct Hsh as (-> & -> & Hsh & _).
  - destruct A5 as (Hfs & Hds & Hcl). exists (WSource fd). simpl. rewrite Hfs, Hds, Hcl. split_and!; [by apply Hsh|..].
    + split; [|by apply link_is_new]. intros l [= ->]%list_elem_of_singleton. by apply link_is_new.
    + exists (length ls). rewrite insert_empty. split_and!; try done. by apply link_is_new.
  - destruct A5 as (a & Hfs & Hds & Hcl & Hsent). rewrite Hfs in Hfresh. simpl. rewrite Hds in *.
    destruct A2 as [O2 S2]. assert (a < length ls) as Ha by (apply Hlt; by left).
    assert (fd ≠ s) as Hne by set_solver.
    exists (WAsk s fd). simpl. rewrite Hfs, Hds. split_and!; [by apply Hsh|..].
    + split; [|split_and!; [lia|by apply link_is_app|by apply link_is_new]].
      intros l [Hl|Hl]%elem_of_app; [by apply link_is_app, O2|].
      apply list_elem_of_singleton in Hl as [= ->]. by apply link_is_new.
    + exists a, (length ls). split_and!; try done; [|by apply link_is_app].
      by rewrite <-(insert_empty s), <-(insert_empty fd), insert_insert_ne.
Qed.

Lemma stage_refused i host port (k : Z → prog os Z) fd ls r st :
  route host port = None → (fd < 0)%Z → worker_shape (r_job r) (λ _ st, st = WEnd) st (Dial host port k) →
  links_ok ls i (r_job r) (r_dials r) (r_closed r) (r_fds r) st → stage_after ls i (turned_away r) (k fd).
Proof.
  intros Hroute Hfd Hsh [A1 A2 A3 A4 A5]. cbn [worker_shape] in Hsh.
  destruct st; try done; destruct Hsh as (-> & -> & _ & Hsh).
  - destruct A5 as (Hfs & Hds & Hcl). exists WEnd. cbn [turned_away r_job r_fds r_dials r_closed]. rewrite Hfs, Hds, Hcl. split; [by apply Hsh|]. split.
    + split; [|done]. by intros l Hl%list_elem_of_singleton.
    + split; [done|]. split; [done|]. by right.
  - destruct A5 as (a & Hfs & Hds & Hcl & Hsent). exists (WFail s). cbn [turned_away r_job r_fds r_dials r_closed]. rewrite Hds in *. destruct A2 as [O2 S2].
    split; [by apply Hsh|]. split.
    + split; [|done]. intros l [Hl|Hl%list_elem_of_singleton]%elem_of_app; [by apply O2|done].
    + exists a, [None]. split_and!; try done. by right.
Qed.

Lemma stage_sent i fd d k l lk ls r st :
  r_fds r !! fd = Some l → ls !! l = Some lk → made (<[l := send_up d lk]> ls) i (r_job r) (r_dials r) →
  worker_shape (r_job r) (λ _ st, st = WEnd) st (Send fd d k) →
  links_ok ls i (r_job r) (r_dials r) (r_closed r) (r_fds r) st →
  stage_after (<[l := send_up d lk]> ls) i r (k (Z.of_nat (length d))).
Proof.
  intros Hl Hk Hmade Hsh [A1 A2 A3 A4 A5]. cbn [worker_shape] in Hsh. destruct Hsh as [Hd Hsh].
  destruct st; try done; [destruct Hsh as (-> & -> & Hsh)|destruct Hsh as (-> & Hsh)];
    destruct A5 as (a & b & Hne & Hfs & Hds & Hcl & Hsent);
    exists (WMove s t); (split_and!; [done|done|]); exists a, b; split_and!; try done.
  - rewrite Hfs, lookup_insert_eq in Hl. injection Hl as <-.
    destruct Hsent as (k0 & Hk0 & Hup). rewrite Hk in Hk0. injection Hk0 as <-.
    exists (send_up (pull_message (r_job r)) lk). rewrite list_lookup_insert_eq by (by eapply lookup_lt_Some).
    split; [done|]. simpl. by rewrite post_ne, Hup.
  - eapply was_sent_put; [done| |done]. intros <-.
    rewrite Hfs, lookup_insert_ne, lookup_singleton_eq in Hl by done. injection Hl as <-.
    destruct A2 as [_ A2]. rewrite Hds in A2. by destruct A2.
Qed.

Lemma taken_from_le n q d q' : taken_from n q = (d, q') → length d ≤ n.
Proof. unfold taken_from. destruct q; intros [= <- <-]; simpl; [lia|rewrite length_take; lia]. Qed.

Lemma stage_received i fd n k d l lk q ls r st :
  ls !! l = Some lk → length d ≤ n → made (<[l := set_down q lk]> ls) i (r_job r) (r_dials r) →
  worker_shape (r_job r) (λ _ st, st = WEnd) st (Recv fd n k) →
  links_ok ls i (r_job r) (r_dials r) (r_closed r) (r_fds r) st →
  stage_after (<[l := set_down q lk]> ls) i r (k (Z.of_nat (length d), d)).
Proof.
  intros Hk Hlen Hmade Hsh [A1 A2 A3 A4 A5]. cbn [worker_shape] in Hsh. destruct Hsh as [Hn Hsh].
  destruct st; try done. destruct Hsh as (-> & Hsh). exists (WMove s t). split_and!; [by apply Hsh|done|].
  destruct A5 as (a & b & Hne & Hfs & Hds & Hcl & Hsent). exists a, b. split_and!; try done. by eapply was_sent_put.
Qed.

Lemma stage_closed i fd k l lk ls r st :
  r_fds r !! fd = Some l → ls !! l = Some lk → made (<[l := close_w lk]> ls) i (r_job r) (r_dials r) →
  worker_shape (r_job r) (λ _ st, st = WEnd) st (Close fd k) →
  links_ok ls i (r_job r) (r_dials r) (r_closed r) (r_fds r) st →
  stage_after (<[l := close_w lk]> ls) i (hung_up fd l r) k.
Proof.
  intros Hl Hk Hmade Hsh [A1 A2 A3 A4 A5]. cbn [worker_shape] in Hsh.
  assert (∀ a m, was_sent ls a m → was_sent (<[l := close_w lk]> ls) a m) as Hsent'.
  { intros a m. by apply (was_sent_put _ _ lk). }
  destruct st; try done; destruct Hsh as [-> Hsh].
  - destruct A5 as (a & x & Hfs & Hds & Hcl & Hno & Hx). rewrite Hfs, lookup_singleton_eq in Hl. injection Hl as <-.
    exists WEnd. split_and!; [done|done|]. simpl. rewrite Hfs, Hds, Hcl, delete_singleton_eq.
    split_and!; [done|by destruct Hx as [[_ ->]|[_ ->]]|]. pose proof (Hsent' _ _ Hno). by destruct Hx as [[Hh ->]|[Hh ->]]; (split; [done|]); [left|right].
  - destruct A5 as (a & b & Hne & Hfs & Hds & Hcl & Hsent). rewrite Hfs, lookup_insert_eq in Hl. injection Hl as <-.
    exists (WTarget t). split_and!; [done|done|]. exists a, b. simpl. rewrite Hfs, Hcl. split_and!; [|done|done|by apply Hsent'].
    rewrite delete_insert_eq, delete_id; [done|]. by rewrite lookup_singleton_ne.
  - destruct A5 as (a & b & Hfs & Hds & Hcl & Hsent). rewrite Hfs, lookup_singleton_eq in Hl. injection Hl as <-.
    exists WEnd. split_and!; [done|done|]. simpl. rewrite Hfs, Hds, Hcl, delete_singleton_eq.
    split_and!; [done|done|by apply Hsent'].
Qed.

(** A worker closes nothing but its connections. *)
Lemma stage_no_file i fd (k : prog os Z) ls r st :
  fd ∉ dom (r_fds r) → worker_shape (r_job r) (λ _ st, st = WEnd) st (Close fd k) →
  ¬ links_ok ls i (r_job r) (r_dials r) (r_closed r) (r_fds r) st.
Proof.
  intros Hno Hsh [_ _ _ _ A5]. cbn [worker_shape] in Hsh. destruct st; try done; destruct Hsh as [-> Hsh]; apply Hno.
  - destruct A5 as (a & x & -> & _). set_solver.
  - destruct A5 as (a & b & _ & -> & _). set_solver.
  - destruct A5 as (a & b & -> & _). set_solver.
Qed.

Lemma stage_step i o r e p' o' ls ls' r' st :
  tstep (r_prog r) o e p' o' → wmove cap route i e ls r ls' r' →
  (∀ fd, is_Some (socks o !! fd) ↔ is_Some (r_fds r !! fd)) → after_event e (socks o) (socks o') →
  worker_shape (r_job r) (λ _ st, st = WEnd) st (r_prog r) →
  sys o = [] → links_ok ls i (r_job r) (r_dials r) (r_closed r) (r_fds r) st → stage_after ls' i r' p'.
Proof.
  intros Ht Hm Hsocks Hafter Hsh Hsys Hok. pose proof (wmove_made _ _ _ _ _ _ Hm) as Hmade. pose proof Hok as [_ A2 _ _ A5].
  remember (r_prog r) as p eqn:Ep.
  destruct Ht as [c s p' s' E|h port k s fd s' E Hfd|h port k s fd s' E Hfd|h port k s fd fd' s' s'' E Hfd E'
    |fd d k s Hs|fd n k s d Hs|fd k s Hs|fd k s Hs]; inversion Hm; subst.
  - exists st. specialize (Hsh s). rewrite E in Hsh. by split_and!.
  - pose proof (no_dial_host _ _ _ _ _ E Hfd Hsys) as Hhost. cbn [worker_shape] in Hsh.
    destruct st; try done; destruct Hsh as (-> & _ & _ & Hsh).
    + exists WEnd. split_and!; [by apply Hsh|done|]. destruct A5 as (-> & -> & ->). split_and!; [done|done|by left].
    + eexists (WFail _). split_and!; [by apply Hsh|done|]. destruct A5 as (a & ? & ? & ? & ?). exists a, []. split_and!; try done. by left.
  - eapply stage_dialled; [done| |done|exact Hsh|done].
    rewrite elem_of_dom, <-Hsocks. destruct Hafter as [-> _]. by intros [? ?].
  - eapply stage_refused; [done| |exact Hsh|done].
    rewrite connect_on_eq in E'. destruct (cannot_connect _ _); injection E' as <- _; lia.
  - eapply stage_sent; [done|done|by apply Hmade|exact Hsh|done].
  - eapply stage_received; [done|by eapply taken_from_le|by apply Hmade|exact Hsh|done].
  - eapply stage_closed; [done|done|by apply Hmade|exact Hsh|done].
  - exfalso. eapply stage_no_file; [|exact Hsh|done]. rewrite elem_of_dom, <-Hsocks. intros [x Hx].
    change (socks s !! fd = None) in Hs. congruence.
Qed.

Lemma worker_step_links i o r e p' o' ls ls' r' st :
  tstep (r_prog r) o e p' o' → wmove cap route i e ls r ls' r' →
  (∀ fd, is_Some (socks o !! fd) ↔ is_Some (r_fds r !! fd)) → after_event e (socks o) (socks o') →
  worker_shape (r_job r) (λ _ st, st = WEnd) st (r_prog r) →
  sys o = [] → links_ok ls i (r_job r) (r_dials r) (r_closed r) (r_fds r) st →
  ∃ st', worker_shape (r_job r') (λ _ st, st = WEnd) st' p' ∧
    links_ok ls' i (r_job r') (r_dials r') (r_closed r') (r_fds r') st'.
Proof.
  intros Ht Hm Hsocks Hafter Hsh Hsys Hok.
  destruct (wmove_open _ _ _ _ _ _ _ Hm Hok) as [Hopen Hclosed].
  assert (among (r_dials r') (r_closed r') (r_fds r')) as Ham.
  { eapply wmove_among; [exact Hm|intros l; by eapply links_ok_lt| |apply Hok]. intros host port fd ->. simpl in Hafter.
    destruct (r_fds r !! fd) eqn:E; [|done]. destruct (proj2 (Hsocks fd)) as [c Hc]; [by rewrite E|].
    destruct Hafter as [Hn _]. congruence. }
  destruct (stage_step i o r e p' o' ls ls' r' st) as (st' & S1 & S2 & S3); try done. exists st'. by split.
Qed.

Lemma wmove_socks e i ls r ls' r' (m m' : gmap Z sock) :
  wmove cap route i e ls r ls' r' → after_event e m m' →
  (∀ fd, is_Some (m !! fd) ↔ is_Some (r_fds r !! fd)) →
  ∀ fd, is_Some (m' !! fd) ↔ is_Some (r_fds r' !! fd).
Proof.
  intros Hm Ha H fd. destruct Hm; simpl in *; try (by rewrite Ha).
  - destruct Ha as [_ ->]. rewrite !lookup_insert_is_Some, H. done.
  - rewrite Ha, !lookup_delete_is_Some, H. done.
Qed.

Lemma wmove_start e i ls r ls' r' : wmove cap route i e ls r ls' r' → r_start r' = r_start r.
Proof. by destruct 1. Qed.

Lemma worker_inv_step ls i o r e p' o' ls' r' :
  worker_inv ls i o r → tstep (r_prog r) o e p' o' → wmove cap route i e ls r ls' r' →
  worker_inv ls' i o' (with_prog p' r').
Proof.
  intros [W1 W2 W3 W4 W5 (st & W6 & W7)] Ht Hm.
  destruct (tstep_after _ _ _ _ _ Ht W2) as (C1 & C2 & C3).
  destruct (worker_step_links i o r e p' o' ls ls' r' st) as (st' & S1 & S2); [done..|apply W4|done|].
  assert (∀ l, Some l ∈ r_dials r → l < length ls) as Hlt by (intros l; by eapply links_ok_lt).
  split; simpl.
  - eapply replays_step; [exact Ht|exact Hm|done|done|done|apply W7|done].
  - done.
  - by eapply steady_after.
  - rewrite (wmove_start _ _ _ _ _ _ Hm). split; [|apply W4]. by apply C3, W4.
  - by eapply wmove_socks.
  - by exists st'.
Qed.

Lemma same_side_refl k : same_worker_side k k.
Proof. done. Qed.

(** Steps at links that are not the worker's. *)
Lemma worker_inv_other ls ls' i o r :
  (∀ l, Some l ∈ r_dials r → ls' !! l = ls !! l) → worker_inv ls i o r → worker_inv ls' i o r.
Proof.
  intros Hl [W1 W2 W3 W4 W5 (st & W6 & W7)]. split; [|done..|].
  - eapply replays_other; [apply W7|done|done].
  - exists st. split; [done|]. eapply links_ok_same; [|done]. intros l k Hin Hk. exists k.
    by rewrite Hl.
Qed.

Lemma xfer_inv_other ls ls' x :
  (∀ l, Some l ∈ x_dials x → ls' !! l = ls !! l) → xfer_inv ls x → xfer_inv ls' x.
Proof.
  intros Hl (H1 & (o & H2) & H3). split; [done|]. split.
  - exists o. eapply replays_other; [apply H3|done|done].
  - eapply links_ok_same; [|done]. intros l k Hin Hk. exists k. by rewrite Hl.
Qed.

(** Steps of the client of a link. *)
Record client_moves (k k' : link) : Prop := {
  cv_copen : l_copen k = true;
  cv_same : same_worker_side k k';
  cv_down : ∃ x, l_down k' = l_down k ++ x ∧ l_hdown k' = l_hdown k ++ x
}.

Lemma post_app d q : ∃ x, post d q = q ++ x ∧ ∀ q', post d q' = q' ++ x.
Proof.
  unfold post. destruct (decide (d = [])); [exists []|by exists [d]]. split; [|intros q']; by rewrite app_nil_r.
Qed.

Lemma cmove_client_moves fd e k k' : cmove cap fd e k k' → l_copen k = true → client_moves k k'.
Proof.
  intros Hm Hc. destruct Hm as [k|d k Hroom|n d k q Hend Htk|k]; (split; [done|done|]); simpl.
  2: { destruct (post_app d (l_down k)) as (x & E & E'). exists x. by rewrite E, E'. }
  all: exists []; by rewrite !app_nil_r.
Qed.

Lemma same_side_put (ls : list link) l0 k k' l k1 :
  ls !! l0 = Some k → same_worker_side k k' → ls !! l = Some k1 →
  ∃ k2, <[l0 := k']> ls !! l = Some k2 ∧ same_worker_side k1 k2.
Proof.
  intros Hk Hs Hl. destruct (decide (l = l0)) as [->|Hne].
  - exists k'. rewrite list_lookup_insert_eq by (by eapply lookup_lt_Some). split; [done|]. congruence.
  - exists k1. by rewrite list_lookup_insert_ne.
Qed.

Lemma worker_inv_client ls l0 k k' i o r :
  ls !! l0 = Some k → client_moves k k' → worker_inv ls i o r → worker_inv (<[l0 := k']> ls) i o r.
Proof.
  intros Hk [Hc Hs (x & Hx1 & Hx2)] [W1 W2 W3 W4 W5 (st & W6 & W7)]. split; [|done..|].
  - eapply replays_client; [apply W7|done|done|done|done|apply Hs|done].
  - exists st. split; [done|]. eapply links_ok_same; [|done]. intros l k1 _. by eapply same_side_put.
Qed.

Lemma xfer_inv_client ls l0 k k' x :
  ls !! l0 = Some k → client_moves k k' → xfer_inv ls x → xfer_inv (<[l0 := k']> ls) x.
Proof.
  intros Hk [Hc Hs (y & Hx1 & Hx2)] (H1 & (o & H2) & H3). split; [done|]. split.
  - exists o. eapply replays_client; [apply H3|done|done|done|done|apply Hs|done].
  - eapply links_ok_same; [|done]. intros l k1 _. by eapply same_side_put.
Qed.

(** The beginning and the end of a transfer. *)
Lemma worker_inv_begins ls i o job :
  worker_idle o → worker_inv ls i o (WRun job (sync_prog logfile (self i) job) ∅ [] [] o).
Proof.
  intros [Hs Hsys]. split; simpl.
  - intros F D. simpl. by rewrite app_nil_r.
  - apply calm_sync.
  - intros fd c. by rewrite Hs.
  - done.
  - intros fd. rewrite Hs, !lookup_empty. split; by intros [? ?].
  - exists WDial. split; [apply worker_shape_sync|]. split; [by split; set_solver|by split; set_solver|done|set_solver|done].
Qed.

Lemma worker_inv_ends ls i o job z fs ds cl o0 :
  worker_inv ls i o (WRun job (Done z) fs ds cl o0) → xfer_inv ls (Xfer i job z ds cl o0) ∧ worker_idle o.
Proof.
  intros [W1 W2 W3 W4 W5 (st & W6 & W7)]. simpl in *. subst st. destruct (lo_stage _ _ _ _ _ _ _ W7) as [-> _].
  split; [split; [apply W4|]; split; [by exists o|done]|]. split; [|apply W4].
  apply map_empty. intros fd. apply eq_None_not_Some. rewrite W5. by intros [? ?].
Qed.
End network.
