(* ===== verification/NetNode.v ===== *)
(** * The clients of the network

    The invariant of a client of [Network.v]: the connections it has served
    are served by [serve] of [Client.v] with the same messages, and the one it
    serves is the run of [handle_client_connection] so far. *)
From S2P Require Import Prelude.
From S2P Require Import CString.
From S2P Require Import Common.
From S2P Require Import OS.
From S2P Require Import Utils.
From S2P Require Import Client.
From S2P Require Import Transfer.
From S2P Require Import EndToEnd.
From S2P Require Import Directory.
From S2P Require Import Programs.
From S2P Require Import Replay.
From S2P Require Import Protocol.
From S2P Require Import Network.
From S2P Require Import NetReplay.
From S2P Require Import NetInv.
From stdpp Require Import gmap strings list.
From Stdlib Require Import Ascii ZArith Lia.

Section node.
Variable cap : option nat.

(** ** Links by themselves *)

Record link_inv (k : link) : Prop := {
  li_up : Forall (.≠ []) (l_up k);
  li_new : l_taken k = false → l_copen k = true ∧ l_hdown k = [] ∧ l_up k = l_hup k;
  li_gone : l_copen k = false → l_wopen k = false ∧ l_up k = [] ∧ l_taken k = true;
  li_said : l_hup k = [] → l_up k = []
}.

Lemma post_nonempty d q : Forall (.≠ []) q → Forall (.≠ []) (post d q).
Proof. intros H. unfold post. case_decide; [done|]. apply Forall_app. split; [done|]. by constructor. Qed.

Lemma taken_nonempty n q d q' :
  taken_from n q = (d, q') → Forall (.≠ []) q → Forall (.≠ []) q' ∧ length d ≤ n ∧ (0 < n → d = [] → q = [] ∧ q' = []).
Proof.
  unfold taken_from. destruct q as [|x l]; intros [= <- <-] Hq; [split_and!; try done; simpl; lia|].
  apply Forall_cons in Hq as [Hx Hq]. split_and!.
  - case_decide; [done|]. constructor; [|done]. intros E. apply (f_equal length) in E.
    rewrite length_drop in E. simpl in E. lia.
  - rewrite length_take. lia.
  - intros Hn E. exfalso. apply (f_equal length) in E. rewrite length_take in E. destruct x; [done|]. simpl in E. lia.
Qed.

(** What the steps of a worker and of a client make of a link. *)
Definition worker_moves (k k' : link) : Prop :=
  l_wopen k = true ∧ l_node k' = l_node k ∧ l_taken k' = l_taken k ∧ l_copen k' = l_copen k ∧ l_hdown k' = l_hdown k ∧
  ∃ x, l_up k' = l_up k ++ x ∧ l_hup k' = l_hup k ++ x ∧ Forall (.≠ []) x.

Lemma link_inv_worker k k' : worker_moves k k' → link_inv k → link_inv k'.
Proof.
  intros (H1 & H2 & H3 & H4 & H5 & x & H6 & H7 & H8) [L1 L2 L3 L4]. split.
  - rewrite H6. by apply Forall_app.
  - rewrite H3, H4, H5, H6, H7. intros (? & ? & ->)%L2. done.
  - rewrite H4. intros (E & _)%L3. congruence.
  - rewrite H6, H7. intros [->%L4 ->]%app_eq_nil. done.
Qed.

Lemma link_inv_client fd e k k' :
  cmove cap fd e k k' → l_taken k = true → (l_copen k' = false → l_copen k = true → l_wopen k = false ∧ l_up k = []) →
  link_inv k → link_inv k'.
Proof.
  intros Hm Ht Hclose [L1 L2 L3 L4]. destruct Hm as [k|d k Hroom|n d k q Hend Htk|k]; split; simpl in *; try done.
  - by intros E; rewrite Ht in E.
  - by eapply taken_nonempty.
  - by intros E; rewrite Ht in E.
  - intros (E1 & E2 & E3)%L3. rewrite E2 in Htk. by injection Htk as <- <-.
  - intros E%L4. rewrite E in Htk. by injection Htk as <- <-.
  - by intros E; rewrite Ht in E.
  - intros _. destruct (l_copen k) eqn:E; [|by apply L3]. by destruct Hclose.
Qed.

(** ** A client *)

(** The connections as the client's accept loop gets them, and as it leaves them. *)
Definition up_conn (ls : list link) (l : nat) : option sock :=
  Some (match ls !! l with Some k => arriving (l_hup k) | None => no_data end).
Definition down_hist (ls : list link) (l : nat) : sock :=
  match ls !! l with Some k => Sock [] false (l_hdown k) [] | None => no_data end.

(** The accept loop, given the connections [sv], goes from [st0] to [st]. *)
Definition served_as (ls : list link) (st0 : cst) (sv : list nat) (st : cst) : Prop :=
  serve_all (up_conn ls <$> sv) st0 =
    Ret tt (setup (λ _, no_data) (dials (cos st0)) (closed (cos st0) ++ (down_hist ls <$> sv)) st).

Definition accepted_at (fd : Z) (base : cst) : cst := Cst (set_fds <[fd := FSock no_data]> (cos base)) (current_fd base).

Definition client_stage_ok (k : link) (stg : cstage) : Prop :=
  match stg with
  | CStart | CBody => l_copen k = true
  | CEof | CHang => l_copen k = true ∧ l_wopen k = false ∧ l_up k = []
  | CClosed => l_copen k = false
  end.

(** A connection being served. *)
Record session_inv (k : link) (fd : Z) (D : list (option sock)) (K : list sock) (base : cst)
    (p : prog cst bool) (st : cst) : Prop := {
  se_replays : turn_replays k fd D K (accepted_at fd base) p st;
  se_calm : calm_prog p;
  se_steady : steady (cos st);
  se_socks z : is_Some (socks (cos st) !! z) ↔ z = fd ∧ l_copen k = true;
  se_stage : ∃ stg, client_shape fd (after_turn) stg p st ∧ client_stage_ok k stg;
  se_base : socks (cos base) = ∅ ∧ fd = new_fd (fds (cos base))
}.

Definition served_ok (ls : list link) (j l : nat) : Prop :=
  link_is ls l (λ k, l_node k = j ∧ l_taken k = true ∧ l_copen k = false).

Definition at_link (se : option session) : list nat := match se with Some s => [s_link s] | None => [] end.

Record node_inv (ls : list link) (j : nat) (nd : node) : Prop := {
  nv_nodup : NoDup (n_served nd ++ at_link (n_sess nd));
  nv_served l : l ∈ n_served nd → served_ok ls j l;
  nv_sess : match n_sess nd with
    | None => served_as ls (n_start nd) (n_served nd) (n_st nd) ∧ socks (cos (n_st nd)) = ∅ ∧ current_ok (n_st nd)
    | Some (Sess l fd p) => ∃ base k,
        served_as ls (n_start nd) (n_served nd) base ∧ ls !! l = Some k ∧ l_node k = j ∧ l_taken k = true ∧
        session_inv k fd (dials (cos (n_start nd))) (closed (cos (n_start nd)) ++ (down_hist ls <$> n_served nd))
          base p (n_st nd)
    end
}.

Lemma node_inv_init j st : socks (cos st) = ∅ → current_ok st → node_inv [] j (Nd st None [] st).
Proof.
  intros Hs Hc. split; simpl; [constructor|by intros l ?%elem_of_nil|]. split_and!; [|done|done].
  unfold served_as. simpl. rewrite app_nil_r. unfold ret. f_equal. symmetry. exact (setup_id (S:=cst) (λ _, no_data) st Hs).
Qed.

(** *** Steps of others *)

Lemma served_as_other ls ls' st0 sv st :
  (∀ l, l ∈ sv → ls' !! l = ls !! l) → served_as ls st0 sv st → served_as ls' st0 sv st.
Proof.
  intros Hl H. unfold served_as.
  rewrite (list_fmap_ext (up_conn ls') (up_conn ls) sv);
    [|intros n l Hin%list_elem_of_lookup_2; unfold up_conn; by rewrite Hl].
  rewrite (list_fmap_ext (down_hist ls') (down_hist ls) sv);
    [|intros n l Hin%list_elem_of_lookup_2; unfold down_hist; by rewrite Hl].
  apply H.
Qed.

Lemma down_hist_other ls ls' (sv : list nat) :
  (∀ l, l ∈ sv → ls' !! l = ls !! l) → down_hist ls' <$> sv = down_hist ls <$> sv.
Proof. intros Hl. apply list_fmap_ext. intros n l Hin%list_elem_of_lookup_2. unfold down_hist. by rewrite Hl. Qed.

Lemma node_inv_other ls ls' j nd :
  (∀ l, l ∈ n_served nd ++ at_link (n_sess nd) → ls' !! l = ls !! l) → node_inv ls j nd → node_inv ls' j nd.
Proof.
  intros Hl [N1 N2 N3].
  assert (∀ l, l ∈ n_served nd → ls' !! l = ls !! l) as Hl' by (intros; apply Hl; set_solver).
  split; [done|..].
  - intros l Hin. destruct (N2 l Hin) as (k & Hk & Hp). exists k. by rewrite Hl'.
  - destruct (n_sess nd) as [[l fd p]|].
    + destruct N3 as (base & k & H1 & H2 & H3). exists base, k. split; [by eapply served_as_other|].
      split; [rewrite Hl; [done|apply elem_of_app; right; by left]|]. by rewrite (down_hist_other ls ls').
    + destruct N3 as (H1 & H2). split; [by eapply served_as_other|done].
Qed.

Lemma session_inv_worker k k' fd D K base p st :
  worker_moves k k' → session_inv k fd D K base p st → session_inv k' fd D K base p st.
Proof.
  intros (H1 & H2 & H3 & H4 & H5 & x & H6 & H7 & H8) [S1 S2 S3 S4 (stg & S5 & S6) S7]. split; try done.
  - by eapply turn_replays_worker.
  - intros z. by rewrite H4.
  - exists stg. split; [done|]. destruct stg; simpl in *; rewrite ?H4; try done; destruct S6 as (? & ? & ?); congruence.
Qed.

(** A worker's step at a link that may be being served. *)
Lemma node_inv_worker ls l0 k k' j nd :
  ls !! l0 = Some k → worker_moves k k' → link_inv k → node_inv ls j nd → node_inv (<[l0 := k']> ls) j nd.
Proof.
  intros Hk Hw Hinv [N1 N2 N3]. pose proof Hw as (H1 & H2 & H3 & H4 & H5 & _).
  assert (l0 ∉ n_served nd) as Hnot.
  { intros (k0 & Hk0 & _ & _ & Hc)%N2. rewrite Hk in Hk0. injection Hk0 as <-. apply (li_gone _ Hinv) in Hc as [Hc _]. congruence. }
  assert (∀ l, l ∈ n_served nd → <[l0 := k']> ls !! l = ls !! l) as Hl.
  { intros l Hin. rewrite list_lookup_insert_ne; [done|]. by intros <-. }
  split; [done|..].
  - intros l Hin. destruct (N2 l Hin) as (k1 & Hk1 & Hp). exists k1. by rewrite Hl.
  - destruct (n_sess nd) as [[l fd p]|].
    + destruct N3 as (base & k1 & E1 & E2 & E3 & E4 & E5). exists base.
      destruct (decide (l = l0)) as [->|Hne].
      * exists k'. rewrite Hk in E2. injection E2 as <-. rewrite list_lookup_insert_eq by (by eapply lookup_lt_Some).
        split; [by eapply served_as_other|]. split; [done|]. split; [congruence|]. split; [congruence|].
        rewrite (down_hist_other ls) by done. by eapply session_inv_worker.
      * exists k1. rewrite list_lookup_insert_ne by done. split; [by eapply served_as_other|].
        by rewrite (down_hist_other ls) by done.
    + destruct N3 as (E1 & E2). split; [by eapply served_as_other|done].
Qed.

(** *** The client's own steps *)

Lemma turn_replays_tau k fd D K base p st p' st' :
  tstep p st ETau p' st' → calm_prog p → steady (cos st) →
  turn_replays k fd D K base p st → turn_replays k fd D K base p' st'.
Proof.
  intros Ht Hcalm Hst (n & H). exists n. intros F f. rewrite H. apply turns_run.
  eapply replay_step; [exact Ht|done|done| |done]. intros z. unfold at_fd. by case_decide.
Qed.

(** How a step changes the stage of the client and its link. *)
Lemma client_stage_step fd stg p st e p' st' k k' :
  tstep p st e p' st' → cmove cap fd e k k' → link_inv k →
  (∀ z, is_Some (socks (cos st) !! z) ↔ z = fd ∧ l_copen k = true) →
  client_shape fd after_turn stg p st → client_stage_ok k stg →
  ∃ stg', client_shape fd after_turn stg' p' st' ∧ client_stage_ok k' stg' ∧
    (e = ETau ∨ l_copen k = true) ∧
    (l_copen k' = false → l_copen k = true → l_wopen k = false ∧ l_up k = []).
Proof.
  intros Ht Hm Hlink Hsocks Hsh Hstg.
  destruct Ht as [c s p' s' E|h port q s fd' s' E Hfd|h port q s fd' s' E Hfd|h port q s fd' fd'' s' s'' E Hfd E'
    |fd' d q s Hs|fd' n q s d Hs|fd' q s Hs|fd' q s Hs]; try done; cbn [client_shape] in Hsh.
  - inversion Hm; subst. rewrite E in Hsh. exists stg. split_and!; [done|done|by left|]. intros -> [=].
  - inversion Hm; subst. destruct Hsh as (-> & _ & Hd & Hsh). exists CBody. split_and!; [done|done|by right|].
    intros Hc. simpl in Hstg. exfalso. simpl in Hc. congruence.
  - inversion Hm as [| |? ? ? ? Hend Htk|]; subst. destruct Hsh as (_ & Hn & Hstg' & Hsh1 & Hsh2).
    assert (l_copen k = true) as Hc by (by destruct Hstg' as [->| ->]).
    match goal with H : taken_from n _ = (d, ?q') |- _ =>
      destruct (taken_nonempty _ _ _ _ H (li_up _ Hlink)) as (Hq & Hlen & Hz); rename q' into rest end.
    destruct (decide (d = [])) as [->|Hd].
    + destruct (Hz Hn eq_refl) as [E ->]. eexists. split; [exact Hsh1|]. split; [|split; [by right|simpl; congruence]].
      assert (l_wopen k = false) by auto. by destruct Hstg' as [->| ->].
    + exists CBody. split_and!; [by apply Hsh2|done|by right|simpl; congruence].
  - inversion Hm; subst. destruct Hs as [c Hs]. change (socks (cos s) !! fd' = Some c) in Hs. rewrite Hs in Hsh.
    destruct Hsh as (-> & _ & Hsh). destruct Hstg as (Hc & Hw & Hup).
    exists CClosed. split_and!; [done|done|by right|done].
  - inversion Hm; subst. change (socks (cos s) !! fd' = None) in Hs. rewrite Hs in Hsh.
    exists stg. split_and!; [done|done|by left|]. intros -> [=].
Qed.

Lemma session_inv_step k k' fd D K base e p st p' st' :
  tstep p st e p' st' → cmove cap fd e k k' → l_taken k = true → link_inv k →
  session_inv k fd D K base p st → session_inv k' fd D K base p' st' ∧ link_inv k' ∧ (e = ETau ∧ k' = k ∨ client_moves k k').
Proof.
  intros Ht Hm Htk Hlink [S1 S2 S3 S4 (stg & S5 & S6) S7].
  destruct (client_stage_step _ _ _ _ _ _ _ _ _ Ht Hm Hlink S4 S5 S6) as (stg' & R1 & R2 & R3 & R4).
  destruct (tstep_after _ _ _ _ _ Ht S2) as (C1 & C2 & C3).
  split; [|split; [by eapply link_inv_client|]].
  2: { destruct R3 as [->|Hc]; [left; by inversion Hm|right; by eapply cmove_client_moves]. }
  split.
  - destruct R3 as [->|Hc]; [|by eapply turn_replays_step]. inversion Hm; subst. by eapply turn_replays_tau.
  - done.
  - by eapply steady_after.
  - intros z. change (after_event e (socks (cos st)) (socks (cos st'))) in C2.
    destruct Hm; simpl in *; rewrite C2; try done.
    rewrite lookup_delete_is_Some, S4. naive_solver.
  - by exists stg'.
  - done.
Qed.

Lemma serving_new fd st : current_ok st → fd = new_fd (fds (cos st)) → serving fd (accepted_at fd st).
Proof.
  intros Hc ->. split.
  - intros H. destruct (Hc H) as (p & off & E). exists p, off. simpl.
    rewrite lookup_insert_ne; [done|]. intros Eq. by rewrite <-Eq, new_fd_fresh in E.
  - unfold accepted_at. cbn [cos]. rewrite socks_put, lookup_insert_eq. by eexists.
Qed.

Lemma session_inv_accept k st fd D K :
  link_inv k → l_taken k = false → socks (cos st) = ∅ → current_ok st → fd = new_fd (fds (cos st)) →
  session_inv (take_link k) fd D K st (connection_prog fd) (accepted_at fd st).
Proof.
  intros Hlink Hnew Hs Hc Hfd. destruct (li_new _ Hlink Hnew) as (Hco & Hd & Hup). split.
  - exists 0. intros F f. simpl. rewrite Hco, app_nil_r. unfold up_script, up_sock, arriving, up_future. simpl.
    by rewrite Hup, Hd.
  - apply calm_connection.
  - intros z c. unfold accepted_at. cbn [cos]. rewrite socks_put, Hs.
    intros [[_ <-]|[_ H]]%lookup_insert_Some; [done|by apply lookup_empty_Some in H].
  - intros z. unfold accepted_at. cbn [cos]. rewrite socks_put, Hs, lookup_insert_is_Some. simpl. rewrite Hco.
    split; [intros [->|[_ [? H]]]; [done|by apply lookup_empty_Some in H]|intros [-> _]; by left].
  - exists CStart. split; [|done]. apply shape_connection. by apply serving_new.
  - done.
Qed.

Lemma session_serving k fd D K base st : session_inv k fd D K base (Done true) st → serving fd st.
Proof.
  intros [S1 S2 S3 S4 (stg & S5 & S6) S7]. destruct S5 as [Hc Hst].
  assert (l_copen k = true) as Hco by (destruct stg; try done; by destruct S6).
  split; [done|]. by apply S4.
Qed.

Lemma session_inv_again k fd D K base st :
  session_inv k fd D K base (Done true) st → session_inv k fd D K base (connection_prog fd) st.
Proof.
  intros Hs. pose proof (session_serving _ _ _ _ _ _ Hs) as Hserving.
  destruct Hs as [S1 S2 S3 S4 (stg & S5 & S6) S7]. split; try done.
  - by apply turn_replays_again.
  - apply calm_connection.
  - exists CStart. split; [by apply shape_connection|]. by apply (S4 fd), Hserving.
Qed.

(** The connection is served. *)
Lemma session_inv_next k fd D K base st :
  session_inv k fd D K base (Done false) st → link_inv k →
  handle_client_connection fd (setup (at_fd fd (arriving (l_hup k))) D K (accepted_at fd base)) =
    Ret tt (setup (λ _, no_data) D (K ++ [Sock [] false (l_hdown k) []]) st) ∧
  socks (cos st) = ∅ ∧ current_ok st ∧ l_copen k = false.
Proof.
  intros [(n & S1) S2 S3 S4 (stg & S5 & S6) S7] Hlink. destruct S5 as [Hc Hst].
  assert (l_copen k = false) as Hco by (by destruct stg).
  assert (socks (cos st) = ∅) as Hs.
  { apply map_empty. intros z. apply eq_None_not_Some. rewrite S4, Hco. by intros [_ ?]. }
  split; [|done]. destruct (li_gone _ Hlink Hco) as (Hw & Hup & _).
  set (s0 := setup (at_fd fd (arriving (l_hup k))) D K (accepted_at fd base)).
  rewrite <-(turns_serve (n + rx_left fd (cos s0))) by lia.
  specialize (S1 [] (rx_left fd (cos s0))). unfold up_script, up_sock, up_future in S1.
  rewrite Hw, Hco, Hup, app_nil_r in S1. fold s0 in S1. rewrite S1.
  assert (∀ f, turns f fd (Done false) = λ s, Ret tt s) as -> by (by intros []).
  f_equal. apply setup_same. intros z. change (os_of st) with (cos st). rewrite Hs. by intros [? ?].
Qed.

Lemma setup_accept fd c D K base :
  socks (cos base) = ∅ →
  Cst (set_fds <[fd := FSock c]> (cos (setup (λ _, no_data) D K base))) (current_fd base) =
    setup (at_fd fd c) D K (accepted_at fd base).
Proof.
  intros Hs. unfold accepted_at, setup. simpl. f_equal. rewrite setup_insert. unfold at_fd at 1.
  rewrite decide_True by done. f_equal. apply setup_ext. intros z. rewrite Hs. by intros [? ?].
Qed.

Lemma served_as_next ls st0 sv base k l fd st :
  served_as ls st0 sv base → ls !! l = Some k →
  session_inv k fd (dials (cos st0)) (closed (cos st0) ++ (down_hist ls <$> sv)) base (Done false) st →
  link_inv k → served_as ls st0 (sv ++ [l]) st.
Proof.
  intros Hserved Hl Hs Hlink. unfold served_as. pose proof (se_base _ _ _ _ _ _ _ Hs) as [Hb Hfd].
  destruct (session_inv_next _ _ _ _ _ _ Hs Hlink) as (Hrun & _).
  assert (up_conn ls l = Some (arriving (l_hup k))) as Eu by (unfold up_conn; by rewrite Hl).
  assert (down_hist ls l = Sock [] false (l_hdown k) []) as Ed by (unfold down_hist; by rewrite Hl).
  rewrite !fmap_app, (serve_all_app _ _ _ _ Hserved), !list_fmap_singleton, Eu, Ed.
  apply (serve_all_one _ []). intros z Hz.
  assert (z = fd) as -> by (rewrite Hz, Hfd; apply (setup_new_fd _ _ _ (cos base))).
  rewrite app_assoc, <-Hrun.
  apply (f_equal (handle_client_connection fd)). exact (setup_accept fd _ _ _ base Hb).
Qed.
End node.
