(* ===== verification/NetRuns.v ===== *)
(** * Runs of the network

    The invariant of the whole network and the theorem on its runs: whatever
    the interleaving, a worker that has finished did what [sync_single_file]
    does on the connections it had, and a client that waits for a connection
    did what its accept loop does on the connections it has served, in the
    order in which it took them. *)
From S2P Require Import Prelude.
From S2P Require Import CString.
From S2P Require Import Common.
From S2P Require Import OS.
From S2P Require Import Utils.
From S2P Require Import Client.
From S2P Require Import Transfer.
From S2P Require Import EndToEnd.
From S2P Require Import Directory.
From S2P Require Import Programs.
From S2P Require Import Replay.
From S2P Require Import Protocol.
From S2P Require Import Network.
From S2P Require Import NetReplay.
From S2P Require Import NetInv.
From S2P Require Import NetNode.
From stdpp Require Import gmap strings list.
From Stdlib Require Import Ascii ZArith Lia.

Section runs.
Variable logfile : ptr Z.
Variable self : nat → Z.
Variable cap : option nat.
Variable route : bytes → Z → option nat.
Variable clients : nat.                        (* how many there are *)
Hypothesis route_ok : ∀ host port j, route host port = Some j → j < clients.

Abbreviation worker_inv := (worker_inv logfile self route).
Abbreviation xfer_inv := (xfer_inv logfile self route).
Abbreviation move := (nmove logfile self cap route).

(** The connections of a worker's transfer, and of all transfers. *)
Definition running (w : wthread) : list nat := match w_run w with Some r => omap id (r_dials r) | None => [] end.
Definition all_dials (n : net) : list nat := concat (omap id ∘ x_dials <$> xfers n) ++ concat (running <$> wks n).

Record net_inv (n : net) : Prop := {
  nt_links l k : links n !! l = Some k → link_inv k ∧ l_node k < clients;
  nt_idle i o : wks n !! i = Some (Wk o None) → worker_idle o;
  nt_busy i o r : wks n !! i = Some (Wk o (Some r)) → worker_inv (links n) i o r;
  nt_xfers x : x ∈ xfers n → xfer_inv (links n) x;
  nt_nodes j nd : nds n !! j = Some nd → node_inv (links n) j nd;
  nt_taken l k : links n !! l = Some k → l_taken k = true →
    ∃ nd, nds n !! l_node k = Some nd ∧ l ∈ n_served nd ++ at_link (n_sess nd);
  nt_clients : length (nds n) = clients;
  nt_all : all_dials n ≡ₚ seq 0 (length (links n));
  nt_wopen l k : links n !! l = Some k → l_wopen k = true →
    ∃ i o r fd, wks n !! i = Some (Wk o (Some r)) ∧ r_fds r !! fd = Some l
}.

(** Workers without a job and clients without a connection. *)
Definition initial (ws : list os) (cs : list cst) : net :=
  Net [] ((λ o, Wk o None) <$> ws) ((λ s, Nd s None [] s) <$> cs) [].

Definition ready_client (s : cst) : Prop := socks (cos s) = ∅ ∧ current_ok s.

Lemma net_inv_initial ws cs :
  Forall worker_idle ws → Forall ready_client cs → length cs = clients → net_inv (initial ws cs).
Proof.
  intros Hws Hcs Hlen. rewrite Forall_forall in Hws. rewrite Forall_forall in Hcs. split; simpl; try done.
  - intros i o (o' & [= <-] & Hi)%list_lookup_fmap_Some. by eapply Hws, list_elem_of_lookup_2.
  - by intros i o r (o' & [=] & Hi)%list_lookup_fmap_Some.
  - by intros x ?%elem_of_nil.
  - intros j nd (s & -> & Hj)%list_lookup_fmap_Some. apply list_elem_of_lookup_2, Hcs in Hj as [? ?].
    by apply node_inv_init.
  - by rewrite length_fmap.
  - unfold all_dials. simpl. assert (concat (running <$> ((λ o, Wk o None) <$> ws)) = []) as ->; [|done].
    clear. by induction ws.
Qed.

(** ** The links of different threads *)

Lemma busy_link n i o r l :
  net_inv n → wks n !! i = Some (Wk o (Some r)) → Some l ∈ r_dials r → link_is (links n) l (λ k, l_owner k = i).
Proof.
  intros Hn Hi Hl. destruct (wv_links _ _ _ _ _ _ _ (nt_busy _ Hn _ _ _ Hi)) as (st & _ & H).
  by apply (proj1 (lo_made _ _ _ _ _ _ _ _ H)).
Qed.

Lemma xfer_link n x l :
  net_inv n → x ∈ xfers n → Some l ∈ x_dials x → link_is (links n) l (λ k, l_wopen k = false).
Proof.
  intros Hn Hx Hl. destruct (nt_xfers _ Hn _ Hx) as (_ & _ & H).
  apply (lo_closed _ _ _ _ _ _ _ _ H). destruct (lo_stage _ _ _ _ _ _ _ _ H) as (_ & -> & _).
  apply list_elem_of_omap. by exists (Some l).
Qed.

Lemma open_link n i o r fd l :
  net_inv n → wks n !! i = Some (Wk o (Some r)) → r_fds r !! fd = Some l →
  link_is (links n) l (λ k, l_wopen k = true ∧ l_owner k = i).
Proof.
  intros Hn Hi Hfd. destruct (wv_links _ _ _ _ _ _ _ (nt_busy _ Hn _ _ _ Hi)) as (st & _ & H).
  destruct (lo_open _ _ _ _ _ _ _ _ H _ _ Hfd) as (k & Hk & Ho). exists k. split_and!; [done..|].
  destruct (busy_link n i o r l Hn Hi) as (k' & Hk' & E); [by eapply am_open; [apply H|]|]. congruence.
Qed.

(** ** A worker's step *)

Lemma concat_running ws i w w' x :
  ws !! i = Some w → running w' = running w ++ x →
  concat (running <$> <[i := w']> ws) ≡ₚ concat (running <$> ws) ++ x.
Proof.
  intros Hi E. rewrite insert_take_drop by (by eapply lookup_lt_Some).
  rewrite <-(take_drop_middle ws i w) at 3 by done.
  rewrite !fmap_app, !concat_app, !fmap_cons. simpl. rewrite E. solve_Permutation.
Qed.

Lemma wmove_links e i ls r ls' r' :
  wmove cap route i e ls r ls' r' →
  (ls' = ls ∧ omap id (r_dials r') = omap id (r_dials r) ∧ r_fds r' = r_fds r) ∨
  (∃ host port j fd, e = EDial host port fd ∧ j < clients ∧ ls' = ls ++ [new_link i j] ∧
     omap id (r_dials r') = omap id (r_dials r) ++ [length ls] ∧
     r_fds r' = <[fd := length ls]> (r_fds r)) ∨
  (∃ fd l k k', r_fds r !! fd = Some l ∧ ls !! l = Some k ∧ ls' = <[l := k']> ls ∧ omap id (r_dials r') = omap id (r_dials r) ∧
     (l_wopen k = true → worker_moves k k') ∧ (l_wopen k' = l_wopen k ∧ r_fds r' = r_fds r ∨
       l_wopen k' = false ∧ r_fds r' = delete fd (r_fds r))).
Proof.
  intros Hm. destruct Hm as [ls r|host port fd j ls r Hr|host port ls r Hr|fd d l k ls r Hfd Hl Hroom|fd n d l k q ls r Hfd Hl Hend Htk|fd l k ls r Hfd Hl].
  - by left.
  - right; left. exists host, port, j, fd. split_and!; try done; [by eapply route_ok|]. simpl. by rewrite omap_app.
  - left. simpl. by rewrite omap_app, app_nil_r.
  - right; right. exists fd, l, k, (send_up d k). split_and!; try done; [|by left].
    intros Hw. split_and!; try done. simpl. unfold post. destruct (decide (d = [])).
    + exists []. rewrite !app_nil_r. by split_and!.
    + exists [d]. split_and!; try done. by constructor.
  - right; right. exists fd, l, k, (set_down q k). split_and!; try done; [|by left].
    intros Hw. split_and!; try done. exists []. simpl. rewrite !app_nil_r. by split_and!.
  - right; right. exists fd, l, k, (close_w k). split_and!; try done; [|by right].
    intros Hw. split_and!; try done. exists []. simpl. rewrite !app_nil_r. by split_and!.
Qed.

Lemma insert_wk_inv (ws : list wthread) i w j w' :
  <[i := w]> ws !! j = Some w' → (j = i ∧ w' = w) ∨ (j ≠ i ∧ ws !! j = Some w').
Proof. intros [(-> & -> & _)|[? ?]]%list_lookup_insert_Some; [by left|right]. split; [congruence|done]. Qed.

(** Only the owner of a link with an open end changes it. *)
Lemma net_worker_put n i o r o' r' fd l k k' :
  net_inv n → wks n !! i = Some (Wk o (Some r)) → r_fds r !! fd = Some l → links n !! l = Some k →
  worker_moves k k' → worker_inv (<[l := k']> (links n)) i o' r' → omap id (r_dials r') = omap id (r_dials r) →
  (l_wopen k' = l_wopen k ∧ r_fds r' = r_fds r ∨ l_wopen k' = false ∧ r_fds r' = delete fd (r_fds r)) →
  net_inv (put_worker i (Wk o' (Some r')) (with_links (<[l := k']> (links n)) n)).
Proof.
  intros Hn Hi Hfd Hk Hw Hr' Hd Hopen. pose proof (open_link n i o r fd l Hn Hi Hfd) as (k0 & Hk0 & Hko & Hown).
  rewrite Hk in Hk0. injection Hk0 as <-. pose proof (nt_links _ Hn l k Hk) as [Hlink Hnode].
  assert (length (<[l := k']> (links n)) = length (links n)) as Hlen by apply length_insert.
  split; simpl.
  - intros l1 k1. rewrite list_lookup_insert_Some. intros [(-> & -> & _)|[_ H1]]; [|by eapply nt_links].
    split; [by eapply link_inv_worker|]. by destruct Hw as (_ & -> & _).
  - intros j o1 [[_ [=]]|[_ H1]]%insert_wk_inv. by eapply nt_idle.
  - intros j o1 r1 [[-> [= -> ->]]|[Hne H1]]%insert_wk_inv; [done|].
    eapply worker_inv_other; [|by eapply nt_busy]. intros l1 Hl1. rewrite list_lookup_insert_ne; [done|].
    intros <-. destruct (busy_link n j o1 r1 l Hn H1 Hl1) as (k1 & Hk1 & E). congruence.
  - intros x Hx. eapply xfer_inv_other; [|by eapply nt_xfers]. intros l1 Hl1. rewrite list_lookup_insert_ne; [done|].
    intros <-. destruct (xfer_link n x l Hn Hx Hl1) as (k1 & Hk1 & E). congruence.
  - intros j nd Hj. eapply node_inv_worker; [done|done|done|by eapply nt_nodes].
  - intros l1 k1. rewrite list_lookup_insert_Some. intros [(-> & -> & _)|[_ H1]]; [|by eapply nt_taken].
    destruct Hw as (_ & -> & -> & _). by eapply nt_taken.
  - apply Hn.
  - rewrite Hlen, <-(nt_all _ Hn). unfold all_dials. simpl. f_equiv.
    rewrite (concat_running _ _ _ _ [] Hi) by (unfold running; simpl; by rewrite Hd, app_nil_r). by rewrite app_nil_r.
  - intros l1 k1. rewrite list_lookup_insert_Some. intros [(-> & -> & _)|[Hne H1]] Hwo.
    + destruct Hopen as [[_ E]|[E _]]; [|congruence]. exists i, o', r', fd.
      rewrite list_lookup_insert_eq by (by eapply lookup_lt_Some). by rewrite E.
    + destruct (nt_wopen _ Hn l1 k1 H1 Hwo) as (j & o1 & r1 & fd1 & Hj & Hf).
      destruct (decide (j = i)) as [->|Hji].
      * rewrite Hi in Hj. injection Hj as <- <-. exists i, o', r', fd1.
        rewrite list_lookup_insert_eq by (by eapply lookup_lt_Some). split; [done|].
        destruct Hopen as [[_ ->]|[_ ->]]; [done|]. rewrite lookup_delete_ne; [done|]. intros <-. congruence.
      * exists j, o1, r1, fd1. by rewrite list_lookup_insert_ne.
Qed.

Lemma net_worker_dial n i o r o' r' fd j :
  net_inv n → wks n !! i = Some (Wk o (Some r)) → j < clients → r_fds r !! fd = None →
  worker_inv (links n ++ [new_link i j]) i o' r' →
  omap id (r_dials r') = omap id (r_dials r) ++ [length (links n)] →
  r_fds r' = <[fd := length (links n)]> (r_fds r) →
  net_inv (put_worker i (Wk o' (Some r')) (with_links (links n ++ [new_link i j]) n)).
Proof.
  intros Hn Hi Hj Hfd Hr' Hd Hf.
  assert (∀ l, l < length (links n) → (links n ++ [new_link i j]) !! l = links n !! l) as Hold by (intros; by apply lookup_app_l).
  assert (∀ l P, link_is (links n) l P → (links n ++ [new_link i j]) !! l = links n !! l) as Hold'.
  { intros l P (k & Hk & _). by eapply Hold, lookup_lt_Some. }
  assert (∀ l k, (links n ++ [new_link i j]) !! l = Some k → links n !! l = Some k ∨ l = length (links n) ∧ k = new_link i j) as Hinv.
  { intros l k [Hl|[Hge Hl]]%lookup_app_Some; [by left|]. right. apply list_lookup_singleton_Some in Hl as [Hl <-].
    split; [lia|done]. }
  split; simpl.
  - intros l k [H1|[-> ->]]%Hinv; [by eapply nt_links|]. split; [|done]. by split.
  - intros i' o1 [[_ [=]]|[_ H1]]%insert_wk_inv. by eapply nt_idle.
  - intros i' o1 r1 [[-> [= -> ->]]|[Hne H1]]%insert_wk_inv; [done|].
    eapply worker_inv_other; [|by eapply nt_busy]. intros l1 Hl1. by eapply Hold', busy_link.
  - intros x Hx. eapply xfer_inv_other; [|by eapply nt_xfers]. intros l1 Hl1. by eapply Hold', xfer_link.
  - intros j' nd Hj'. pose proof (nt_nodes _ Hn _ _ Hj') as Hnd. eapply node_inv_other; [|done].
    intros l [Hl|Hl]%elem_of_app; [by eapply Hold', nv_served|].
    pose proof (nv_sess _ _ _ Hnd) as Hs. destruct (n_sess nd) as [[l1 fd1 p1]|]; [|by apply elem_of_nil in Hl].
    apply list_elem_of_singleton in Hl as ->. destruct Hs as (base & k & _ & Hk & _). by eapply Hold, lookup_lt_Some.
  - intros l k [H1|[-> ->]]%Hinv; [by eapply nt_taken|done].
  - apply Hn.
  - rewrite length_app. simpl. rewrite seq_app, <-(nt_all _ Hn). unfold all_dials. simpl.
    rewrite (concat_running _ _ _ _ [length (links n)] Hi) by (unfold running; simpl; by rewrite Hd). by rewrite app_assoc.
  - intros l k [H1|[-> ->]]%Hinv Hwo.
    + destruct (nt_wopen _ Hn l k H1 Hwo) as (j1 & o1 & r1 & fd1 & Hj1 & Hf1).
      destruct (decide (j1 = i)) as [->|Hji].
      * rewrite Hi in Hj1. injection Hj1 as <- <-. exists i, o', r', fd1.
        rewrite list_lookup_insert_eq by (by eapply lookup_lt_Some). split; [done|].
        rewrite Hf, lookup_insert_ne; [done|]. intros <-. congruence.
      * exists j1, o1, r1, fd1. by rewrite list_lookup_insert_ne.
    + exists i, o', r', fd. rewrite list_lookup_insert_eq by (by eapply lookup_lt_Some). split; [done|].
      by rewrite Hf, lookup_insert_eq.
Qed.

Lemma net_worker_tau n i o r o' r' :
  net_inv n → wks n !! i = Some (Wk o (Some r)) → worker_inv (links n) i o' r' →
  omap id (r_dials r') = omap id (r_dials r) → r_fds r' = r_fds r →
  net_inv (put_worker i (Wk o' (Some r')) n).
Proof.
  intros Hn Hi Hr' Hd Hf. pose proof Hn as [N1 N2 N3 N4 N5 N6 N7 N8 N9]. split; simpl; try done.
  - intros j o1 [[_ [=]]|[_ H1]]%insert_wk_inv. by eapply N2.
  - intros j o1 r1 [[-> [= -> ->]]|[Hne H1]]%insert_wk_inv; [done|by eapply N3].
  - rewrite <-N8. unfold all_dials. simpl. f_equiv.
    rewrite (concat_running _ _ _ _ [] Hi) by (unfold running; simpl; by rewrite Hd, app_nil_r). by rewrite app_nil_r.
  - intros l k Hl Hwo. destruct (N9 l k Hl Hwo) as (j & o1 & r1 & fd1 & Hj & Hf1).
    destruct (decide (j = i)) as [->|Hji].
    + rewrite Hi in Hj. injection Hj as <- <-. exists i, o', r', fd1.
      rewrite list_lookup_insert_eq by (by eapply lookup_lt_Some). by rewrite Hf.
    + exists j, o1, r1, fd1. by rewrite list_lookup_insert_ne.
Qed.

Lemma net_worker_step n i o r e p' o' ls' r' :
  net_inv n → wks n !! i = Some (Wk o (Some r)) → tstep (r_prog r) o e p' o' →
  wmove cap route i e (links n) r ls' r' →
  net_inv (put_worker i (Wk o' (Some (with_prog p' r'))) (with_links ls' n)).
Proof.
  intros Hn Hi Ht Hm. pose proof (nt_busy _ Hn _ _ _ Hi) as Hr.
  assert (worker_inv ls' i o' (with_prog p' r')) as Hr' by (by eapply worker_inv_step).
  destruct (wmove_links _ _ _ _ _ _ Hm) as [(-> & E1 & E2)|[(host & port & j & fd & -> & Hj & -> & E1 & E2)|(fd & l & k & k' & Hfd & Hl & -> & E1 & E2 & E3)]].
  - assert (put_worker i (Wk o' (Some (with_prog p' r'))) (with_links (links n) n) =
      put_worker i (Wk o' (Some (with_prog p' r'))) n) as -> by (by destruct n).
    by eapply net_worker_tau.
  - eapply net_worker_dial; try done. apply eq_None_not_Some. rewrite <-(wv_socks _ _ _ _ _ _ _ Hr).
    destruct (tstep_after _ _ _ _ _ Ht (wv_calm _ _ _ _ _ _ _ Hr)) as (_ & [Hno _] & _).
    change (socks o !! fd = None) in Hno. rewrite Hno. by intros [? ?].
  - destruct (open_link n i o r fd l Hn Hi Hfd) as (k0 & Hk0 & Hw & _). rewrite Hl in Hk0. injection Hk0 as <-.
    eapply net_worker_put; try done. by apply E2.
Qed.

(** ** A client's step *)

Lemma node_link n j nd l :
  net_inv n → nds n !! j = Some nd → l ∈ n_served nd ++ at_link (n_sess nd) → link_is (links n) l (λ k, l_node k = j).
Proof.
  intros Hn Hj Hl. pose proof (nt_nodes _ Hn _ _ Hj) as [_ N2 N3]. apply elem_of_app in Hl as [Hl|Hl].
  - destruct (N2 l Hl) as (k & Hk & E & _). by exists k.
  - destruct (n_sess nd) as [[l1 fd p]|]; [|by apply elem_of_nil in Hl]. apply list_elem_of_singleton in Hl as ->.
    destruct N3 as (base & k & _ & Hk & E & _). by exists k.
Qed.

Lemma insert_nd_inv (ns : list node) i x j y :
  <[i := x]> ns !! j = Some y → (j = i ∧ y = x) ∨ (j ≠ i ∧ ns !! j = Some y).
Proof. intros [(-> & -> & _)|[? ?]]%list_lookup_insert_Some; [by left|right]. split; [congruence|done]. Qed.

Lemma net_node_put n j nd nd' l k k' :
  net_inv n → nds n !! j = Some nd → links n !! l = Some k → l_node k = j →
  k' = k ∨ client_moves k k' → link_inv k' →
  (l_taken k' = true → l ∈ n_served nd' ++ at_link (n_sess nd')) →
  (∀ l', l' ∈ n_served nd ++ at_link (n_sess nd) → l' ∈ n_served nd' ++ at_link (n_sess nd')) →
  node_inv (<[l := k']> (links n)) j nd' →
  net_inv (put_node j nd' (with_links (<[l := k']> (links n)) n)).
Proof.
  intros Hn Hj Hk Hnode Hm Hlink Htaken Hkeep Hnd.
  assert (length (<[l := k']> (links n)) = length (links n)) as Hlen by apply length_insert.
  assert (l_node k' = l_node k ∧ l_wopen k' = l_wopen k) as [En Ew].
  { destruct Hm as [->|[_ [_ ? _ ?] _]]; done. }
  pose proof Hn as [N1 N2 N3 N4 N5 N6 N7 N8 N9]. split; simpl.
  - intros l1 k1. rewrite list_lookup_insert_Some. intros [(-> & -> & _)|[_ H1]]; [|by eapply N1].
    split; [done|]. rewrite En. by eapply N1.
  - done.
  - intros i o r Hi. destruct Hm as [->|Hm]; [rewrite list_insert_id by done; by eapply N3|].
    eapply worker_inv_client; [done|done|by eapply N3].
  - intros x Hx. destruct Hm as [->|Hm]; [rewrite list_insert_id by done; by eapply N4|].
    eapply xfer_inv_client; [done|done|by eapply N4].
  - intros j1 nd1 [[-> ->]|[Hne H1]]%insert_nd_inv; [done|]. eapply node_inv_other; [|by eapply N5].
    intros l1 Hl1. rewrite list_lookup_insert_ne; [done|]. intros <-.
    destruct (node_link n j1 nd1 l Hn H1 Hl1) as (k1 & Hk1 & E). congruence.
  - intros l1 k1. rewrite list_lookup_insert_Some. intros [(-> & -> & _)|[Hne H1]] Ht.
    + exists nd'. rewrite En, Hnode, list_lookup_insert_eq by (by eapply lookup_lt_Some). split; [done|by apply Htaken].
    + destruct (N6 l1 k1 H1 Ht) as (nd1 & Hnd1 & Hin). destruct (decide (l_node k1 = j)) as [E|E].
      * exists nd'. rewrite E in Hnd1 |- *. rewrite list_lookup_insert_eq by (by eapply lookup_lt_Some).
        rewrite Hj in Hnd1. injection Hnd1 as <-. split; [done|by apply Hkeep].
      * exists nd1. by rewrite list_lookup_insert_ne.
  - by rewrite length_insert.
  - by rewrite Hlen.
  - intros l1 k1. rewrite list_lookup_insert_Some. intros [(-> & -> & _)|[Hne H1]]; [|by eapply N9].
    rewrite Ew. by apply N9.
Qed.

Lemma net_node_same n j nd nd' :
  net_inv n → nds n !! j = Some nd →
  (∀ l', l' ∈ n_served nd ++ at_link (n_sess nd) → l' ∈ n_served nd' ++ at_link (n_sess nd')) →
  node_inv (links n) j nd' → net_inv (put_node j nd' n).
Proof.
  intros Hn Hj Hkeep Hnd. pose proof Hn as [N1 N2 N3 N4 N5 N6 N7 N8 N9]. split; simpl; try done.
  - intros j1 nd1 [[-> ->]|[Hne H1]]%insert_nd_inv; [done|by eapply N5].
  - intros l1 k1 H1 Ht. destruct (N6 l1 k1 H1 Ht) as (nd1 & Hnd1 & Hin). destruct (decide (l_node k1 = j)) as [E|E].
    + exists nd'. rewrite E in Hnd1 |- *. rewrite list_lookup_insert_eq by (by eapply lookup_lt_Some).
      rewrite Hj in Hnd1. injection Hnd1 as <-. split; [done|by apply Hkeep].
    + exists nd1. by rewrite list_lookup_insert_ne.
  - by rewrite length_insert.
Qed.

Lemma net_accept_step n j st sv st0 l k fd o' :
  net_inv n → nds n !! j = Some (Nd st None sv st0) → links n !! l = Some k → l_node k = j → l_taken k = false →
  open_fd (FSock no_data) (cos st) = Ret fd o' →
  net_inv (put_node j (Nd (Cst o' (current_fd st)) (Some (Sess l fd (connection_prog fd))) sv st0)
    (with_links (<[l := take_link k]> (links n)) n)).
Proof.
  intros Hn Hj Hk Hnode Hnew Hfd.
  pose proof (nt_nodes _ Hn _ _ Hj) as Hnd. destruct (nv_sess _ _ _ Hnd) as (S1 & S2 & S3).
  destruct (nt_links _ Hn _ _ Hk) as [Hlink _]. simpl in S1, S2, S3.
  injection Hfd as Hfd Ho. symmetry in Hfd. subst o'.
  assert (l ∉ sv) as Hnot.
  { intros Hin. destruct (nv_served _ _ _ Hnd l Hin) as (k1 & Hk1 & _ & E & _). congruence. }
  assert (∀ l', l' ∈ sv → <[l:=take_link k]> (links n) !! l' = links n !! l') as Hother.
  { intros l' Hin. rewrite list_lookup_insert_ne; [done|]. by intros <-. }
  destruct (li_new _ Hlink Hnew) as (Hc & Hd & Hup).
  eapply net_node_put; [done|exact Hj|exact Hk|done| | | | |]; simpl.
  - right. split; [done|done|]. exists []. by rewrite !app_nil_r.
  - destruct Hlink as [L1 L2 L3 L4]. split; simpl; [done|done| |done]. intros E. congruence.
  - intros _. set_solver.
  - set_solver.
  - split; simpl.
    + pose proof (nv_nodup _ _ _ Hnd) as Hnd'. simpl in Hnd'. rewrite app_nil_r in Hnd'.
      apply NoDup_app. split_and!; [done| |apply NoDup_singleton]. intros l' Hl' ->%list_elem_of_singleton. done.
    + intros l' Hin. destruct (nv_served _ _ _ Hnd l' Hin) as (k1 & Hk1 & Hp). exists k1. by rewrite Hother.
    + exists st, (take_link k). split_and!; [by eapply served_as_other| |done|done|].
      * by rewrite list_lookup_insert_eq by (by eapply lookup_lt_Some).
      * rewrite Hfd. rewrite (down_hist_other (links n)) by done. by apply session_inv_accept.
Qed.

Lemma net_client_step n j st l fd p sv st0 e p' st' k k' :
  net_inv n → nds n !! j = Some (Nd st (Some (Sess l fd p)) sv st0) → links n !! l = Some k →
  tstep p st e p' st' → cmove cap fd e k k' →
  net_inv (put_node j (Nd st' (Some (Sess l fd p')) sv st0) (with_links (<[l := k']> (links n)) n)).
Proof.
  intros Hn Hj Hk Ht Hm.
  pose proof (nt_nodes _ Hn _ _ Hj) as Hnd. pose proof (nv_nodup _ _ _ Hnd) as Hdup.
  destruct (nv_sess _ _ _ Hnd) as (base & k1 & S1 & S2 & S3 & S4 & S5). simpl in S1, S5, Hdup.
  rewrite Hk in S2. injection S2 as <-. destruct (nt_links _ Hn _ _ Hk) as [Hlink _].
  destruct (session_inv_step cap _ _ _ _ _ _ _ _ _ _ _ Ht Hm S4 Hlink S5) as (R1 & R2 & R3).
  assert (l ∉ sv) as Hnot by (apply NoDup_app in Hdup as (_ & Hdup & _); intros Hin; apply (Hdup l Hin); by left).
  assert (∀ l', l' ∈ sv → <[l:=k']> (links n) !! l' = links n !! l') as Hother.
  { intros l' Hin. rewrite list_lookup_insert_ne; [done|]. by intros <-. }
  assert (k' = k ∨ client_moves k k') as Hmoves by (destruct R3 as [[_ ->]|?]; [by left|by right]).
  assert (l_node k' = l_node k ∧ l_taken k' = l_taken k) as [En Etk] by (by destruct Hm).
  eapply net_node_put; [done|exact Hj|exact Hk|done|done|done|..]; simpl; [set_solver|done|].
  split; simpl; [done|..].
  - intros l' Hin. destruct (nv_served _ _ _ Hnd l' Hin) as (k1 & Hk1 & Hp). exists k1. by rewrite Hother.
  - exists base, k'. split_and!; [by eapply served_as_other| |congruence|congruence|].
    + by rewrite list_lookup_insert_eq by (by eapply lookup_lt_Some).
    + by rewrite (down_hist_other (links n)).
Qed.

Lemma net_again_step n j st l fd sv st0 :
  net_inv n → nds n !! j = Some (Nd st (Some (Sess l fd (Done true))) sv st0) →
  net_inv (put_node j (Nd st (Some (Sess l fd (connection_prog fd))) sv st0) n).
Proof.
  intros Hn Hj.
  pose proof (nt_nodes _ Hn _ _ Hj) as Hnd. eapply net_node_same; [done|exact Hj|done|].
  destruct Hnd as [D1 D2 (base & k1 & S1 & S2 & S3 & S4 & S5)]. split; simpl; [done|done|].
  exists base, k1. split_and!; try done. by apply session_inv_again.
Qed.

Lemma net_next_step n j st l fd sv st0 :
  net_inv n → nds n !! j = Some (Nd st (Some (Sess l fd (Done false))) sv st0) →
  net_inv (put_node j (Nd st None (sv ++ [l]) st0) n).
Proof.
  intros Hn Hj.
  pose proof (nt_nodes _ Hn _ _ Hj) as Hnd. eapply net_node_same; [done|exact Hj|simpl; set_solver|].
  destruct Hnd as [D1 D2 (base & k1 & S1 & S2 & S3 & S4 & S5)]. simpl in *.
  destruct (nt_links _ Hn _ _ S2) as [Hlink _].
  destruct (session_inv_next _ _ _ _ _ _ S5 Hlink) as (_ & R2 & R3 & R4).
  split; simpl; [by rewrite app_nil_r|..].
  - intros l' [Hin|Hin%list_elem_of_singleton]%elem_of_app; [by apply D2|]. subst. by exists k1.
  - split; [by eapply served_as_next|done].
Qed.

Lemma net_inv_step n n' : nstep cap route n n' → net_inv n → net_inv n'.
Proof.
  intros Hs Hn. destruct Hs.
  - by eapply net_worker_step.
  - by eapply net_accept_step.
  - by eapply net_client_step.
  - by eapply net_again_step.
  - by eapply net_next_step.
Qed.

Lemma net_inv_begins n n' i job : begins logfile self i job n n' → net_inv n → net_inv n'.
Proof.
  intros (o & Hi & ->) Hn. pose proof Hn as [N1 N2 N3 N4 N5 N6 N7 N8 N9]. split; simpl; try done.
  - intros j o1 [[_ [=]]|[_ H1]]%insert_wk_inv. by eapply N2.
  - intros j o1 r1 [[-> [= -> ->]]|[Hne H1]]%insert_wk_inv; [|by eapply N3].
    by apply worker_inv_begins, (N2 i).
  - rewrite <-N8. unfold all_dials. simpl. f_equiv.
    by rewrite (concat_running _ _ _ _ [] Hi), app_nil_r.
  - intros l k Hl Hwo. destruct (N9 l k Hl Hwo) as (j & o1 & r1 & fd1 & Hj & Hf1).
    exists j, o1, r1, fd1. rewrite list_lookup_insert_ne; [done|]. intros <-. congruence.
Qed.

Lemma concat_idle ws i o r :
  ws !! i = Some (Wk o (Some r)) →
  concat (running <$> ws) ≡ₚ omap id (r_dials r) ++ concat (running <$> <[i := Wk o None]> ws).
Proof.
  intros Hi. rewrite insert_take_drop by (by eapply lookup_lt_Some).
  rewrite <-(take_drop_middle ws i _) at 1 by done.
  rewrite !fmap_app, !concat_app, !fmap_cons. simpl. solve_Permutation.
Qed.

Lemma net_inv_ends n n' i job : ends i job n n' → net_inv n → net_inv n'.
Proof.
  intros (o & z & fs & ds & cl & o0 & Hi & ->) Hn. pose proof Hn as [N1 N2 N3 N4 N5 N6 N7 N8 N9].
  destruct (worker_inv_ends _ _ _ _ _ _ _ _ _ _ _ _ (N3 _ _ _ Hi)) as [Hx Ho].
  assert (fs = ∅) as ->.
  { apply map_empty. intros fd. apply eq_None_not_Some. intros Hfd.
    apply (wv_socks _ _ _ _ _ _ _ (N3 _ _ _ Hi)) in Hfd. rewrite (proj1 Ho), lookup_empty in Hfd. by destruct Hfd. }
  split; simpl; try done.
  - intros j o1 [[_ [= ->]]|[_ H1]]%insert_wk_inv; [done|by eapply N2].
  - intros j o1 r1 [[-> [=]]|[Hne H1]]%insert_wk_inv. by eapply N3.
  - intros x [Hin|Hin%list_elem_of_singleton]%elem_of_app; [by apply N4|by subst].
  - rewrite <-N8. unfold all_dials. simpl. rewrite (concat_idle _ _ _ _ Hi), fmap_app, concat_app. simpl.
    solve_Permutation.
  - intros l k Hl Hwo. destruct (N9 l k Hl Hwo) as (j & o1 & r1 & fd1 & Hj & Hf1).
    exists j, o1, r1, fd1. rewrite list_lookup_insert_ne; [done|]. intros <-. rewrite Hi in Hj.
    injection Hj as <- <-. done.
Qed.

Lemma net_inv_move n n' : move n n' → net_inv n → net_inv n'.
Proof.
  intros [H|[(i & job & H)|(i & job & H)]]; [by apply net_inv_step|by eapply net_inv_begins|by eapply net_inv_ends].
Qed.

Lemma net_inv_runs n n' : rtc move n n' → net_inv n → net_inv n'.
Proof. induction 1; eauto using net_inv_move. Qed.

(** ** What the runs show *)

Lemma starts_put (ns : list node) j nd nd' :
  ns !! j = Some nd → n_start nd' = n_start nd → n_start <$> <[j := nd']> ns = n_start <$> ns.
Proof.
  intros Hj E. rewrite list_fmap_insert, list_insert_id; [done|]. by rewrite list_lookup_fmap, Hj, E.
Qed.

Lemma starts_move n n' : move n n' → n_start <$> nds n' = n_start <$> nds n.
Proof.
  intros [H|[(i & job & o & _ & ->)|(i & job & o & z & fs & ds & cl & o0 & _ & ->)]]; [|done..].
  destruct H; simpl; try done; by eapply starts_put.
Qed.

Lemma starts_runs n n' : rtc move n n' → n_start <$> nds n' = n_start <$> nds n.
Proof. induction 1 as [|n n1 n' H _ IH]; [done|]. by rewrite IH, (starts_move n n1). Qed.

Lemma starts_initial ws cs n j nd : rtc move (initial ws cs) n → nds n !! j = Some nd → cs !! j = Some (n_start nd).
Proof.
  intros Hr Hj. apply starts_runs in Hr. apply (f_equal (.!! j)) in Hr.
  rewrite list_lookup_fmap, Hj in Hr. simpl in Hr. rewrite !list_lookup_fmap in Hr. by destruct (cs !! j).
Qed.

Lemma setup_dials D (o : os) : socks o = ∅ → setup (λ _, no_data) D (closed o) o = set_dial (λ _, D) id o.
Proof.
  intros Hs. pose proof (setup_id (S:=os) (λ _, no_data) (set_dial (λ _, D) id o) Hs) as E.
  exact E.
Qed.

(** A finished transfer, on what its clients have sent and whatever they may still send. *)
Lemma xfer_run n x F D :
  net_inv n → x ∈ xfers n →
  ∃ o, sync_single_file logfile (self (x_worker x)) (x_job x)
      (set_dial (λ _, (try_script F (links n) <$> x_dials x) ++ D) id (x_start x)) = Ret (x_result x) o ∧
    closed o = closed (x_start x) ++ (down_sock F (links n) <$> x_closed x).
Proof.
  intros Hn Hx. destruct (nt_xfers _ Hn _ Hx) as ([Hs _] & (o & Hr) & _).
  specialize (Hr F D). rewrite setup_dials in Hr by done. rewrite run_sync in Hr. rewrite Hr. by eexists.
Qed.

Lemma up_conn_said ls l : up_conn ls l = Some (arriving (said ls l)).
Proof. unfold up_conn, said. by destruct (ls !! l). Qed.

Lemma down_hist_replied ls l : tx (down_hist ls l) = replied ls l.
Proof. unfold down_hist, replied. by destruct (ls !! l). Qed.

Lemma try_script_replied ls (ds : list (option nat)) :
  answer ls <$> ds = try_script (λ _, []) ls <$> ds.
Proof.
  apply list_fmap_ext. intros i [l|] _; [|done]. unfold answer, try_script, down_script, replied. destruct (ls !! l) as [k|]; [|done].
  unfold down_future. by destruct (l_copen k); rewrite app_nil_r.
Qed.

Lemma node_run n j nd :
  net_inv n → nds n !! j = Some nd → n_sess nd = None →
  ∃ s', serve_all ((λ l, Some (arriving (said (links n) l))) <$> n_served nd) (n_start nd) = Ret tt s' ∧
    tx <$> closed (cos s') = (tx <$> closed (cos (n_start nd))) ++ (replied (links n) <$> n_served nd) ∧
    files (cos s') = files (cos (n_st nd)) ∧ current_fd s' = current_fd (n_st nd).
Proof.
  intros Hn Hj Hs. destruct (nt_nodes _ Hn _ _ Hj) as [_ _ Hnd]. rewrite Hs in Hnd. destruct Hnd as [Hr _].
  rewrite (list_fmap_ext _ (up_conn (links n))) by (intros; by rewrite up_conn_said).
  eexists. split; [exact Hr|]. simpl. split; [|done]. rewrite fmap_app, <-list_fmap_compose. f_equal.
  apply list_fmap_ext. intros. apply down_hist_replied.
Qed.

(** C6: the interleaved run of the workers and the clients is the run of the
    functions of [Transfer.v] and [Client.v].  Let any number of workers take
    jobs and clients serve connections, their steps interleaved in any way and
    each [send] and [recv] happening on a queue that its two ends share.  Then
    a finished transfer has returned and sent what [sync_single_file] returns
    and sends when the same connections are refused and what its clients sent on
    the others arrives message by message, and a
    client that waits for a connection has the files, and has sent the
    messages, that its accept loop leaves and sends, given the connections it
    has served with what their workers sent. *)
Theorem network_refines_scripts (ws : list os) (cs : list cst) (n : net)
    (Hws : Forall worker_idle ws) (Hcs : Forall ready_client cs) (Hlen : length cs = clients)
    (Hr : rtc (nmove logfile self cap route) (initial ws cs) n) :
  (∀ x, x ∈ xfers n → ∃ o,
     sync_single_file logfile (self (x_worker x)) (x_job x)
       (set_dial (λ _, answer (links n) <$> x_dials x) id (x_start x)) = Ret (x_result x) o ∧
     tx <$> closed o = (tx <$> closed (x_start x)) ++ (said (links n) <$> x_closed x) ∧ x_closed x = omap id (x_dials x)) ∧
  (∀ j nd, nds n !! j = Some nd → n_sess nd = None → ∃ s s', cs !! j = Some s ∧
     serve_all ((λ l, Some (arriving (said (links n) l))) <$> n_served nd) s = Ret tt s' ∧
     tx <$> closed (cos s') = (tx <$> closed (cos s)) ++ (replied (links n) <$> n_served nd) ∧
     files (cos s') = files (cos (n_st nd)) ∧ NoDup (n_served nd)).
Proof.
  assert (net_inv n) as Hn by (eapply net_inv_runs; [done|by apply net_inv_initial]). split.
  - intros x Hx. destruct (xfer_run n x (λ _, []) [] Hn Hx) as (o & E & Hc). exists o. split_and!.
    + rewrite app_nil_r in E. by rewrite try_script_replied.
    + rewrite Hc, fmap_app, <-list_fmap_compose. f_equal. apply list_fmap_ext. intros i l _. simpl.
      unfold down_sock, said. by destruct (links n !! l).
    + by destruct (nt_xfers _ Hn _ Hx) as (_ & _ & [_ _ _ _ (_ & ? & _)]).
  - intros j nd Hj Hs. destruct (node_run n j nd Hn Hj Hs) as (s' & E & Ht & Hf & _). exists (n_start nd), s'.
    split_and!; try done; [by eapply starts_initial|].
    pose proof (nv_nodup _ _ _ (nt_nodes _ Hn _ _ Hj)) as Hd. by rewrite Hs, app_nil_r in Hd.
Qed.
End runs.
