(* ===== verification/NetGrowth.v ===== *)
(** * What a run does to its connections

    A program that runs to its end on the scripted operating system has
    sent, on each of its connections, what it had sent before and possibly
    more, and received part of what was to arrive.  A client sends nothing
    more once the stream has ended.  These lemmas tell from the whole of a
    conversation, which the scripts give, how far it can have come. *)
From S2P Require Import Prelude.
From S2P Require Import CString.
From S2P Require Import Common.
From S2P Require Import OS.
From S2P Require Import Utils.
From S2P Require Import Client.
From S2P Require Import Transfer.
From S2P Require Import EndToEnd.
From S2P Require Import Programs.
From S2P Require Import Replay.
From S2P Require Import Protocol.
From stdpp Require Import gmap strings list.
From Stdlib Require Import Ascii ZArith Lia.

(** A later state of a connection. *)
Definition to_arrive (c : sock) : nat := length (concat (rx c)).

Record grows (c c' : sock) : Prop := {
  gr_tx : tx c `prefix_of` tx c';
  gr_rx : to_arrive c' ≤ to_arrive c
}.

#[global] Instance grows_preorder : PreOrder grows.
Proof.
  split; [by split|]. intros c1 c2 c3 [A1 A2] [B1 B2]. split; [by etrans|lia].
Qed.

(** Connections without surprises: sends take all, streams end in order. *)
Definition plain (c : sock) : Prop := tx_script c = [] ∧ rx_reset c = false.
Definition plain_socks (o : os) : Prop := ∀ fd c, socks o !! fd = Some c → plain c.

Lemma plain_sent c d : plain c → plain (sent c d).
Proof. intros [H1 H2]. unfold plain. simpl. by rewrite H1. Qed.

Lemma plain_steady o : plain_socks o → steady o.
Proof. intros H fd c Hc. by apply (H fd c). Qed.

Lemma plain_put o fd c : plain_socks o → plain c → plain_socks (set_fds <[fd := FSock c]> o).
Proof.
  intros H Hc fd' x. rewrite socks_put, lookup_insert_Some. intros [[_ <-]|[_ Hx]]; [done|by apply (H fd')].
Qed.

Lemma plain_put_sent o fd c d :
  plain_socks o → socks o !! fd = Some c → plain_socks (set_fds <[fd := FSock (sent c d)]> o).
Proof. intros H Hc. by apply plain_put, plain_sent, (H fd). Qed.

Lemma plain_close o fd : plain_socks o → plain_socks (close_fd fd o).
Proof. intros H fd' c. rewrite socks_close, lookup_delete_Some. intros [_ Hc]. by apply (H fd'). Qed.

Lemma plain_same o o' : socks o' = socks o → plain_socks o → plain_socks o'.
Proof. unfold plain_socks. by intros ->. Qed.

Lemma send_plain o fd c d :
  plain_socks o → socks o !! fd = Some c →
  sys_send fd d o = Ret (Z.of_nat (length d)) (set_fds <[fd := FSock (sent c d)]> o).
Proof.
  intros H Hc. destruct (H _ _ Hc) as [Hs _]. apply socks_lookup in Hc.
  unfold sys_send, get_sock, bind, gets. rewrite Hc. unfold send_ans. rewrite Hs. done.
Qed.

Lemma grows_sent c d : grows c (sent c d).
Proof. split; [|done]. simpl. case_decide; [done|]. by apply prefix_app_r. Qed.

(** A [recv] brings something unless nothing is left. *)
Lemma recv_plain o fd c n :
  plain_socks o → socks o !! fd = Some c →
  ∃ d c', sys_recv fd n o = Ret (Z.of_nat (length d), d) (set_fds <[fd := FSock c']> o) ∧
    length d ≤ n ∧ tx c' = tx c ∧ plain c' ∧
    d ++ concat (rx c') = concat (rx c) ∧ (rx c = [] → d = [] ∧ c' = c) ∧
    (0 < n → Forall (.≠ []) (rx c) → rx c ≠ [] → d ≠ []) ∧ (Forall (.≠ []) (rx c) → Forall (.≠ []) (rx c')).
Proof.
  intros H Hc. destruct (H _ _ Hc) as [Hs Hr]. apply socks_lookup in Hc.
  unfold sys_recv, get_sock, bind, gets. rewrite Hc.
  destruct (delivered n c) as [[d|] c'] eqn:E.
  2: { unfold delivered in E. rewrite Hr in E. by destruct (rx c). }
  exists d, c'. split; [done|]. destruct (delivered_stream _ _ _ _ E) as [H1 H2]. revert E. unfold delivered. rewrite Hr.
  destruct (rx c) as [|x l] eqn:Ex; intros [= <- <-].
  - rewrite Ex. split_and!; done || (simpl; lia).
  - split_and!; try done.
    + intros Hn Hx _ E0. apply Forall_cons in Hx as [Hx _]. apply (f_equal length) in E0.
      rewrite length_take in E0. destruct x; simpl in E0; [done|lia].
    + intros [Hx Hl]%Forall_cons. simpl. case_decide; [done|]. constructor; [|done].
      intros E0. apply (f_equal length) in E0. rewrite length_drop in E0. simpl in E0. lia.
Qed.

Lemma grows_received c c' d : tx c' = tx c → d ++ concat (rx c') = concat (rx c) → grows c c'.
Proof. intros E1 E2. split; [by rewrite E1|]. unfold to_arrive. rewrite <-E2, length_app. lia. Qed.

(** ** The worker *)

Section worker.
Context (job : sync_job).

(** How the connections of a worker in the stage [st] end. *)
Definition ends_as (st : wstage) (o o' : os) : Prop :=
  match st with
  | WAsk s t | WMove s t => ∀ cs ct, s ≠ t → socks o !! s = Some cs → socks o !! t = Some ct →
      ∃ cs' ct', closed o' = closed o ++ [cs'; ct'] ∧ grows cs cs' ∧ grows ct ct'
  | WTarget t => ∀ ct, socks o !! t = Some ct → closed o' = closed o ++ [ct]
  | WEnd => closed o' = closed o
  | _ => True
  end.

Lemma ends_as_calm st o o1 o' :
  socks o1 = socks o → closed o1 = closed o → ends_as st o1 o' → ends_as st o o'.
Proof. intros E1 E2. destruct st; simpl; rewrite ?E1, ?E2; done. Qed.

(** A connection changes on the way. *)
Lemma ends_as_source s t o c o' :
  (∀ cs, socks o !! s = Some cs → grows cs c) →
  ends_as (WMove s t) (set_fds <[s := FSock c]> o) o' → ends_as (WMove s t) o o'.
Proof.
  intros Hg H cs ct Hne Hs Ht. destruct (H c ct Hne) as (cs' & ct' & E & G1 & G2).
  - by rewrite socks_put, lookup_insert_eq.
  - by rewrite socks_put, lookup_insert_ne.
  - exists cs', ct'. split_and!; [done|etrans; [by apply Hg|done]|done].
Qed.

Lemma ends_as_target s t o c o' :
  (∀ ct, socks o !! t = Some ct → grows ct c) →
  ends_as (WMove s t) (set_fds <[t := FSock c]> o) o' → ends_as (WMove s t) o o'.
Proof.
  intros Hg H cs ct Hne Hs Ht. destruct (H cs c Hne) as (cs' & ct' & E & G1 & G2).
  - by rewrite socks_put, lookup_insert_ne.
  - by rewrite socks_put, lookup_insert_eq.
  - exists cs', ct'. split_and!; [done|done|etrans; [by apply Hg|done]].
Qed.

Lemma closed_put fd c o : closed (set_fds <[fd := FSock c]> o) = closed o.
Proof. done. Qed.

Lemma closed_close fd c o : socks o !! fd = Some c → closed (close_fd fd o) = closed o ++ [c].
Proof. intros Hc%socks_lookup. simpl. by rewrite Hc. Qed.

(** The state [o], a program in it and its open connections. *)
Definition open_in (st : wstage) (o : os) : Prop :=
  match st with
  | WAsk s t | WMove s t => s ≠ t ∧ is_Some (socks o !! s) ∧ is_Some (socks o !! t)
  | WTarget t => is_Some (socks o !! t)
  | WEnd => True
  | _ => False
  end.

Lemma worker_run_ends st p o (z : Z) o' :
  worker_shape job (λ _ st, st = WEnd) st p → calm_prog p → plain_socks o → open_in st o →
  run p o = Ret z o' → ends_as st o o'.
Proof.
  revert st o. induction p as [a|c IH|h port k IH|fd d k IH|fd n k IH|fd k IH] using prog_rect_local;
    intros st o Hsh Hcalm Hpl Hop E; cbn [worker_shape calm_prog run] in *.
  - injection E as -> ->. by rewrite Hsh.
  - specialize (Hsh o). destruct Hcalm as [Hc Hp]. specialize (Hp o).
    destruct (c o) as [p' o1| | |] eqn:Ec; try done.
    pose proof (calm_socks _ Hc _ _ _ Ec : socks o1 = socks o) as Es.
    pose proof (calm_closed c o p' o1 Hc (plain_steady _ Hpl) Ec) as Ecl.
    eapply ends_as_calm; [exact Es|exact Ecl|]. eapply IH; [exact Ec|done|done|exact (plain_same _ _ Es Hpl)| |done].
    destruct st; simpl in *; by rewrite ?Es.
  - by destruct st.
  - unfold bind in E. rewrite lift_os in E. destruct Hsh as [Hd Hsh].
    destruct st; try done; simpl in Hop; destruct Hop as (Hne & [cs Hs] & [ct Ht]); [destruct Hsh as (-> & -> & Hsh)|destruct Hsh as (-> & Hsh)].
    + rewrite (send_plain _ _ cs) in E by done. apply (ends_as_source s t) with (c := sent cs (pull_message job)).
      { intros cs0 Hs0. rewrite Hs in Hs0. injection Hs0 as <-. apply grows_sent. }
      eapply (IH _ (WMove s t)); [done|done|by apply plain_put_sent| |done]. simpl. rewrite socks_put.
      split; [done|]. rewrite lookup_insert_eq, lookup_insert_ne by done. eauto.
    + rewrite (send_plain _ _ ct) in E by done. apply ends_as_target with (c := sent ct d).
      { intros ct0 Ht0. rewrite Ht in Ht0. injection Ht0 as <-. apply grows_sent. }
      eapply (IH _ (WMove s t)); [done|done|by apply plain_put_sent| |done]. simpl. rewrite socks_put.
      split; [done|]. rewrite lookup_insert_eq, lookup_insert_ne by done. eauto.
  - destruct Hsh as [Hn Hsh]. destruct st; try done. destruct Hsh as (-> & Hsh).
    simpl in Hop; destruct Hop as (Hne & [cs Hs] & [ct Ht]).
    destruct (recv_plain o s cs n Hpl Hs) as (d & cs' & Er & Hd & R1 & R2 & R4 & _).
    unfold bind in E. rewrite lift_os, Er in E. apply ends_as_source with (c := cs').
    { intros cs0 Hs0. rewrite Hs in Hs0. injection Hs0 as <-. by eapply grows_received. }
    eapply (IH _ (WMove s t)); [by apply Hsh|done|by apply plain_put| |done]. simpl. rewrite socks_put.
    split; [done|]. rewrite lookup_insert_eq, lookup_insert_ne by done. eauto.
  - unfold bind, lift, zoom, sys_close, modify in E. simpl in E.
    destruct st; try done; destruct Hsh as [-> Hsh]; simpl in Hop.
    + destruct Hop as (Hne & Hs & Ht). intros cs ct _ Hcs Hct.
      assert (ends_as (WTarget t) (close_fd s o) o') as He.
      { eapply IH; [done|done|by apply plain_close| |done]. simpl. by rewrite socks_close, lookup_delete_ne. }
      exists cs, ct. split_and!; [|done|done]. rewrite (He ct) by (by rewrite socks_close, lookup_delete_ne).
      rewrite (closed_close s cs) by done. by rewrite <-app_assoc.
    + intros ct Hct. assert (ends_as WEnd (close_fd t o) o') as He by (eapply IH; [done|done|by apply plain_close|done|done]).
      unfold ends_as in He. by rewrite He, (closed_close t ct).
Qed.

(** A [recv] of a portion takes some of it. *)
Lemma worker_run_takes s t n (k : Z * bytes → prog os Z) o z o' cs ct d :
  worker_shape job (λ _ st, st = WEnd) (WMove s t) (Recv s n k) → calm_prog (Recv s n k) → plain_socks o →
  s ≠ t → socks o !! s = Some cs → socks o !! t = Some ct → rx cs = [d] → d ≠ [] →
  run (Recv s n k) o = Ret z o' →
  ∃ cs' ct', closed o' = closed o ++ [cs'; ct'] ∧ to_arrive cs' < length d.
Proof.
  intros [Hn [_ Hsh]] Hcalm Hpl Hne Hs Ht Hrx Hd E.
  destruct (recv_plain o s cs n Hpl Hs) as (d' & c' & Er & Hd' & R1 & R2 & R4 & _ & R6 & _).
  cbn [run] in E. unfold bind in E. rewrite lift_os, Er in E.
  apply (worker_run_ends (WMove s t)) in E; [|by apply Hsh|apply Hcalm|by apply plain_put|].
  - destruct (E c' ct Hne) as (cs' & ct' & Ec & [_ G] & _).
    + by rewrite socks_put, lookup_insert_eq.
    + by rewrite socks_put, lookup_insert_ne.
    + exists cs', ct'. split; [done|]. rewrite Hrx in *. simpl in R4. rewrite app_nil_r in R4.
      assert (d' ≠ []) as H0 by (apply R6; [done|by repeat constructor|done]).
      apply (f_equal length) in R4. rewrite length_app in R4. unfold to_arrive in *. destruct d'; [done|]. simpl in *. lia.
  - simpl. rewrite socks_put. split; [done|]. rewrite lookup_insert_eq, lookup_insert_ne by done. eauto.
Qed.
End worker.

(** ** The client *)

Lemma socks_setup G D K o fd : socks (setup_os G D K o) !! fd = (λ _, G fd) <$> socks o !! fd.
Proof. unfold socks. rewrite !lookup_omap. simpl. rewrite map_lookup_imap. by destruct (fds o !! fd) as [[]|]. Qed.

Lemma file_setup G D K o fd : is_file o fd → is_file (setup_os G D K o) fd.
Proof. intros (p & off & E). exists p, off. by rewrite setup_lookup, E. Qed.

Lemma closed_file fd o : socks o !! fd = None → closed (close_fd fd o) = closed o.
Proof. unfold socks. rewrite lookup_omap. simpl. by destruct (fds o !! fd) as [[]|]. Qed.

(** The order of a client's calls does not depend on what arrives. *)
Lemma client_shape_setup {A} fd (Q : A → cstage → cst → Prop) G D st (p : prog cst A) s K :
  (∀ a st s K, Q a st s → Q a st (setup G D K s)) → smooths G → calm_prog p → steady (cos s) →
  client_shape fd Q st p s → client_shape fd Q st p (setup G D K s).
Proof.
  intros HQ HG. revert st s K. induction p as [a|c IH|h port k IH|fd' d k IH|fd' n k IH|fd' k IH] using prog_rect_local;
    intros st s K Hcalm Hs Hsh; cbn [client_shape calm_prog] in *.
  - by apply HQ.
  - destruct Hcalm as [Hc Hp]. rewrite (calm_setup c Hc) by done. specialize (Hp s).
    destruct (c s) as [p' s1| | |] eqn:Ec; try done. simpl. eapply IH; [exact Ec|done| |done].
    unfold steady. by rewrite (calm_socks _ Hc _ _ _ Ec : socks (cos s1) = socks (cos s)).
  - done.
  - destruct Hsh as (H1 & H2 & H3 & H4). eauto 10.
  - destruct Hsh as (H1 & H2 & H3 & H4 & H5). split_and!; eauto.
  - assert (steady (cos (Cst (close_fd fd' (cos s)) (current_fd s)))) as Hst.
    { intros z c. cbn [cos]. rewrite socks_close, lookup_delete_Some. intros [_ ?]. by eapply Hs. }
    assert (∀ K, ∃ K', Cst (close_fd fd' (cos (setup G D K s))) (current_fd (setup G D K s)) =
      setup G D K' (Cst (close_fd fd' (cos s)) (current_fd s))) as Hclose.
    { intros K0. eexists. unfold setup at 1. cbn [cos with_os onos_cst os_of]. by rewrite (setup_close G G). }
    assert (socks (cos (setup G D K s)) !! fd' = (λ _, G fd') <$> socks (cos s) !! fd') as -> by exact (socks_setup G D K (cos s) fd').
    destruct (Hclose K) as [K' ->]. destruct (socks (cos s) !! fd'); cbn [fmap option_fmap option_map].
    + destruct Hsh as (H1 & H2 & H3). split_and!; [done..|]. by apply (IH _ (Cst _ _)).
    + by apply (IH _ (Cst _ _)).
Qed.

Lemma after_turn_setup G D b st s K : after_turn b st s → after_turn b st (setup G D K s).
Proof. intros [Hc Hst]. split; [|done]. intros H. by apply file_setup, Hc. Qed.

(** Nor on what has been said on the connection. *)
Lemma client_shape_put fd st (p : prog cst bool) s c :
  plain_socks (cos s) → plain c → is_Some (socks (cos s) !! fd) → calm_prog p →
  client_shape fd after_turn st p s →
  client_shape fd after_turn st p (Cst (set_fds <[fd := FSock c]> (cos s)) (current_fd s)).
Proof.
  intros Hpl Hc Hfd Hp Hsh.
  pose (G0 := λ z, default no_data (socks (cos s) !! z)). pose (G := λ z, if decide (z = fd) then c else G0 z).
  assert (Cst (set_fds <[fd := FSock c]> (cos s)) (current_fd s) = setup G (dials (cos s)) (closed (cos s)) s) as ->.
  { unfold setup. simpl. f_equal. rewrite <-(setup_put G0 G _ _ _ fd) by
      (done || (intros z Hz; unfold G; by rewrite decide_False)).
    assert (G fd = c) as -> by (unfold G; by rewrite decide_True).
    assert (setup_os G0 (dials (cos s)) (closed (cos s)) (cos s) = cos s) as ->; [|done].
    refine (setup_self (S:=os) G0 (cos s) _). intros z x Hx. unfold G0. change (socks (cos s) !! z = Some x) in Hx.
    by rewrite Hx. }
  apply client_shape_setup; [intros; by apply after_turn_setup| |done|by apply plain_steady|done].
  intros z. unfold G, G0. case_decide; [apply Hc|]. destruct (socks (cos s) !! z) eqn:E; [|done]. by apply (Hpl z).
Qed.

Section client.
Variable fd : Z.

(** At a [recv], unless no command is being worked on. *)
Definition at_recv {A} (p : prog cst A) : Prop := match p with Recv _ _ _ => True | _ => False end.
Definition silent {A} (st : cstage) (p : prog cst A) : Prop := st = CBody → at_recv p.

(** How a turn leaves the connection. *)
Definition turned (b : bool) (c : sock) (s s' : cst) : Prop :=
  if b then socks (cos s') !! fd = Some c ∧ closed (cos s') = closed (cos s) ∧ current_ok s' ∧ plain_socks (cos s')
  else closed (cos s') = closed (cos s) ++ [c].

Lemma client_run_closed p s b s' :
  client_shape fd after_turn CClosed p s → calm_prog p → plain_socks (cos s) → run p s = Ret b s' →
  b = false ∧ closed (cos s') = closed (cos s).
Proof.
  revert s. induction p as [a|c IH|h port k IH|fd' d k IH|fd' n k IH|fd' k IH] using prog_rect_local;
    intros s Hsh Hcalm Hpl E; cbn [client_shape calm_prog run] in *.
  - injection E as -> ->. destruct Hsh as [_ ->]. done.
  - destruct Hcalm as [Hc Hp]. specialize (Hp s). destruct (c s) as [p' s1| | |] eqn:Ec; try done.
    pose proof (calm_socks _ Hc _ _ _ Ec : socks (cos s1) = socks (cos s)) as Es.
    rewrite <-(calm_closed c s p' s1 Hc (plain_steady _ Hpl) Ec : closed (cos s1) = closed (cos s)).
    eapply IH; [exact Ec|done|done|exact (plain_same _ _ Es Hpl)|done].
  - done.
  - by destruct Hsh.
  - by destruct Hsh as (_ & _ & [] & _).
  - unfold bind, lift, zoom, sys_close, modify in E. simpl os_of in E. simpl with_os in E.
    destruct (socks (cos s) !! fd') eqn:Es; [by destruct Hsh|].
    apply IH in E; [|done|done|by apply plain_close]. cbn [cos] in E. by rewrite closed_file in E.
Qed.

Lemma client_run_turn st p s b s' c :
  client_shape fd after_turn st p s → calm_prog p → plain_socks (cos s) → socks (cos s) !! fd = Some c →
  st ≠ CClosed → run p s = Ret b s' →
  ∃ c', turned b c' s s' ∧ grows c c' ∧ (rx c = [] → silent st p → tx c' = tx c ∧ rx c' = []).
Proof.
  revert st s c. induction p as [a|a IH|h port k IH|fd' d k IH|fd' n k IH|fd' k IH] using prog_rect_local;
    intros st s c Hsh Hcalm Hpl Hc Hst E; cbn [client_shape calm_prog run] in *.
  - injection E as -> ->. exists c. split_and!; [|done|done]. destruct Hsh as [Hcur Hb].
    assert (b = true) as -> by (by destruct st). done.
  - destruct Hcalm as [Ha Hp]. specialize (Hp s). destruct (a s) as [p' s1| | |] eqn:Ea; try done.
    pose proof (calm_socks _ Ha _ _ _ Ea : socks (cos s1) = socks (cos s)) as Es.
    pose proof (calm_closed a s p' s1 Ha (plain_steady _ Hpl) Ea : closed (cos s1) = closed (cos s)) as Ecl.
    destruct (IH _ _ _ Ea st s1 c) as (c' & H1 & H2 & H3); [done|done|exact (plain_same _ _ Es Hpl)|by rewrite Es|done|done|].
    exists c'. split_and!; [|done|].
    + unfold turned in *. by rewrite <-Ecl.
    + intros Hr Hsil. apply H3; [done|]. intros Eb. by destruct (Hsil Eb).
  - done.
  - destruct Hsh as (-> & -> & Hd & Hsh). unfold bind, lift, zoom in E. simpl os_of in E.
    rewrite (send_plain _ _ c) in E by done. simpl with_os in E.
    apply (IH _ CBody _ (sent c d)) in E; [|apply client_shape_put; [done|by apply plain_sent, (Hpl fd)|done..]|done|by apply plain_put_sent|cbn [cos]; by rewrite socks_put, lookup_insert_eq|done].
    destruct E as (c' & H1 & H2 & H3). exists c'. split_and!; [done|etrans; [apply grows_sent|done]|].
    intros _ Hsil. by destruct Hsil.
  - destruct Hsh as (-> & Hn & Hstg & H0 & H1).
    destruct (recv_plain (cos s) fd c n Hpl Hc) as (d & c1 & Er & Hd & R1 & R2 & R4 & R5 & _ & _).
    unfold bind, lift, zoom in E. simpl os_of in E. rewrite Er in E. simpl with_os in E.
    assert (grows c c1) as G by (by eapply grows_received).
    set (st1 := if decide (d = []) then if st is CStart then CHang else CEof else CBody).
    assert (client_shape fd after_turn st1 (k (Z.of_nat (length d), d)) s) as Hsh1.
    { unfold st1. destruct (decide (d = [])) as [->|Hne]; [exact H0|by apply H1]. }
    apply (IH _ st1 _ c1) in E; [|by apply client_shape_put|done|by apply plain_put|cbn [cos]; by rewrite socks_put, lookup_insert_eq|].
    2: { unfold st1. destruct Hstg as [->| ->]; by case_decide. }
    destruct E as (c' & H2 & H3 & H4). exists c'. split_and!; [done|by etrans|].
    intros Hr Hsil. destruct (R5 Hr) as [-> ->]. apply H4; [done|]. unfold st1, silent. rewrite decide_True by done.
    by destruct Hstg as [->| ->].
  - unfold bind, lift, zoom, sys_close, modify in E. simpl os_of in E. simpl with_os in E.
    destruct (socks (cos s) !! fd') as [x|] eqn:Es.
    + destruct Hsh as (-> & -> & Hsh). rewrite Hc in Es. injection Es as <-.
      apply client_run_closed in E as [-> E]; [|done|done|by apply plain_close].
      exists c. split_and!; [|done|done]. unfold turned. rewrite E. cbn [cos]. by apply closed_close.
    + assert (fd ≠ fd') as Hne by congruence.
      apply (IH st _ c) in E; [|done|done|by apply plain_close|cbn [cos]; by rewrite socks_close, lookup_delete_ne|done].
      destruct E as (c' & H2 & H3 & H4). exists c'. split_and!; [|done|].
      * unfold turned in *. cbn [cos] in H2. by rewrite closed_file in H2.
      * intros Hr Hsil. apply H4; [done|]. intros Eb. by destruct (Hsil Eb).
Qed.

(** The turns on a connection up to its end. *)
Lemma client_turns fuel st p s s' c :
  client_shape fd after_turn st p s → calm_prog p → plain_socks (cos s) → socks (cos s) !! fd = Some c →
  st ≠ CClosed → turns fuel fd p s = Ret tt s' →
  ∃ c', closed (cos s') = closed (cos s) ++ [c'] ∧ grows c c' ∧ (rx c = [] → silent st p → tx c' = tx c ∧ rx c' = []).
Proof.
  revert st p s c. induction fuel as [|f IH]; intros st p s c Hsh Hcalm Hpl Hc Hst E; cbn [turns] in E;
    unfold bind in E; destruct (run p s) as [b s1| | |] eqn:Er; try done;
    destruct (client_run_turn _ _ _ _ _ _ Hsh Hcalm Hpl Hc Hst Er) as (c1 & H1 & H2 & H3);
    destruct b; try done; simpl in H1.
  - injection E as <-. by exists c1.
  - destruct H1 as (Hc1 & Ecl & Hcur & Hpl1).
    destruct (IH CStart (connection_prog fd) s1 c1) as (c2 & E2 & G2 & Q2); [|apply calm_connection|done..|].
    { apply shape_connection. by split. }
    exists c2. split_and!; [by rewrite E2, Ecl|by etrans|]. intros Hr Hsil.
    destruct (H3 Hr Hsil) as [<- Hr1]. by apply Q2.
  - injection E as <-. by exists c1.
Qed.
End client.
