(* ===== verification/NetFiles.v ===== *)
(** * What the connections carry

    Workers with jobs of any fate ([Fate.v]), and clients that are either
    sources or targets.  In every reachable state, what a source has answered
    is a beginning of the reply to its PULL command, and what a target has
    been sent is a beginning of the session that carries the same file.  The
    proofs let the conversation go on by itself: the invariant of
    [NetRuns.v] says what the functions of [Client.v] and [Transfer.v] do on
    the whole conversation, and [NetGrowth.v] that the present is a beginning
    of it. *)
From S2P Require Import Prelude.
From S2P Require Import CString.
From S2P Require Import Common.
From S2P Require Import OS.
From S2P Require Import Utils.
From S2P Require Import Client.
From S2P Require Import Transfer.
From S2P Require Import EndToEnd.
From S2P Require Import Directory.
From S2P Require Import Fate.
From S2P Require Import Programs.
From S2P Require Import Replay.
From S2P Require Import Protocol.
From S2P Require Import Network.
From S2P Require Import NetReplay.
From S2P Require Import NetInv.
From S2P Require Import NetNode.
From S2P Require Import NetRuns.
From S2P Require Import NetGrowth.
From stdpp Require Import gmap strings list.
From Stdlib Require Import Ascii ZArith Lia.

(** ** Lists *)

Lemma Forall2_choice {A B} (P : A → B → Prop) (l : list A) :
  (∀ x, x ∈ l → ∃ y, P x y) → ∃ k, Forall2 P l k.
Proof.
  induction l as [|x l IH]; intros H; [by exists []|].
  destruct (H x) as [y Hy]; [by left|]. destruct IH as [k Hk]; [intros; apply H; by right|].
  exists (y :: k). by constructor.
Qed.

Lemma NoDup_concat_inj {A B} (f : A → list B) (l : list A) x y z :
  NoDup (concat (f <$> l)) → x ∈ l → y ∈ l → z ∈ f x → z ∈ f y → x = y.
Proof.
  assert (∀ l x, x ∈ l → z ∈ f x → z ∈ concat (f <$> l)) as Hin.
  { clear. intros l x Hx Hz. apply list_elem_of_In, in_concat. exists (f x).
    split; apply list_elem_of_In; [by apply list_elem_of_fmap_2|done]. }
  induction l as [|w l IH]; [by intros _ ?%elem_of_nil|]. rewrite fmap_cons. cbn [concat].
  intros (H1 & H2 & H3)%NoDup_app [->|Hx]%elem_of_cons [->|Hy]%elem_of_cons Hzx Hzy; [done|..|by apply IH].
  - exfalso. apply (H2 z); [done|]. by apply (Hin l y).
  - exfalso. apply (H2 z); [done|]. by apply (Hin l x).
Qed.

(** ** Transfers *)

(** The jobs taken so far, with the connections tried for them. *)
Definition at_work (w : wthread) : list (sync_job * list (option nat)) :=
  match w_run w with Some r => [(r_job r, r_dials r)] | None => [] end.

Definition transfers (n : net) : list (sync_job * list (option nat)) :=
  ((λ x, (x_job x, x_dials x)) <$> xfers n) ++ concat (at_work <$> wks n).

(** The connections made. *)
Definition dialled (t : sync_job * list (option nat)) : list nat := omap id t.2.

Lemma elem_of_dialled l job ds : l ∈ dialled (job, ds) ↔ Some l ∈ ds.
Proof. unfold dialled. rewrite list_elem_of_omap. split; [by intros (x & Hx & [= ->])|by exists (Some l)]. Qed.

Lemma transfers_dials n : concat (dialled <$> transfers n) = all_dials n.
Proof.
  unfold transfers, all_dials. rewrite fmap_app, concat_app, <-list_fmap_compose. f_equal.
  induction (wks n) as [|w l IH]; [done|]. rewrite !fmap_cons. cbn [concat]. rewrite fmap_app, concat_app, IH. f_equal.
  unfold at_work, running. destruct (w_run w); simpl; [by rewrite app_nil_r|done].
Qed.

Lemma in_work (ws : list wthread) t : t ∈ concat (at_work <$> ws) → ∃ i o r, ws !! i = Some (Wk o (Some r)) ∧ t = (r_job r, r_dials r).
Proof.
  intros Ht%list_elem_of_In%in_concat. destruct Ht as (x & Hx%list_elem_of_In & Ht%list_elem_of_In).
  apply list_elem_of_fmap in Hx as ([o [r|]] & -> & (i & Hi)%list_elem_of_lookup_1); [|by apply elem_of_nil in Ht].
  apply list_elem_of_singleton in Ht as ->. by exists i, o, r.
Qed.

Section files.
Variable logfile : ptr Z.
Variable self : nat → Z.
Variable cap : option nat.
Variable route : bytes → Z → option nat.
Variable clients : nat.

Abbreviation net_inv := (net_inv logfile self route clients).
Abbreviation links_ok := (links_ok route).

Lemma work_transfer n i o r : wks n !! i = Some (Wk o (Some r)) → (r_job r, r_dials r) ∈ transfers n.
Proof.
  intros Hi. apply elem_of_app. right. apply list_elem_of_In, in_concat. exists [(r_job r, r_dials r)].
  split; [|by left]. apply list_elem_of_In, list_elem_of_fmap. eexists. split; [|by eapply list_elem_of_lookup_2]. done.
Qed.

Lemma transfer_links n job ds :
  net_inv n → (job, ds) ∈ transfers n → ∃ i cl fs st, links_ok (links n) i job ds cl fs st.
Proof.
  intros Hn [(x & [= -> ->] & Hx)%list_elem_of_fmap|(i & o & r & Hi & [= -> ->])%in_work]%elem_of_app.
  - destruct (nt_xfers _ _ _ _ _ Hn x Hx) as (_ & _ & H). eexists _, _, _, _. exact H.
  - destruct (wv_links _ _ _ _ _ _ _ (nt_busy _ _ _ _ _ Hn _ _ _ Hi)) as (st & _ & H). eexists _, _, _, _. exact H.
Qed.

Lemma transfer_of n l : net_inv n → l < length (links n) → ∃ job ds, (job, ds) ∈ transfers n ∧ Some l ∈ ds.
Proof.
  intros Hn Hl. assert (l ∈ concat (dialled <$> transfers n)) as Hin.
  { rewrite transfers_dials, (nt_all _ _ _ _ _ Hn). apply elem_of_seq. lia. }
  apply list_elem_of_In, in_concat in Hin as (ds & Hds%list_elem_of_In & Hin%list_elem_of_In).
  apply list_elem_of_fmap in Hds as ([job ds'] & -> & Ht). exists job, ds'. by rewrite <-elem_of_dialled.
Qed.

Lemma transfer_unique n l job ds job' ds' :
  net_inv n → (job, ds) ∈ transfers n → (job', ds') ∈ transfers n → Some l ∈ ds → Some l ∈ ds' → (job, ds) = (job', ds').
Proof.
  intros Hn H H' Hl Hl'. eapply (NoDup_concat_inj dialled (transfers n)); [|done|done|by apply elem_of_dialled..].
  rewrite transfers_dials, (nt_all _ _ _ _ _ Hn). apply NoDup_seq.
Qed.

(** ** A session, let go on by itself *)

Lemma plain_setup G D K o : (∀ fd, plain (G fd)) → plain_socks (setup_os G D K o).
Proof.
  intros HG fd c. rewrite socks_setup. destruct (socks o !! fd); [|done]. by intros [= <-].
Qed.

Lemma at_fd_plain fd c : plain c → ∀ z, plain (at_fd fd c z).
Proof. intros Hc z. unfold at_fd. by case_decide. Qed.

Lemma session_script k fd D K base p st F s' :
  session_inv k fd D K base p st →
  handle_client_connection fd (setup (at_fd fd (up_script F k)) D K (accepted_at fd base)) = Ret tt s' →
  ∃ c', closed (cos s') = K ++ [c'] ∧ l_hdown k `prefix_of` tx c' ∧
    (l_copen k = false → l_hdown k = tx c') ∧
    (l_up k ++ up_future F k = [] → at_recv p → l_hdown k = tx c') ∧
    (∀ c, p = Local c → ∃ p' s1, c st = Ret p' s1).
Proof.
  intros [(n & S1) S2 S3 S4 (stg & S5 & S6) S7] E.
  set (s0 := setup (at_fd fd (up_script F k)) D K (accepted_at fd base)) in *.
  specialize (S1 F (rx_left fd (cos s0))). fold s0 in S1.
  rewrite <-(turns_serve (n + rx_left fd (cos s0))), S1 in E by lia.
  set (f := rx_left fd (cos s0)) in *. clear S1.
  set (K' := K ++ _) in E. set (s1 := setup (at_fd fd (up_sock F k)) D K' st) in *.
  assert (plain_socks (cos s1)) as Hpl by by apply plain_setup, at_fd_plain.
  assert (smooths (at_fd fd (up_sock F k))) as Hsm by (intros z; by apply at_fd_plain).
  assert (client_shape fd after_turn stg p s1) as Hsh.
  { apply client_shape_setup; [intros; by apply after_turn_setup|done..]. }
  assert (∀ c, p = Local c → ∃ p' s1, c st = Ret p' s1) as Hlocal.
  { intros c ->. destruct S2 as [Hc _]. assert (∃ b s2, run (Local c) s1 = Ret b s2) as (b & s2 & Er).
    { destruct f; cbn [turns] in E; unfold bind in E; destruct (run (Local c) s1); try done; eauto. }
    cbn [run] in Er. unfold s1 in Er. rewrite (calm_setup c Hc) in Er by done.
    destruct (c st) as [p' s3| | |]; try done. eauto. }
  destruct (l_copen k) eqn:Hco.
  - assert (socks (cos s1) !! fd = Some (up_sock F k)) as Hfd.
    { destruct (proj2 (S4 fd)) as [x Hx]; [done|]. unfold s1. change (cos (setup _ _ _ st)) with (setup_os (at_fd fd (up_sock F k)) D K' (cos st)).
      rewrite socks_setup, Hx. simpl. unfold at_fd. by rewrite decide_True. }
    assert (stg ≠ CClosed) as Hst by (intros ->; simpl in S6; congruence).
    destruct (client_turns fd f stg p s1 s' (up_sock F k)) as (c' & Ec & [G1 G2] & Q); [done..|].
    exists c'. rewrite Ec. unfold s1, K'. simpl. rewrite app_nil_r. split_and!; try done.
    intros Hr Hp. by destruct (Q Hr (λ _, Hp)) as [-> _].
  - assert (stg = CClosed) as ->.
    { clear -S6 Hco. destruct stg; simpl in S6; try done; rewrite Hco in S6; [done..| |]; by destruct S6. }
    exists (up_sock F k). assert (closed (cos s') = K') as ->.
    { destruct f; cbn [turns] in E; unfold bind in E; destruct (run p s1) as [b s2| | |] eqn:Er; try done;
        destruct (client_run_closed fd p s1 b s2) as [-> Ec]; try done; by injection E as <-. }
    by split_and!.
Qed.

(** ** Sources and targets *)

Variable is_source : nat → bool.
Variable fate_of : sync_job → fate.
Variable cs : list cst.                        (* the clients when they start *)

(** A client listens at the address; or none does. *)
Definition at_host (known : bool) (host : bytes) (port : Z) (P : nat → cst → Prop) : Prop :=
  if known then inet_pton host = 1%Z ∧ ∃ j s, route host port = Some j ∧ cs !! j = Some s ∧ P j s
  else route host port = None.

(** The clients are such that the job has its fate. *)
Record job_ok (job : sync_job) : Prop := {
  jk_source : at_host (has_source (fate_of job)) (job_source_host job) (job_source_port job)
    (λ j s, is_source j = true ∧ holds (cos s) job (fate_of job));
  jk_target : has_source (fate_of job) = true →
    at_host (has_target (fate_of job)) (job_target_host job) (job_target_port job)
      (λ j s, is_source j = false ∧ takes (cos s) job (fate_of job))
}.

Lemma job_to_source job j :
  job_ok job → route (job_source_host job) (job_source_port job) = Some j →
  has_source (fate_of job) = true ∧ inet_pton (job_source_host job) = 1%Z ∧ is_source j = true ∧
  ∃ s, cs !! j = Some s ∧ holds (cos s) job (fate_of job).
Proof.
  intros [H _] Hr. unfold at_host in H. destruct (has_source (fate_of job)); [|congruence].
  destruct H as (Hh & j' & s & Hr' & Hs & H1 & H2). assert (j' = j) as -> by congruence. eauto 6.
Qed.

Lemma job_to_target job j :
  job_ok job → has_source (fate_of job) = true → route (job_target_host job) (job_target_port job) = Some j →
  has_target (fate_of job) = true ∧ inet_pton (job_target_host job) = 1%Z ∧ is_source j = false ∧
  ∃ s, cs !! j = Some s ∧ takes (cos s) job (fate_of job).
Proof.
  intros [_ H] Hf Hr. specialize (H Hf). unfold at_host in H.
  destruct (has_target (fate_of job)); [|congruence].
  destruct H as (Hh & j' & s & Hr' & Hs & H1 & H2). assert (j' = j) as -> by congruence. eauto 6.
Qed.

Lemma at_no_host known host port P ds : at_host known host port P → no_way route host port ds → known = false.
Proof.
  unfold at_host. destruct known; [|done]. intros (Hh & j & s & Hr & _) [[H _]|[H _]]; [lia|congruence].
Qed.

Lemma job_no_target job ds :
  job_ok job → has_source (fate_of job) = true → no_target route job ds → has_target (fate_of job) = false.
Proof. intros [_ H] Hf. apply at_no_host with (1 := H Hf). Qed.

Lemma job_no_source job ds : job_ok job → no_source route job ds → fate_of job = NoSource.
Proof. intros [H _] Hh. pose proof (at_no_host _ _ _ _ _ H Hh). by destruct (fate_of job). Qed.

(** The connections of a job that have been made. *)
Lemma source_made ls i job a ds cl fs st :
  links_ok ls i job (Some a :: ds) cl fs st → to_source route ls job a ∧
  match ds with Some b :: _ => to_target route ls job b | _ => True end.
Proof. intros [_ [_ A2] _ _ _]. destruct ds as [|[b|] [|? ?]]; try done. by destruct A2 as (_ & ? & ?). Qed.

(** What was sent to the source. *)
Lemma source_asked ls i job a ds cl fs st :
  links_ok ls i job (Some a :: ds) cl fs st → job_ok job →
  ∃ k, ls !! a = Some k ∧ route (job_source_host job) (job_source_port job) = Some (l_node k) ∧
    (l_hup k = [] ∧ l_wopen k = true ∨ l_hup k = asks job (fate_of job)).
Proof.
  intros Hl Hok. destruct (source_made _ _ _ _ _ _ _ _ Hl) as [(k & Hk & Hr) Htgt]. pose proof Hl as [A1 A2 A3 A4 A5].
  exists k. split; [done|]. split; [done|]. destruct (job_to_source _ _ Hok Hr) as (Hf & _).
  assert (∀ m, was_sent ls a m → l_hup k = m) as Hm by (intros m (k' & Hk' & E); congruence).
  assert (∀ fd, fs !! fd = Some a → l_wopen k = true) as Ho.
  { intros fd (k' & Hk' & E)%A3. congruence. }
  assert (∀ ds, no_target route job ds → was_sent ls a [] → l_hup k = asks job (fate_of job)) as Hfail.
  { intros x Hx ->%Hm. unfold asks. by rewrite (job_no_target _ x). }
  assert (∀ b ds', ds = Some b :: ds' → was_sent ls a [pull_message job] → l_hup k = asks job (fate_of job)) as Hpull.
  { intros b ds' -> ->%Hm. destruct Htgt as (kb & _ & Hrb). unfold asks.
    by destruct (job_to_target _ _ Hok Hf Hrb) as [-> _]. }
  destruct st; simpl in A5.
  - by destruct A5 as (_ & ? & _).
  - destruct A5 as (a' & -> & [= <- ->] & _ & H). left. split; [by apply Hm|]. eapply Ho, lookup_singleton_eq.
  - destruct A5 as (a' & x & _ & [= <- ->] & _ & H & Hx). right. by apply (Hfail x).
  - destruct A5 as (a' & b & _ & -> & [= <- ->] & _ & H). left. split; [by apply Hm|]. eapply Ho, lookup_insert_eq.
  - destruct A5 as (a' & b & _ & _ & [= <- ->] & _ & H). right. by eapply Hpull.
  - destruct A5 as (a' & b & _ & [= <- ->] & _ & H). right. by eapply Hpull.
  - destruct A5 as (_ & _ & H). right. destruct ds as [|[b|] [|? ?]]; try (by eapply Hfail; apply H). by eapply Hpull.
Qed.

(** Nothing goes wrong on a client's side. *)
Record client_ok (j : nat) (s : cst) : Prop := {
  ck_ready : ready_client s;
  ck_sys : sys (cos s) = [];
  ck_role : if is_source j then Forall progress (io (cos s)) else current_fd s = (-1)%Z ∧ io (cos s) = []
}.

Hypothesis cs_ok : ∀ j s, cs !! j = Some s → client_ok j s.

Record good (n : net) : Prop := {
  gd_inv : net_inv n;
  gd_start j nd : nds n !! j = Some nd → cs !! j = Some (n_start nd);
  gd_jobs job ds : (job, ds) ∈ transfers n → job_ok job
}.

(** The first connection of a transfer is to the source, the second to the target. *)
Lemma link_role n l k :
  good n → links n !! l = Some k →
  (is_source (l_node k) = true ∧ ∃ job ds, (job, Some l :: ds) ∈ transfers n) ∨
  (is_source (l_node k) = false ∧ ∃ job a, (job, [Some a; Some l]) ∈ transfers n).
Proof.
  intros [Hn Hst Hjobs] Hk. destruct (transfer_of n l Hn) as (job & ds & Ht & Hl); [by eapply lookup_lt_Some|].
  destruct (transfer_links n job ds Hn Ht) as (i & cl & fs & st & Hlo). pose proof (Hjobs _ _ Ht) as Hok.
  destruct ds as [|[a|] ds]; [by apply elem_of_nil in Hl| |].
  2: { destruct (lo_made _ _ _ _ _ _ _ _ Hlo) as [_ Hm]. destruct ds; [|done]. by apply list_elem_of_singleton in Hl. }
  destruct (source_made _ _ _ _ _ _ _ _ Hlo) as [(ka & Hka & Ra) Hb]. destruct (job_to_source _ _ Hok Ra) as (Hf & _ & Sa & _).
  apply elem_of_cons in Hl as [[= ->]|Hl]; [left; assert (k = ka) as -> by congruence; by eauto|].
  destruct ds as [|[b|] [|? ?]]; try (by destruct (lo_made _ _ _ _ _ _ _ _ Hlo));
    [by apply elem_of_nil in Hl| |by apply list_elem_of_singleton in Hl].
  destruct Hb as (kb & Hkb & Rb). destruct (job_to_target _ _ Hok Hf Rb) as (_ & _ & Sb & _).
  apply list_elem_of_singleton in Hl as [= ->]. right. assert (k = kb) as -> by congruence. eauto.
Qed.

Lemma source_first n l k : good n → links n !! l = Some k → is_source (l_node k) = true → ∃ job ds, (job, Some l :: ds) ∈ transfers n.
Proof. intros Hg Hk Hs. destruct (link_role n l k Hg Hk) as [[_ ?]|[E _]]; [done|congruence]. Qed.

Lemma target_second n l k : good n → links n !! l = Some k → is_source (l_node k) = false → ∃ job a, (job, [Some a; Some l]) ∈ transfers n.
Proof. intros Hg Hk Hs. destruct (link_role n l k Hg Hk) as [[E _]|[_ ?]]; [congruence|done]. Qed.

(** *** What sources have answered *)

Lemma source_said n job a ds k :
  good n → (job, Some a :: ds) ∈ transfers n → links n !! a = Some k →
  (l_hup k = [] ∧ l_wopen k = true ∨ l_hup k = asks job (fate_of job)) ∧
  is_source (l_node k) = true ∧ ∃ s, cs !! l_node k = Some s ∧ holds (cos s) job (fate_of job).
Proof.
  intros [Hn Hst Hjobs] Ht Hk. destruct (transfer_links _ _ _ Hn Ht) as (i & cl & fs & st & Hl).
  pose proof (Hjobs _ _ Ht) as Hok.
  destruct (source_asked _ _ _ _ _ _ _ _ Hl Hok) as (k' & Hk' & R & H). rewrite Hk in Hk'. injection Hk' as <-.
  split; [done|]. by destruct (job_to_source _ _ Hok R) as (_ & _ & ? & ?).
Qed.

(** The client [j] before the connection it serves now. *)
Lemma source_base n j nd base :
  good n → nds n !! j = Some nd → is_source j = true → served_as (links n) (n_start nd) (n_served nd) base →
  unchanged (cos (n_start nd)) (cos base) ∧
  ∀ l, l ∈ n_served nd → ∃ job ds pieces, (job, Some l :: ds) ∈ transfers n ∧ cut_up (fate_of job) pieces ∧
    replied (links n) l = reply (fate_of job) pieces.
Proof.
  intros Hg Hj Hs Hserved. pose proof Hg as [Hn Hst Hjobs]. pose proof (cs_ok _ _ (Hst _ _ Hj)) as [_ Hsys Hio].
  rewrite Hs in Hio.
  destruct (Forall2_choice (λ l jf, jf.2 = fate_of jf.1 ∧ (∃ ds, (jf.1, Some l :: ds) ∈ transfers n) ∧
    up_conn (links n) l = Some (arriving (asks jf.1 jf.2)) ∧ holds (cos (n_start nd)) jf.1 jf.2) (n_served nd)) as (js & Hjs).
  { intros l (k & Hk & E & _ & Hc)%(nv_served _ _ _ (nt_nodes _ _ _ _ _ Hn _ _ Hj)). subst j.
    destruct (source_first n l k Hg Hk Hs) as (job & ds & Ht). exists (job, fate_of job). split; [done|]. split; [by exists ds|].
    destruct (source_said n job l ds k Hg Ht Hk) as (Hup & _ & s & C1 & Av).
    rewrite (Hst _ _ Hj) in C1. injection C1 as <-. split; [|done]. unfold up_conn. rewrite Hk.
    destruct Hup as [[_ Hw]| ->]; [|done].
    destruct (li_gone _ (proj1 (nt_links _ _ _ _ _ Hn _ _ Hk)) Hc) as [? _]. congruence. }
  assert (up_conn (links n) <$> n_served nd = asking js) as Epulls.
  { clear -Hjs. induction Hjs as [|l job sv js (_ & _ & E & _) _ IH]; [done|]. rewrite fmap_cons, E, IH. done. }
  destruct (serve_asking js (n_start nd)) as (s' & parts & E & Hparts & Htx & Hun); [|done|done|].
  { clear -Hjs. induction Hjs as [|l job sv js (_ & _ & _ & E) _ IH]; by constructor. }
  unfold served_as in Hserved. rewrite Epulls, E in Hserved. injection Hserved as Hserved. rewrite Hserved in Htx, Hun.
  split; [by destruct Hun|]. simpl in Htx. rewrite fmap_app in Htx. apply app_inv_head in Htx.
  clear -Hjs Hparts Htx. revert parts Hparts Htx.
  induction Hjs as [|l [job f] sv js (Ef & (ds & Ht) & _) _ IH]; intros parts Hparts Htx l' Hl'; [by apply elem_of_nil in Hl'|].
  apply Forall2_cons_inv_l in Hparts as (pieces & parts' & Hp & Hparts & ->). simpl in Ef, Ht, Hp. subst f.
  rewrite !fmap_cons in Htx. simpl in Htx. injection Htx as Hd Htx. rewrite down_hist_replied in Hd.
  apply elem_of_cons in Hl' as [->|Hl']; [by exists job, ds, pieces|]. by apply (IH parts').
Qed.

Lemma session_conn fd c D K base :
  fds (cos (setup (at_fd fd c) D K (accepted_at fd base))) !! fd = Some (FSock c).
Proof.
  change (fds (setup_os (at_fd fd c) D K (set_fds <[fd := FSock no_data]> (cos base))) !! fd = Some (FSock c)).
  rewrite setup_insert. unfold set_fds. cbn [fds]. rewrite lookup_insert_eq. unfold at_fd. by rewrite decide_True.
Qed.

(** The connection a source is serving. *)
Lemma source_session n j st l fd p sv st0 :
  good n → nds n !! j = Some (Nd st (Some (Sess l fd p)) sv st0) → is_source j = true →
  ∃ k job ds pieces, links n !! l = Some k ∧ (job, Some l :: ds) ∈ transfers n ∧ cut_up (fate_of job) pieces ∧
    l_hdown k `prefix_of` reply (fate_of job) pieces ∧
    (l_copen k = false → l_hdown k = reply (fate_of job) pieces) ∧
    (l_hup k = asks job (fate_of job) → l_up k = [] → at_recv p → l_hdown k = reply (fate_of job) pieces) ∧
    (∀ c, p = Local c → ∃ p' s1, c st = Ret p' s1).
Proof.
  intros Hg Hj Hs. pose proof Hg as [Hn Hst Hjobs]. pose proof (nt_nodes _ _ _ _ _ Hn _ _ Hj) as [_ _ Hsess].
  destruct Hsess as (base & k & Hserved & Hk & Hnode & Htk & Hse).
  assert (is_source (l_node k) = true) as Hs' by (by rewrite Hnode).
  destruct (source_first n l k Hg Hk Hs') as (job & ds & Ht).
  destruct (source_said n job l ds k Hg Ht Hk) as (Hup & _ & s & C1 & Hh).
  rewrite Hnode, (Hst _ _ Hj) in C1. injection C1 as <-.
  destruct (source_base n j _ base Hg Hj Hs Hserved) as [Hun _]. pose proof Hun as [U1 U2 U3 U4]. simpl in U1, U2, U3.
  pose proof (cs_ok _ _ (Hst _ _ Hj)) as [_ Hsys _]. simpl in Hsys.
  set (F := if decide (l_hup k = []) then asks job (fate_of job) else []).
  assert (up_script F k = arriving (asks job (fate_of job))) as Eup.
  { unfold up_script, up_future, F. destruct Hup as [[-> ->]|Hup]; [done|].
    case_decide as Hd; [|by rewrite Hup; destruct (l_wopen k); rewrite ?app_nil_r].
    rewrite <-Hup, Hd. by destruct (l_wopen k). }
  destruct (source_answers fd job (fate_of job)
    (setup (at_fd fd (up_script F k)) (dials (cos st0)) (closed (cos st0) ++ (down_hist (links n) <$> sv)) (accepted_at fd base)))
    as (s' & c' & pieces & E & Hcl & Htx & Hp & _).
  { rewrite Eup. apply session_conn. }
  { apply (holds_unchanged _ (cos base)) in Hh; [|done]. by destruct (fate_of job). }
  { simpl. by rewrite U3. } { done. }
  destruct (session_script _ _ _ _ _ _ _ F _ Hse E) as (c2 & Hcl2 & G1 & G2 & G3 & G4).
  assert (c2 = c') as ->.
  { rewrite Hcl in Hcl2. simpl in Hcl2. apply app_inj_2 in Hcl2 as [_ [= <-]]; done. }
  rewrite Htx in *. exists k, job, ds, pieces. split_and!; try done.
  intros Ehup Eu Hr. apply G3; [|done]. rewrite Eu. unfold up_future, F. rewrite Ehup.
  case_decide as Hd; [rewrite Hd|]; by destruct (l_wopen k).
Qed.

(** Every answer can be cut into pieces. *)
Lemma pieces_exist f : ∃ pieces, cut_up f pieces.
Proof.
  destruct f as [data| | |]; [|by eexists _, []|by eexists..].
  exists ((λ c, [c]) <$> data). split.
  - apply Forall_fmap, Forall_true. intros c. split; [done|]. vm_compute. lia.
  - induction data as [|c data IH]; [done|]. rewrite fmap_cons. simpl. by rewrite IH.
Qed.

(** What the source has sent for a transfer, and what it has still to send. *)
Definition answered_with (n : net) (job : sync_job) (a : nat) (pieces rest : list bytes) : Prop :=
  cut_up (fate_of job) pieces ∧ link_is (links n) a (λ k,
    l_hdown k ++ rest = reply (fate_of job) pieces ∧ (l_copen k = false → rest = [])).

Lemma reply_so_far n job a ds :
  good n → (job, Some a :: ds) ∈ transfers n → ∃ pieces rest, answered_with n job a pieces rest.
Proof.
  intros Hg Ht. pose proof Hg as [Hn Hst Hjobs]. destruct (transfer_links _ _ _ Hn Ht) as (i & cl & fs & st & Hl).
  destruct (proj1 (lo_made _ _ _ _ _ _ _ _ Hl) a) as (k & Hk & _); [by left|].
  destruct (nt_links _ _ _ _ _ Hn _ _ Hk) as [Hlink _]. destruct (source_said n job a ds k Hg Ht Hk) as (_ & Hs & _).
  assert (∀ job' ds', (job', Some a :: ds') ∈ transfers n → job' = job) as Huniq.
  { intros job' ds' Ht'. assert ((job', Some a :: ds') = (job, Some a :: ds)) by (eapply (transfer_unique n a); [done..|by left|by left]). congruence. }
  destruct (l_taken k) eqn:Htk.
  2: { destruct (pieces_exist (fate_of job)) as (pieces & Hp). destruct (li_new _ Hlink Htk) as (Hco & Hd & _).
       exists pieces, (reply (fate_of job) pieces). split; [done|]. exists k. rewrite Hd. split; [done|].
       split; [done|congruence]. }
  destruct (nt_taken _ _ _ _ _ Hn _ _ Hk Htk) as (nd & Hnd & Hin). pose proof (nt_nodes _ _ _ _ _ Hn _ _ Hnd) as [_ Hserved Hsess].
  destruct nd as [nst se sv st0]. simpl in *. apply elem_of_app in Hin as [Hin|Hin].
  - assert (∃ base, served_as (links n) st0 sv base) as [base Hb].
    { destruct se as [[l fd p]|]; [destruct Hsess as (base & _ & H & _); by exists base|]. destruct Hsess as [H _]. by exists nst. }
    destruct (source_base n _ _ base Hg Hnd Hs Hb) as [_ H]. destruct (H a Hin) as (job' & ds' & pieces & Ht' & Hp & Hr).
    apply Huniq in Ht' as ->. exists pieces, []. split; [done|]. exists k. split; [done|]. split; [|done].
    unfold replied in Hr. rewrite Hk in Hr. by rewrite Hr, app_nil_r.
  - destruct se as [[l fd p]|]; [|by apply elem_of_nil in Hin]. simpl in Hin. apply list_elem_of_singleton in Hin as ->.
    destruct (source_session n _ _ _ _ _ _ _ Hg Hnd Hs) as (k' & job' & ds' & pieces & Hk' & Ht' & Hp & [rest Hpre] & Hco & _).
    simpl in Hk', Ht'. apply Huniq in Ht' as ->. rewrite Hk in Hk'. injection Hk' as <-.
    exists pieces, rest. split; [done|]. exists k. split; [done|]. split; [done|]. intros E.
    rewrite (Hco E) in Hpre. apply (app_inv_head (reply (fate_of job) pieces)). by rewrite app_nil_r.
Qed.

(** *** What targets have been sent *)

(** The second connection is to a client that takes what it is sent. *)
Lemma target_takes n job a b k :
  good n → (job, [Some a; Some b]) ∈ transfers n → links n !! b = Some k →
  has_target (fate_of job) = true ∧ ∃ s, cs !! l_node k = Some s ∧ takes (cos s) job (fate_of job).
Proof.
  intros [Hn Hst Hjobs] Ht Hk. destruct (transfer_links _ _ _ Hn Ht) as (i & cl & fs & st & Hl). pose proof (Hjobs _ _ Ht) as Hok.
  destruct (source_made _ _ _ _ _ _ _ _ Hl) as [(ka & _ & Ra) (kb & Hkb & Rb)]. assert (kb = k) as -> by congruence.
  destruct (job_to_source _ _ Hok Ra) as (Hf & _). by destruct (job_to_target _ _ Hok Hf Rb) as (? & _ & _ & ?).
Qed.

(** A worker in a transfer, or after it. *)
Record view (n : net) (job : sync_job) (ds : list (option nat)) (i : nat) (o0 : os) (cl : list nat) (fs : gmap Z nat)
    (p : prog os Z) (o : os) (st : wstage) : Prop := {
  vw_start : worker_idle o0;
  vw_replays : replays logfile self (links n) i job o0 ds cl fs p o;
  vw_calm : calm_prog p;
  vw_shape : worker_shape job (λ _ st, st = WEnd) st p;
  vw_links : links_ok (links n) i job ds cl fs st;
  vw_socks fd : is_Some (fs !! fd) → is_Some (socks o !! fd)
}.

Lemma worker_view n i o r :
  net_inv n → wks n !! i = Some (Wk o (Some r)) →
  ∃ st, view n (r_job r) (r_dials r) i (r_start r) (r_closed r) (r_fds r) (r_prog r) o st.
Proof.
  intros Hn Hi. destruct (nt_busy _ _ _ _ _ Hn _ _ _ Hi) as [W1 W2 W3 W4 W5 (st & W6 & W7)].
  exists st. split; try done; [by split; apply W4|]. intros fd. by rewrite W5.
Qed.

Lemma transfer_view n job ds :
  net_inv n → (job, ds) ∈ transfers n → ∃ i o0 cl fs p o st, view n job ds i o0 cl fs p o st.
Proof.
  intros Hn [(x & [= -> ->] & Hx)%list_elem_of_fmap|(i & o & r & Hi & [= -> ->])%in_work]%elem_of_app.
  - destruct (nt_xfers _ _ _ _ _ Hn x Hx) as (H1 & (o & H2) & H3).
    eexists _, _, _, _, _, _, WEnd. split; [done|exact H2|done|done|done|]. intros fd. by rewrite lookup_empty; intros [? ?].
  - destruct (worker_view n i o r Hn Hi) as [st H]. by eexists _, _, _, _, _, _, _.
Qed.

(** What the worker does when the source sends the rest of its answer, and
    [extra] after it. *)
Lemma view_ends n job a b i o0 cl fs p o st pieces rest extra :
  view n job [Some a; Some b] i o0 cl fs p o st → job_ok job → answered_with n job a pieces rest →
  link_is (links n) a (λ k, l_copen k = false → extra = []) →
  ∃ F o' more, run p (setup (down_conn F (links n) fs) [] (closed o0 ++ (down_sock F (links n) <$> cl)) o) =
      Ret (result (fate_of job)) o' ∧
    closed o' = closed o0 ++ [Sock extra false [pull_message job] []; Sock more false (pushes job (fate_of job) pieces) []] ∧
    F a = rest ++ extra.
Proof.
  intros [[V1 V1'] V2 V3 V4 V5 V6] Hok [Hp (k & Hk & Hd & Hr)] (k' & Hk' & He).
  rewrite Hk in Hk'. injection Hk' as <-.
  destruct (source_made _ _ _ _ _ _ _ _ V5) as [(k' & Hk' & Ra) (kb & Hkb & Rb)]. rewrite Hk in Hk'. injection Hk' as <-.
  destruct (job_to_source _ _ Hok Ra) as (Hf & Hsrc & _ & s1 & _ & Hh).
  destruct (job_to_target _ _ Hok Hf Rb) as (Hft & Htgt & _).
  pose proof (lo_made _ _ _ _ _ _ _ _ V5) as [_ (Hne & _ & _)].
  set (F := λ l : nat, if decide (l = a) then rest ++ extra else []). exists F.
  specialize (V2 F []). rewrite run_sync, setup_dials in V2 by done.
  destruct (worker_answered logfile (self i) job (fate_of job) pieces extra (l_hdown kb)
    (set_dial (λ _, (try_script F (links n) <$> [Some a; Some b]) ++ []) id o0) []) as (o' & E & Hc); try done.
  - intros data Ed. rewrite Ed in Hh. by destruct Hh.
  - simpl. unfold try_script, down_script. rewrite Hk, Hkb. unfold down_future, F.
    rewrite decide_True, decide_False by done.
    assert (l_hdown k ++ (if l_copen k then rest ++ extra else []) = reply (fate_of job) pieces ++ extra) as ->.
    { rewrite <-Hd, <-app_assoc. destruct (l_copen k); [done|]. by rewrite Hr, He. }
    destruct (l_copen kb); by rewrite app_nil_r.
  - exists o', (l_hdown kb). rewrite <-V2, E. split_and!; [done|done|]. unfold F. by rewrite decide_True.
Qed.

Lemma down_conn_plain F ls fs fd : plain (down_conn F ls fs fd).
Proof. unfold down_conn, down_sock. destruct (fs !! fd) as [l|]; [|done]. by destruct (ls !! l). Qed.

Lemma setup_conn G D K (o : os) fd : is_Some (socks o !! fd) → socks (setup G D K o) !! fd = Some (G fd).
Proof. intros [c Hc]. change (setup G D K o) with (setup_os G D K o). by rewrite socks_setup, Hc. Qed.

Lemma app_inj_pair {A} (l1 l2 : list A) x1 y1 x2 y2 : l1 ++ [x1; y1] = l2 ++ [x2; y2] → l1 = l2 ∧ x1 = x2 ∧ y1 = y2.
Proof. intros H. apply app_inj_2 in H as [-> [= -> ->]]; done. Qed.

(** What becomes of the two connections of a transfer: a closed one is as it was. *)
Lemma view_closes n job a b i o0 cl fs p o st F z o' x y :
  view n job [Some a; Some b] i o0 cl fs p o st →
  run p (setup (down_conn F (links n) fs) [] (closed o0 ++ (down_sock F (links n) <$> cl)) o) = Ret z o' →
  closed o' = closed o0 ++ [x; y] →
  tx (down_sock F (links n) b) `prefix_of` tx y ∧
  ((∀ fd, fs !! fd ≠ Some a) → x = down_sock F (links n) a) ∧ ((∀ fd, fs !! fd ≠ Some b) → y = down_sock F (links n) b).
Proof.
  intros [V1 V2 V3 V4 V5 V6] E Hc. set (s1 := setup _ _ _ o) in E.
  assert (plain_socks s1) as Hpl by (apply plain_setup, down_conn_plain).
  assert (∀ fd l, fs !! fd = Some l → socks s1 !! fd = Some (down_sock F (links n) l)) as Hs1.
  { intros fd l Hl. replace (down_sock F (links n) l) with (down_conn F (links n) fs fd) by (unfold down_conn; by rewrite Hl).
    apply setup_conn, V6. by rewrite Hl. }
  assert (∀ fd l, fs !! fd = Some l → is_Some (socks s1 !! fd)) as Hop by (intros fd l Hl; rewrite (Hs1 _ _ Hl); eauto).
  pose proof (worker_run_ends job st p s1 z o' V4 V3 Hpl) as He.
  assert (∀ s t, s ≠ t → fs = <[s := a]> {[t := b]} → fs !! s = Some a ∧ fs !! t = Some b) as Htwo.
  { intros s t Hne ->. by rewrite lookup_insert_eq, lookup_insert_ne, lookup_singleton_eq. }
  assert (∀ s t, s ≠ t → fs = <[s := a]> {[t := b]} → cl = [] → ends_as (WMove s t) s1 o' →
    tx (down_sock F (links n) b) `prefix_of` tx y ∧
    ((∀ fd, fs !! fd ≠ Some a) → x = down_sock F (links n) a) ∧ ((∀ fd, fs !! fd ≠ Some b) → y = down_sock F (links n) b)) as Hmove.
  { intros s t Hne Hfs -> Hend. destruct (Htwo s t Hne Hfs) as [Fs Ft].
    destruct (Hend _ _ Hne (Hs1 _ _ Fs) (Hs1 _ _ Ft)) as (cs' & ct' & Ec & _ & [G _]).
    rewrite Hc in Ec. unfold s1 in Ec. simpl in Ec. rewrite app_nil_r in Ec. apply app_inj_pair in Ec as (_ & _ & <-).
    split; [done|]. split; intros H; by exfalso; eapply H. }
  pose proof (lo_stage _ _ _ _ _ _ _ _ V5) as Hstage. destruct st; simpl in Hstage.
  - by destruct Hstage as (_ & ? & _).
  - by destruct Hstage as (? & _ & ? & _).
  - by destruct Hstage as (? & w & _ & [= _ <-] & _ & _ & [[_ [=]]|[_ [=]]]).
  - destruct Hstage as (a' & b' & Hne & Hfs & [= <- <-] & Hcl & _). destruct (Htwo s t Hne Hfs) as [Fs Ft].
    apply (Hmove s t); [done..|]. apply He; [|done]. split; [done|]. eauto.
  - destruct Hstage as (a' & b' & Hne & Hfs & [= <- <-] & Hcl & _). destruct (Htwo s t Hne Hfs) as [Fs Ft].
    apply (Hmove s t); [done..|]. apply He; [|done]. split; [done|]. eauto.
  - destruct Hstage as (a' & b' & Hfs & [= <- <-] & -> & _).
    assert (fs !! t = Some b) as Ft by (rewrite Hfs; apply lookup_singleton_eq).
    pose proof (He (Hop _ _ Ft) E _ (Hs1 _ _ Ft)) as Ec. rewrite Hc in Ec. unfold s1 in Ec. simpl in Ec. rewrite <-app_assoc in Ec.
    apply app_inj_pair in Ec as (_ & -> & ->). by split_and!.
  - destruct Hstage as (Hfs & -> & _). pose proof (He I E) as Ec. simpl in Ec. rewrite Hc in Ec.
    apply app_inj_pair in Ec as (_ & -> & ->). by split_and!.
Qed.

Lemma session_so_far n job a b :
  good n → (job, [Some a; Some b]) ∈ transfers n →
  ∃ pieces, cut_up (fate_of job) pieces ∧ link_is (links n) b (λ k,
    l_hup k `prefix_of` pushes job (fate_of job) pieces ∧
    (l_wopen k = false → l_hup k = pushes job (fate_of job) pieces)).
Proof.
  intros Hg Ht. pose proof Hg as [Hn Hst Hjobs]. destruct (reply_so_far n job a [Some b] Hg Ht) as (pieces & rest & Hans).
  destruct (transfer_view n job _ Hn Ht) as (i & o0 & cl & fs & p & o & st & V).
  destruct (view_ends n job a b i o0 cl fs p o st pieces rest [] V (Hjobs _ _ Ht) Hans) as (F & o' & more & E & Hc & _).
  { destruct Hans as (_ & k & Hk & _). by exists k. }
  exists pieces. split; [by destruct Hans as [? _]|]. pose proof (vw_links _ _ _ _ _ _ _ _ _ _ V) as V5.
  destruct (proj1 (lo_made _ _ _ _ _ _ _ _ V5) b) as (k & Hk & _); [right; by left|].
  exists k. split; [done|]. destruct (view_closes _ _ _ _ _ _ _ _ _ _ _ _ _ _ _ _ V E Hc) as (G & _ & H).
  assert (tx (down_sock F (links n) b) = l_hup k) as Etx by (unfold down_sock; by rewrite Hk).
  rewrite Etx in G. split; [done|]. intros Hwo. rewrite <-Etx, <-H; [done|].
  intros fd (k' & Hk' & E')%(lo_open _ _ _ _ _ _ _ _ V5). congruence.
Qed.

(** The client [j] before the connection it serves now. *)
Lemma target_base n j nd base :
  good n → nds n !! j = Some nd → is_source j = false → served_as (links n) (n_start nd) (n_served nd) base →
  ∃ js, Forall2 (λ l job, ∃ a, (job, [Some a; Some l]) ∈ transfers n) (n_served nd) js ∧
    files (cos base) = all_written ((λ job, (job, fate_of job)) <$> js) (files (cos (n_start nd))) ∧
    dirs (cos base) = dirs (cos (n_start nd)) ∧ current_fd base = (-1)%Z ∧ sys (cos base) = [] ∧ io (cos base) = [].
Proof.
  intros Hg Hj Hs Hserved. pose proof Hg as [Hn Hst Hjobs]. pose proof (cs_ok _ _ (Hst _ _ Hj)) as [_ Hsys Hio].
  rewrite Hs in Hio. destruct Hio as [Hcur Hio]. set (with_fate := λ job, (job, fate_of job)).
  destruct (Forall2_choice (λ l jp, (∃ a, (jp.1, [Some a; Some l]) ∈ transfers n) ∧ cut_up (fate_of jp.1) jp.2 ∧
    up_conn (links n) l = Some (arriving (pushes jp.1 (fate_of jp.1) jp.2)) ∧
    takes (cos (n_start nd)) jp.1 (fate_of jp.1)) (n_served nd)) as (js & Hjs).
  { intros l (k & Hk & E & _ & Hc)%(nv_served _ _ _ (nt_nodes _ _ _ _ _ Hn _ _ Hj)). subst j.
    destruct (target_second n l k Hg Hk Hs) as (job & a & Ht).
    destruct (session_so_far n job a l Hg Ht) as (pieces & Hp & k' & Hk' & _ & Hw).
    rewrite Hk in Hk'. injection Hk' as <-. exists (job, pieces). split; [by exists a|]. split; [done|].
    destruct (li_gone _ (proj1 (nt_links _ _ _ _ _ Hn _ _ Hk)) Hc) as [Hwo _].
    split; [unfold up_conn; by rewrite Hk, Hw|].
    destruct (target_takes n job a l k Hg Ht Hk) as (_ & s & C2 & H2). rewrite (Hst _ _ Hj) in C2. by injection C2 as <-. }
  assert (up_conn (links n) <$> n_served nd = pushing (with_fate <$> js.*1) js.*2) as Esessions.
  { clear -Hjs. induction Hjs as [|l jp sv js (_ & _ & E & _) _ IH]; [done|]. rewrite fmap_cons, E, IH. done. }
  destruct (serve_pushing (with_fate <$> js.*1) js.*2 (n_start nd)) as (s' & E & F1 & F2 & F3 & F4 & F5); try done.
  { clear -Hjs. induction Hjs as [|l jp sv js (_ & E & _) _ IH]; by constructor. }
  { clear -Hjs. induction Hjs as [|l jp sv js (_ & _ & _ & E) _ IH]; by constructor. }
  unfold served_as in Hserved. rewrite Esessions, E in Hserved. injection Hserved as ->.
  exists js.*1. split; [|by split_and!].
  apply Forall2_fmap_r. eapply Forall2_impl; [exact Hjs|]. by intros l jp [? _].
Qed.

(** *** When all is done *)

(** No worker has a job, and no client a connection to serve. *)
Record quiet (n : net) : Prop := {
  qt_workers i w : wks n !! i = Some w → w_run w = None;
  qt_clients j nd : nds n !! j = Some nd → n_sess nd = None;
  qt_links l k : links n !! l = Some k → l_taken k = true
}.

Lemma quiet_transfers n job ds :
  quiet n → (job, ds) ∈ transfers n → ∃ x, x ∈ xfers n ∧ job = x_job x ∧ ds = x_dials x.
Proof.
  intros Hq [(x & [= -> ->] & Hx)%list_elem_of_fmap|(i & o & r & Hi & _)%in_work]%elem_of_app; [eauto|].
  apply (qt_workers _ Hq) in Hi. done.
Qed.

Lemma xfer_transfer n x : x ∈ xfers n → (x_job x, x_dials x) ∈ transfers n.
Proof. intros Hx. apply elem_of_app. left. apply list_elem_of_fmap. by exists x. Qed.

(** A finished transfer has had its connections, and its result. *)
Lemma xfer_done n x :
  good n → x ∈ xfers n →
  x_result x = result (fate_of (x_job x)) ∧ (has_target (fate_of (x_job x)) = true → ∃ a b, x_dials x = [Some a; Some b]).
Proof.
  intros Hg Hx. pose proof Hg as [Hn Hst Hjobs]. pose proof (xfer_transfer n x Hx) as Ht. pose proof (Hjobs _ _ Ht) as Hok.
  destruct (nt_xfers _ _ _ _ _ Hn x Hx) as ([H1 H1'] & (o & H2) & H3).
  pose proof (lo_stage _ _ _ _ _ _ _ _ H3) as (_ & _ & Hend).
  set (o1 := set_dial (λ _, (try_script (λ _, []) (links n) <$> x_dials x) ++ []) id (x_start x)).
  assert (∃ o', sync_single_file logfile (self (x_worker x)) (x_job x) o1 = Ret (x_result x) o') as (o' & E).
  { unfold o1. rewrite <-run_sync, <-setup_dials, H2 by done. by eexists. }
  assert (∀ host port ds, no_way route host port ds → fails host (try_script (λ _, []) (links n) <$> ds)) as Hway.
  { intros host port ds [[Hh ->]|[_ ->]]; [by left|by right]. }
  assert (no_source route (x_job x) (x_dials x) → x_result x = result (fate_of (x_job x)) ∧ has_target (fate_of (x_job x)) = false) as Hnos.
  { intros Hns. rewrite (job_no_source _ _ Hok Hns). split; [|done].
    destruct (worker_no_source logfile (self (x_worker x)) (x_job x) (try_script (λ _, []) (links n) <$> x_dials x) o1 [])
      as (o2 & E2 & _); [by eapply Hway|done|done|]. rewrite E2 in E. by injection E. }
  assert (∀ a ds, x_dials x = Some a :: ds → no_target route (x_job x) ds →
    x_result x = result (fate_of (x_job x)) ∧ has_target (fate_of (x_job x)) = false) as Hnot.
  { intros a ds Hd Hnt. rewrite Hd in H3. destruct (source_made _ _ _ _ _ _ _ _ H3) as [(k & Hk & Ra) _].
    destruct (job_to_source _ _ Hok Ra) as (Hf & Hsrc & _). pose proof (job_no_target _ _ Hok Hf Hnt) as Hft. split; [|done].
    destruct (worker_no_target logfile (self (x_worker x)) (x_job x) (arriving (l_hdown k ++ down_future (λ _, []) a k))
      (try_script (λ _, []) (links n) <$> ds) o1 []) as (o2 & E2 & _); [done|by eapply Hway|done| |].
    { unfold o1. simpl. rewrite Hd. simpl. unfold down_script. by rewrite Hk. }
    rewrite E2 in E. injection E as <-. by destruct (fate_of (x_job x)). }
  destruct (x_dials x) as [|[a|] ds] eqn:Hd; [by destruct (Hnos Hend) as [-> ->]| |by destruct (Hnos Hend) as [-> ->]].
  destruct ds as [|[b|] ds].
  - destruct (Hnot _ _ eq_refl (proj2 Hend)) as [-> ->]. done.
  - destruct ds; [|by destruct (lo_made _ _ _ _ _ _ _ _ H3)]. split; [|eauto].
    destruct (reply_so_far n _ a [Some b] Hg Ht) as (pieces & rest & Hans).
    destruct (view_ends n (x_job x) a b (x_worker x) (x_start x) (x_closed x) ∅ (Done (x_result x)) o WEnd pieces rest [])
      as (F & o2 & more & E2 & _); [|done|done| |].
    + split; try done. intros fd. rewrite lookup_empty. by intros [? ?].
    + destruct Hans as (_ & k & Hk & _). by exists k.
    + by injection E2.
  - destruct (Hnot _ _ eq_refl (proj2 Hend)) as [-> ->]. done.
Qed.

(** The files of the targets. *)
Lemma quiet_files n j nd :
  good n → quiet n → nds n !! j = Some nd → is_source j = false →
  ∃ js, files (cos (n_st nd)) = all_written ((λ job, (job, fate_of job)) <$> js) (files (cos (n_start nd))) ∧
    ∀ job, job ∈ js ↔ ∃ x, x ∈ xfers n ∧ job = x_job x ∧ has_target (fate_of job) = true ∧
      route (job_target_host job) (job_target_port job) = Some j.
Proof.
  intros Hg Hq Hj Hs. pose proof Hg as [Hn Hst Hjobs]. pose proof (nt_nodes _ _ _ _ _ Hn _ _ Hj) as [_ Hsv Hsess].
  rewrite (qt_clients _ Hq _ _ Hj) in Hsess. destruct Hsess as [Hserved _].
  destruct (target_base n j nd _ Hg Hj Hs Hserved) as (js & Hjs & Hfs & _). exists js. split; [done|].
  assert (∀ job a l k, (job, [Some a; Some l]) ∈ transfers n → links n !! l = Some k →
    route (job_target_host job) (job_target_port job) = Some (l_node k)) as Hroute.
  { intros job a l k Ht Hk. destruct (transfer_links _ _ _ Hn Ht) as (i & cl & fs & st & [_ [_ (_ & _ & k2 & Hk2 & R)] _ _ _]).
    congruence. }
  intros job. split.
  - intros (i & Hi)%list_elem_of_lookup_1. destruct (Forall2_lookup_r _ _ _ _ _ Hjs Hi) as (l & Hl & a & Ht).
    apply list_elem_of_lookup_2, Hsv in Hl as (k & Hk & E & _). destruct (target_takes n job a l k Hg Ht Hk) as [Hf _].
    destruct (quiet_transfers _ _ _ Hq Ht) as (x & Hx & -> & _). exists x. split_and!; [done..|]. rewrite <-E. by eapply Hroute.
  - intros (x & Hx & -> & Hf & Hr). pose proof (xfer_transfer n x Hx) as Ht.
    destruct (xfer_done n x Hg Hx) as (_ & Hd). destruct (Hd Hf) as (a & b & Hd'). rewrite Hd' in Ht.
    destruct (transfer_links _ _ _ Hn Ht) as (i & cl & fs & st & [_ [_ (_ & _ & k & Hk & R)] _ _ _]).
    assert (l_node k = j) as Ek by congruence.
    destruct (nt_taken _ _ _ _ _ Hn b k Hk (qt_links _ Hq _ _ Hk)) as (nd' & Hnd' & Hin).
    rewrite Ek, Hj in Hnd'. injection Hnd' as <-. rewrite (qt_clients _ Hq _ _ Hj), app_nil_r in Hin.
    apply list_elem_of_lookup_1 in Hin as (m & Hm). destruct (Forall2_lookup_l _ _ _ _ _ Hjs Hm) as (job & Hjob & a' & Ht').
    assert ((job, [Some a'; Some b]) = (x_job x, [Some a; Some b])) as [= -> _].
    { eapply (transfer_unique n b); [done..|right; by left|right; by left]. }
    by eapply list_elem_of_lookup_2.
Qed.
End files.
