(* ===== verification/NetLive.v ===== *)
(** * The network does not get stuck

    A thread that cannot take a step waits: a worker for its source's answer,
    a client for its worker's next message or for a connection, and either
    for room in a queue.  If no thread waits for room, and sources and targets
    are different clients, somebody can always go on until every file has been
    copied. *)
From S2P Require Import Prelude.
From S2P Require Import CString.
From S2P Require Import Common.
From S2P Require Import OS.
From S2P Require Import Utils.
From S2P Require Import Client.
From S2P Require Import Transfer.
From S2P Require Import EndToEnd.
From S2P Require Import Directory.
From S2P Require Import Fate.
From S2P Require Import Programs.
From S2P Require Import Replay.
From S2P Require Import Protocol.
From S2P Require Import Network.
From S2P Require Import NetReplay.
From S2P Require Import NetInv.
From S2P Require Import NetNode.
From S2P Require Import NetRuns.
From S2P Require Import NetGrowth.
From S2P Require Import NetFiles.
From stdpp Require Import gmap strings list.
From Stdlib Require Import Ascii ZArith Lia.

#[global] Instance room_dec cap q d : Decision (room cap q d).
Proof. unfold room. destruct cap; apply _. Defined.

Section live.
Variable logfile : ptr Z.
Variable self : nat → Z.
Variable cap : option nat.
Variable route : bytes → Z → option nat.
Variable clients : nat.
Variable is_source : nat → bool.
Variable fate_of : sync_job → fate.
Variable cs : list cst.
Hypothesis cs_ok : ∀ j s, cs !! j = Some s → client_ok is_source j s.

Abbreviation good := (good logfile self route clients is_source fate_of cs).
Abbreviation job_ok := (job_ok route is_source fate_of cs).
Abbreviation step := (nstep cap route).

(** ** Who waits for what *)

(** For an answer of the source. *)
Definition worker_waits (n : net) (i : nat) : Prop := ∃ o r s m q l k,
  wks n !! i = Some (Wk o (Some r)) ∧ r_prog r = Recv s m q ∧ r_fds r !! s = Some l ∧
  links n !! l = Some k ∧ l_down k = [] ∧ l_copen k = true.

(** For a message of the worker. *)
Definition client_waits (n : net) (j : nat) : Prop := ∃ st l fd m q sv st0 k,
  nds n !! j = Some (Nd st (Some (Sess l fd (Recv fd m q))) sv st0) ∧
  links n !! l = Some k ∧ l_up k = [] ∧ l_wopen k = true.

(** For room in a queue. *)
Definition worker_full (n : net) (i : nat) : Prop := ∃ o r fd d q l k,
  wks n !! i = Some (Wk o (Some r)) ∧ r_prog r = Send fd d q ∧ r_fds r !! fd = Some l ∧
  links n !! l = Some k ∧ ¬ room cap (l_up k) d.

Definition client_full (n : net) (j : nat) : Prop := ∃ st l fd d q sv st0 k,
  nds n !! j = Some (Nd st (Some (Sess l fd (Send fd d q))) sv st0) ∧
  links n !! l = Some k ∧ ¬ room cap (l_down k) d.

Definition moving (n : net) : Prop := ∃ n', step n n'.

(** ** Workers *)

Lemma dial_connects host port (o : os) :
  inet_pton host = 1%Z → sys o = [] → ∃ fd o', connect_on (Some no_data) host port o = Ret fd o' ∧ (0 ≤ fd)%Z.
Proof.
  intros Hh Hs. rewrite connect_on_eq. pose proof (new_fd_nonneg (fds (os_of o))). unfold cannot_connect.
  simpl. rewrite Hs, Hh. simpl. by eexists _, _.
Qed.

Lemma dial_fails host port (o : os) :
  (inet_pton host ≤ 0)%Z → ∃ fd o', connect_on (Some no_data) host port o = Ret fd o' ∧ (fd < 0)%Z.
Proof.
  intros Hh. rewrite connect_on_eq. unfold cannot_connect. rewrite (bool_decide_true (inet_pton host ≤ 0)%Z) by done.
  rewrite orb_true_r. by eexists _, _.
Qed.

Lemma dial_refused host port (o : os) : ∃ fd o', connect_on None host port o = Ret fd o'.
Proof. rewrite connect_on_eq. simpl. destruct (cannot_connect _ _); by eexists _, _. Qed.

(** An address that a job has can be tried. *)
Lemma dial_moves known P n i o r host port k :
  wks n !! i = Some (Wk o (Some r)) → r_prog r = Dial host port k → sys o = [] →
  at_host route cs known host port P → moving n.
Proof.
  intros Hi Ep Hs Hat. destruct known.
  - destruct Hat as (Hh & j & s & R & _). destruct (dial_connects host port o) as (fd & o' & E & H0); [done..|].
    eexists. eapply n_worker; [done|rewrite Ep; by eapply t_dial|by apply wm_dial].
  - simpl in Hat. destruct (decide (inet_pton host ≤ 0)%Z) as [Hh|Hh].
    + destruct (dial_fails host port o Hh) as (fd & o' & E & H0).
      eexists. eapply n_worker; [done|rewrite Ep; by eapply t_no_dial|apply wm_tau].
    + assert (inet_pton host = 1%Z) as Hh1 by (unfold inet_pton in *; destruct (inet4 _ _ _ _); lia).
      destruct (dial_connects host port o) as (fd & o' & E & H0); [done..|]. destruct (dial_refused host port o) as (fd' & o2 & E2).
      eexists. eapply n_worker; [done|rewrite Ep; by eapply t_refused|by apply wm_refused].
Qed.

Lemma worker_moves_on n i o r :
  good n → wks n !! i = Some (Wk o (Some r)) →
  moving n ∨ worker_waits n i ∨ worker_full n i ∨ ∃ z, r_prog r = Done z.
Proof.
  intros [Hn Hst Hjobs] Hi. destruct (nt_busy _ _ _ _ _ Hn _ _ _ Hi) as [W1 W2 W3 [W4 _] W5 (st & W6 & W7)].
  assert (job_ok (r_job r)) as Hok by (by eapply Hjobs, work_transfer).
  assert (∀ e p' o' ls' r', tstep (r_prog r) o e p' o' → wmove cap route i e (links n) r ls' r' → moving n) as Hgo.
  { intros e p' o' ls' r' Ht Hm. eexists. by eapply n_worker. }
  assert (∀ fd, is_Some (r_fds r !! fd) → is_Some (socks (os_of o) !! fd)) as Hsock by (intros fd; by apply W5).
  destruct (r_prog r) as [z|c|host port k|fd d k|fd m k|fd k] eqn:Ep; cbn [worker_shape] in W6.
  - eauto.
  - left. specialize (W6 o). destruct (c o) as [p' o'| | |] eqn:Ec; try done.
    eapply Hgo; [by apply t_local|apply wm_tau].
  - left. destruct st; try done; destruct W6 as (-> & -> & _); (eapply dial_moves; [done..|]).
    + apply Hok.
    + apply Hok. destruct (lo_stage _ _ _ _ _ _ _ _ W7) as (a & _ & Hds & _). rewrite Hds in W7.
      destruct (source_made _ _ _ _ _ _ _ _ _ W7) as [(lk & _ & R) _]. by destruct (job_to_source _ _ _ _ _ _ Hok R).
  - destruct W6 as [_ W6]. assert (∃ l, r_fds r !! fd = Some l) as [l Hl].
    { destruct st; try done; destruct W6 as [-> _]; destruct (lo_stage _ _ _ _ _ _ _ _ W7) as (a & b & Hne & -> & _).
      - exists a. apply lookup_insert_eq.
      - exists b. by rewrite lookup_insert_ne, lookup_singleton_eq. }
    destruct (lo_open _ _ _ _ _ _ _ _ W7 _ _ Hl) as (lk & Hlk & _). destruct (decide (room cap (l_up lk) d)) as [Hroom|Hroom].
    + left. eapply Hgo; [apply t_send, Hsock; eauto|by eapply wm_send].
    + right; right; left. by exists o, r, fd, d, k, l, lk.
  - destruct W6 as [_ W6]. destruct st; try done. destruct W6 as [-> _].
    destruct (lo_stage _ _ _ _ _ _ _ _ W7) as (a & b & Hne & Hfs & _).
    assert (r_fds r !! s = Some a) as Hl by (rewrite Hfs; apply lookup_insert_eq).
    destruct (lo_open _ _ _ _ _ _ _ _ W7 _ _ Hl) as (lk & Hlk & _).
    destruct (taken_from m (l_down lk)) as [d q] eqn:Etk.
    destruct (decide (l_down lk = [] ∧ l_copen lk = true)) as [[Hd Hc]|Hno].
    + right; left. by exists o, r, s, m, k, a, lk.
    + left. eapply Hgo; [apply t_recv, Hsock; eauto|eapply wm_recv; [done|done| |done]].
      intros Hd. destruct (l_copen lk); [|done]. by destruct Hno.
  - left. assert (∃ l, r_fds r !! fd = Some l) as [l Hl].
    { pose proof (lo_stage _ _ _ _ _ _ _ _ W7) as H. destruct st; try done; destruct W6 as [-> _]; simpl in H.
      - destruct H as (a & x & -> & _). exists a. apply lookup_singleton_eq.
      - destruct H as (a & b & _ & -> & _). exists a. apply lookup_insert_eq.
      - destruct H as (a & b & -> & _). exists b. apply lookup_singleton_eq. }
    destruct (lo_open _ _ _ _ _ _ _ _ W7 _ _ Hl) as (lk & Hlk & _).
    eapply Hgo; [apply t_close, Hsock; eauto|by eapply wm_close].
Qed.

(** ** Clients *)

(** A target says nothing, and does not fail in what it does on its own. *)
Lemma session_at_target n j st l fd p sv st0 :
  good n → nds n !! j = Some (Nd st (Some (Sess l fd p)) sv st0) → is_source j = false →
  link_is (links n) l (λ k, l_hdown k = []) ∧ ∀ c, p = Local c → ∃ p' s1, c st = Ret p' s1.
Proof.
  intros Hg Hj Hs. pose proof Hg as [Hn Hst Hjobs]. pose proof (nt_nodes _ _ _ _ _ Hn _ _ Hj) as [_ _ Hsess].
  destruct Hsess as (base & k & Hserved & Hk & Hnode & Htk & Hse). simpl in Hserved.
  assert (is_source (l_node k) = false) as Hs' by (by rewrite Hnode).
  destruct (target_second _ _ _ _ _ _ _ n l k Hg Hk Hs') as (job & a & Ht).
  destruct (session_so_far _ _ _ _ _ _ _ cs_ok n job a l Hg Ht) as (pieces & Hp & k' & Hk' & [F HF] & Hw).
  rewrite Hk in Hk'. injection Hk' as <-.
  destruct (target_base _ _ _ _ _ _ _ cs_ok n j _ base Hg Hj Hs Hserved) as (js & _ & _ & Hdirs & Hcur & Hsys & Hio).
  destruct (target_takes _ _ _ _ _ _ _ n job a l k Hg Ht Hk) as (_ & s2 & C2 & H2).
  rewrite Hnode, (Hst _ _ Hj) in C2. injection C2 as <-.
  assert (up_script F k = arriving (pushes job (fate_of job) pieces)) as Eup.
  { unfold up_script, up_future. destruct (l_wopen k); [by rewrite HF|]. by rewrite Hw, app_nil_r. }
  destruct (target_answers fd job (fate_of job) pieces
    (setup (at_fd fd (up_script F k)) (dials (cos st0)) (closed (cos st0) ++ (down_hist (links n) <$> sv)) (accepted_at fd base)))
    as (s' & E & _ & _ & _ & _ & _ & Ec); try done.
  { rewrite Eup. apply session_conn. }
  { unfold takes in *. simpl in *. by rewrite Hdirs. }
  destruct (session_script _ _ _ _ _ _ _ F _ Hse E) as (c2 & Ec2 & G1 & _ & _ & G4). split; [|done].
  exists k. split; [done|]. rewrite Ec in Ec2. apply app_inj_2 in Ec2 as [_ [= <-]]; [|done].
  by apply prefix_nil_inv in G1.
Qed.

Lemma client_moves_on n j nd :
  good n → nds n !! j = Some nd →
  moving n ∨ client_waits n j ∨ client_full n j ∨
    n_sess nd = None ∧ (∀ l k, links n !! l = Some k → l_node k = j → l_taken k = true).
Proof.
  intros Hg Hj. pose proof Hg as [Hn Hst Hjobs]. destruct nd as [st [[l fd p]|] sv st0].
  2: { destruct (decide (Exists (λ k, l_node k = j ∧ l_taken k = false) (links n))) as [H|H].
       - apply Exists_exists in H as (k & (l & Hk)%list_elem_of_lookup_1 & <- & Hf). left. eexists. by eapply n_accept.
       - right; right; right. split; [done|]. intros l k Hk Hnode. destruct (l_taken k) eqn:E; [done|]. destruct H.
         apply Exists_exists. exists k. split; [by eapply list_elem_of_lookup_2|done]. }
  pose proof (nt_nodes _ _ _ _ _ Hn _ _ Hj) as [_ _ Hsess].
  destruct Hsess as (base & k & Hserved & Hk & Hnode & Htk & [S1 S2 S3 S4 (stg & S5 & S6) S7]).
  cbn [n_st] in *.
  assert (∀ e p' st' k', tstep p st e p' st' → cmove cap fd e k k' → moving n) as Hgo.
  { intros e p' st' k' Ht Hm. eexists. by eapply n_client. }
  assert (stg = CStart ∨ stg = CBody → is_Some (socks (os_of st) !! fd)) as Hsock.
  { intros Hstg. apply S4. split; [done|]. by destruct Hstg as [->| ->]. }
  destruct p as [b|c|host port q|fd' d q|fd' m q|fd' q]; cbn [client_shape] in S5.
  - left. destruct b; eexists; [by eapply n_again|by eapply n_next].
  - left. assert (∃ p' s1, c st = Ret p' s1) as (p' & s1 & Ec).
    { destruct (is_source j) eqn:Es.
      - destruct (source_session _ _ _ _ _ _ _ cs_ok n _ _ _ _ _ _ _ Hg Hj Es) as (? & ? & ? & ? & _ & _ & _ & _ & _ & _ & H).
        by apply H.
      - destruct (session_at_target n _ _ _ _ _ _ _ Hg Hj Es) as [_ H]. by apply H. }
    eapply Hgo; [by apply t_local|apply cm_tau].
  - done.
  - destruct S5 as (-> & -> & _). destruct (decide (room cap (l_down k) d)) as [Hroom|Hroom].
    + left. eapply Hgo; [apply t_send, Hsock; by right|by apply cm_send].
    + right; right; left. by exists st, l, fd, d, q, sv, st0, k.
  - destruct S5 as (-> & _ & Hstg & _). destruct (taken_from m (l_up k)) as [d r] eqn:Etk.
    destruct (decide (l_up k = [] ∧ l_wopen k = true)) as [[Hu Hw]|Hno].
    + right; left. by exists st, l, fd, m, q, sv, st0, k.
    + left. eapply Hgo; [apply t_recv, Hsock, Hstg|eapply cm_recv; [|done]].
      intros Hd. destruct (l_wopen k); [|done]. by destruct Hno.
  - left. destruct (socks (cos st) !! fd') as [x|] eqn:Ex.
    + destruct S5 as (_ & -> & _). eapply Hgo; [apply t_close; eauto|apply cm_close].
    + eapply Hgo; [by apply t_close_file|apply cm_tau].
Qed.

(** ** Together *)

Lemma view_stage n i o r s m q :
  good n → wks n !! i = Some (Wk o (Some r)) → r_prog r = Recv s m q →
  ∃ a b t, s ≠ t ∧ r_fds r = <[s := a]> {[t := b]} ∧ r_dials r = [Some a; Some b] ∧ r_closed r = [] ∧
    view logfile self route n (r_job r) [Some a; Some b] i (r_start r) [] (<[s := a]> {[t := b]}) (Recv s m q) o (WMove s t) ∧
    (r_job r, [Some a; Some b]) ∈ transfers n.
Proof.
  intros [Hn Hst Hjobs] Hi Ep. destruct (worker_view _ _ _ _ n i o r Hn Hi) as (st & V). pose proof V as [_ _ _ V4 V5 _].
  rewrite Ep in V4. cbn [worker_shape] in V4. destruct V4 as [_ V4]. destruct st as [|?|?|? ?|s' t|?|]; try done. destruct V4 as [<- _].
  destruct (lo_stage _ _ _ _ _ _ _ _ V5) as (a & b & Hne & Hfs & Hds & Hcl & _).
  exists a, b, t. rewrite <-Hfs, <-Hds, <-Hcl, <-Ep. split_and!; try done. by eapply work_transfer.
Qed.

(** A worker does not wait for a source that waits for the worker: by then the
    source has sent the whole file, and the worker has received it. *)
Lemma no_mutual_wait n i o r s m q l k :
  good n → (∀ j nd, nds n !! j = Some nd → n_sess nd = None ∨ client_waits n j) →
  wks n !! i = Some (Wk o (Some r)) → r_prog r = Recv s m q → r_fds r !! s = Some l →
  links n !! l = Some k → l_down k = [] → l_copen k = true → l_taken k = true → False.
Proof.
  intros Hg Hclients Hi Ep Hl Hk Hd Hc Htk. pose proof Hg as [Hn Hst Hjobs].
  destruct (view_stage n i o r s m q Hg Hi Ep) as (a & b & t & Hne & Hfs & Hds & Hcl & V & Ht).
  rewrite Hfs, lookup_insert_eq in Hl. injection Hl as <-.
  destruct (source_said _ _ _ _ _ _ _ n _ a [Some b] k Hg Ht Hk) as (_ & Hs & _).
  destruct (nt_taken _ _ _ _ _ Hn _ _ Hk Htk) as (nd & Hnd & Hin).
  apply elem_of_app in Hin as [Hin|Hin].
  { destruct (nv_served _ _ _ (nt_nodes _ _ _ _ _ Hn _ _ Hnd) _ Hin) as (k' & Hk' & _ & _ & E). congruence. }
  destruct (Hclients _ _ Hnd) as [E|(st & l & fd & m' & q' & sv & st0 & k' & Hnd' & Hk' & Hu & _)].
  { rewrite E in Hin. by apply elem_of_nil in Hin. }
  rewrite Hnd in Hnd'. injection Hnd' as ->. simpl in Hin. apply list_elem_of_singleton in Hin as <-.
  rewrite Hk in Hk'. injection Hk' as <-.
  destruct (source_session _ _ _ _ _ _ _ cs_ok n _ _ _ _ _ _ _ Hg Hnd Hs) as (k' & job & ds & pieces & Hk' & Ht' & Hp & _ & _ & H & _).
  rewrite Hk in Hk'. injection Hk' as <-.
  assert ((job, Some a :: ds) = (r_job r, [Some a; Some b])) as [= -> _] by (eapply (transfer_unique _ _ _ _ n a); [done..|by left|by left]).
  destruct (lo_stage _ _ _ _ _ _ _ _ (vw_links _ _ _ _ _ _ _ _ _ _ _ _ _ V)) as (a' & b' & _ & _ & [= <- <-] & _ & k' & Hk' & Hup).
  rewrite Hk in Hk'. injection Hk' as <-.
  destruct (proj1 (lo_made _ _ _ _ _ _ _ _ (vw_links _ _ _ _ _ _ _ _ _ _ _ _ _ V)) b) as (kb & Hkb & _); [right; by left|].
  assert (answered_with fate_of n (r_job r) a pieces []) as Hans.
  { split; [done|]. exists k. split; [done|]. rewrite app_nil_r. split; [|done]. apply H; [|done..].
    rewrite Hup. unfold asks. by destruct (target_takes _ _ _ _ _ _ _ n _ a b kb Hg Ht Hkb) as [-> _]. }
  destruct (view_ends _ _ _ _ _ _ n (r_job r) a b i _ _ _ _ o _ pieces [] [lit "x"] V (Hjobs _ _ Ht) Hans)
    as (F & o' & more & E & Ecl & HF).
  { exists k. split; [done|congruence]. }
  set (fs := <[s:=a]> {[t:=b]} : gmap Z nat) in *.
  assert (fs !! s = Some a ∧ fs !! t = Some b) as [Fs Ft].
  { unfold fs. by rewrite lookup_insert_eq, lookup_insert_ne, lookup_singleton_eq. }
  destruct (worker_run_takes (r_job r) s t m q (setup (down_conn F (links n) fs) [] (closed (r_start r) ++ (down_sock F (links n) <$> [])) o) (result (fate_of (r_job r))) o'
    (down_conn F (links n) fs s) (down_conn F (links n) fs t) (lit "x")) as (c1 & c2 & Ec & Hlt).
  - apply V.
  - apply V.
  - apply plain_setup, down_conn_plain.
  - done.
  - apply setup_conn, V. by rewrite Fs.
  - apply setup_conn, V. by rewrite Ft.
  - unfold down_conn, down_sock. rewrite Fs, Hk. unfold down_future. by rewrite Hd, Hc, HF.
  - done.
  - exact E.
  - rewrite Ecl in Ec. simpl in Ec. rewrite app_nil_r in Ec. apply app_inj_pair in Ec as (_ & <- & _).
    unfold to_arrive in Hlt. simpl in Hlt. lia.
Qed.

(** A client waits for a message, or has served all its connections. *)
Definition client_rests (n : net) (j : nat) (nd : node) : Prop :=
  client_waits n j ∨ n_sess nd = None ∧ (∀ l k, links n !! l = Some k → l_node k = j → l_taken k = true).

(** Not all workers that have a job wait for an answer. *)
Lemma not_all_wait n :
  good n → (∀ i o r, wks n !! i = Some (Wk o (Some r)) → worker_waits n i) →
  (∀ j nd, nds n !! j = Some nd → client_rests n j nd) → ∀ i o r, wks n !! i ≠ Some (Wk o (Some r)).
Proof.
  intros Hg Hworkers Hclients i o r Hi. pose proof Hg as [Hn Hst Hjobs].
  assert (∀ j nd, nds n !! j = Some nd → n_sess nd = None ∨ client_waits n j) as Hclients'.
  { intros j nd Hj. destruct (Hclients j nd Hj) as [?|[? _]]; auto. }
  destruct (Hworkers i o r Hi) as (o1 & r1 & s & m & q & l & k & Hi1 & Ep & Hl & Hk & Hd & Hc).
  destruct (l_taken k) eqn:Htk; [by eapply no_mutual_wait|].
  destruct (view_stage n i o1 r1 s m q Hg Hi1 Ep) as (a & b & t & _ & Hfs & _ & _ & _ & Ht).
  rewrite Hfs, lookup_insert_eq in Hl. injection Hl as <-.
  destruct (source_said _ _ _ _ _ _ _ n _ a [Some b] k Hg Ht Hk) as (_ & Hs & s1 & C1 & _).
  destruct (nds n !! l_node k) as [nd|] eqn:Hnd.
  2: { apply lookup_ge_None in Hnd. rewrite (nt_clients _ _ _ _ _ Hn) in Hnd. pose proof (nt_links _ _ _ _ _ Hn _ _ Hk). lia. }
  destruct (Hclients _ _ Hnd) as [Hw|[_ Hw]]; [|specialize (Hw a k Hk eq_refl); congruence].
  destruct Hw as (st & l & fd & m' & q' & sv & st0 & k' & Hnd' & Hk' & Hu & Hwo).
  destruct (nt_nodes _ _ _ _ _ Hn _ _ Hnd') as [_ _ (base & k2 & _ & Hk2 & Hnode & Htk2 & _)].
  rewrite Hk' in Hk2. injection Hk2 as <-.
  destruct (nt_wopen _ _ _ _ _ Hn l k' Hk' Hwo) as (i2 & o2 & r2 & fd2 & Hi2 & Hf2).
  destruct (Hworkers i2 o2 r2 Hi2) as (o3 & r3 & s3 & m3 & q3 & l3 & k3 & Hi3 & Ep3 & Hl3 & Hk3 & Hd3 & Hc3).
  rewrite Hi2 in Hi3. injection Hi3 as <- <-.
  destruct (view_stage n i2 o2 r2 s3 m3 q3 Hg Hi2 Ep3) as (a2 & b2 & t2 & Hne2 & Hfs2 & _ & _ & _ & Ht2).
  rewrite Hfs2, lookup_insert_eq in Hl3. injection Hl3 as <-.
  assert (l = a2) as ->.
  { rewrite Hfs2, lookup_insert_Some, lookup_singleton_Some in Hf2. destruct Hf2 as [[_ ->]|(_ & _ & <-)]; [done|]. exfalso.
    destruct (transfer_links _ _ _ _ n _ _ Hn Ht2) as (? & ? & ? & ? & Hlo). pose proof (Hjobs _ _ Ht2) as Hok.
    destruct (source_made _ _ _ _ _ _ _ _ _ Hlo) as [(ka & _ & Ra) (k4 & Hk4 & R4)]. rewrite Hk' in Hk4. injection Hk4 as <-.
    destruct (job_to_source _ _ _ _ _ _ Hok Ra) as (Hf & _). destruct (job_to_target _ _ _ _ _ _ Hok Hf R4) as (_ & _ & S2 & _).
    rewrite Hnode in S2. congruence. }
  rewrite Hk' in Hk3. injection Hk3 as <-. eapply (no_mutual_wait n i2); try done. by rewrite Hfs2, lookup_insert_eq.
Qed.

(** Where nobody can go on, all is done. *)
Lemma stuck_quiet n :
  good n → ¬ moving n → (∀ i, ¬ worker_full n i) → (∀ j, ¬ client_full n j) →
  (∀ i o r z, wks n !! i = Some (Wk o (Some r)) → r_prog r ≠ Done z) → quiet n.
Proof.
  intros Hg Hno Hwf Hcf Hdone. pose proof Hg as [Hn Hst Hjobs].
  assert (∀ i o r, wks n !! i = Some (Wk o (Some r)) → worker_waits n i) as Hworkers.
  { intros i o r Hi. destruct (worker_moves_on n i o r Hg Hi) as [?|[?|[?|[z Hz]]]]; [done|done|by destruct (Hwf i)|].
    by destruct (Hdone i o r z). }
  assert (∀ j nd, nds n !! j = Some nd → client_rests n j nd) as Hclients.
  { intros j nd Hj. destruct (client_moves_on n j nd Hg Hj) as [?|[?|[?|?]]]; [done|by left|by destruct (Hcf j)|by right]. }
  pose proof (not_all_wait n Hg Hworkers Hclients) as Hidle.
  assert (∀ j nd, nds n !! j = Some nd → n_sess nd = None ∧
    (∀ l k, links n !! l = Some k → l_node k = j → l_taken k = true)) as Hdone'.
  { intros j nd Hj. destruct (Hclients j nd Hj) as [Hw|?]; [|done].
    destruct Hw as (st & l & fd & m & q & sv & st0 & k & Hj' & Hk & _ & Hwo).
    destruct (nt_wopen _ _ _ _ _ Hn l k Hk Hwo) as (i2 & o2 & r2 & fd2 & Hi2 & _). by apply Hidle in Hi2. }
  split.
  - intros i [o [r|]] Hi; [by apply Hidle in Hi|done].
  - intros j nd Hj. by eapply Hdone'.
  - intros l k Hk. destruct (nds n !! l_node k) as [nd|] eqn:Hnd; [by eapply Hdone'|].
    apply lookup_ge_None in Hnd. rewrite (nt_clients _ _ _ _ _ Hn) in Hnd. pose proof (nt_links _ _ _ _ _ Hn _ _ Hk). lia.
Qed.
End live.
