(* ===== verification/NetTerm.v ===== *)
(** * The network comes to rest

    Every run of the network without new jobs is finite, whatever its threads
    do and the queues hold: a worker goes on in a program without loops, the
    bytes it can send are bounded by that, a client's turn receives at least
    one of them, and a turn is a program without loops as well. *)
From S2P Require Import Prelude.
From S2P Require Import CString.
From S2P Require Import Common.
From S2P Require Import OS.
From S2P Require Import Utils.
From S2P Require Import Client.
From S2P Require Import Transfer.
From S2P Require Import EndToEnd.
From S2P Require Import Directory.
From S2P Require Import Programs.
From S2P Require Import Replay.
From S2P Require Import Protocol.
From S2P Require Import Network.
From S2P Require Import NetReplay.
From S2P Require Import NetInv.
From S2P Require Import NetNode.
From S2P Require Import NetRuns.
From stdpp Require Import gmap strings list.
From Stdlib Require Import Ascii ZArith Lia.

(** ** Well-founded orders *)

(** One element becomes smaller. *)
Definition one_less {A} (R : A → A → Prop) (l' l : list A) : Prop :=
  ∃ i x x', l !! i = Some x ∧ R x' x ∧ l' = <[i := x']> l.

Lemma one_less_acc {A} (R : A → A → Prop) l : Forall (Acc R) l → Acc (one_less R) l.
Proof.
  induction 1 as [|x l Hx _ IH].
  { constructor. by intros l' (i & x & x' & Hi%list_elem_of_lookup_2%elem_of_nil & _). }
  revert l IH. induction Hx as [x _ IHx]. intros l Hl. induction Hl as [l Hl IHl].
  constructor. intros l' ([|i] & y & y' & Hi & Hr & ->); simpl in Hi.
  - injection Hi as ->. apply (IHx y' Hr). by constructor.
  - apply IHl. by exists i, y, y'.
Qed.

Lemma one_less_insert {A B} (R : B → B → Prop) (f : A → B) (l : list A) i x x' :
  l !! i = Some x → R (f x') (f x) → one_less R (f <$> <[i := x']> l) (f <$> l).
Proof. intros Hi Hr. exists i, (f x), (f x'). by rewrite list_lookup_fmap, Hi, list_fmap_insert. Qed.

Lemma fmap_insert_same {A B} (f : A → B) (l : list A) i x x' :
  l !! i = Some x → f x' = f x → f <$> <[i := x']> l = f <$> l.
Proof. intros Hi E. rewrite list_fmap_insert, list_insert_id; [done|]. by rewrite list_lookup_fmap, Hi, E. Qed.

(** What is left to run. *)
Definition goes_on {S A} `{OnOs S} (p' p : prog S A) : Prop := ∃ s e s', tstep p s e p' s'.

Lemma goes_on_acc {S A} `{OnOs S} (p : prog S A) : Acc goes_on p.
Proof.
  induction p as [a|c IH|h port k IH|fd d k IH|fd n k IH|fd k IH] using prog_rect_local; constructor;
    intros p' (s & e & s' & Ht); inversion Ht; subst; eauto.
Qed.

(** The same for threads that may have nothing to run. *)
Definition some_less {A} (R : A → A → Prop) (x' x : option A) : Prop :=
  match x', x with Some a', Some a => R a' a | None, Some _ => True | _, None => False end.

Lemma some_less_acc {A} (R : A → A → Prop) x : (∀ a, Acc R a) → Acc (some_less R) x.
Proof.
  intros HR. assert (Acc (some_less R) None) as H0 by (by constructor; intros []).
  destruct x as [a|]; [|done]. induction (HR a) as [a _ IH]. constructor. intros [a'|] H; [by apply IH|done].
Qed.

Lemma sum_list_insert (l : list nat) i x x' : l !! i = Some x → sum_list (<[i := x']> l) + x = sum_list l + x'.
Proof.
  revert i. induction l as [|y l IH]; intros [|i]; simpl; intros Hi; try done.
  - injection Hi as ->. lia.
  - specialize (IH _ Hi). lia.
Qed.

(** ** Weights *)

Section term.
Variable logfile : ptr Z.
Variable self : nat → Z.
Variable cap : option nat.
Variable route : bytes → Z → option nat.
Variable clients : nat.
Hypothesis route_ok : ∀ host port j, route host port = Some j → j < clients.

Abbreviation net_inv := (net_inv logfile self route clients).
Abbreviation step := (nstep cap route).

(** The network goes on with what it has begun. *)
Definition settles (n n' : net) : Prop := step n n' ∨ ∃ i job, ends i job n n'.

(** What a turn has received counts until the next turn begins. *)
Definition stage_weight (stg : cstage) : nat := match stg with CBody | CEof => 1 | _ => 0 end.

Definition node_weight (nd : node) (w : nat) : Prop :=
  match n_sess nd with
  | None => w = 0
  | Some (Sess l fd p) => ∃ stg, client_shape fd after_turn stg p (n_st nd) ∧ w = S (stage_weight stg)
  end.

Definition bytes_up (k : link) : nat := length (concat (l_up k)).
Definition link_weight (k : link) : nat := (if l_taken k then 0 else 2) + 2 * bytes_up k.

Definition weighs (n : net) (m : nat) : Prop :=
  ∃ ws, Forall2 node_weight (nds n) ws ∧ m = sum_list (link_weight <$> links n) + sum_list ws.

Lemma weighs_something n : net_inv n → ∃ m, weighs n m.
Proof.
  intros Hn. assert (∃ ws, Forall2 node_weight (nds n) ws) as (ws & Hws).
  { assert (∀ nd, nd ∈ nds n → ∃ w, node_weight nd w) as H.
    { intros nd (j & Hj)%list_elem_of_lookup_1. destruct (nt_nodes _ _ _ _ _ Hn _ _ Hj) as [_ _ Hse].
      unfold node_weight. destruct (n_sess nd) as [[l fd p]|]; [|eauto].
      destruct Hse as (base & k & _ & _ & _ & _ & [_ _ _ _ (stg & Hsh & _) _]). eauto. }
    clear Hn. induction (nds n) as [|nd l IH]; [by exists []|].
    destruct (H nd) as [w Hw]; [by left|]. destruct IH as [ws Hws]; [intros; apply H; by right|].
    exists (w :: ws). by constructor. }
  eexists. by exists ws.
Qed.

Lemma taken_bytes m q d q' :
  taken_from m q = (d, q') → length d + length (concat q') = length (concat q).
Proof.
  unfold taken_from. destruct q as [|x l]; intros [= <- <-]; [done|]. simpl. rewrite length_app.
  rewrite length_take. case_decide; [lia|]. simpl. rewrite length_app, length_drop. lia.
Qed.

(** A client's step does not add weight. *)
Lemma client_weight fd stg p st e p' st' k k' :
  tstep p st e p' st' → cmove cap fd e k k' → client_shape fd after_turn stg p st →
  ∃ stg', client_shape fd after_turn stg' p' st' ∧ l_taken k' = l_taken k ∧
    stage_weight stg' + 2 * bytes_up k' ≤ stage_weight stg + 2 * bytes_up k.
Proof.
  intros Ht Hm Hsh.
  destruct Ht as [c s p' s' E|h port q s fd' s' E Hfd|h port q s fd' s' E Hfd|h port q s fd' fd'' s' s'' E Hfd E'
    |fd' d q s Hs|fd' n q s d Hs|fd' q s Hs|fd' q s Hs]; try done; cbn [client_shape] in Hsh; inversion Hm; subst.
  - rewrite E in Hsh. by exists stg.
  - destruct Hsh as (-> & _ & Hd & Hsh). by exists CBody.
  - destruct Hsh as (_ & Hn & Hstg & Hsh1 & Hsh2).
    match goal with H : taken_from n _ = _ |- _ => rename H into Htk; pose proof (taken_bytes _ _ _ _ Htk) as Hb end.
    unfold bytes_up. simpl. destruct (decide (d = [])) as [->|Hd].
    + eexists. split; [exact Hsh1|]. split; [done|]. simpl in Hb. rewrite Hb. by destruct Hstg as [->| ->].
    + exists CBody. split_and!; [|done|].
      * apply Hsh2; [done|]. revert Htk. unfold taken_from. destruct (l_up k); intros [= <- _]; [done|].
        rewrite length_take. lia.
      * destruct d; [done|]. simpl in *. lia.
  - destruct Hs as [c Hs]. change (socks (cos s) !! fd' = Some c) in Hs. rewrite Hs in Hsh.
    destruct Hsh as (-> & _ & Hsh). by exists CClosed.
  - change (socks (cos s) !! fd' = None) in Hs. rewrite Hs in Hsh. by exists stg.
Qed.

Lemma weighs_put n m j nd nd' ls d :
  weighs n m → nds n !! j = Some nd →
  (∀ w, node_weight nd w → ∃ w', node_weight nd' w' ∧
     sum_list (link_weight <$> ls) + w' + d ≤ sum_list (link_weight <$> links n) + w) →
  ∃ m', weighs (put_node j nd' (with_links ls n)) m' ∧ m' + d ≤ m.
Proof.
  intros (ws & Hws & ->) Hj H. destruct (Forall2_lookup_l _ _ _ _ _ Hws Hj) as (w & Hw & Hnw).
  destruct (H w Hnw) as (w' & Hnw' & Hle). eexists. split; [exists (<[j := w']> ws); split; [by apply Forall2_insert|done]|].
  pose proof (sum_list_insert ws j w w' Hw). simpl. lia.
Qed.

Lemma links_weight_insert ls l k k' :
  ls !! l = Some k →
  sum_list (link_weight <$> <[l := k']> ls) + link_weight k = sum_list (link_weight <$> ls) + link_weight k'.
Proof. intros Hl. rewrite list_fmap_insert. apply sum_list_insert. by rewrite list_lookup_fmap, Hl. Qed.

Definition worker_prog (w : wthread) : option (prog os Z) := r_prog <$> w_run w.
Definition client_prog (nd : node) : option (prog cst bool) := s_prog <$> n_sess nd.

(** A step makes a worker's program smaller, or the weight, or a client's program. *)
Lemma step_less n n' m :
  step n n' → net_inv n → weighs n m →
  one_less (some_less goes_on) (worker_prog <$> wks n') (worker_prog <$> wks n) ∨
  worker_prog <$> wks n' = worker_prog <$> wks n ∧ ∃ m', weighs n' m' ∧
    (m' < m ∨ m' ≤ m ∧ one_less (some_less goes_on) (client_prog <$> nds n') (client_prog <$> nds n)).
Proof.
  intros Hs Hn Hm. destruct Hs as [n i o r e p' o' ls' r' Hi Ht Hmv|n j st sv st0 l k fd o' Hj Hk Hnode Hnew Hfd
    |n j st l fd p sv st0 e p' st' k k' Hj Hk Ht Hmv|n j st l fd sv st0 Hj|n j st l fd sv st0 Hj].
  - left. simpl. eapply one_less_insert; [done|]. by exists o, e, o'.
  - right. split; [done|].
    destruct (weighs_put n m j (Nd st None sv st0) (Nd (Cst o' (current_fd st)) (Some (Sess l fd (connection_prog fd))) sv st0)
      (<[l := take_link k]> (links n)) 1 Hm Hj) as (m' & Hm' & Hlt); [|exists m'; split; [done|lia]].
    intros w ->. exists 1. split.
    + exists CStart. split; [|done]. apply shape_connection.
      destruct (nv_sess _ _ _ (nt_nodes _ _ _ _ _ Hn _ _ Hj)) as (_ & _ & Hc). simpl in Hc.
      injection Hfd as Hfd Ho. subst o' fd. exact (serving_new _ _ Hc eq_refl).
    + pose proof (links_weight_insert (links n) l k (take_link k) Hk). unfold link_weight, bytes_up in *. simpl in *.
      rewrite Hnew in *. lia.
  - right. split; [done|].
    destruct (weighs_put n m j (Nd st (Some (Sess l fd p)) sv st0) (Nd st' (Some (Sess l fd p')) sv st0)
      (<[l := k']> (links n)) 0 Hm Hj) as (m' & Hm' & Hle).
    { intros w (stg & Hsh & ->). simpl in Hsh.
      destruct (client_weight fd stg p st e p' st' k k' Ht Hmv Hsh) as (stg' & Hsh' & Etk & Hle).
      exists (S (stage_weight stg')). split; [by exists stg'|].
      pose proof (links_weight_insert (links n) l k k' Hk). unfold link_weight in *. rewrite Etk in *. lia. }
    exists m'. split; [done|]. right. split; [lia|]. eapply one_less_insert; [done|]. by exists st, e, st'.
  - right. split; [done|].
    destruct (weighs_put n m j (Nd st (Some (Sess l fd (Done true))) sv st0) (Nd st (Some (Sess l fd (connection_prog fd))) sv st0)
      (links n) 1 Hm Hj) as (m' & Hm' & Hlt).
    { intros w (stg & Hsh & ->). destruct (nt_nodes _ _ _ _ _ Hn _ _ Hj) as [_ _ (base & k & _ & _ & _ & _ & Hse)].
      exists 1. split.
      - exists CStart. split; [|done]. apply shape_connection. by eapply session_serving.
      - simpl in Hsh. destruct Hsh as [_ Hb]. destruct stg; simpl; try done; lia. }
    assert (put_node j (Nd st (Some (Sess l fd (connection_prog fd))) sv st0) (with_links (links n) n) =
      put_node j (Nd st (Some (Sess l fd (connection_prog fd))) sv st0) n) as E by done.
    rewrite E in Hm'. exists m'. split; [done|lia].
  - right. split; [done|].
    destruct (weighs_put n m j (Nd st (Some (Sess l fd (Done false))) sv st0) (Nd st None (sv ++ [l]) st0)
      (links n) 1 Hm Hj) as (m' & Hm' & Hlt).
    { intros w (stg & Hsh & ->). exists 0. split; [done|lia]. }
    exists m'. split; [done|lia].
Qed.

Lemma settles_less n n' m :
  settles n n' → net_inv n → weighs n m →
  one_less (some_less goes_on) (worker_prog <$> wks n') (worker_prog <$> wks n) ∨
  worker_prog <$> wks n' = worker_prog <$> wks n ∧ ∃ m', weighs n' m' ∧
    (m' < m ∨ m' ≤ m ∧ one_less (some_less goes_on) (client_prog <$> nds n') (client_prog <$> nds n)).
Proof.
  intros [Hs|(i & job & o & z & fs & ds & cl & o0 & Hi & ->)]; [by apply step_less|].
  intros _ _. left. simpl. by eapply one_less_insert.
Qed.

(** Without new jobs, every run is finite. *)
Lemma network_sn n : net_inv n → sn settles n.
Proof.
  enough (∀ W, Acc (one_less (some_less goes_on)) W → ∀ m C, Acc (one_less (some_less goes_on)) C → ∀ n,
    worker_prog <$> wks n = W → client_prog <$> nds n = C → weighs n m → net_inv n → sn settles n) as H.
  { intros Hn. destruct (weighs_something n Hn) as [m Hm].
    eapply (H _ _ m _ _ n); try done. Unshelve.
    - apply one_less_acc, Forall_true. intros x. apply some_less_acc, goes_on_acc.
    - apply one_less_acc, Forall_true. intros x. apply some_less_acc, goes_on_acc. }
  clear n. induction 1 as [W _ IHW]. intros m. induction (lt_wf m) as [m _ IHm].
  induction 1 as [C _ IHC]. intros n <- <- Hm Hn. constructor. intros n' Hs.
  assert (net_inv n') as Hn'.
  { destruct Hs as [?|(i & job & ?)]; [by eapply net_inv_step|by eapply net_inv_ends]. }
  destruct (settles_less n n' m Hs Hn Hm) as [Hless|(EW & m' & Hm' & [Hlt|[Hle Hless]])].
  - destruct (weighs_something n' Hn') as [m' Hm']. eapply (IHW _ Hless m' _ _ n'); try done. Unshelve.
    apply one_less_acc, Forall_true. intros x. apply some_less_acc, goes_on_acc.
  - eapply (IHm m' Hlt _ _ n'); try done. Unshelve.
    apply one_less_acc, Forall_true. intros x. apply some_less_acc, goes_on_acc.
  - destruct (decide (m' < m)) as [Hlt|Hge].
    + eapply (IHm m' Hlt _ _ n'); try done. Unshelve.
      apply one_less_acc, Forall_true. intros x. apply some_less_acc, goes_on_acc.
    + assert (m' = m) as -> by lia. by eapply (IHC _ Hless n').
Qed.
End term.
