(* ===== verification/NetDelivers.v ===== *)
(** * The network delivers

    The runs of [Network.v] as a whole: once no more jobs are taken, every
    run comes to rest, and at rest every file of every job taken has reached
    its target, however the workers and clients were interleaved. *)
From S2P Require Import Prelude.
From S2P Require Import CString.
From S2P Require Import Common.
From S2P Require Import OS.
From S2P Require Import Utils.
From S2P Require Import Client.
From S2P Require Import Transfer.
From S2P Require Import EndToEnd.
From S2P Require Import Directory.
From S2P Require Import Fate.
From S2P Require Import Programs.
From S2P Require Import Replay.
From S2P Require Import Protocol.
From S2P Require Import Network.
From S2P Require Import NetReplay.
From S2P Require Import NetInv.
From S2P Require Import NetNode.
From S2P Require Import NetRuns.
From S2P Require Import NetGrowth.
From S2P Require Import NetFiles.
From S2P Require Import NetLive.
From S2P Require Import NetTerm.
From stdpp Require Import gmap strings list.
From Stdlib Require Import Ascii ZArith Lia.

(** ** The jobs taken *)

Definition worker_job (w : wthread) : option sync_job := r_job <$> w_run w.
Definition jobs_of (n : net) : list sync_job := (x_job <$> xfers n) ++ omap worker_job (wks n).

Lemma transfers_jobs n : fst <$> transfers n = jobs_of n.
Proof.
  unfold transfers, jobs_of. rewrite fmap_app, <-list_fmap_compose. f_equal.
  induction (wks n) as [|w l IH]; [done|]. rewrite fmap_cons. simpl. rewrite fmap_app, IH.
  unfold at_work, worker_job. by destruct (w_run w).
Qed.

Lemma transfer_job n job ds : (job, ds) ∈ transfers n → job ∈ jobs_of n.
Proof. intros H. rewrite <-transfers_jobs. apply list_elem_of_fmap. by exists (job, ds). Qed.

Lemma job_transfer n job : job ∈ jobs_of n → ∃ ds, (job, ds) ∈ transfers n.
Proof. rewrite <-transfers_jobs. intros ([job' ds] & -> & H)%list_elem_of_fmap. by exists ds. Qed.

Lemma omap_split {A B} (f : A → option B) (l : list A) i x x' :
  l !! i = Some x → ∃ l1 l2, omap f l = l1 ++ option_list (f x) ++ l2 ∧ omap f (<[i := x']> l) = l1 ++ option_list (f x') ++ l2.
Proof.
  intros Hi. exists (omap f (take i l)), (omap f (drop (S i) l)).
  assert (∀ y, omap f (y :: drop (S i) l) = option_list (f y) ++ omap f (drop (S i) l)) as Hc.
  { intros y. simpl. by destruct (f y). }
  rewrite insert_take_drop by (by eapply lookup_lt_Some). rewrite <-(take_drop_middle l i x) at 1 by done.
  by rewrite !omap_app, !Hc.
Qed.

Section jobs.
Variable logfile : ptr Z.
Variable self : nat → Z.
Variable cap : option nat.
Variable route : bytes → Z → option nat.

Lemma jobs_step n n' : nstep cap route n n' → jobs_of n' = jobs_of n.
Proof.
  intros Hs. destruct Hs as [n i o r e p' o' ls' r' Hi Ht Hm| | | |]; try done.
  unfold jobs_of. simpl. f_equal.
  destruct (omap_split worker_job (wks n) i _ (Wk o' (Some (with_prog p' r'))) Hi) as (l1 & l2 & E1 & E2).
  rewrite E1, E2. unfold worker_job. simpl. by destruct Hm.
Qed.

Lemma jobs_settles n n' : settles cap route n n' → jobs_of n' ≡ₚ jobs_of n.
Proof.
  intros [Hs|(i & job & o & z & fs & ds & cl & o0 & Hi & ->)]; [by rewrite (jobs_step n n')|].
  unfold jobs_of. simpl. destruct (omap_split worker_job (wks n) i _ (Wk o None) Hi) as (l1 & l2 & E1 & E2).
  rewrite E1, E2. unfold worker_job. simpl. rewrite fmap_app. simpl. solve_Permutation.
Qed.

Lemma jobs_begins n n' i job : begins logfile self i job n n' → jobs_of n' ≡ₚ job :: jobs_of n.
Proof.
  intros (o & Hi & ->). unfold jobs_of. simpl.
  destruct (omap_split worker_job (wks n) i _ (Wk o (Some (WRun job (sync_prog logfile (self i) job) ∅ [] [] o))) Hi)
    as (l1 & l2 & E1 & E2).
  rewrite E1, E2. unfold worker_job. simpl. solve_Permutation.
Qed.

Lemma jobs_settled n n' : rtc (settles cap route) n n' → jobs_of n' ≡ₚ jobs_of n.
Proof. induction 1 as [|n n1 n' H _ IH]; [done|]. rewrite IH. by apply jobs_settles. Qed.

(** A step of the network leaves every worker its job. *)
Lemma net_same n n' :
  nstep cap route n n' →
  length (wks n') = length (wks n) ∧ xfers n' = xfers n ∧
  ∀ i w w', wks n !! i = Some w → wks n' !! i = Some w' → w' = w ∨
    ∃ o r o' r', w = Wk o (Some r) ∧ w' = Wk o' (Some r') ∧ r_job r' = r_job r.
Proof.
  intros Hs. destruct Hs as [n i o r e p' o' ls' r' Hi Ht Hm| | | |]; simpl.
  2-5: split_and!; [done|done|]; intros i0 w w' Hw Hw'; left; congruence.
  split_and!; [apply length_insert|done|]. intros k w w' Hw.
  rewrite list_lookup_insert_Some. intros [(-> & <- & _)|[_ Hw']]; [|left; congruence].
  rewrite Hi in Hw. injection Hw as <-. right. exists o, r, o', (with_prog p' r'). split_and!; [done..|]. by destruct Hm.
Qed.

Lemma settles_moves n n' : rtc (settles cap route) n n' → rtc (nmove logfile self cap route) n n'.
Proof.
  induction 1 as [|n n1 n' [H|H] _ IH]; [done|..]; (eapply rtc_l; [|exact IH]); [by left|right; by right].
Qed.
End jobs.

(** ** At rest *)

Section delivers.
Variable logfile : ptr Z.
Variable self : nat → Z.
Variable route : bytes → Z → option nat.
Variable is_source : nat → bool.
Variable fate_of : sync_job → fate.
Variable ws : list os.
Variable cs : list cst.

Abbreviation clients := (length cs).
Abbreviation move cap := (nmove logfile self cap route).
Abbreviation good := (good logfile self route clients is_source fate_of cs).
Abbreviation job_ok := (job_ok route is_source fate_of cs).
Abbreviation target_of job := (route (job_target_host job) (job_target_port job)).

(** Workers without jobs, and clients that are ready, at the addresses that the
    network knows. *)
Record net_setup : Prop := {
  ns_workers : Forall worker_idle ws;
  ns_clients j s : cs !! j = Some s → client_ok is_source j s;
  ns_route host port j : route host port = Some j → j < length cs
}.

(** Jobs that write the same file write the same content. *)
Definition consistent (js : list sync_job) : Prop :=
  ∀ job job' data data', job ∈ js → job' ∈ js → fate_of job = Copied data → fate_of job' = Copied data' →
    target_of job = target_of job' → destination job = destination job' → data = data'.

(** Every transfer has had its result, every file of a source has arrived, and
    nothing else has changed. *)
Record delivered (js : list sync_job) (n : net) : Prop := {
  dl_results x : x ∈ xfers n → x_result x = result (fate_of (x_job x));
  dl_files job data : job ∈ js → fate_of job = Copied data → ∃ j nd, target_of job = Some j ∧ nds n !! j = Some nd ∧
    files (cos (n_st nd)) !! destination job = Some data;
  dl_kept j nd s p : nds n !! j = Some nd → cs !! j = Some s →
    (∀ job data, job ∈ js → fate_of job = Copied data → target_of job = Some j → p ≠ destination job) →
    files (cos (n_st nd)) !! p = files (cos s) !! p
}.

Context (Hsetup : net_setup).

Lemma reached_good cap n :
  rtc (move cap) (initial ws cs) n → (∀ job, job ∈ jobs_of n → job_ok job) → good n.
Proof.
  intros Hr Hjobs. split.
  - eapply net_inv_runs; [apply Hsetup|done|]. apply net_inv_initial; [apply Hsetup| |done].
    apply Forall_forall. intros s (j & Hj)%list_elem_of_lookup_1. by apply (ns_clients Hsetup _ _ Hj).
  - intros j nd Hj. by eapply starts_initial.
  - intros job ds Ht. by eapply Hjobs, transfer_job.
Qed.

Lemma quiet_delivered n : good n → quiet n → consistent (jobs_of n) → delivered (jobs_of n) n.
Proof.
  intros Hg Hq Hsame. pose proof Hg as [Hn Hst Hjobs].
  assert (∀ job, job ∈ jobs_of n ↔ ∃ x, x ∈ xfers n ∧ job = x_job x) as Hall.
  { intros job. split; [|intros (x & Hx & ->); by eapply transfer_job, xfer_transfer].
    intros (ds & Ht)%job_transfer. destruct (quiet_transfers _ _ _ Hq Ht) as (x & ? & ? & _). eauto. }
  split.
  - intros x Hx. by destruct (xfer_done _ _ _ _ _ _ _ (ns_clients Hsetup) n x Hg Hx).
  - intros job data Hjob Hf. destruct (job_transfer _ _ Hjob) as (ds & Ht).
    destruct (Hjobs _ _ Ht) as [_ Htgt]. rewrite Hf in Htgt. destruct (Htgt eq_refl) as (_ & j & s & R & C & Hs & _).
    assert (is_Some (nds n !! j)) as [nd Hnd].
    { apply lookup_lt_is_Some. rewrite (nt_clients _ _ _ _ _ Hn). by eapply lookup_lt_Some. }
    exists j, nd. split_and!; [done..|].
    destruct (quiet_files _ _ _ _ _ _ _ (ns_clients Hsetup) n j nd Hg Hq Hnd Hs) as (js & -> & Hjs).
    assert (∀ job' f, (job', f) ∈ (λ job, (job, fate_of job)) <$> js → f = fate_of job' ∧ job' ∈ jobs_of n ∧ target_of job' = Some j) as Hin.
    { intros job' f (job2 & [= -> ->] & (x & Hx & -> & _ & Rx)%Hjs)%list_elem_of_fmap. split_and!; [done| |done]. apply Hall. eauto. }
    apply all_written_found.
    + rewrite <-Hf. apply (list_elem_of_fmap_2 (λ job, (job, fate_of job))), Hjs.
      apply Hall in Hjob as (x & Hx & ->). rewrite Hf. eauto.
    + intros job' data' (Hf' & Hj' & Rx)%Hin E. by apply (Hsame job' job); [..|congruence|].
  - intros j nd s p Hnd Hs Hp. rewrite (Hst _ _ Hnd) in Hs. injection Hs as <-.
    destruct (is_source j) eqn:Hsrc.
    + destruct (nt_nodes _ _ _ _ _ Hn _ _ Hnd) as [_ _ Hse]. rewrite (qt_clients _ Hq _ _ Hnd) in Hse.
      destruct Hse as [Hserved _].
      destruct (source_base _ _ _ _ _ _ _ (ns_clients Hsetup) n j nd _ Hg Hnd Hsrc Hserved) as [[U _ _ _] _]. by rewrite U.
    + destruct (quiet_files _ _ _ _ _ _ _ (ns_clients Hsetup) n j nd Hg Hq Hnd Hsrc) as (js & -> & Hjs).
      apply all_written_kept. intros job data (job2 & [= <- Hf] & (x & Hx & -> & _ & Rx)%Hjs)%list_elem_of_fmap.
      eapply Hp; [|done|done]. apply Hall. eauto.
Qed.

(** With queues that hold any number of bytes, nobody waits for room. *)
Lemma rest_quiet n : good n → nf (settles None route) n → quiet n.
Proof.
  intros Hg Hnf. apply (stuck_quiet logfile self None route clients is_source fate_of cs (ns_clients Hsetup)); [done|..].
  - intros (n' & Hs). apply Hnf. exists n'. by left.
  - intros i (o & r & fd & d & q & l & k & _ & _ & _ & _ & H). by apply H.
  - intros j (st & l & fd & d & q & sv & st0 & k & _ & _ & H). by apply H.
  - intros i o [job p fs ds cl o0] z Hi. simpl. intros ->. apply Hnf.
    eexists. right. exists i, job, o, z, fs, ds, cl, o0. by split.
Qed.

Lemma settled_good cap n n' :
  rtc (move cap) (initial ws cs) n → (∀ job, job ∈ jobs_of n → job_ok job) → rtc (settles cap route) n n' → good n'.
Proof.
  intros Hr Hjobs Hs. apply (reached_good cap).
  - etrans; [done|]. by apply settles_moves.
  - intros job. rewrite (jobs_settled _ _ n n') by done. apply Hjobs.
Qed.

(** Where the network is quiet everything has arrived. *)
Lemma settled_delivered cap n n' :
  rtc (move cap) (initial ws cs) n → (∀ job, job ∈ jobs_of n → job_ok job) → consistent (jobs_of n) →
  rtc (settles cap route) n n' → quiet n' → delivered (jobs_of n) n'.
Proof.
  intros Hr Hjobs Hsame Hs Hq. pose proof (settled_good cap n n' Hr Hjobs Hs) as Hg'.
  pose proof (jobs_settled _ _ n n' Hs) as Hp.
  assert (consistent (jobs_of n')) as Hsame' by (intros job job' d d'; rewrite !Hp; apply Hsame).
  destruct (quiet_delivered n' Hg' Hq Hsame') as [D1 D2 D3]. split; [done|..].
  - intros job data. rewrite <-Hp. apply D2.
  - intros j nd s p Hnd Hcs H. eapply D3; [done|done|]. intros job data. rewrite Hp. apply H.
Qed.

(** C4: the network delivers.  Let any number of workers have taken jobs, and
    any number of clients, each a source or a target, serve them, the steps of
    all threads interleaved in any way, with queues that hold as many bytes as
    are sent.  The source may not have a job's file, and a connection may be
    refused, at an address where nobody listens.  From every state so reached
    all runs without new jobs are finite, and when nobody can go on every
    transfer has returned what it should, every job's file that there was is
    at its target with the source's content, and no other file of any client
    has changed: a job that fails harms no other. *)
Theorem network_delivers (n : net)
    (Hr : rtc (nmove logfile self None route) (initial ws cs) n)
    (Hjobs : ∀ job, job ∈ jobs_of n → NetFiles.job_ok route is_source fate_of cs job)
    (Hsame : consistent (jobs_of n)) :
  sn (settles None route) n ∧
  ∀ n', rtc (settles None route) n n' → nf (settles None route) n' → quiet n' ∧ delivered (jobs_of n) n'.
Proof.
  pose proof (reached_good None n Hr Hjobs) as Hg. split.
  { eapply (network_sn logfile self None route clients); [apply Hsetup|apply Hg]. }
  intros n' Hs Hnf. pose proof (rest_quiet n' (settled_good None n n' Hr Hjobs Hs) Hnf) as Hq.
  split; [done|]. by eapply settled_delivered.
Qed.
End delivers.
