(* ===== verification/NetRoom.v ===== *)
(** * Queues that hold less than a file

    With queues of any capacity a thread can wait for room.  A source is not
    made to wait by a worker that has closed the connection, and a target
    sends nothing, so that what a thread waits for is, in the end, a target
    that serves another worker.  If no two workers at work have the same
    target nobody waits for ever, and every file arrives. *)
From S2P Require Import Prelude.
From S2P Require Import CString.
From S2P Require Import Common.
From S2P Require Import OS.
From S2P Require Import Utils.
From S2P Require Import Client.
From S2P Require Import Transfer.
From S2P Require Import EndToEnd.
From S2P Require Import Directory.
From S2P Require Import Fate.
From S2P Require Import Programs.
From S2P Require Import Replay.
From S2P Require Import Protocol.
From S2P Require Import Network.
From S2P Require Import NetReplay.
From S2P Require Import NetInv.
From S2P Require Import NetNode.
From S2P Require Import NetRuns.
From S2P Require Import NetGrowth.
From S2P Require Import NetFiles.
From S2P Require Import NetLive.
From S2P Require Import NetTerm.
From S2P Require Import NetDelivers.
From stdpp Require Import gmap strings list.
From Stdlib Require Import Ascii ZArith Lia.

Section room.
Variable logfile : ptr Z.
Variable self : nat → Z.
Variable cap : option nat.
Variable route : bytes → Z → option nat.
Variable clients : nat.
Variable is_source : nat → bool.
Variable fate_of : sync_job → fate.
Variable cs : list cst.
Hypothesis route_in : ∀ host port j, route host port = Some j → j < clients.
Hypothesis cs_ok : ∀ j s, cs !! j = Some s → client_ok is_source j s.

Abbreviation good := (good logfile self route clients is_source fate_of cs).
Abbreviation job_ok := (job_ok route is_source fate_of cs).
Abbreviation target_of job := (route (job_target_host job) (job_target_port job)).

(** ** What clients send *)

(** The state after a [send] of the client, whatever the queue holds. *)
Definition sent_by (n : net) (j l : nat) (fd : Z) (d : bytes) (q : Z → prog cst bool) (st : cst) (sv : list nat) (st0 : cst)
    (k : link) : net :=
  put_node j (Nd st (Some (Sess l fd (q (Z.of_nat (length d))))) sv st0) (with_links (<[l := send_down d k]> (links n)) n).

Lemma good_sent n j st l fd fd' d q sv st0 k :
  good n → nds n !! j = Some (Nd st (Some (Sess l fd (Send fd' d q))) sv st0) → links n !! l = Some k →
  d ≠ [] ∧ good (sent_by n j l fd d q st sv st0 k).
Proof.
  intros [Hn Hst Hjobs] Hj Hk. pose proof (nt_nodes _ _ _ _ _ Hn _ _ Hj) as [_ _ (base & k' & _ & Hk' & _ & _ & Hse)].
  rewrite Hk in Hk'. injection Hk' as <-. destruct Hse as [_ _ _ S4 (stg & S5 & S6) _]. cbn [client_shape] in S5.
  destruct S5 as (-> & -> & Hd & _). split; [done|]. split.
  - eapply (net_client_step logfile self None); [exact route_in|exact Hn|exact Hj|exact Hk|apply t_send, S4; split; [done|exact S6]|by apply cm_send].
  - intros j1 nd1 [[-> ->]|[_ H]]%insert_nd_inv; [|by apply Hst]. exact (Hst _ _ Hj).
  - intros job ds Ht. by apply (Hjobs job ds).
Qed.

Lemma sent_by_link n j l fd d q st sv st0 k :
  links n !! l = Some k → links (sent_by n j l fd d q st sv st0 k) !! l = Some (send_down d k).
Proof. intros Hk. simpl. apply list_lookup_insert_eq. by eapply lookup_lt_Some. Qed.

Lemma sent_by_node n j l fd d q st sv st0 k nd :
  nds n !! j = Some nd →
  nds (sent_by n j l fd d q st sv st0 k) !! j = Some (Nd st (Some (Sess l fd (q (Z.of_nat (length d))))) sv st0).
Proof. intros Hj. simpl. apply list_lookup_insert_eq. by eapply lookup_lt_Some. Qed.

Lemma only_sources_send n j st l fd fd' d q sv st0 :
  good n → nds n !! j = Some (Nd st (Some (Sess l fd (Send fd' d q))) sv st0) → is_source j = true.
Proof.
  intros Hg Hj. destruct (is_source j) eqn:Es; [done|].
  destruct (session_at_target _ _ _ _ _ _ _ cs_ok n _ _ _ _ _ _ _ Hg Hj Es) as [(k & Hk & _) _].
  destruct (good_sent n _ _ _ _ _ _ _ _ _ k Hg Hj Hk) as [Hd Hg'].
  destruct (session_at_target _ _ _ _ _ _ _ cs_ok _ _ _ _ _ _ _ _ Hg' (sent_by_node n j l fd d q st sv st0 k _ Hj) Es)
    as [(k' & Hk' & E) _].
  rewrite sent_by_link in Hk' by done. injection Hk' as <-. simpl in E. rewrite post_ne in E by done.
  by apply app_eq_nil in E as [_ ?].
Qed.

(** A worker that has closed its connection to the source has had the whole reply. *)
Lemma source_finished n job a ds k :
  good n → (job, Some a :: ds) ∈ transfers n → links n !! a = Some k → l_wopen k = false →
  ∃ pieces, cut_up (fate_of job) pieces ∧ l_hdown k = reply (fate_of job) pieces.
Proof.
  intros Hg Ht Hk Hwo. pose proof Hg as [Hn Hst Hjobs]. pose proof (Hjobs _ _ Ht) as Hok.
  destruct (transfer_view _ _ _ _ n job _ Hn Ht) as (i & o0 & cl & fs & p & o & st & V). pose proof (vw_links _ _ _ _ _ _ _ _ _ _ _ _ _ V) as V5.
  assert (∀ fd, fs !! fd ≠ Some a) as Hclosed.
  { intros fd Hfd. destruct (lo_open _ _ _ _ _ _ _ _ V5 _ _ Hfd) as (k' & Hk' & E). congruence. }
  destruct (reply_so_far _ _ _ _ _ _ _ cs_ok n job a ds Hg Ht) as (pieces & rest & Hans).
  assert (no_target route job ds ∨ ∃ b, ds = [Some b]) as [Hh|(b & ->)].
  { pose proof (lo_stage _ _ _ _ _ _ _ _ V5) as Hs. pose proof (lo_made _ _ _ _ _ _ _ _ V5) as [_ Hm].
    destruct st; simpl in Hs; [by destruct Hs as (_ & ? & _)| | | | | |].
    - destruct Hs as (? & -> & [= -> ->] & _). by destruct (Hclosed s); rewrite lookup_singleton_eq.
    - destruct Hs as (? & x & -> & [= -> ->] & _). by destruct (Hclosed s); rewrite lookup_singleton_eq.
    - destruct Hs as (? & b & _ & _ & [= _ ->] & _). eauto.
    - destruct Hs as (? & b & _ & _ & [= _ ->] & _). eauto.
    - destruct Hs as (? & b & _ & [= _ ->] & _). eauto.
    - destruct Hs as (_ & _ & Hs). destruct ds as [|[b|] [|? ?]]; try done; [left; by destruct Hs|eauto|left; by destruct Hs]. }
  { destruct Hans as (Hp & k' & Hk' & Hd & _). rewrite Hk in Hk'. injection Hk' as <-. exists pieces. split; [done|].
    destruct (source_made _ _ _ _ _ _ _ _ _ V5) as [(k' & Hk' & R) _].
    destruct (job_to_source _ _ _ _ _ _ Hok R) as (Hf & _). pose proof (job_no_target _ _ _ _ _ _ Hok Hf Hh) as Hnt.
    destruct (fate_of job); try done. simpl in *. subst pieces. by apply app_eq_nil in Hd as [-> _]. }
  destruct (view_ends _ _ _ _ _ _ n job a b i o0 cl fs p o st pieces rest [] V Hok Hans) as (F & o' & more & E & Hc & HF).
  { by exists k. }
  destruct Hans as (Hp & k' & Hk' & Hd & Hr). rewrite Hk in Hk'. injection Hk' as <-.
  destruct (view_closes _ _ _ _ _ _ _ _ _ _ _ _ _ _ _ _ _ _ _ V E Hc) as (_ & Ea & _). specialize (Ea Hclosed).
  exists pieces. split; [done|]. rewrite <-Hd. unfold down_sock in Ea. rewrite Hk in Ea. injection Ea as Ea _.
  symmetry in Ea. apply app_eq_nil in Ea as [_ Ea]. unfold down_future in Ea. rewrite HF, app_nil_r in Ea.
  destruct (l_copen k); [by rewrite Ea, app_nil_r|by rewrite Hr, app_nil_r].
Qed.

Lemma reply_bytes data pieces : pieces_of data pieces → concat (file_reply data pieces) = size_header (Z.of_nat (length data)) ++ data.
Proof. intros [_ E]. unfold file_reply. simpl. by rewrite E. Qed.

(** A whole reply is not the beginning of another. *)
Lemma reply_whole f p1 p2 d : cut_up f p1 → cut_up f p2 → reply f p1 ++ [d] = reply f p2 → d = [].
Proof.
  destruct f as [data| | |]; cbn [cut_up reply].
  - intros P1%reply_bytes P2%reply_bytes E%(f_equal (@concat _)). rewrite concat_app, P1, P2 in E. simpl in E.
    rewrite app_nil_r in E. apply (app_inv_head (size_header (Z.of_nat (length data)) ++ data)). by rewrite app_nil_r.
  - by intros [e1 ->] [e2 ->].
  - by intros -> ->.
  - by intros -> ->.
Qed.

(** Hence its source has nothing more to send. *)
Lemma sender_open n j st l fd fd' d q sv st0 k :
  good n → nds n !! j = Some (Nd st (Some (Sess l fd (Send fd' d q))) sv st0) → links n !! l = Some k → l_wopen k = true.
Proof.
  intros Hg Hj Hk. destruct (l_wopen k) eqn:Hwo; [done|]. exfalso.
  pose proof (only_sources_send n _ _ _ _ _ _ _ _ _ Hg Hj) as Hs.
  destruct (source_session _ _ _ _ _ _ _ cs_ok n _ _ _ _ _ _ _ Hg Hj Hs) as (k' & job & ds & _ & _ & Ht & _).
  destruct (good_sent n _ _ _ _ _ _ _ _ _ k Hg Hj Hk) as [Hd Hg'].
  destruct (source_finished n job l ds k Hg Ht Hk Hwo) as (p1 & P1 & E1).
  destruct (source_finished _ job l ds (send_down d k) Hg' Ht (sent_by_link _ _ _ _ _ _ _ _ _ _ Hk) Hwo) as (p2 & P2 & E2).
  simpl in E2. rewrite post_ne, E1 in E2 by done. by apply Hd, (reply_whole _ _ _ _ P1 P2).
Qed.

(** ** Who waits for room *)

(** No two workers at work have the same target. *)
Definition exclusive (n : net) : Prop := ∀ i i' o o' r r',
  wks n !! i = Some (Wk o (Some r)) → wks n !! i' = Some (Wk o' (Some r')) →
  target_of (r_job r) = target_of (r_job r') → i = i'.

Lemma open_target n i o r fd l k :
  good n → wks n !! i = Some (Wk o (Some r)) → r_fds r !! fd = Some l → links n !! l = Some k →
  is_source (l_node k) = false → (∃ a, r_dials r = [Some a; Some l]) ∧ target_of (r_job r) = Some (l_node k).
Proof.
  intros Hg Hi Hl Hk Hs. pose proof Hg as [Hn _ _]. pose proof (work_transfer n i o r Hi) as Ht.
  destruct (nt_busy _ _ _ _ _ Hn _ _ _ Hi) as [_ _ _ _ _ (st & _ & W7)].
  destruct (target_second _ _ _ _ _ _ _ n l k Hg Hk Hs) as (job & a & Ht').
  assert ((r_job r, r_dials r) = (job, [Some a; Some l])) as [= <- E].
  { eapply (transfer_unique _ _ _ _ n l); [done|done|done| |right; by left]. eapply am_open; [apply W7|done]. }
  split; [by exists a|]. destruct (lo_made _ _ _ _ _ _ _ _ W7) as [_ Hm]. rewrite E in Hm.
  destruct Hm as (_ & _ & k' & Hk' & R). rewrite Hk in Hk'. by injection Hk' as <-.
Qed.

(** A worker that waits for room waits at its target. *)
Lemma full_at_target n i o r fd d q l k :
  good n → wks n !! i = Some (Wk o (Some r)) → r_prog r = Send fd d q → r_fds r !! fd = Some l →
  links n !! l = Some k → ¬ room cap (l_up k) d →
  l_up k ≠ [] ∧ l_wopen k = true ∧ is_source (l_node k) = false.
Proof.
  intros Hg Hi Ep Hl Hk Hroom. pose proof Hg as [Hn Hst Hjobs]. pose proof (work_transfer n i o r Hi) as Ht.
  destruct (nt_busy _ _ _ _ _ Hn _ _ _ Hi) as [_ _ _ _ _ (st & W6 & W7)]. rewrite Ep in W6. cbn [worker_shape] in W6.
  assert (l_up k ≠ []) as Hup. { intros E. apply Hroom. unfold room. rewrite E. destruct cap; [by left|done]. }
  destruct (lo_open _ _ _ _ _ _ _ _ W7 _ _ Hl) as (k' & Hk' & Hwo). rewrite Hk in Hk'. injection Hk' as <-.
  split_and!; [done|done|]. destruct (is_source (l_node k)) eqn:Es; [|done]. exfalso.
  destruct W6 as [_ W6]. pose proof (lo_stage _ _ _ _ _ _ _ _ W7) as Hs.
  destruct (source_first _ _ _ _ _ _ _ n l k Hg Hk Es) as (job & ds & Ht').
  assert ((r_job r, r_dials r) = (job, Some l :: ds)) as [= <- E].
  { eapply (transfer_unique _ _ _ _ n l); [done|done|done| |by left]. eapply am_open; [apply W7|done]. }
  destruct st; try done; simpl in Hs; destruct Hs as (a & b & Hne & Hfs & Hds & _ & k' & Hk' & Hsent);
    rewrite E in Hds; injection Hds as <- Hds; rewrite Hk in Hk'; injection Hk' as <-.
  - by apply (li_said _ (proj1 (nt_links _ _ _ _ _ Hn _ _ Hk))) in Hsent.
  - destruct W6 as (-> & _). apply Hne. eapply (am_inj _ _ _ (lo_among _ _ _ _ _ _ _ _ W7)); [|exact Hl].
    by rewrite Hfs, lookup_insert_eq.
Qed.

Lemma no_worker_full n : good n → exclusive n → ¬ moving cap route n → ∀ i, ¬ worker_full cap n i.
Proof.
  intros Hg Hex Hno i (o & r & fd & d & q & l & k & Hi & Ep & Hl & Hk & Hroom). pose proof Hg as [Hn Hst Hjobs].
  destruct (full_at_target n i o r fd d q l k Hg Hi Ep Hl Hk Hroom) as (Hup & Hwo & Hs).
  destruct (open_target n i o r fd l k Hg Hi Hl Hk Hs) as [(a & Hds) Htgt].
  assert (is_Some (nds n !! l_node k)) as [nd Hnd].
  { apply lookup_lt_is_Some. rewrite (nt_clients _ _ _ _ _ Hn). by apply (nt_links _ _ _ _ _ Hn l). }
  assert (l_taken k = true → ∃ st fd' p sv st0, nd = Nd st (Some (Sess l fd' p)) sv st0) as Htk.
  { intros Htk. destruct (nt_taken _ _ _ _ _ Hn _ _ Hk Htk) as (nd' & Hnd' & Hin). rewrite Hnd in Hnd'. injection Hnd' as <-.
    apply elem_of_app in Hin as [Hin|Hin].
    - destruct (nv_served _ _ _ (nt_nodes _ _ _ _ _ Hn _ _ Hnd) _ Hin) as (k' & Hk' & _ & _ & E).
      rewrite Hk in Hk'. injection Hk' as <-. destruct (li_gone _ (proj1 (nt_links _ _ _ _ _ Hn _ _ Hk)) E) as [? _]. congruence.
    - destruct nd as [st [[l' fd' p]|] sv st0]; [|by apply elem_of_nil in Hin]. apply list_elem_of_singleton in Hin. simpl in Hin. subst l'.
      eauto 6. }
  destruct (client_moves_on _ _ cap _ _ _ _ _ cs_ok n _ _ Hg Hnd) as [?|[Hw|[Hf|[Hnone Hall]]]]; [done| | |].
  - destruct Hw as (st & l' & fd' & m & q' & sv & st0 & k' & Hnd' & Hk' & Hu & Hwo'). rewrite Hnd in Hnd'. injection Hnd' as ->.
    destruct (nt_nodes _ _ _ _ _ Hn _ _ Hnd) as [_ _ (base & k2 & _ & Hk2 & Hnode & Htk2 & _)].
    rewrite Hk' in Hk2. injection Hk2 as <-.
    destruct (nt_wopen _ _ _ _ _ Hn _ _ Hk' Hwo') as (i' & o' & r' & fd2 & Hi' & Hf').
    destruct (open_target n i' o' r' fd2 l' k' Hg Hi' Hf' Hk') as [(a' & Hds') Htgt']; [by rewrite Hnode|].
    assert (i = i') as <- by (eapply Hex; [done|done|congruence]). rewrite Hi in Hi'. injection Hi' as <- <-.
    rewrite Hds in Hds'. injection Hds' as <- <-. congruence.
  - destruct Hf as (st & l' & fd' & d' & q' & sv & st0 & k' & Hnd' & _).
    pose proof (only_sources_send n _ _ _ _ _ _ _ _ _ Hg Hnd') as Hs'. congruence.
  - destruct (Htk (Hall _ _ Hk eq_refl)) as (? & ? & ? & ? & ? & ->). done.
Qed.

Lemma no_client_full n :
  good n → exclusive n → ¬ moving cap route n →
  (∀ i o r z, wks n !! i = Some (Wk o (Some r)) → r_prog r ≠ Done z) → ∀ j, ¬ client_full cap n j.
Proof.
  intros Hg Hex Hno Hdone j (st & l & fd & d & q & sv & st0 & k & Hj & Hk & Hroom). pose proof Hg as [Hn Hst Hjobs].
  assert (l_down k ≠ []) as Hdown. { intros E. apply Hroom. unfold room. rewrite E. destruct cap; [by left|done]. }
  pose proof (only_sources_send n _ _ _ _ _ _ _ _ _ Hg Hj) as Hs.
  pose proof (sender_open n _ _ _ _ _ _ _ _ _ k Hg Hj Hk) as Hwo.
  destruct (nt_nodes _ _ _ _ _ Hn _ _ Hj) as [_ _ (base & k2 & _ & Hk2 & Hnode & _)]. rewrite Hk in Hk2. injection Hk2 as <-.
  destruct (nt_wopen _ _ _ _ _ Hn _ _ Hk Hwo) as (i & o & r & fd2 & Hi & Hf).
  destruct (worker_moves_on _ _ cap _ _ _ _ _ n i o r Hg Hi) as [?|[Hw|[Hw|[z Hz]]]]; [done| | |by eapply Hdone].
  2: { by eapply no_worker_full. }
  destruct Hw as (o1 & r1 & s & m & q1 & l1 & k1 & Hi1 & Ep & Hl1 & Hk1 & Hd & _). rewrite Hi in Hi1. injection Hi1 as <- <-.
  destruct (view_stage _ _ _ _ _ _ _ n i o r s m q1 Hg Hi Ep) as (a & b & t & Hne & Hfs & Hds & _ & _ & Ht).
  rewrite Hfs, lookup_insert_eq in Hl1. injection Hl1 as <-.
  destruct (source_first _ _ _ _ _ _ _ n l k Hg Hk) as (job & ds & Ht'); [by rewrite Hnode|].
  assert (Some l ∈ [Some a; Some b]) as Hin.
  { rewrite <-Hds. destruct (nt_busy _ _ _ _ _ Hn _ _ _ Hi) as [_ _ _ _ _ (stg & _ & W7)]. eapply am_open; [apply W7|done]. }
  assert ((r_job r, [Some a; Some b]) = (job, Some l :: ds)) as [= _ <- _] by (eapply (transfer_unique _ _ _ _ n l); [done|done|done|done|by left]).
  congruence.
Qed.
End room.

(** ** All files arrive *)

Section deliver.
Variable logfile : ptr Z.
Variable self : nat → Z.
Variable cap : option nat.
Variable route : bytes → Z → option nat.
Variable is_source : nat → bool.
Variable fate_of : sync_job → fate.
Variable ws : list os.
Variable cs : list cst.
Context (Hsetup : net_setup route is_source ws cs).

Lemma exclusive_settles n n' : settles cap route n n' → exclusive route n → exclusive route n'.
Proof.
  intros [Hs|(i & job & o & z & fs & ds & cl & o0 & Hi & ->)] Hex i1 i2 o1 o2 r1 r2 H1 H2.
  - destruct (net_same cap route n n' Hs) as (Elen & _ & Hsame).
    assert (∀ i o r, wks n' !! i = Some (Wk o (Some r)) → ∃ o' r', wks n !! i = Some (Wk o' (Some r')) ∧ r_job r = r_job r') as Hback.
    { intros i o r Hi. destruct (lookup_lt_is_Some_2 (wks n) i) as [w Hw]; [rewrite <-Elen; by eapply lookup_lt_Some|].
      destruct (Hsame _ _ _ Hw Hi) as [<-|(o3 & r3 & o4 & r4 & -> & [= <- <-] & E)]; [by exists o, r|by exists o3, r3]. }
    destruct (Hback _ _ _ H1) as (o3 & r3 & H3 & ->). destruct (Hback _ _ _ H2) as (o4 & r4 & H4 & ->). by eapply Hex.
  - simpl in H1, H2. apply insert_wk_inv in H1 as [[_ [=]]|[_ H1]], H2 as [[_ [=]]|[_ H2]]. by eapply Hex.
Qed.

Lemma exclusive_settled n n' : rtc (settles cap route) n n' → exclusive route n → exclusive route n'.
Proof. induction 1 as [|n n1 n' H _ IH]; [done|]. intros Hex. by eapply IH, exclusive_settles. Qed.

(** One worker is enough for that. *)
Lemma exclusive_one n : length (wks n) ≤ 1 → exclusive route n.
Proof. intros Hl i i' o o' r r' H1%lookup_lt_Some H2%lookup_lt_Some _. lia. Qed.

(** C5: queues of any capacity deliver when no two workers copy to the same
    target at the same time.  Let workers have taken jobs, pairwise with
    different target clients (one worker always has), while a queue holds any
    given number of bytes and a [send] waits for room.  Then all runs are finite
    however the threads interleave, and when nobody can go on every transfer has
    returned what it should, every file that the sources have has arrived, and
    nothing else has changed:
    [crossed_connections_deadlock] needs two workers with one target. *)
Theorem bounded_queues_deliver (n : net)
    (Hr : rtc (nmove logfile self cap route) (initial ws cs) n)
    (Hjobs : ∀ job, job ∈ jobs_of n → NetFiles.job_ok route is_source fate_of cs job)
    (Hsame : consistent route fate_of (jobs_of n)) (Hex : exclusive route n) :
  sn (settles cap route) n ∧
  ∀ n', rtc (settles cap route) n n' → nf (settles cap route) n' →
    quiet n' ∧ delivered route fate_of cs (jobs_of n) n'.
Proof.
  destruct Hsetup as [Hws Hcs Hroute]. pose proof (reached_good logfile self route is_source fate_of ws cs Hsetup cap n Hr Hjobs) as Hg.
  split; [by eapply (network_sn logfile self cap route (length cs)); [|apply Hg]|].
  intros n' Hs Hnf. pose proof (settled_good logfile self route is_source fate_of ws cs Hsetup cap n n' Hr Hjobs Hs) as Hg'.
  pose proof (exclusive_settled n n' Hs Hex) as Hex'.
  assert (¬ moving cap route n') as Hno by (intros (n2 & H); apply Hnf; exists n2; by left).
  assert (∀ i o r z, wks n' !! i = Some (Wk o (Some r)) → r_prog r ≠ Done z) as Hdone.
  { intros i o [job p fs ds cl o0] z Hi. simpl. intros ->. apply Hnf.
    eexists. right. exists i, job, o, z, fs, ds, cl, o0. by split. }
  assert (quiet n') as Hq; [|split; [done|by eapply settled_delivered]].
  apply (stuck_quiet logfile self cap route (length cs) is_source fate_of cs Hcs); [done|done| |by eapply no_client_full|done].
  by eapply no_worker_full.
Qed.
End deliver.
