(* ===== verification/NetExec.v ===== *)
(** * Running the network

    The steps of [Network.v] as functions of the thread that moves, so that a
    run can be computed from its schedule, and whether anybody can go on can
    be computed as well. *)
From S2P Require Import Prelude.
From S2P Require Import CString.
From S2P Require Import Common.
From S2P Require Import OS.
From S2P Require Import Utils.
From S2P Require Import Client.
From S2P Require Import Transfer.
From S2P Require Import EndToEnd.
From S2P Require Import Directory.
From S2P Require Import Programs.
From S2P Require Import Replay.
From S2P Require Import Protocol.
From S2P Require Import Network.
From S2P Require Import NetLive.
From S2P Require Import NetTerm.
From stdpp Require Import gmap strings list.
From Stdlib Require Import Ascii ZArith Lia.

Section exec.
Variable logfile : ptr Z.
Variable self : nat → Z.
Variable cap : option nat.
Variable route : bytes → Z → option nat.

(** What a worker's program does next, with its links and records. *)
Definition run_worker (i : nat) (ls : list link) (o : os) (r : wrun) : option (prog os Z * os * list link * wrun) :=
  match r_prog r with
  | Done _ => None
  | Local c => match c o with Ret p o' => Some (p, o', ls, r) | _ => None end
  | Dial host port k =>
      match connect_on (Some no_data) host port o with
      | Ret fd o' =>
          if decide (fd < 0)%Z then Some (k fd, o', ls, r) else
          match route host port with
          | Some j => Some (k fd, o', ls ++ [new_link i j], dialled_to fd (length ls) r)
          | None =>
              match connect_on None host port o with
              | Ret fd o' => Some (k fd, o', ls, turned_away r)
              | _ => None
              end
          end
      | _ => None
      end
  | Send fd d k =>
      c ← socks o !! fd; l ← r_fds r !! fd; lk ← ls !! l;
      if decide (room cap (l_up lk) d) then Some (k (Z.of_nat (length d)), o, <[l := send_up d lk]> ls, r) else None
  | Recv fd n k =>
      c ← socks o !! fd; l ← r_fds r !! fd; lk ← ls !! l;
      if decide (l_down lk = [] ∧ l_copen lk = true) then None else
      let '(d, q) := taken_from n (l_down lk) in
      Some (k (Z.of_nat (length d), d), o, <[l := set_down q lk]> ls, r)
  | Close fd k =>
      match socks o !! fd with
      | None => Some (k, close_fd fd o, ls, r)
      | Some _ => l ← r_fds r !! fd; lk ← ls !! l; Some (k, close_fd fd o, <[l := close_w lk]> ls, hung_up fd l r)
      end
  end.

(** What a client's program does next, with the link it serves. *)
Definition run_client (fd : Z) (k : link) (p : prog cst bool) (st : cst) : option (prog cst bool * cst * link) :=
  match p with
  | Done _ => None
  | Dial host port q =>
      match connect_on (Some no_data) host port st with
      | Ret fd' st' => if decide (fd' < 0)%Z then Some (q fd', st', k) else None
      | _ => None
      end
  | Local c => match c st with Ret p st' => Some (p, st', k) | _ => None end
  | Send fd' d q =>
      c ← socks (cos st) !! fd';
      if decide (fd' = fd ∧ room cap (l_down k) d) then Some (q (Z.of_nat (length d)), st, send_down d k) else None
  | Recv fd' n q =>
      c ← socks (cos st) !! fd';
      if decide (fd' ≠ fd ∨ l_up k = [] ∧ l_wopen k = true) then None else
      let '(d, rest) := taken_from n (l_up k) in Some (q (Z.of_nat (length d), d), st, set_up rest k)
  | Close fd' q =>
      let st' := Cst (close_fd fd' (cos st)) (current_fd st) in
      match socks (cos st) !! fd' with
      | None => Some (q, st', k)
      | Some _ => if decide (fd' = fd) then Some (q, st', close_c k) else None
      end
  end.

Inductive netmove :=
| CWorker (i : nat)
| CClient (j : nat)
| CAccept (l : nat)
| CBegin (i : nat) (job : sync_job)
| CEnd (i : nat).

Definition run_choice (c : netmove) (n : net) : option net :=
  match c with
  | CWorker i =>
      w ← wks n !! i; r ← w_run w;
      '(p, o, ls, r') ← run_worker i (links n) (w_os w) r;
      Some (put_worker i (Wk o (Some (with_prog p r'))) (with_links ls n))
  | CClient j =>
      nd ← nds n !! j; se ← n_sess nd;
      match s_prog se with
      | Done true => Some (put_node j (Nd (n_st nd) (Some (Sess (s_link se) (s_fd se) (connection_prog (s_fd se)))) (n_served nd) (n_start nd)) n)
      | Done false => Some (put_node j (Nd (n_st nd) None (n_served nd ++ [s_link se]) (n_start nd)) n)
      | p =>
          k ← links n !! s_link se;
          '(p', st, k') ← run_client (s_fd se) k p (n_st nd);
          Some (put_node j (Nd st (Some (Sess (s_link se) (s_fd se) p')) (n_served nd) (n_start nd))
            (with_links (<[s_link se := k']> (links n)) n))
      end
  | CAccept l =>
      k ← links n !! l; nd ← nds n !! l_node k;
      match n_sess nd, l_taken k with
      | None, false =>
          let st := n_st nd in
          let fd := new_fd (fds (cos st)) in
          Some (put_node (l_node k) (Nd (Cst (set_fds <[fd := FSock no_data]> (cos st)) (current_fd st))
              (Some (Sess l fd (connection_prog fd))) (n_served nd) (n_start nd))
            (with_links (<[l := take_link k]> (links n)) n))
      | _, _ => None
      end
  | CBegin i job =>
      w ← wks n !! i;
      match w_run w with
      | None => Some (put_worker i (Wk (w_os w) (Some (WRun job (sync_prog logfile (self i) job) ∅ [] [] (w_os w)))) n)
      | Some _ => None
      end
  | CEnd i =>
      w ← wks n !! i; r ← w_run w;
      match r_prog r with
      | Done z => Some (Net (links n) (<[i := Wk (w_os w) None]> (wks n)) (nds n)
          (xfers n ++ [Xfer i (r_job r) z (r_dials r) (r_closed r) (r_start r)]))
      | _ => None
      end
  end.

Fixpoint run_schedule (cs : list netmove) (n : net) : option net :=
  match cs with [] => Some n | c :: cs => n' ← run_choice c n; run_schedule cs n' end.

(** ** The functions and the relation *)

Lemma bind_Some' {A B} (f : A → option B) (x : option A) b : (x ≫= f) = Some b → ∃ a, x = Some a ∧ f a = Some b.
Proof. destruct x; simpl; [eauto|done]. Qed.

(** Undoes a computation that gave a result. *)
Ltac option_inv :=
  repeat (let H := fresh in match goal with
  | |- (_ ≫= _) = Some _ → _ => intros (? & ? & H)%bind_Some'; revert H
  | |- (let '(_, _) := ?x in _) = Some _ → _ => destruct x eqn:?
  | |- (if decide ?P then _ else _) = Some _ → _ => destruct (decide P); try done
  | |- Some _ = Some _ → _ => intros [= <- <- <- <-]
  | |- Some _ = Some _ → _ => intros [= <- <- <-]
  | |- Some _ = Some _ → _ => intros [= <-]
  end).

Lemma run_worker_sound i ls o r p o' ls' r' :
  run_worker i ls o r = Some (p, o', ls', r') →
  ∃ e, tstep (r_prog r) o e p o' ∧ wmove cap route i e ls r ls' r'.
Proof.
  unfold run_worker. destruct (r_prog r) as [z|c|host port k|fd d k|fd m k|fd k]; try done.
  - destruct (c o) as [p1 o1| | |] eqn:E; try done. option_inv. exists ETau. split; [by apply t_local|apply wm_tau].
  - destruct (connect_on _ host port o) as [fd o1| | |] eqn:E; try done. option_inv.
    + exists ETau. split; [by apply t_no_dial|apply wm_tau].
    + destruct (route host port) as [j|] eqn:Er; [option_inv|].
      * eexists. split; [apply t_dial; [exact E|lia]|by apply wm_dial].
      * destruct (connect_on NULL host port o) as [fd2 o2| | |] eqn:E2; try done. option_inv.
        eexists. split; [eapply t_refused; [exact E|lia|exact E2]|by apply wm_refused].
  - option_inv. eexists. split; [apply t_send; by eexists|by eapply wm_send].
  - option_inv. eexists. split; [apply t_recv; by eexists|].
    eapply wm_recv; [done|done| |done]. intros Hd. destruct (l_copen _); [|done]. naive_solver.
  - destruct (socks o !! fd) as [x|] eqn:E; option_inv.
    + exists (EClose fd). split; [exact (t_close fd k o (mk_is_Some _ _ E))|by eapply wm_close].
    + exists ETau. split; [exact (t_close_file fd k o E)|apply wm_tau].
Qed.

Lemma run_client_sound fd k p st p' st' k' :
  run_client fd k p st = Some (p', st', k') → ∃ e, tstep p st e p' st' ∧ cmove cap fd e k k'.
Proof.
  unfold run_client. destruct p as [z|c|host port q|fd' d q|fd' m q|fd' q]; try done.
  - destruct (c st) as [p1 st1| | |] eqn:E; try done. option_inv. exists ETau. split; [by apply t_local|apply cm_tau].
  - destruct (connect_on _ host port st) as [fd1 st1| | |] eqn:E; try done. option_inv.
    exists ETau. split; [by apply t_no_dial|apply cm_tau].
  - option_inv. match goal with H : _ ∧ _ |- _ => destruct H as [-> ?] end.
    eexists. split; [apply t_send; by eexists|by apply cm_send].
  - option_inv. assert (fd' = fd) as -> by (destruct (decide (fd' = fd)); [done|naive_solver]).
    eexists. split; [apply t_recv; by eexists|]. apply cm_recv; [|done]. intros Hd. destruct (l_wopen k); [|done]. naive_solver.
  - destruct (socks (cos st) !! fd') as [x|] eqn:E; option_inv; subst.
    + exists (EClose fd). split; [exact (t_close fd q st (mk_is_Some _ _ E))|apply cm_close].
    + exists ETau. split; [exact (t_close_file fd' q st E)|apply cm_tau].
Qed.

Definition chosen (c : netmove) (n n' : net) : Prop :=
  match c with
  | CBegin i job => begins logfile self i job n n'
  | CEnd i => ∃ job, ends i job n n'
  | _ => nstep cap route n n'
  end.

Lemma run_choice_sound c n n' : run_choice c n = Some n' → chosen c n n'.
Proof.
  destruct c as [i|j|l|i job|i]; cbn [run_choice chosen].
  - intros ([o w] & Hw & (r & Hr & ([[[p o1] ls] r'] & H & [= <-])%bind_Some')%bind_Some')%bind_Some'.
    simpl in *. subst. apply run_worker_sound in H as (e & Ht & Hm). by eapply n_worker.
  - intros ([st se sv st0] & Hn & ([l fd p] & Hse & H)%bind_Some')%bind_Some'. simpl in *. subst.
    assert (p = Done true ∨ p = Done false ∨ ∃ k p' st' k', links n !! l = Some k ∧ run_client fd k p st = Some (p', st', k') ∧
      n' = put_node j (Nd st' (Some (Sess l fd p')) sv st0) (with_links (<[l:=k']> (links n)) n)) as Hp.
    { destruct p as [[]| | | | |]; [by left|by right; left|right; right..].
      all: apply bind_Some' in H as (lk & Hk & H); try done; apply bind_Some' in H as ([[q' st'] lk'] & Hc & [= <-]); by exists lk, q', st', lk'. }
    destruct Hp as [->|[->|(k & p' & st' & k' & Hk & (e & Ht & Hm)%run_client_sound & ->)]].
    + injection H as <-. by eapply n_again.
    + injection H as <-. by eapply n_next.
    + by eapply n_client.
  - intros (k & Hk & ([st se sv st0] & Hn & H)%bind_Some')%bind_Some'. simpl in *. destruct se; [done|].
    destruct (l_taken k) eqn:Et; [done|]. injection H as <-. by eapply n_accept.
  - intros ([o w] & Hw & H)%bind_Some'. simpl in *. destruct w; [done|]. injection H as <-. by exists o.
  - intros ([o w] & Hw & ([job p fs ds cl o0] & Hr & H)%bind_Some')%bind_Some'. simpl in *. subst. destruct p as [z| | | | |]; try done.
    injection H as <-. exists job. by exists o, z, fs, ds, cl, o0.
Qed.

Lemma chosen_move c n n' : chosen c n n' → nmove logfile self cap route n n'.
Proof. destruct c; simpl; [by left..| |intros [job H]]; right; [left|right]; eauto. Qed.

Lemma run_schedule_sound cs n n' : run_schedule cs n = Some n' → rtc (nmove logfile self cap route) n n'.
Proof.
  revert n. induction cs as [|c cs IH]; intros n; simpl; [intros [= ->]; done|].
  intros (n1 & Hc%run_choice_sound%chosen_move & Hr)%bind_Some'. eapply rtc_l; [done|]. by apply IH.
Qed.
(** ** Whoever can go on *)

Lemma run_worker_complete i ls o r e p o' ls' r' :
  tstep (r_prog r) o e p o' → wmove cap route i e ls r ls' r' → is_Some (run_worker i ls o r).
Proof.
  unfold run_worker. intros Ht Hm. inversion Ht; subst; clear Ht; inversion Hm; subst; clear Hm.
  - match goal with H : _ = Ret _ _ |- _ => rewrite H end. by eexists.
  - match goal with H : connect_on _ _ _ _ = Ret _ _ |- _ => rewrite H end. rewrite decide_True by done. by eexists.
  - match goal with H : connect_on _ _ _ _ = Ret _ _ |- _ => rewrite H end. rewrite decide_False by lia.
    match goal with H : route _ _ = _ |- _ => rewrite H end. by eexists.
  - match goal with H : connect_on (Some _) _ _ _ = Ret _ _ |- _ => rewrite H end. rewrite decide_False by lia.
    match goal with H : route _ _ = _ |- _ => rewrite H end.
    match goal with H : connect_on _ _ _ _ = Ret _ _ |- _ => rewrite H end. by eexists.
  - match goal with H : is_Some _ |- _ => destruct H as [x Hx] end. change (os_of o') with o' in Hx. rewrite Hx. simpl.
    repeat match goal with H : _ !! _ = Some _ |- _ => rewrite H; clear H; simpl end. rewrite decide_True by done. by eexists.
  - match goal with H : is_Some _ |- _ => destruct H as [x Hx] end. change (os_of o') with o' in Hx. rewrite Hx. simpl.
    repeat match goal with H : _ !! _ = Some _ |- _ => rewrite H; clear H; simpl end.
    rewrite decide_False by (intros [Hd Hc]; match goal with H : _ → l_copen _ = false |- _ => rewrite H in Hc by done end; done).
    match goal with H : taken_from _ _ = _ |- _ => rewrite H end. by eexists.
  - match goal with H : is_Some _ |- _ => destruct H as [x Hx] end. change (os_of o) with o in Hx. rewrite Hx. simpl.
    repeat match goal with H : _ !! _ = Some _ |- _ => rewrite H; clear H; simpl end. by eexists.
  - match goal with H : socks _ !! _ = None |- _ => change (os_of o) with o in H; rewrite H end. by eexists.
Qed.

Lemma run_client_complete fd k p st e p' st' k' :
  tstep p st e p' st' → cmove cap fd e k k' → is_Some (run_client fd k p st).
Proof.
  unfold run_client. intros Ht Hm. inversion Ht; subst; clear Ht; inversion Hm; subst; clear Hm.
  - match goal with H : _ = Ret _ _ |- _ => rewrite H end. by eexists.
  - match goal with H : connect_on _ _ _ _ = Ret _ _ |- _ => rewrite H end. rewrite decide_True by done. by eexists.
  - match goal with H : is_Some _ |- _ => destruct H as [x Hx] end. simpl in Hx. rewrite Hx. simpl. rewrite decide_True by done. by eexists.
  - match goal with H : is_Some _ |- _ => destruct H as [x Hx] end. simpl in Hx. rewrite Hx. simpl.
    rewrite decide_False by (intros [Hd|[Hd Hc]]; [done|]; match goal with H : _ → l_wopen _ = false |- _ => rewrite H in Hc by done end; done).
    match goal with H : taken_from _ _ = _ |- _ => rewrite H end. by eexists.
  - match goal with H : is_Some _ |- _ => destruct H as [x Hx] end. simpl in Hx. rewrite Hx, decide_True by done. by eexists.
  - match goal with H : socks _ !! _ = None |- _ => simpl in H; rewrite H end. by eexists.
Qed.

(** The moves there can be: of a worker, of a client, a connection accepted, a transfer over. *)
Definition choices (n : net) : list netmove :=
  (CWorker <$> seq 0 (length (wks n))) ++ (CClient <$> seq 0 (length (nds n))) ++
  (CAccept <$> seq 0 (length (links n))) ++ (CEnd <$> seq 0 (length (wks n))).

Definition can_go (n : net) : bool := existsb (λ c, bool_decide (is_Some (run_choice c n))) (choices n).

Lemma elem_choices {A} (f : nat → netmove) (xs : list A) i x : xs !! i = Some x → f i ∈ f <$> seq 0 (length xs).
Proof. intros H%lookup_lt_Some. apply list_elem_of_fmap. exists i. split; [done|]. apply elem_of_seq. lia. Qed.

Lemma can_choose c n : c ∈ choices n → is_Some (run_choice c n) → can_go n = true.
Proof. intros Hc Hr. apply existsb_exists. exists c. split; [by apply list_elem_of_In|]. by apply bool_decide_eq_true. Qed.

(** A network that cannot go on is one where no move does anything. *)
Lemma settles_can_go n n' : settles cap route n n' → can_go n = true.
Proof.
  intros [H|(i & job & o & z & fs & ds & cl & o0 & Hw & _)].
  2: { apply (can_choose (CEnd i)); [unfold choices; rewrite !elem_of_app; eauto using elem_choices|]. simpl. rewrite Hw. by eexists. }
  destruct H as [n i o r e p' o' ls' r' Hw Ht Hm|n j st sv st0 l k fd o' Hn Hl Hj Ht Ho|n j st l fd p sv st0 e p' st' k k' Hn Hl Ht Hm|
    n j st l fd sv st0 Hn|n j st l fd sv st0 Hn].
  - apply (can_choose (CWorker i)); [unfold choices; rewrite !elem_of_app; eauto using elem_choices|]. simpl. rewrite Hw. simpl.
    destruct (run_worker_complete _ _ _ _ _ _ _ _ _ Ht Hm) as [[[[p1 o1] ls1] r1] E]. rewrite E. by eexists.
  - apply (can_choose (CAccept l)); [unfold choices; rewrite !elem_of_app; eauto 6 using elem_choices|]. simpl. rewrite Hl. simpl.
    rewrite Hj, Hn. simpl. rewrite Ht. by eexists.
  - apply (can_choose (CClient j)); [unfold choices; rewrite !elem_of_app; eauto using elem_choices|]. simpl. rewrite Hn. simpl.
    destruct (run_client_complete _ _ _ _ _ _ _ _ Ht Hm) as [[[p1 st1] k1] E].
    destruct p as [[]| | | | |]; try (by eexists); rewrite Hl; simpl; simpl in E; rewrite E; by eexists.
  - apply (can_choose (CClient j)); [unfold choices; rewrite !elem_of_app; eauto using elem_choices|]. simpl. rewrite Hn. by eexists.
  - apply (can_choose (CClient j)); [unfold choices; rewrite !elem_of_app; eauto using elem_choices|]. simpl. rewrite Hn. by eexists.
Qed.
(** ** A scheduler: the first thread that can go on does *)

Definition next_net (n : net) : option net := head (omap (λ c, run_choice c n) (choices n)).

Fixpoint run_out (fuel : nat) (n : net) : net :=
  match fuel with
  | 0 => n
  | S f => match next_net n with Some n' => run_out f n' | None => n end
  end.

Lemma choices_settle c n n' : c ∈ choices n → chosen c n n' → settles cap route n n'.
Proof.
  unfold choices. rewrite !elem_of_app, !list_elem_of_fmap.
  intros [(i & -> & _)|[(i & -> & _)|[(i & -> & _)|(i & -> & _)]]]; simpl; [by left..|]. intros [job H]. right. by exists i, job.
Qed.

Lemma next_net_settles n n' : next_net n = Some n' → settles cap route n n'.
Proof.
  unfold next_net. intros H. assert (n' ∈ omap (λ c, run_choice c n) (choices n)) as He.
  { destruct (omap _ _); [done|]. injection H as ->. by left. }
  apply list_elem_of_omap in He as (c & Hc & Hr). eapply choices_settle; [done|]. by apply run_choice_sound.
Qed.

Lemma next_net_none n : next_net n = None → can_go n = false.
Proof.
  unfold next_net, can_go. generalize (choices n). induction l as [|c l IH]; [done|]. simpl.
  destruct (run_choice c n) eqn:E; [done|]. simpl. exact IH.
Qed.

Lemma stuck_nf n : can_go n = false → nf (settles cap route) n.
Proof. intros H [n' Hs%settles_can_go]. congruence. Qed.

Lemma run_out_runs fuel n : rtc (settles cap route) n (run_out fuel n).
Proof.
  revert n. induction fuel as [|f IH]; intros n; simpl; [done|]. destruct (next_net n) as [n'|] eqn:E; [|done].
  eapply rtc_l; [by apply next_net_settles|]. apply IH.
Qed.

(** Where all runs are finite there is fuel that is enough. *)
Lemma run_out_rests n : sn (settles cap route) n → ∃ fuel, nf (settles cap route) (run_out fuel n).
Proof.
  induction 1 as [n _ IH]. destruct (next_net n) as [n'|] eqn:E.
  - destruct (IH n') as [f Hf]; [by apply next_net_settles|]. exists (S f). simpl. by rewrite E.
  - exists 0. simpl. by apply stuck_nf, next_net_none.
Qed.
End exec.
