(* ===== verification/PoolJobs.v ===== *)
(** * The pool as its workers' jobs see it

    Every step of [PoolSteps.v] hands a job to a worker, or frees the job a
    worker has finished, or leaves the workers' jobs alone; and the block a
    worker holds does not change while it holds it.  [System.v] puts the
    transfers of the workers between the two. *)
From S2P Require Import Prelude.
From S2P Require Import LinkedList.
From S2P Require Import CString.
From S2P Require Import Common.
From S2P Require Import JobSink.
From S2P Require Import JobQueue.
From S2P Require Import PoolSteps.
From stdpp Require Import gmap strings list.
From Stdlib Require Import Ascii ZArith Lia.

(** A step at which no worker gets or gives back a job. *)
Record keeps_jobs (s s' : sys) : Prop := {
  kj_step : step s s';
  kj_busy i a : at_worker s' i (WBusy a) ↔ at_worker s i (WBusy a);
  kj_length : length (workers s') = length (workers s);
  kj_finished : finished s' = finished s
}.

(** Worker [i] gets the job [j], in the block [a], from [dequeue_sync_job]. *)
Record takes_job (i : nat) (a : loc) (j : sync_job) (s s' : sys) : Prop := {
  tj_step : step s s';
  tj_at : at_worker s i WTake;
  tj_workers : workers s' = <[i := WBusy a]> (workers s);
  tj_job : jobs (mem s') !! a = Some j;
  tj_finished : finished s' = finished s
}.

(** Worker [i] frees the job [j], in the block [a], and calls [dequeue_sync_job]. *)
Record frees_job (i : nat) (a : loc) (j : sync_job) (s s' : sys) : Prop := {
  fj_step : step s s';
  fj_at : at_worker s i (WBusy a);
  fj_workers : workers s' = <[i := WLock]> (workers s);
  fj_job : jobs (mem s) !! a = Some j;
  fj_finished : finished s' = finished s ++ [j]
}.

Lemma busy_at_upd s i x y k a :
  at_worker s i x → busy_of x = None → busy_of y = None →
  <[i := y]> (workers s) !! k = Some (WBusy a) ↔ at_worker s k (WBusy a).
Proof.
  intros Hi Hx Hy. unfold at_worker in *. destruct (decide (k = i)) as [->|Hne].
  - rewrite (lookup_upd_eq _ _ _ _ Hi), Hi. split; intros [= ->]; done.
  - by rewrite lookup_upd_ne.
Qed.

Lemma busy_at_wake ws k a : wake_all ws !! k = Some (WBusy a) ↔ ws !! k = Some (WBusy a).
Proof.
  unfold wake_all. rewrite list_lookup_fmap. destruct (ws !! k) as [[]|]; simpl; split; intros [=]; by subst.
Qed.

Lemma busy_at_wake_one ws ws' k a :
  wake_one ws ws' → ws' !! k = Some (WBusy a) ↔ ws !! k = Some (WBusy a).
Proof.
  intros [(i & Hi & ->)|[_ ->]]; [|done]. destruct (decide (k = i)) as [->|Hne].
  - rewrite (lookup_upd_eq _ _ _ _ Hi), Hi. split; intros [=].
  - by rewrite lookup_upd_ne.
Qed.

Lemma wake_one_length ws ws' : wake_one ws ws' → length ws' = length ws.
Proof. intros [(i & Hi & ->)|[_ ->]]; [apply length_insert|done]. Qed.

(** There are no other steps. *)
Lemma step_kinds s s' ll :
  inv s ll → step s s' →
  keeps_jobs s s' ∨ (∃ i a j, takes_job i a j s s') ∨ ∃ i a j, frees_job i a j s s'.
Proof.
  intros Hi Hs. pose proof Hs as Hstep. destruct Hs as [Hs|Hs]; destruct Hs.
  all: try (left; split; [done|by intros k b; eapply busy_at_upd|apply length_insert|done]).
  all: try (left; by split).
  - right; left. destruct (wp_Ret _ _ _ _ _ (inv_take _ _ _ Hi H H0) H1) as (b & ll' & [= <-] & Hinv).
    destruct Hi as (Ho & Hm & Hsc).
    specialize (Hinv _ eq_refl (own_inv_step _ _ Hstep Ho)) as (_ & [_ Hd _ _ _ _] & _). simpl in Hd.
    destruct (proj2 (Hd a)) as [j Hj].
    { rewrite (busy_add _ _ _ a H) by done. set_solver. }
    exists i, a, j. by split.
  - right; right. exists i, a, j. by split.
  - left. split; [done|intros k b; by eapply busy_at_wake_one|by eapply wake_one_length|done].
  - left. split; [done|intros k b; apply busy_at_wake|by apply length_fmap|done].
  - left. split; [done|intros k b; apply busy_at_wake|by apply length_fmap|done].
Qed.

(** The blocks of the workers are not touched. *)
Lemma at_busy s i a : at_worker s i (WBusy a) → a ∈ busy (workers s).
Proof. intros H. apply list_elem_of_omap. exists (WBusy a). split; [by eapply list_elem_of_lookup_2|done]. Qed.

Lemma malloc_keeps m ll a j :
  wf m ll → is_Some (jobs m !! a) → wp (malloc_job j) (λ _ m', jobs m' !! a = jobs m !! a) m.
Proof.
  intros Hwf Hsome. unfold wpb, malloc_job. destruct (wf_fresh_lookup _ ll (jbrk m) Hwf ltac:(lia)) as [Hnj _].
  assert (jbrk m ≠ a) as Hne by (intros E; rewrite <-E, Hnj in Hsome; by destruct Hsome).
  destruct (javail m) as [|[] l]; simpl; try done; by apply lookup_insert_ne.
Qed.

Lemma busy_kept s s' ll i a :
  inv s ll → step s s' → at_worker s i (WBusy a) → at_worker s' i (WBusy a) →
  jobs (mem s') !! a = jobs (mem s) !! a.
Proof.
  intros Hi Hs Ha%at_busy Ha'%at_busy. pose proof Hi as (_ & [Hwf Hdom Hnd Hnext _ _] & _).
  assert ((a ∉ ll.*1) ∧ (a ∉ mine (main s)) ∧ is_Some (jobs (mem s) !! a)) as (Hl & Hm & Hsome).
  { apply NoDup_app in Hnd as (_ & H1 & (_ & H2 & _)%NoDup_app). split_and!.
    - intros Hin. apply (H1 a Hin). set_solver.
    - by apply H2.
    - apply Hdom. set_solver. }
  destruct Hs as [Hs|Hs]; destruct Hs; try done; simpl in *.
  - destruct ll as [|[b j] ll].
    { pose proof (worker_at _ _ _ _ Hi H). pose proof (inv_size _ _ Hi). simpl in *. lia. }
    assert (wp unlink_job (λ _ m', jobs m' !! a = jobs (mem s) !! a) (mem s)) as Hwp.
    { eapply wp_unlink_job; [apply Hwf|]. intros m2 _ -> _ _. apply lookup_insert_ne. intros ->. set_solver. }
    exact (wp_Ret _ _ _ _ _ Hwp H1).
  - by destruct (wp_Ret _ _ _ _ _ (inv_take _ _ _ Hi H H0) H1) as (? & ? & [=] & _).
  - assert (wp (free_sync_job (Some a0)) (λ _ m', jobs m' !! a = jobs (mem s) !! a) (mem s)) as Hwp.
    { eapply wp_free_job; [done|]. simpl. apply lookup_delete_ne. intros ->.
      apply NoDup_app in Hnd as (_ & _ & (Hb & _)%NoDup_app). rewrite (busy_del _ _ _ WLock H) in Hb by done.
      by apply NoDup_cons in Hb as [? _]. }
    exact (wp_Ret _ _ _ _ _ Hwp H1).
  - assert (wp (link_job a0) (λ _ m', jobs m' !! a = jobs (mem s) !! a) (mem s)) as Hwp.
    { rewrite H in *. simpl in *. assert (job_next j = NULL) as Hn by (apply (Hnext a0); [set_solver|done]).
      pose proof (main_at _ _ Hi) as Hok. rewrite H in Hok. simpl in Hok.
      eapply (wp_link_job _ a0 j ll); [apply Hwf|done|done| | |].
      - apply NoDup_app in Hnd as (_ & Hd & _). intros Hin. apply (Hd _ Hin). set_solver.
      - destruct Hwf as [_ _ ? _]. naive_solver lia.
      - intros m2 ll2 _ _ _ _ _ _ Hp. by apply Hp. }
    exact (wp_Ret _ _ _ _ _ Hwp H2).
  - assert (wp (free_sync_job (Some a0)) (λ _ m', jobs m' !! a = jobs (mem s) !! a) (mem s)) as Hwp.
    { rewrite H in Hm, Hdom. destruct (proj2 (Hdom a0)) as [j Hj]; [set_solver|]. eapply wp_free_job; [done|].
      simpl. apply lookup_delete_ne. intros ->. set_solver. }
    exact (wp_Ret _ _ _ _ _ Hwp H0).
  - destruct (inv_clean _ _ Hi H) as [_ Hwp]. by destruct (wp_Ret _ _ _ _ _ Hwp H0) as [-> _].
  - exact (wp_Ret _ _ _ _ _ (malloc_keeps _ _ _ j Hwf Hsome) H1).
  - exact (wp_Ret _ _ _ _ _ (malloc_keeps _ _ _ j Hwf Hsome) H1).
Qed.
