(* ===== verification/System.v ===== *)
(** * The whole system

    The thread pool of [PoolSteps.v] and the network of [Network.v] as one
    transition system.  A worker that has got a job from the queue begins its
    transfer; when [sync_single_file] has returned it frees the job and asks
    for the next one; all other steps of the pool's threads, of the workers'
    transfers and of the clients interleave freely. *)
From S2P Require Import Prelude.
From S2P Require Import LinkedList.
From S2P Require Import CString.
From S2P Require Import Common.
From S2P Require Import JobSink.
From S2P Require Import JobQueue.
From S2P Require Import PoolSteps.
From S2P Require Import PoolJobs.
From S2P Require Import OS.
From S2P Require Import Utils.
From S2P Require Import DirSpec.
From S2P Require Import SyncInfo.
From S2P Require Import Client.
From S2P Require Import Transfer.
From S2P Require Import EndToEnd.
From S2P Require Import Directory.
From S2P Require Import Fate.
From S2P Require Import Programs.
From S2P Require Import Replay.
From S2P Require Import Protocol.
From S2P Require Import Network.
From S2P Require Import NetReplay.
From S2P Require Import NetInv.
From S2P Require Import NetNode.
From S2P Require Import NetRuns.
From S2P Require Import NetGrowth.
From S2P Require Import NetFiles.
From S2P Require Import NetLive.
From S2P Require Import NetTerm.
From S2P Require Import NetDelivers.
From stdpp Require Import gmap strings list.
From Stdlib Require Import Ascii ZArith Lia.

Record system := Sy { s_pool : PoolSteps.sys; s_net : net }.

Section system.
Variable logfile : ptr Z.
Variable self : nat → Z.
Variable route : bytes → Z → option nat.

Inductive sstep : system → system → Prop :=
| s_pool_step p p' n :
    keeps_jobs p p' → sstep (Sy p n) (Sy p' n)
| s_take p p' n n' i a j :
    takes_job i a j p p' → begins logfile self i j n n' → sstep (Sy p n) (Sy p' n')
| s_done p p' n n' i a j :
    frees_job i a j p p' → ends i j n n' → sstep (Sy p n) (Sy p' n')
| s_net_step p n n' :
    nstep None route n n' → sstep (Sy p n) (Sy p n').

Variable ws : list os.
Variable cs : list cst.
Variable is_source : nat → bool.
Variable fate_of : sync_job → fate.
Variables (b : Z) (av : list bool).
Context (Hsetup : net_setup route is_source ws cs) (Hws : 0 < length ws) (Hb : (0 < b ≤ int_max)%Z).

Abbreviation start := (Sy (init (length ws) b av) (initial ws cs)).
Abbreviation job_ok := (job_ok route is_source fate_of cs).

(** A worker of the pool and the same worker on the network. *)
Definition same_worker (m : pmem) (x : wpc) (w : wthread) : Prop :=
  match x with
  | WBusy a => ∃ o r, w = Wk o (Some r) ∧ jobs m !! a = Some (r_job r)
  | _ => w_run w = None
  end.

Record sys_inv (y : system) : Prop := {
  sv_pool : reachable (init (length ws) b av) (s_pool y);
  sv_net : rtc (nmove logfile self None route) (initial ws cs) (s_net y);
  sv_workers : Forall2 (same_worker (mem (s_pool y))) (workers (s_pool y)) (wks (s_net y));
  sv_done : finished (s_pool y) = x_job <$> xfers (s_net y)
}.

Lemma sys_inv_start : sys_inv start.
Proof.
  split; simpl; [apply rtc_refl..| |done]. clear. induction ws as [|o l IH]; [constructor|]. by constructor.
Qed.

Lemma Forall2_at {A B} (P Q : A → B → Prop) (l : list A) l' (k : list B) k' :
  Forall2 P l k → length l' = length l → length k' = length k →
  (∀ i x x' y y', l !! i = Some x → k !! i = Some y → l' !! i = Some x' → k' !! i = Some y' → P x y → Q x' y') →
  Forall2 Q l' k'.
Proof.
  intros H El Ek HPQ. pose proof (Forall2_length _ _ _ H) as E. apply Forall2_same_length_lookup. split; [lia|].
  intros i x' y' Hx' Hy'.
  assert (is_Some (l !! i)) as [x Hx] by (apply lookup_lt_is_Some; rewrite <-El; by eapply lookup_lt_Some).
  assert (is_Some (k !! i)) as [y Hy] by (apply lookup_lt_is_Some; rewrite <-Ek; by eapply lookup_lt_Some).
  eapply HPQ; [exact Hx|exact Hy|done|done|]. by eapply Forall2_lookup_lr.
Qed.

Lemma same_worker_idle m m' x x' w :
  same_worker m x w → busy_of x = None → busy_of x' = None → same_worker m' x' w.
Proof. destruct x, x'; simpl; intros; done. Qed.

Lemma pool_inv y : sys_inv y → ∃ ll, inv (s_pool y) ll.
Proof. intros [H _ _ _]. by eapply inv_reachable. Qed.

Lemma sys_inv_step y y' : sstep y y' → sys_inv y → sys_inv y'.
Proof.
  intros Hs Hy. destruct (pool_inv y Hy) as [ll Hi]. pose proof (pool_inv y Hy) as _. destruct Hy as [H1 H2 H3 H4].
  destruct Hs as [p p' n [K1 K2 K3 K4]|p p' n n' i a j [K1 K2 K3 K4 K5] (o & Hw & ->)
    |p p' n n' i a j [K1 K2 K3 K4 K5] (o & z & fs & ds & cl & o0 & Hw & ->)|p n n' Hn]; simpl in *.
  - split; simpl; [by eapply rtc_r|done| |by rewrite K4].
    eapply Forall2_at; [exact H3|done|done|]. intros k x x' w w' Hx Hk Hx' Hk' Hm. rewrite Hk in Hk'. injection Hk' as <-.
    destruct (busy_of x') as [a|] eqn:Ex'.
    + assert (x' = WBusy a) as -> by (destruct x'; simpl in Ex'; congruence). pose proof Hx' as Hx2. apply K2 in Hx2.
      unfold at_worker in Hx2. rewrite Hx in Hx2. injection Hx2 as ->. simpl. by rewrite (busy_kept p p' ll k a).
    + eapply same_worker_idle; [exact Hm| |done]. destruct x as [| | | | | |a|]; try done. exfalso.
      apply K2 in Hx. unfold at_worker in Hx. rewrite Hx' in Hx. injection Hx as ->. done.
  - split; simpl; [by eapply rtc_r|eapply rtc_r; [done|right; left; exists i, j, o; done]| |by rewrite K5].
    eapply Forall2_at; [exact H3|rewrite K3; apply length_insert|apply length_insert|].
    intros k x x' w w' Hx Hk Hx' Hk' Hm. rewrite K3 in Hx'.
    apply list_lookup_insert_Some in Hk' as [(<- & <- & Hlt)|[Hne Hk']].
    + apply lookup_upd in Hx' as [[_ ->]|[? _]]; [|done]. simpl. by exists o, (WRun j (sync_prog logfile (self i) j) ∅ [] [] o).
    + rewrite lookup_upd_ne in Hx' by done. rewrite Hx in Hx'. injection Hx' as <-. rewrite Hk in Hk'. injection Hk' as <-.
      destruct x as [| | | | | |c|]; try done. simpl in *. rewrite (busy_kept p p' ll k c); try done.
      unfold at_worker. by rewrite K3, lookup_upd_ne.
  - assert (r_job (WRun j (Done z) fs ds cl o0) = j) as Ej by done.
    split; simpl; [by eapply rtc_r|eapply rtc_r; [done|right; right; exists i, j, o, z, fs, ds, cl, o0; done]| |].
    2: { rewrite K5, H4, fmap_app. done. }
    eapply Forall2_at; [exact H3|rewrite K3; apply length_insert|apply length_insert|].
    intros k x x' w w' Hx Hk Hx' Hk' Hm. rewrite K3 in Hx'.
    apply list_lookup_insert_Some in Hk' as [(<- & <- & Hlt)|[Hne Hk']].
    + apply lookup_upd in Hx' as [[_ ->]|[? _]]; [|done]. done.
    + rewrite lookup_upd_ne in Hx' by done. rewrite Hx in Hx'. injection Hx' as <-. rewrite Hk in Hk'. injection Hk' as <-.
      destruct x as [| | | | | |c|]; try done. simpl in *. rewrite (busy_kept p p' ll k c); try done.
      unfold at_worker. by rewrite K3, lookup_upd_ne.
  - destruct (net_same None route n n' Hn) as (E1 & E2 & E3). split; simpl; [done|eapply rtc_r; [done|by left]| |by rewrite E2].
    eapply Forall2_at; [exact H3|done|done|]. intros k x x' w w' Hx Hk Hx' Hk' Hm.
    rewrite Hx in Hx'. injection Hx' as <-. destruct (E3 k w w' Hk Hk') as [->|(o & r & o' & r' & -> & -> & Er)]; [done|].
    destruct x as [| | | | | |a|]; try done. destruct Hm as (o1 & r1 & [= <- <-] & Hj). exists o', r'. by rewrite Er.
Qed.

Lemma sys_inv_reached y : rtc sstep start y → sys_inv y.
Proof.
  intros Hr. pose proof sys_inv_start as Hs. induction Hr as [y|y y1 y2 H _ IH]; [done|]. by eapply IH, sys_inv_step.
Qed.

(** ** The jobs *)

Lemma working y : sys_inv y → omap worker_job (wks (s_net y)) = processing (s_pool y).
Proof.
  intros [_ _ H _]. unfold processing. induction H as [|x w l k Hm _ IH]; [done|].
  assert (omap worker_job (w :: k) = option_list (worker_job w) ++ omap worker_job k) as ->.
  { simpl. by destruct (worker_job w). }
  rewrite IH. assert (busy (x :: l) = option_list (busy_of x) ++ busy l) as ->.
  { unfold busy. simpl. by destruct (busy_of x). }
  destruct w as [o r0]. destruct x as [| | | | | |a|]; simpl in Hm; try (by rewrite Hm).
  destruct Hm as (o' & r & [= <- ->] & Hj). symmetry. exact (held_cons _ a _ _ Hj).
Qed.

Lemma sys_jobs y : sys_inv y → jobs_of (s_net y) = finished (s_pool y) ++ processing (s_pool y).
Proof. intros Hy. unfold jobs_of. rewrite (working y Hy). by rewrite (sv_done _ Hy). Qed.

Lemma sys_accepted y job : sys_inv y → job ∈ jobs_of (s_net y) → job ∈ accepted (s_pool y).
Proof.
  intros Hy. rewrite (sys_jobs y Hy). destruct (pool_inv y Hy) as [ll (_ & [_ _ _ _ Ha Hf] & _)].
  intros Hin. rewrite Ha, elem_of_app. left. by rewrite Hf.
Qed.

Lemma destroying_accepted s s' : destroying (main s) → step s s' → accepted s' = accepted s ∧ destroying (main s').
Proof.
  intros Hd [Hs|Hs]; destruct Hs; simpl; try done;
    try match goal with H : main _ = _ |- _ => rewrite H in * end; try done.
  all: destruct (main s); done.
Qed.

Lemma sstep_pool y y' : sstep y y' → s_pool y' = s_pool y ∨ step (s_pool y) (s_pool y').
Proof. intros Hs. destruct Hs as [p p' n H|p p' n n' i a j H _|p p' n n' i a j H _|p n n' _]; [right|right|right|left]; done || apply H. Qed.

Lemma destroying_sys y y' :
  rtc sstep y y' → destroying (main (s_pool y)) →
  accepted (s_pool y') = accepted (s_pool y) ∧ destroying (main (s_pool y')).
Proof.
  induction 1 as [y|y y1 y2 Hs _ IH]; intros Hd; [done|].
  destruct (sstep_pool y y1 Hs) as [E|[E Hd']%destroying_accepted]; [rewrite <-E in *; auto| |done].
  rewrite <-E. auto.
Qed.

(** ** Every run ends *)

Lemma sys_net_inv y : sys_inv y → net_inv logfile self route (length cs) (s_net y).
Proof.
  intros Hy. eapply net_inv_runs; [apply Hsetup|apply Hy|]. apply net_inv_initial; [apply Hsetup| |done].
  apply Forall_forall. intros s (j & Hj)%list_elem_of_lookup_1. by apply (ns_clients _ _ _ _ Hsetup _ _ Hj).
Qed.

Lemma sys_sn y : sys_inv y → sn step (s_pool y) → sn sstep y.
Proof.
  destruct y as [p n]. simpl. intros Hy Hp. revert n Hy. induction Hp as [p _ IHp]. intros n Hy.
  pose proof (network_sn logfile self None route (length cs) (ns_route _ _ _ _ Hsetup) n (sys_net_inv _ Hy)) as Hn.
  revert Hy. induction Hn as [n _ IHn]. intros Hy. constructor. intros [p' n'] Hs.
  pose proof (sys_inv_step _ _ Hs Hy) as Hy'. unfold flip in *. inversion Hs; subst.
  - eapply IHp; [|done]. by apply kj_step.
  - eapply IHp; [|done]. by eapply tj_step.
  - eapply IHp; [|done]. by eapply fj_step.
  - apply IHn; [by left|done].
Qed.

(** ** Where nobody can go on *)

(** A state in which no process of the network and no thread of the pool can
    go on: the network is quiet. *)
Lemma sys_rests y :
  sys_inv y → (∀ job, job ∈ accepted (s_pool y) → job_ok job) →
  (∀ n', ¬ nstep None route (s_net y) n') →
  (∀ y', istep (s_pool y) (s_pool y') → ¬ sstep y y') →
  quiet (s_net y) ∧ ∀ p', ¬ istep (s_pool y) p'.
Proof.
  intros Hy Hjobs Hnet Hpool. destruct (pool_inv y Hy) as [ll Hi]. destruct y as [p n]. simpl in *.
  assert (good logfile self route (length cs) is_source fate_of cs n) as Hg.
  { apply (reached_good logfile self route is_source fate_of ws cs Hsetup None); [apply Hy|].
    intros job Hjob. apply Hjobs. by apply (sys_accepted (Sy p n)). }
  pose proof (sv_workers _ Hy) as Hw. simpl in Hw.
  assert (quiet n) as Hq.
  { apply (rest_quiet logfile self route is_source fate_of ws cs Hsetup n Hg). intros (n' & [Hs|(i & job & He)]).
    { by apply (Hnet n'). }
    pose proof He as (o & z & fs & ds & cl & o0 & Hi' & _). destruct (Forall2_lookup_r _ _ _ _ _ Hw Hi') as (x & Hx & Hm).
    destruct x as [| | | | | |a|]; try done. destruct Hm as (o' & r & [= <- <-] & Hj). simpl in Hj.
    destruct (inv_done _ _ _ _ Hi Hx) as (j & Hj' & (r' & m' & Ef & _)%wp_ex). rewrite Hj in Hj'. injection Hj' as <-.
    destruct r'. pose proof (w_done _ i a job m' Hx Hj Ef) as Hs. eapply (Hpool (Sy _ n')); [exact Hs|].
    eapply (s_done _ _ _ _ i a job); [|exact He]. split; [by left|done..]. }
  split; [done|]. intros p' Hs. destruct (step_kinds p p' ll Hi (or_introl Hs)) as [Hk|[(i & a & j & Hk)|(i & a & j & Hk)]].
  - eapply (Hpool (Sy p' n)); [exact Hs|by apply s_pool_step].
  - destruct (Forall2_lookup_l _ _ _ _ _ Hw (tj_at _ _ _ _ _ Hk)) as ([o w] & Hx & Hm). simpl in Hm. subst w.
    eapply (Hpool (Sy p' _)); [exact Hs|]. eapply s_take; [exact Hk|]. by exists o.
  - destruct (Forall2_lookup_l _ _ _ _ _ Hw (fj_at _ _ _ _ _ Hk)) as (w & Hx & o & r & -> & _).
    by apply (qt_workers _ Hq) in Hx.
Qed.

(** The pool has nothing more to do either. *)
Lemma sys_quiescent y : sys_inv y → (∀ p', ¬ istep (s_pool y) p') → quiescent (s_pool y).
Proof.
  intros Hy Hno. destruct (pool_goes_on (length ws) b av (s_pool y)) as [[p' Hs]|]; [done|done|apply Hy| |done].
  by apply Hno in Hs.
Qed.

Lemma sys_stuck y :
  sys_inv y → (∀ job, job ∈ accepted (s_pool y) → job_ok job) → destroying (main (s_pool y)) →
  nf sstep y → main (s_pool y) = MDone ∧ quiet (s_net y).
Proof.
  intros Hy Hjobs Hd Hnf. destruct (sys_rests y) as [Hq Hno]; [done|done| | |].
  - intros n' Hs. apply Hnf. destruct y as [p n]. eexists. by apply s_net_step.
  - intros y' _ Hs. apply Hnf. by exists y'.
  - split; [|done]. destruct (sys_quiescent y Hy Hno) as (_ & _ & [[E _]|[E _]]); [by rewrite E in Hd|done].
Qed.

(** What has been delivered when the pool is destroyed and the network quiet. *)
Lemma sys_delivered y :
  sys_inv y → (∀ job, job ∈ accepted (s_pool y) → job_ok job) →
  consistent route fate_of (accepted (s_pool y)) → main (s_pool y) = MDone → quiet (s_net y) →
  finished (s_pool y) ≡ₚ accepted (s_pool y) ∧ length (nds (s_net y)) = length cs ∧
  delivered route fate_of cs (accepted (s_pool y)) (s_net y).
Proof.
  intros Hy Hjobs Hsame Hdone Hq.
  destruct (joined_drained (length ws) b av (s_pool y)) as (_ & Hp & Hf & _); [done|done|apply Hy|by rewrite Hdone|].
  split_and!; [done|apply (nt_clients _ _ _ _ _ (sys_net_inv y Hy))|].
  assert (jobs_of (s_net y) ≡ₚ accepted (s_pool y)) as Hperm by (by rewrite (sys_jobs y Hy), Hp, app_nil_r).
  destruct (quiet_delivered logfile self route is_source fate_of ws cs Hsetup (s_net y)) as [D1 D2 D3].
  - apply (reached_good logfile self route is_source fate_of ws cs Hsetup None); [apply Hy|].
    intros job. rewrite Hperm. apply Hjobs.
  - done.
  - intros job job' d d'. rewrite !Hperm. apply Hsame.
  - split; [done|intros job data; rewrite <-Hperm; apply D2|].
    intros j nd s p Hnd Hcs H. eapply D3; [done|done|]. intros job data. rewrite Hperm. apply H.
Qed.

(** A run from where the flag is set. *)
Lemma system_works (y : system) :
  rtc sstep start y → main (s_pool y) = JJoin → (∀ job, job ∈ accepted (s_pool y) → job_ok job) →
  consistent route fate_of (accepted (s_pool y)) →
  sn sstep y ∧ ∀ y', rtc sstep y y' → nf sstep y' →
    main (s_pool y') = MDone ∧ finished (s_pool y') ≡ₚ accepted (s_pool y) ∧ length (nds (s_net y')) = length cs ∧
    delivered route fate_of cs (accepted (s_pool y)) (s_net y').
Proof.
  intros Hr Hm Hjobs Hsame.
  assert (destroying (main (s_pool y))) as Hd by (by rewrite Hm).
  pose proof (sys_inv_reached y Hr) as Hy. split.
  { apply sys_sn; [done|]. eapply (destroying_sn (length ws) b av); [done|done|apply Hy|done]. }
  intros y' Hs Hnf. assert (sys_inv y') as Hy' by (apply sys_inv_reached; by etrans).
  destruct (destroying_sys y y' Hs Hd) as [Ea Hd']. rewrite <-Ea in *.
  destruct (sys_stuck y' Hy' Hjobs Hd' Hnf) as [Hdone Hq]. split; [done|]. by apply sys_delivered.
Qed.

(** The whole system works its queue off.  Let [destroy_thread_pool] have
    set the flag, in any state that the pool's threads, the workers' transfers
    and the clients have reached in any interleaving.  Then every run from there is
    finite, and where nobody can go on the main thread is back from
    [destroy_thread_pool], every accepted job has been processed once with its
    result, its file, when there is one, is at its target with the source's
    content, and no other file of any client has changed. *)
Theorem system_synchronises (y : system)
    (Hr : rtc sstep start y) (Hm : main (s_pool y) = JJoin)
    (Hjobs : ∀ job, job ∈ accepted (s_pool y) → job_ok job)
    (Hsame : consistent route fate_of (accepted (s_pool y))) :
  sn sstep y ∧ ∀ y', rtc sstep y y' → nf sstep y' →
    main (s_pool y') = MDone ∧ finished (s_pool y') ≡ₚ accepted (s_pool y) ∧
    delivered route fate_of cs (accepted (s_pool y)) (s_net y').
Proof.
  destruct (system_works y Hr Hm Hjobs Hsame) as [Hsn H]. split; [done|].
  intros y' Hs Hnf. by destruct (H y' Hs Hnf) as (? & ? & _ & ?).
Qed.
End system.
