(* ===== verification/Driver.v ===== *)
(** * The manager's thread drives the system

    The manager uses the pool through a sequence of calls: [create_sync_job]
    with [enqueue_sync_job] for every job, [signal_shutdown], and, at the end,
    [destroy_thread_pool].  Here its thread makes a given sequence of calls in
    the whole system of [System.v], each when the one before has returned, so
    that nothing is left to chance but the interleaving and the wakeups.
    Which calls the manager makes is the matter of [Recorder.v]. *)
From S2P Require Import Prelude.
From S2P Require Import LinkedList.
From S2P Require Import CString.
From S2P Require Import Common.
From S2P Require Import JobSink.
From S2P Require Import JobQueue.
From S2P Require Import PoolSteps.
From S2P Require Import PoolJobs.
From S2P Require Import PoolRefine.
From S2P Require Import OS.
From S2P Require Import Utils.
From S2P Require Import Client.
From S2P Require Import Transfer.
From S2P Require Import EndToEnd.
From S2P Require Import Directory.
From S2P Require Import Fate.
From S2P Require Import Programs.
From S2P Require Import Replay.
From S2P Require Import Protocol.
From S2P Require Import Network.
From S2P Require Import NetReplay.
From S2P Require Import NetInv.
From S2P Require Import NetNode.
From S2P Require Import NetRuns.
From S2P Require Import NetGrowth.
From S2P Require Import NetFiles.
From S2P Require Import NetLive.
From S2P Require Import NetTerm.
From S2P Require Import NetDelivers.
From S2P Require Import System.
From stdpp Require Import gmap strings list.
From Stdlib Require Import Ascii ZArith Lia.

(** ** The calls *)

Inductive mcall :=
| CAdd (j : sync_job)     (* create_sync_job, enqueue_sync_job, free_sync_job if it was refused *)
| CShutdown               (* signal_shutdown *)
| CDestroy.               (* destroy_thread_pool *)

(** [create_sync_job] detaches its job. *)
Definition call_ok (c : mcall) : Prop := match c with CAdd j => job_next j = NULL | _ => True end.

(** The jobs that a pool accepts from these calls: all up to the first shutdown,
    but those for which there is no memory. *)
Fixpoint admitted (av : list bool) (calls : list mcall) : list sync_job :=
  match calls with
  | CAdd j :: l => match av with false :: av' => admitted av' l | _ => j :: admitted (tail av) l end
  | _ => []
  end.

(** The main thread, outside the pool's functions, enters one of them. *)
Inductive begin_call : mcall → PoolSteps.sys → PoolSteps.sys → Prop :=
| b_add s j a m' :
    main s = MIdle → malloc_job j (mem s) = Ret (Some a) m' →
    begin_call (CAdd j) s (Sys m' (owner s) (workers s) (ELock a) (accepted s) (finished s))
| b_add_fails s j m' :
    main s = MIdle → malloc_job j (mem s) = Ret NULL m' →
    begin_call (CAdd j) s (Sys m' (owner s) (workers s) MIdle (accepted s) (finished s))
| b_shutdown s :
    main s = MIdle → begin_call CShutdown s (main_goto (SLock false) (owner s) s)
| b_destroy s :
    main s = MIdle → begin_call CDestroy s (main_goto (SLock true) (owner s) s).

(** A thread wakes without a signal. *)
Inductive wakes : PoolSteps.sys → PoolSteps.sys → Prop :=
| k_worker s i : at_worker s i WSleep → wakes s (goto i WRelock (owner s) s)
| k_main s a : main s = ESleep a → wakes s (main_goto (ERelock a) (owner s) s).

Lemma begin_call_keeps c s s' : call_ok c → begin_call c s s' → keeps_jobs s s'.
Proof.
  intros Hc Hs. destruct Hs; (split; [right|done..]).
  - by eapply m_create.
  - by eapply m_create_fails.
  - by apply m_shutdown.
  - by apply m_shutdown.
Qed.

Lemma wakes_keeps s s' : wakes s s' → keeps_jobs s s'.
Proof.
  intros Hs. destruct Hs as [s i H|s a H].
  - split; [right; by apply w_spurious|intros k b; by eapply busy_at_upd|apply length_insert|done].
  - split; [right; by apply m_spurious|done..].
Qed.

Lemma begin_call_exists c s : main s = MIdle → ∃ s', begin_call c s s'.
Proof.
  intros Hm. destruct c as [j| |].
  - assert (∃ r m', malloc_job j (mem s) = Ret r m') as ([a|] & m' & E).
    { unfold malloc_job. destruct (javail (mem s)) as [|[] l]; by do 2 eexists. }
    + eexists. by eapply b_add.
    + eexists. by eapply b_add_fails.
  - eexists. by apply b_shutdown.
  - eexists. by apply b_destroy.
Qed.

(** ** The pool between two calls *)

(** The main thread is in its last call, or back from it. *)
Definition ending (x : mpc) : bool :=
  match x with SLock d | SSet d => d | JJoin | JLock | JClean | MDone => true | _ => false end.

(** The pool is closed, or about to be. *)
Definition closing (s : PoolSteps.sys) : bool :=
  bool_decide (shutdown (pool (mem s)) ≠ 0%Z) || match main s with SLock _ | SSet _ => true | _ => false end.

(** The jobs that will have been accepted when [calls] have been made. *)
Definition expected (s : PoolSteps.sys) (calls : list mcall) : list sync_job :=
  accepted s ++
  (if closing s then [] else option_list (offer_of (mem s) (main s)) ++ admitted (javail (mem s)) calls).

Lemma unlink_avail m r m' : unlink_job m = Ret r m' → javail m' = javail m.
Proof.
  unfold unlink_job, write_job, deref_job, int_result, bind, gets, get, ret, modify, undef.
  by repeat case_match; intros; simplify_eq.
Qed.

Lemma link_avail a m r m' : link_job a m = Ret r m' → javail m' = javail m.
Proof.
  unfold link_job, write_job, deref_job, int_result, bind, gets, get, ret, modify, undef.
  by repeat case_match; intros; simplify_eq.
Qed.

Lemma ending_wake x : ending (wake_main x) = ending x.
Proof. by destruct x. Qed.

(** A thread moves, the memory and the history stay. *)
Lemma expected_still s s' calls :
  mem s' = mem s → accepted s' = accepted s → closing s' = closing s →
  offer_of (mem s) (main s') = offer_of (mem s) (main s) → expected s' calls = expected s calls.
Proof. unfold expected. intros -> -> -> ->. done. Qed.

(** The pool is closed before and after. *)
Lemma expected_closed s s' calls :
  accepted s' = accepted s → closing s = true → closing s' = true → expected s' calls = expected s calls.
Proof. unfold expected. by intros -> -> ->. Qed.

Lemma istep_expected s s' ll calls : inv s ll → istep s s' → expected s' calls = expected s calls.
Proof.
  intros Hi Hs. pose proof (main_at _ _ Hi) as Hmain. destruct Hs.
  all: try (match goal with H : main _ = _ |- _ => rewrite H in Hmain; simpl in Hmain; done end).
  all: try (apply expected_still; unfold closing; simpl; try done;
    match goal with H : main _ = _ |- _ => by rewrite H end).
  - destruct (take_effect _ _ Hi i m' a H H0 H1) as (j & _ & Ej & Ha & Esd & _).
    unfold expected, closing. simpl. rewrite Esd, (unlink_avail _ _ _ H1), offer_wake_main, (offer_ext (mem s) m').
    + by destruct (main s).
    + intros x Hx. rewrite Ej. apply lookup_insert_ne. set_solver.
  - by destruct (wp_Ret _ _ _ _ _ (inv_take _ _ _ Hi H H0) H1) as (? & ? & [=] & _).
  - apply free_effect in H1 as ->. unfold expected, closing. simpl. rewrite (offer_ext (mem s) (set_jobs _ _)); [done|].
    intros x Hx. simpl. apply lookup_delete_ne. intros ->. apply (busy_not_mine _ _ Hi x Hx). by eapply busy_elem.
  - apply expected_closed; unfold closing; simpl; rewrite ?bool_decide_true; done.
  - apply expected_closed; unfold closing; simpl; rewrite ?bool_decide_true; done.
  - destruct (link_effect _ _ Hi a j m' H H0 H1 H2) as (_ & _ & Esd & _).
    unfold expected, closing. simpl. rewrite Esd, (link_avail _ _ _ _ H2), H, H0. simpl. by rewrite H1, <-app_assoc.
  - apply free_effect in H0 as ->. unfold expected, closing. simpl. by rewrite H.
  - apply expected_closed; unfold closing; simpl; rewrite ?H, ?orb_true_r; done.
  - destruct (inv_clean _ _ Hi H) as [_ Hwp]. destruct (wp_Ret _ _ _ _ _ Hwp H0) as [-> _].
    apply expected_still; unfold closing; simpl; by rewrite ?H.
Qed.

Lemma istep_ending s s' ll : inv s ll → istep s s' → ending (main s') = ending (main s).
Proof.
  intros Hi Hs. pose proof (main_at _ _ Hi) as Hmain. destruct Hs; simpl.
  all: try (match goal with H : main _ = _ |- _ => rewrite H in Hmain |- *; simpl in Hmain; done end).
  all: try done.
  - apply ending_wake.
  - rewrite H. by destruct d.
Qed.

Lemma wakes_expected s s' calls : wakes s s' → expected s' calls = expected s calls.
Proof. intros Hs. destruct Hs as [s i H|s a H]; apply expected_still; unfold closing; simpl; by rewrite ?H. Qed.

Lemma wakes_ending s s' : wakes s s' → ending (main s') = ending (main s).
Proof. intros Hs. destruct Hs as [s i H|s a H]; [done|]. simpl. by rewrite H. Qed.

Lemma begin_expected c s s' ll calls : inv s ll → begin_call c s s' → expected s' calls = expected s (c :: calls).
Proof.
  intros Hi Hs. destruct Hs as [s j a m' H E|s j m' H E|s H|s H].
  - destruct (malloc_effect _ _ Hi j _ _ E) as (Ep & _ & [[? _]|(a' & [= <-] & Ej & _)]); [done|].
    assert (javail m' = tail (javail (mem s)) ∧ ¬ ∃ l, javail (mem s) = false :: l) as [Ea Hn].
    { unfold malloc_job in E. destruct (javail (mem s)) as [|[] l] eqn:El; simplify_eq;
        (split; [simpl; by rewrite El|]); by intros [? [=]]. }
    unfold expected, closing. simpl. rewrite Ep, H, Ej, lookup_insert_eq, Ea. simpl.
    destruct (bool_decide _); [done|]. simpl. destruct (javail (mem s)) as [|[] l]; try done. by destruct Hn; exists l.
  - destruct (malloc_effect _ _ Hi j _ _ E) as (Ep & _ & [[_ Ej]|(a' & [=] & _)]).
    assert (javail (mem s) = false :: javail m') as Ea.
    { unfold malloc_job in E. by destruct (javail (mem s)) as [|[] l]; simplify_eq. }
    unfold expected, closing. simpl. by rewrite Ep, H, Ea.
  - unfold expected, closing. simpl. rewrite H, orb_true_r. simpl. by destruct (bool_decide _).
  - unfold expected, closing. simpl. rewrite H, orb_true_r. simpl. by destruct (bool_decide _).
Qed.

(** ** How much is left to be done *)

Definition duty_left (d : duty) : nat := match d with Idle => 1 | Working _ => 3 | Gone => 0 end.

(** Every step of the channel but an offer does some of it. *)
Definition work (c : channel) : nat :=
  4 * length (option_list (ch_offer c)) + 3 * length (ch_queue c) + sum_list_with duty_left (ch_crew c) +
  (if ch_closed c then 0 else 1).

Lemma duties_upd ws i x y :
  ws !! i = Some x →
  sum_list_with duty_left (<[i := y]> ws) + duty_left x = sum_list_with duty_left ws + duty_left y.
Proof.
  revert i. induction ws as [|z ws IH]; intros [|i] H; simpl in *; simplify_eq; [lia|]. specialize (IH i H). lia.
Qed.

Lemma chan_work c c' : chan_step c c' → ch_offer c' = None ∨ ch_offer c ≠ None → c' = c ∨ work c' < work c.
Proof.
  intros Hs Ho. destruct Hs as [| | |cap o i j q ws cl dn Hw|cap o i j q ws cl dn Hw|cap q ws cl dn|cap o i ws dn Hw]; unfold work; simpl in *.
  - by destruct Ho.
  - right. rewrite length_app. simpl. lia.
  - right. lia.
  - right. pose proof (duties_upd ws i Idle (Working j) Hw) as E. simpl in E. lia.
  - right. pose proof (duties_upd ws i (Working j) Idle Hw) as E. simpl in E. lia.
  - destruct cl; [by left|right; lia].
  - right. pose proof (duties_upd ws i Idle Gone Hw) as E. simpl in E. lia.
Qed.

(** The block the main thread is about to enqueue. *)
Definition offering (x : mpc) : option loc :=
  match x with
  | ELock a | EEnter a | ETest a | EWait a | ESleep a | ERelock a | ELink a => Some a
  | _ => None
  end.

Lemma offering_offer m x : offer_of m x = offering x ≫= λ a, jobs m !! a.
Proof. by destruct x. Qed.

(** Only a new call brings an offer. *)
Lemma istep_offering s s' a : istep s s' → offering (main s') = Some a → offering (main s) = Some a.
Proof.
  intros Hs. destruct Hs; simpl; try done; try (by match goal with H : main _ = _ |- _ => rewrite H end).
  - by destruct (main s).
  - by destruct d.
Qed.

Lemma istep_work s s' ll :
  inv s ll → istep s s' → channel_of s' = channel_of s ∨ work (channel_of s') < work (channel_of s).
Proof.
  intros Hi Hs. destruct (istep_channel _ _ _ Hi Hs) as [|Hc]; [by left|]. apply chan_work; [done|]. simpl.
  rewrite !offering_offer. destruct (offering (main s')) as [a|] eqn:E; [right|by left].
  pose proof (istep_offering _ _ _ Hs E) as E'. rewrite E'. simpl. destruct (held_somewhere _ _ Hi a) as [j ->]; [|done].
  destruct (main s); simplify_eq/=; by left.
Qed.

(** A call brings at most one job, or none and nothing else. *)
Lemma begin_work c s s' ll :
  inv s ll → call_ok c → begin_call c s s' → work (channel_of s') < 5 + work (channel_of s).
Proof.
  intros Hi Hc Hs. destruct (begin_call_keeps _ _ _ Hc Hs) as [Hstep _ _ _].
  destruct (step_channel _ _ _ Hi Hstep) as [->|Hch]; [lia|].
  generalize dependent (channel_of s'). generalize dependent (channel_of s). intros ch ch' Hch.
  destruct (decide (ch_offer ch' = None ∨ ch_offer ch ≠ None)) as [Hd|Hn].
  - destruct (chan_work _ _ Hch Hd) as [->|]; lia.
  - destruct Hch; try (exfalso; apply Hn; simpl; by auto). unfold work. simpl. lia.
Qed.

(** ** The driven system *)

Record driven := Dr {
  dr_calls : list mcall;       (* what the manager's thread has still to call *)
  dr_sys : system
}.

Section driver.
Variable logfile : ptr Z.
Variable self : nat → Z.
Variable route : bytes → Z → option nat.
Abbreviation sstep := (sstep logfile self route).

(** The main thread makes its next call, a thread inside the pool goes on (a
    worker with its transfer, when it gets a job or has finished one), or a
    process of the network does. *)
Inductive dstep : driven → driven → Prop :=
| d_call c calls p p' n :
    begin_call c p p' → dstep (Dr (c :: calls) (Sy p n)) (Dr calls (Sy p' n))
| d_pool calls y y' :
    sstep y y' → istep (s_pool y) (s_pool y') → dstep (Dr calls y) (Dr calls y')
| d_net calls p n n' :
    nstep None route n n' → dstep (Dr calls (Sy p n)) (Dr calls (Sy p n')).

Inductive dwake : driven → driven → Prop :=
| d_wake calls p p' n : wakes p p' → dwake (Dr calls (Sy p n)) (Dr calls (Sy p' n)).

Definition drun (d d' : driven) : Prop := dstep d d' ∨ dwake d d'.

Variable ws : list os.
Variable cs : list cst.
Variable is_source : nat → bool.
Variable fate_of : sync_job → fate.
Variables (b : Z) (av : list bool).
Context (Hsetup : net_setup route is_source ws cs) (Hws : 0 < length ws) (Hb : (0 < b ≤ int_max)%Z).

Abbreviation start := (Sy (init (length ws) b av) (initial ws cs)).
Abbreviation sys_inv := (sys_inv logfile self route ws cs b av).
Abbreviation job_ok := (job_ok route is_source fate_of cs).

(** The calls that are left end with [destroy_thread_pool]. *)
Definition to_the_end (calls : list mcall) (x : mpc) : Prop :=
  if ending x then calls = [] else ∃ l, calls = l ++ [CDestroy] ∧ CDestroy ∉ l.

Record drv_inv (js : list sync_job) (d : driven) : Prop := {
  di_sys : sys_inv (dr_sys d);
  di_calls : Forall call_ok (dr_calls d);
  di_end : to_the_end (dr_calls d) (main (s_pool (dr_sys d)));
  di_jobs : expected (s_pool (dr_sys d)) (dr_calls d) = js
}.

Lemma drv_inv_start l :
  Forall call_ok l → CDestroy ∉ l → drv_inv (admitted av (l ++ [CDestroy])) (Dr (l ++ [CDestroy]) start).
Proof.
  intros Hl Hd. split; simpl; [by apply sys_inv_start| | |done].
  - apply Forall_app. split; [done|]. by constructor.
  - by exists l.
Qed.

(** What a step is to the system. *)
Lemma drun_sstep js d d' :
  drv_inv js d → drun d d' → sstep (dr_sys d) (dr_sys d').
Proof.
  intros [_ Hc _ _] [Hs|Hs]; destruct Hs; simpl in *.
  - apply Forall_cons in Hc as [Hc _]. apply s_pool_step. by eapply begin_call_keeps.
  - done.
  - by apply s_net_step.
  - apply s_pool_step. by apply wakes_keeps.
Qed.

Lemma begin_to_the_end c calls p p' :
  begin_call c p p' → to_the_end (c :: calls) (main p) → to_the_end calls (main p').
Proof.
  intros Hb'. assert (main p = MIdle) as -> by (by destruct Hb'). intros ([|c' l] & [= -> ->] & Hl).
  - by inversion Hb'.
  - apply not_elem_of_cons in Hl as [Hne Hl]. inversion Hb'; subst; done || by exists l.
Qed.

Lemma drv_inv_run js d d' : drun d d' → drv_inv js d → drv_inv js d'.
Proof.
  intros Hr Hd. pose proof (drun_sstep _ _ _ Hd Hr) as Hs. destruct Hd as [H1 H2 H3 H4].
  pose proof (sys_inv_step logfile self route ws cs b av Hws Hb _ _ Hs H1) as H1'.
  destruct (pool_inv logfile self route ws cs b av Hws Hb _ H1) as [ll Hi].
  destruct Hr as [Hr|Hr]; [destruct Hr as [c calls p p' n H|calls y y' _ H|calls p n n' H]|destruct Hr as [calls p p' n H]]; simpl in *.
  - apply Forall_cons in H2 as [_ H2]. split; simpl; [done|done|by eapply begin_to_the_end|].
    by rewrite (begin_expected _ _ _ _ _ Hi H).
  - split; simpl; [done|done| |by rewrite (istep_expected _ _ _ _ Hi H)].
    unfold to_the_end. by rewrite (istep_ending _ _ _ Hi H).
  - by split.
  - split; simpl; [done|done| |by rewrite (wakes_expected _ _ _ H)].
    unfold to_the_end. by rewrite (wakes_ending _ _ H).
Qed.

Lemma drv_inv_reached js d d' : rtc drun d d' → drv_inv js d → drv_inv js d'.
Proof. induction 1 as [|d d1 d2 Hs _ IH]; intros Hd; [done|]. by eapply IH, drv_inv_run. Qed.

(** ** Every run ends *)

Definition left_to_do (d : driven) : nat := 5 * length (dr_calls d) + work (channel_of (s_pool (dr_sys d))).

Lemma driven_sn js d : drv_inv js d → sn dstep d.
Proof.
  remember (left_to_do d) as k eqn:Hk. revert d Hk. induction k as [k IHk] using lt_wf_ind.
  intros [calls [p n]] Hk Hd. unfold left_to_do in Hk. simpl in Hk.
  destruct (pool_inv logfile self route ws cs b av Hws Hb _ (di_sys _ _ Hd)) as [ll Hi]. simpl in Hi.
  pose proof (silent_sn p ll Hi) as Hp. clear ll Hi. revert n Hk Hd. induction Hp as [p _ IHp]. intros n Hk Hd.
  assert (net_inv logfile self route (length cs) n) as Hn.
  { eapply (sys_net_inv logfile self route ws cs is_source b av Hsetup (Sy p n)). apply (di_sys _ _ Hd). }
  pose proof (network_sn logfile self None route (length cs) (ns_route _ _ _ _ Hsetup) n Hn) as Hsn. clear Hn.
  revert Hd. induction Hsn as [n _ IHn]. intros Hd. constructor. intros d' Hs.
  pose proof (drv_inv_run js _ _ (or_introl Hs) Hd) as Hd'.
  destruct (pool_inv logfile self route ws cs b av Hws Hb _ (di_sys _ _ Hd)) as [ll Hi]. unfold flip in *. simpl in Hi.
  inversion Hs as [c calls' p1 p' n1 H|calls1 y y' Hss H|calls1 p1 n1 n' H]; subst.
  - pose proof (di_calls _ _ Hd) as [Hc _]%Forall_cons. pose proof (begin_work _ _ _ _ Hi Hc H).
    eapply IHk; [|done|done]. unfold left_to_do. simpl. lia.
  - destruct y' as [p' n']. simpl in H. destruct (istep_work _ _ _ Hi H) as [E|Hlt].
    + apply (IHp p'); [by split|by rewrite E|done].
    + eapply IHk; [|done|done]. unfold left_to_do. simpl. lia.
  - apply IHn; [by left|done].
Qed.

(** ** Where nobody can go on *)

Lemma admitted_all js d job : drv_inv js d → job ∈ accepted (s_pool (dr_sys d)) → job ∈ js.
Proof. intros Hd Hj. rewrite <-(di_jobs _ _ Hd). unfold expected. set_solver. Qed.

(** The manager's thread has made all its calls and is back from the last. *)
Lemma driven_stuck js d :
  drv_inv js d → (∀ job, job ∈ js → job_ok job) → nf dstep d →
  dr_calls d = [] ∧ main (s_pool (dr_sys d)) = MDone ∧ accepted (s_pool (dr_sys d)) = js ∧ quiet (s_net (dr_sys d)).
Proof.
  intros Hd Hjobs Hnf. pose proof Hd as [Hy Hc He Hj]. destruct d as [calls [p n]]. simpl in *.
  destruct (sys_rests logfile self route ws cs is_source fate_of b av Hsetup Hws Hb (Sy p n) Hy) as [Hq Hno].
  { intros job Hjob. by eapply Hjobs, (admitted_all js _ job Hd). }
  { intros n' Hs. apply Hnf. eexists. by apply d_net. }
  { intros y' Hs Hss. apply Hnf. eexists. by eapply d_pool. }
  simpl in *. unfold to_the_end in He.
  destruct (sys_quiescent logfile self route ws cs b av Hws Hb (Sy p n) Hy Hno) as (_ & _ & [[Hm _]|[Hm _]]); simpl in Hm.
  - rewrite Hm in He. destruct He as (l & -> & _). exfalso. destruct l as [|c l]; simpl in *.
    + destruct (begin_call_exists CDestroy p Hm) as [p' Hb']. apply Hnf. eexists. by apply d_call.
    + destruct (begin_call_exists c p Hm) as [p' Hb']. apply Hnf. eexists. by apply d_call.
  - rewrite Hm in He. simpl in He. subst calls. split_and!; [done|done| |done].
    destruct (pool_inv logfile self route ws cs b av Hws Hb _ Hy) as [ll Hi]. pose proof (main_at _ _ Hi) as Hok.
    simpl in Hok. rewrite Hm in Hok. destruct Hok as [Hsd _]. unfold expected, closing in Hj.
    by rewrite bool_decide_true, app_nil_r in Hj.
Qed.

(** The manager's thread makes the calls [l] and then [destroy_thread_pool]. *)
Lemma driven_works (l : list mcall) (js := admitted av (l ++ [CDestroy])) (d : driven) :
  Forall call_ok l → CDestroy ∉ l → (∀ job, job ∈ js → job_ok job) → consistent route fate_of js →
  rtc drun (Dr (l ++ [CDestroy]) start) d →
  sn dstep d ∧
  (nf dstep d →
    dr_calls d = [] ∧ main (s_pool (dr_sys d)) = MDone ∧ accepted (s_pool (dr_sys d)) = js ∧
    finished (s_pool (dr_sys d)) ≡ₚ js ∧ length (nds (s_net (dr_sys d))) = length cs ∧
    delivered route fate_of cs js (s_net (dr_sys d))).
Proof.
  intros Hl Hnd Hjobs Hsame Hr. pose proof (drv_inv_reached _ _ _ Hr (drv_inv_start l Hl Hnd)) as Hd.
  split; [by eapply driven_sn|]. intros Hnf.
  destruct (driven_stuck _ _ Hd Hjobs Hnf) as (E1 & E2 & E3 & Hq). do 3 (split; [done|]).
  destruct (sys_delivered logfile self route ws cs is_source fate_of b av Hsetup Hws Hb (dr_sys d)) as (F1 & F2 & F3);
    [apply Hd|intros job Hjob; by eapply Hjobs, (admitted_all _ _ job Hd)|by rewrite E3|done|done|].
  rewrite E3 in *. by split_and!.
Qed.

(** C3: the whole system, driven by the manager's thread, works: let the
    thread make any calls, each when the one before has returned, and last
    [destroy_thread_pool].  In every state the system can reach, by any
    interleaving and with any spurious wakeups, the runs from there with
    finitely many further spurious wakeups are finite; and where nobody can go
    on the thread is back from [destroy_thread_pool], exactly the jobs added
    before the first shutdown, but those for which there was no memory, have
    been accepted, in the order of the calls, and each has been processed once.
    A job for which clients listen at both addresses, and whose source has the
    file, is done: the file is at the target with the source's content.  The
    others have returned -1, and no other file of any client has changed. *)
Theorem driver_synchronises (l : list mcall) (js := admitted av (l ++ [CDestroy])) (d : driven)
    (Hl : Forall call_ok l) (Hlast : CDestroy ∉ l) (Hjobs : ∀ job, job ∈ js → job_ok job)
    (Hsame : consistent route fate_of js) (Hr : rtc drun (Dr (l ++ [CDestroy]) start) d) :
  sn dstep d ∧
  (nf dstep d →
    dr_calls d = [] ∧ main (s_pool (dr_sys d)) = MDone ∧ accepted (s_pool (dr_sys d)) = js ∧
    finished (s_pool (dr_sys d)) ≡ₚ js ∧ delivered route fate_of cs js (s_net (dr_sys d))).
Proof.
  destruct (driven_works l d Hl Hlast Hjobs Hsame Hr) as [Hsn H]. split; [done|].
  intros Hnf. by destruct (H Hnf) as (? & ? & ? & ? & _ & ?).
Qed.
End driver.
