(* ===== verification/Recorder.v ===== *)
(** * The calls of the manager

    An instance of [JobSink] that only writes down the calls: run with it, the
    functions of [Manager.v] yield the sequence of calls that the manager's
    thread makes in [Driver.v].  It answers as the pool of [PoolSteps.v] does
    in every interleaving, as far as the manager can see: a job is created,
    [enqueue_sync_job] returns 0 before the first shutdown and -1 after it.
    Memory for a job is always found here. *)
From S2P Require Import Prelude.
From S2P Require Import CString.
From S2P Require Import Common.
From S2P Require Import JobSink.
From S2P Require Import Driver.
From stdpp Require Import gmap strings list.
From Stdlib Require Import Ascii ZArith Lia.

#[global] Instance mcall_eq_dec : EqDecision mcall.
Proof. solve_decision. Defined.

Record trace := Tr {
  t_calls : list mcall;               (* the calls, in order *)
  t_jobs : gmap loc sync_job;         (* the jobs that the manager holds *)
  t_brk : loc
}.

Definition t_record (c : mcall) (t : trace) : trace := Tr (t_calls t ++ [c]) (t_jobs t) (t_brk t).
Definition t_drop (a : loc) (t : trace) : trace := Tr (t_calls t) (delete a (t_jobs t)) (t_brk t).

Definition is_add (c : mcall) : bool := match c with CAdd _ => true | _ => false end.

(** A shutdown is among the calls. *)
Definition t_closed (t : trace) : bool := negb (forallb is_add (t_calls t)).

Definition trace_new (n b : Z) (script : list bool) : ptr trace :=
  if forallb id script then Some (Tr [] ∅ 1) else NULL.

Definition trace_create (j : sync_job) : M trace (ptr loc) := λ t,
  Ret (Some (t_brk t)) (Tr (t_calls t) (<[t_brk t := j]> (t_jobs t)) (t_brk t + 1)%positive).

Definition trace_job (a : loc) : M trace sync_job :=
  t <- get ;; match t_jobs t !! a with Some j => ret j | None => undef UseAfterFree end.

Definition trace_enqueue (job : ptr loc) : M trace Z :=
  match job with
  | NULL => ret (-1)%Z
  | Some a =>
      j <- trace_job a ;;
      closed <- gets t_closed ;;
      modify (t_record (CAdd j)) ;;;
      if closed : bool then ret (-1)%Z else
      modify (t_drop a) ;;;
      ret 0%Z
  end.

Definition trace_free (job : ptr loc) : M trace unit :=
  match job with NULL => ret tt | Some a => trace_job a ;;; modify (t_drop a) end.

Definition trace_shutdown : M trace unit := modify (t_record CShutdown).
Definition trace_destroy : M trace unit := modify (t_record CDestroy).

(** Between two calls, before the last. *)
Record trace_inv (t : trace) : Prop := {
  tv_calls : Forall call_ok (t_calls t);
  tv_last : CDestroy ∉ t_calls t;
  tv_jobs : ∀ a j, t_jobs t !! a = Some j → job_next j = NULL
}.

(** What the pool will have accepted. *)
Definition trace_accepted (t : trace) : list sync_job := admitted [] (t_calls t).

Definition trace_owned (t : trace) (a : loc) (j : sync_job) : Prop := t_jobs t !! a = Some j.
Definition trace_room (t : trace) (n : nat) : Prop := t_closed t = false.

(** What comes after a shutdown is not accepted. *)
Lemma admitted_app calls l :
  admitted [] (calls ++ l) = admitted [] calls ++ (if forallb is_add calls then admitted [] l else []).
Proof. induction calls as [|[j| |] calls IH]; simpl; [done|by rewrite IH|done|done]. Qed.

Lemma accepted_record c t :
  trace_accepted (t_record c t) = trace_accepted t ++ (if t_closed t then [] else admitted [] [c]).
Proof. unfold trace_accepted, t_closed, t_record. simpl. rewrite admitted_app. by destruct (forallb is_add (t_calls t)). Qed.

Lemma closed_record c t : t_closed (t_record c t) = t_closed t || negb (is_add c).
Proof. unfold t_closed. simpl. rewrite forallb_app, negb_andb. simpl. by rewrite andb_true_r. Qed.

Lemma inv_record c t : trace_inv t → call_ok c → c ≠ CDestroy → trace_inv (t_record c t).
Proof.
  intros [H1 H2 H3] Hc Hne. split; simpl; [|set_solver|done]. apply Forall_app. split; [done|]. by constructor.
Qed.

Lemma inv_drop a t : trace_inv t → trace_inv (t_drop a t).
Proof. intros [H1 H2 H3]. split; simpl; [done..|]. intros x j [_ ?]%lookup_delete_Some. by eapply H3. Qed.

Lemma inv_create t j :
  trace_inv t → job_next j = NULL → trace_inv (Tr (t_calls t) (<[t_brk t := j]> (t_jobs t)) (t_brk t + 1)%positive).
Proof.
  intros [H1 H2 H3] Hj. split; simpl; [done..|].
  intros x jx [[<- <-]|[_ ?]]%lookup_insert_Some; [done|by eapply H3].
Qed.

Lemma wp_trace_job b a j t Q : t_jobs t !! a = Some j → Q j t → wpb b (trace_job a) Q t.
Proof. intros H HQ. unfold wpb, trace_job, bind, get. by rewrite H. Qed.

(** [trace_enqueue] of the caller's block. *)
Lemma wp_trace_enqueue b a j t Q :
  t_jobs t !! a = Some j →
  (if t_closed t then Q (-1)%Z (t_record (CAdd j) t) else Q 0%Z (t_drop a (t_record (CAdd j) t))) →
  wpb b (trace_enqueue (Some a)) Q t.
Proof.
  intros H HQ. unfold trace_enqueue. apply wpb_bind. eapply wp_trace_job; [done|]. apply wpb_bind, wpb_gets.
  apply wpb_bind, wpb_modify. destruct (t_closed t); [by apply wpb_ret|]. by apply wpb_bind, wpb_modify, wpb_ret.
Qed.

(** ** The laws *)

Lemma trace_new_spec n b script t :
  (0 < n)%Z → (0 < b ≤ int_max)%Z → trace_new n b script = Some t →
  trace_inv t ∧ trace_accepted t = [] ∧ t_closed t = false ∧ trace_room t (Z.to_nat b).
Proof.
  intros _ _. unfold trace_new. destruct (forallb id script); [|done]. intros [= <-].
  split_and!; [|done..]. split; simpl; [done|by intros ?%elem_of_nil|]. intros a j. by rewrite lookup_empty.
Qed.

Lemma trace_create_spec j t :
  trace_inv t → job_next j = NULL →
  wlp (trace_create j) (λ r t', trace_inv t' ∧ trace_accepted t' = trace_accepted t ∧
    t_closed t' = t_closed t ∧ ∀ a, r = Some a → trace_owned t' a j) t.
Proof.
  intros Ht Hj. unfold wpb, trace_create. split; [by apply inv_create|]. split; [done|]. split; [done|].
  intros a [= <-]. apply lookup_insert_eq.
Qed.

Lemma trace_enqueue_spec a j t :
  trace_inv t → trace_owned t a j →
  wlp (trace_enqueue (Some a)) (λ r t', trace_inv t' ∧
    (r = 0%Z ∧ t_closed t' = false ∧ trace_accepted t' = trace_accepted t ++ [j] ∨
     r = (-1)%Z ∧ t_closed t' = true ∧ trace_accepted t' = trace_accepted t ∧ trace_owned t' a j)) t.
Proof.
  intros Ht Hj. assert (trace_inv (t_record (CAdd j) t)) as Ht' by (apply inv_record; [done|by eapply Ht|done]).
  eapply wp_trace_enqueue; [exact Hj|]. destruct (t_closed t) eqn:E; (split; [done || by apply inv_drop|]).
  - right. split; [done|]. by rewrite closed_record, accepted_record, E, app_nil_r.
  - left. split; [done|]. split; [|change (trace_accepted (t_record (CAdd j) t) = trace_accepted t ++ [j])].
    + change (t_closed (t_record (CAdd j) t) = false). by rewrite closed_record, E.
    + by rewrite accepted_record, E.
Qed.

Lemma trace_room_spec n j t :
  trace_inv t → trace_room t (S n) → job_next j = NULL →
  wp (trace_create j) (λ r t1, ∃ a, r = Some a ∧
    wp (trace_enqueue (Some a)) (λ z t2, z = 0%Z ∧ trace_inv t2 ∧
      trace_accepted t2 = trace_accepted t ++ [j] ∧ trace_room t2 n) t1) t.
Proof.
  intros Ht Hroom Hj. unfold wpb at 1, trace_create. eexists. split; [done|].
  set (t1 := Tr (t_calls t) (<[t_brk t := j]> (t_jobs t)) (t_brk t + 1)%positive).
  assert (t_closed t1 = false) as Hop by exact Hroom.
  assert (trace_inv t1) as Ht1 by (by apply inv_create).
  eapply wp_trace_enqueue; [apply lookup_insert_eq|]. rewrite Hop. split; [done|].
  split; [by apply inv_drop, inv_record|]. split.
  - change (trace_accepted (t_record (CAdd j) t1) = trace_accepted t ++ [j]). by rewrite accepted_record, Hop.
  - change (t_closed (t_record (CAdd j) t1) = false). by rewrite closed_record, Hop.
Qed.

Lemma trace_free_spec a j t :
  trace_inv t → trace_owned t a j →
  wlp (trace_free (Some a)) (λ _ t', trace_inv t' ∧ trace_accepted t' = trace_accepted t ∧ t_closed t' = t_closed t) t.
Proof.
  intros Ht Hj. unfold trace_free. apply wpb_bind. eapply wp_trace_job; [exact Hj|]. apply wpb_modify.
  split; [by apply inv_drop|done].
Qed.

Lemma trace_shutdown_spec t :
  trace_inv t →
  wp trace_shutdown (λ _ t', trace_inv t' ∧ trace_accepted t' = trace_accepted t ∧ t_closed t' = true) t.
Proof.
  intros Ht. apply wpb_modify. split; [by apply inv_record|].
  rewrite accepted_record, closed_record, orb_true_r. split; [|done]. by destruct (t_closed t); simpl; rewrite app_nil_r.
Qed.

Lemma trace_destroy_spec t : trace_inv t → wp trace_destroy (λ _ _, True) t.
Proof. intros _. by apply wpb_modify. Qed.

#[global] Instance trace_sink : JobSink trace := {|
  sink_new := trace_new;
  sink_create := trace_create;
  sink_enqueue := trace_enqueue;
  sink_free := trace_free;
  sink_shutdown := trace_shutdown;
  sink_destroy := trace_destroy;
  sink_inv := trace_inv;
  sink_accepted := trace_accepted;
  sink_closed := t_closed;
  sink_owned := trace_owned;
  sink_room := trace_room;
  sink_new_spec := trace_new_spec;
  sink_create_spec := trace_create_spec;
  sink_enqueue_spec := trace_enqueue_spec;
  sink_room_spec := trace_room_spec;
  sink_free_spec := trace_free_spec;
  sink_shutdown_spec := trace_shutdown_spec;
  sink_destroy_spec := trace_destroy_spec |}.
