(* ===== verification/SystemDirectory.v ===== *)
(** * A directory, copied by the whole system

    The jobs that [start_directory_sync] makes of a listing ([Directory.v]),
    worked off by the pool's workers and the two clients in any interleaving
    ([System.v]). *)
From S2P Require Import Prelude.
From S2P Require Import LinkedList.
From S2P Require Import CString.
From S2P Require Import Common.
From S2P Require Import JobSink.
From S2P Require Import JobQueue.
From S2P Require Import PoolSteps.
From S2P Require Import PoolJobs.
From S2P Require Import OS.
From S2P Require Import Utils.
From S2P Require Import DirSpec.
From S2P Require Import SyncInfo.
From S2P Require Import Client.
From S2P Require Import Transfer.
From S2P Require Import Manager.
From S2P Require Import ManagerSpec.
From S2P Require Import EndToEnd.
From S2P Require Import Directory.
From S2P Require Import Fate.
From S2P Require Import Programs.
From S2P Require Import Replay.
From S2P Require Import Protocol.
From S2P Require Import Network.
From S2P Require Import NetInv.
From S2P Require Import NetNode.
From S2P Require Import NetRuns.
From S2P Require Import NetFiles.
From S2P Require Import NetDelivers.
From S2P Require Import System.
From stdpp Require Import gmap strings list.
From Stdlib Require Import Ascii ZArith Lia.

Section directory.
Variable logfile : ptr Z.
Variable self : nat → Z.
Variable route : bytes → Z → option nat.
Variable ws : list os.
Variables (b : Z) (av : list bool).
Context (i : sync_info) (entries : list bytes) (src tgt src1 : cst).
Context (Hsu : sync_setup i entries src tgt).
Context (Hsrc : route (source_host i) (source_port i) = Some 0) (Htgt : route (target_host i) (target_port i) = Some 1).

Lemma job_for_hosts d :
  length d < MAX_FILENAME →
  job_source_host (job_for i d) = source_host i ∧ job_source_port (job_for i d) = source_port i ∧
  job_target_host (job_for i d) = target_host i ∧ job_target_port (job_for i d) = target_port i.
Proof.
  intros Hd. destruct (su_fits _ _ _ _ Hsu) as (H1 & H2 & H3 & H4). unfold job_for, make_job, strncpy_z.
  cbn [job_source_host job_source_port job_target_host job_target_port]. by rewrite !take_ge by lia.
Qed.

(** The first client is the source. *)
Definition first_source (j : nat) : bool := match j with 0 => true | _ => false end.
Definition source_fate : sync_job → fate := fate_at route (cos src).

Lemma directory_job d :
  files (cos src1) = files (cos src) → d ∈ names_of i entries src →
  NetFiles.job_ok route first_source source_fate [src1; tgt] (job_for i d) ∧
  source_fate (job_for i d) = Copied (content_of i src d) ∧
  destination (job_for i d) = relative_path (target_file i d) ∧
  route (job_target_host (job_for i d)) (job_target_port (job_for i d)) = Some 1.
Proof.
  intros Hf Hd. pose proof (name_short i entries src tgt Hsu d Hd) as Hlen.
  destruct (job_for_paths i d (su_fits _ _ _ _ Hsu) Hlen) as (E1 & E2 & E3).
  destruct (job_for_hosts d Hlen) as (H1 & H2 & H3 & H4).
  pose proof (su_names _ _ _ _ Hsu) as HN. rewrite Forall_forall in HN. destruct (HN d Hd) as (_ & Hp & Hdir).
  pose proof (su_sizes _ _ _ _ Hsu) as HS. rewrite Forall_forall in HS. specialize (HS d Hd).
  destruct (su_hosts _ _ _ _ Hsu) as [Hh1 Hh2]. pose proof (name_content i entries src tgt Hsu d Hd) as Hcont.
  assert (source_fate (job_for i d) = Copied (content_of i src d)) as Ec.
  { unfold source_fate, fate_at. by rewrite H1, H2, Hsrc, H3, H4, Htgt, E1, Hcont. }
  split; [|split_and!; [done|unfold destination; by rewrite E2|by rewrite H3, H4]]. split; rewrite Ec.
  - split; [by rewrite H1|]. exists 0, src1. rewrite H1, H2. split_and!; [done..|]. split; rewrite ?E1; [|by rewrite Hf|done].
    by eapply name_fetchable.
  - intros _. split; [by rewrite H3|]. exists 1, tgt. rewrite H3, H4. split_and!; [done..|]. split; [by rewrite E2|].
    unfold destination. by rewrite E2.
Qed.

(** What the system starts from: the source still holds its files, both clients
    can serve, and the hosts are theirs. *)
Record dir_setup : Prop := {
  dr_workers : Forall worker_idle ws;
  dr_route : ∀ host port j, route host port = Some j → j < 2;
  dr_files : files (cos src1) = files (cos src);
  dr_source : ready_client src1 ∧ OS.sys (cos src1) = [] ∧ Forall progress (io (cos src1));
  dr_target : socks (cos tgt) = ∅
}.

Context (Hdir : dir_setup).
Let names := names_of i entries src.

Lemma dir_net_setup : net_setup route first_source ws [src1; tgt].
Proof.
  destruct (su_tgt _ _ _ _ Hsu) as (Hcur & Hsyst & Hiot), Hdir as [H1 H2 H3 (H4 & H5 & H6) H7].
  split; [done| |done]. intros [|[|j]] s; simpl; intros [= <-]; split; simpl; try done.
  split; [done|]. unfold current_ok. rewrite Hcur. lia.
Qed.

Lemma dir_jobs job :
  job ∈ job_for i <$> names → NetFiles.job_ok route first_source source_fate [src1; tgt] job.
Proof. intros (d & -> & Hd)%list_elem_of_fmap. apply directory_job; [apply Hdir|done]. Qed.

Lemma dir_consistent : consistent route source_fate (job_for i <$> names).
Proof.
  intros j1 j2 data1 data2 (d1 & -> & H1)%list_elem_of_fmap (d2 & -> & H2)%list_elem_of_fmap F1 F2 _.
  destruct (directory_job d1 (dr_files Hdir) H1) as (_ & E1 & -> & _).
  destruct (directory_job d2 (dr_files Hdir) H2) as (_ & E2 & -> & _).
  intros E%target_file_inj; [subst; congruence|apply Hsu].
Qed.

(** The listed files are at the target; the others, and the source, are as before. *)
Definition dir_copied (n : net) : Prop :=
  ∃ s t, nds n !! 0 = Some s ∧ nds n !! 1 = Some t ∧ files (cos (n_st s)) = files (cos src) ∧
    (∀ d, d ∈ names → files (cos (n_st t)) !! relative_path (target_file i d) =
       files (cos src) !! relative_path (source_file i d)) ∧
    ∀ p, (∀ d, d ∈ names → p ≠ relative_path (target_file i d)) → files (cos (n_st t)) !! p = files (cos tgt) !! p.

Lemma delivered_copied n :
  length (nds n) = 2 → delivered route source_fate [src1; tgt] (job_for i <$> names) n → dir_copied n.
Proof.
  intros Hlen [_ D2 D3]. pose proof (dr_files Hdir) as Hfiles.
  destruct (nds n) as [|s [|t [|? ?]]] eqn:E; try done. exists s, t. rewrite E. split_and!; [done|done|..].
  - apply map_eq. intros p. rewrite <-Hfiles. apply (D3 0); [by rewrite ?E|done|].
    intros job data (d & -> & Hd)%list_elem_of_fmap _. by destruct (directory_job d Hfiles Hd) as (_ & _ & _ & ->).
  - intros d Hd. destruct (directory_job d Hfiles Hd) as (_ & E1 & E2 & E3).
    destruct (D2 (job_for i d) _ (list_elem_of_fmap_2 _ _ _ Hd) E1) as (j & nd & Hj & Hnd & Hf).
    rewrite E3 in Hj. injection Hj as <-. injection Hnd as <-.
    rewrite E2 in Hf. rewrite Hf. symmetry. by eapply name_content.
  - intros p Hp. apply (D3 1); [by rewrite ?E|done|]. intros job data (d & -> & Hd)%list_elem_of_fmap _ _.
    destruct (directory_job d Hfiles Hd) as (_ & _ & -> & _). by apply Hp.
Qed.

(** A directory is copied by the whole system: let the pool have accepted the
    jobs that [start_directory_sync] makes of the source's listing, and
    [destroy_thread_pool] have set the flag.  However the pool's threads, the
    workers' transfers and the clients have been and will be interleaved,
    every run is finite, and when nobody can go on [destroy_thread_pool] has
    returned and the directory has been copied. *)
Lemma directory_delivered (y : system)
    (Hb : (0 < b ≤ int_max)%Z) (Hn : 0 < length ws)
    (Hr : rtc (sstep logfile self route) (Sy (init (length ws) b av) (initial ws [src1; tgt])) y)
    (Hm : PoolSteps.main (s_pool y) = JJoin) (Hacc : accepted (s_pool y) = job_for i <$> names) :
  sn (sstep logfile self route) y ∧
  ∀ y', rtc (sstep logfile self route) y y' → nf (sstep logfile self route) y' →
    PoolSteps.main (s_pool y') = MDone ∧ dir_copied (s_net y').
Proof.
  destruct (system_works logfile self route ws [src1; tgt] first_source source_fate b av dir_net_setup Hn Hb y Hr Hm)
    as [Hsn Hend]; rewrite Hacc in *; [exact dir_jobs|exact dir_consistent|].
  split; [done|]. intros y' Hs Hnf. destruct (Hend y' Hs Hnf) as (Hdone & _ & Hlen & Hdel).
  split; [done|]. by apply delivered_copied.
Qed.
End directory.

(** ** An example: the two files of [Directory.v] *)

Definition demo_route (host : bytes) (port : Z) : option nat :=
  if bool_decide (host = lit "10.0.0.1") then Some 0 else
  if bool_decide (host = lit "10.0.0.2") then Some 1 else None.

Definition demo_worker : os := Os ∅ ∅ ∅ [] [] [] [] (Tm 125 0 1 0 0 0) [] [].

(** Steps at which the only worker waits for the mutex. *)
Definition idle_step (p p' : PoolSteps.sys) : Prop := step p p' ∧ PoolSteps.workers p' = [WLock] ∧ finished p' = [].

Lemma idle_steps logfile self route p p' n :
  rtc idle_step p p' → PoolSteps.workers p = [WLock] → finished p = [] →
  rtc (sstep logfile self route) (Sy p n) (Sy p' n).
Proof.
  induction 1 as [p|p p1 p2 (Hs & Hw1 & Hf1) _ IH]; intros Hw Hf; [apply rtc_refl|].
  eapply rtc_l; [|by apply IH]. apply s_pool_step. split; [done| |by rewrite Hw, Hw1|by rewrite Hf, Hf1].
  intros k a. unfold at_worker. by rewrite Hw, Hw1.
Qed.

Ltac demo_eval :=
  match goal with |- rtc idle_step ?s ?t => let s' := eval vm_compute in s in change (rtc idle_step s' t) end.

Tactic Notation "demo_go" open_constr(r) :=
  eapply rtc_l; [split; [left; eapply r; first [reflexivity | vm_compute; reflexivity] | done] |]; demo_eval.

Tactic Notation "demo_enqueue" constr(j) constr(a) :=
  eapply rtc_l; [split; [right; apply (m_create _ j a); reflexivity | done] |];
  demo_go m_lock; demo_go m_enter; demo_go m_test_go;
  eapply rtc_l; [split; [left; eapply m_link; [vm_compute; reflexivity..|]; right; split;
    [vm_compute; set_solver | reflexivity] | done] |]; demo_eval.

(** The manager enqueues both jobs and destroys the pool. *)
Lemma demo_accepts :
  ∃ p, rtc idle_step (init 1 2 []) p ∧ PoolSteps.main p = JJoin ∧
    accepted p = job_for (new_entry 7 pair_a) <$> [lit "a"; lit "b"].
Proof.
  eexists. split.
  { demo_enqueue (job_for (new_entry 7 pair_a) (lit "a")) 1%positive.
    demo_enqueue (job_for (new_entry 7 pair_a) (lit "b")) 2%positive.
    eapply rtc_l; [split; [right; by apply (m_shutdown _ true)|done]|].
    demo_go (m_slock _ true). demo_go (m_sset _ true). apply rtc_refl. }
  by split.
Qed.
