(* ===== verification/ManagerSystem.v ===== *)
(** * The manager and the system it drives

    The whole path of a pair, from the source's listing to the last file: the
    calls that [Manager.v] makes, written down by [Recorder.v], are made by
    the main thread of [Driver.v]. *)
From S2P Require Import Prelude.
From S2P Require Import LinkedList.
From S2P Require Import CString.
From S2P Require Import Common.
From S2P Require Import JobSink.
From S2P Require Import JobQueue.
From S2P Require Import PoolSteps.
From S2P Require Import PoolJobs.
From S2P Require Import OS.
From S2P Require Import Utils.
From S2P Require Import DirSpec.
From S2P Require Import SyncInfo.
From S2P Require Import Client.
From S2P Require Import Transfer.
From S2P Require Import Manager.
From S2P Require Import ManagerSpec.
From S2P Require Import EndToEnd.
From S2P Require Import Directory.
From S2P Require Import Fate.
From S2P Require Import Programs.
From S2P Require Import Replay.
From S2P Require Import Protocol.
From S2P Require Import Network.
From S2P Require Import NetInv.
From S2P Require Import NetNode.
From S2P Require Import NetRuns.
From S2P Require Import NetFiles.
From S2P Require Import NetDelivers.
From S2P Require Import System.
From S2P Require Import ManagerLife.
From S2P Require Import ManagerTypes.
From S2P Require Import Driver.
From S2P Require Import Recorder.
From S2P Require Import SystemDirectory.
From stdpp Require Import gmap strings list.
From Stdlib Require Import Ascii ZArith Lia.

(** The pool has just been created. *)
Definition new_trace : trace := Tr [] ∅ 1.

Lemma new_trace_inv : trace_inv new_trace.
Proof. by apply (trace_new_spec 1 1 []). Qed.

(** What the manager has the pool do, up to the end. *)
Definition all_calls (t : trace) : list mcall := t_calls t ++ [CDestroy].

Lemma all_calls_admitted t : admitted [] (all_calls t) = trace_accepted t.
Proof. unfold all_calls. rewrite admitted_app. by destruct (forallb _ _); rewrite ?app_nil_r. Qed.

(** ** Whatever the manager is asked *)

Section requests.
Variable logfile : ptr Z.
Variable self : nat → Z.
Variable route : bytes → Z → option nat.
Variable ws : list os.
Variable cs : list cst.
Variable is_source : nat → bool.
Variable fate_of : sync_job → fate.
Variable b : Z.
Context (Hsetup : net_setup route is_source ws cs) (Hn : 0 < length ws) (Hb : (0 < b ≤ int_max)%Z).

(** The manager's thread makes the calls, ending with [destroy_thread_pool]:
    every job that the pool was given is worked off. *)
Definition calls_carried_out (calls : list mcall) (js := admitted [] calls) : Prop :=
  (∀ job, job ∈ js → NetFiles.job_ok route is_source fate_of cs job) → consistent route fate_of js →
  ∀ d, rtc (drun logfile self route) (Dr calls (Sy (init (length ws) b []) (initial ws cs))) d →
    sn (dstep logfile self route) d ∧
    (nf (dstep logfile self route) d →
      dr_calls d = [] ∧ PoolSteps.main (s_pool (dr_sys d)) = MDone ∧
      finished (s_pool (dr_sys d)) ≡ₚ js ∧ delivered route fate_of cs js (s_net (dr_sys d))).

Lemma trace_carried_out t : trace_inv t → calls_carried_out (all_calls t).
Proof.
  intros Ht Hjobs Hsame d Hr.
  destruct (driven_works logfile self route ws cs is_source fate_of b [] Hsetup Hn Hb (t_calls t) d) as [Hsn Hend]; try done.
  - apply Ht.
  - apply Ht.
  - split; [done|]. intros Hnf. by destruct (Hend Hnf) as (? & ? & _ & ? & _ & ?).
Qed.

End requests.

(** ** A directory *)

Section manager.
Variable logfile : ptr Z.
Variable self : nat → Z.
Variable route : bytes → Z → option nat.
Variable ws : list os.
Variable b : Z.
Context (Hb : (0 < b ≤ int_max)%Z) (Hn : 0 < length ws) (Hws : Forall worker_idle ws).
Context (i : sync_info) (entries : list bytes) (src tgt : cst).
Context (Hsu : sync_setup i entries src tgt).
Context (Hsrc : route (source_host i) (source_port i) = Some 0) (Htgt : route (target_host i) (target_port i) = Some 1).
Context (Hroute : ∀ host port j, route host port = Some j → j < 2).
Context (Hready : ready_client src) (Hidle : socks (cos tgt) = ∅).
Let names := names_of i entries src.

(** The system when the source client [src1] has answered the listing. *)
Definition sys_start (src1 : cst) : system := Sy (init (length ws) b []) (initial ws [src1; tgt]).

(** The manager's calls copy the directory, however the threads and the
    processes interleave. *)
Definition calls_copy (calls : list mcall) (src1 : cst) : Prop :=
  ∀ d, rtc (drun logfile self route) (Dr calls (sys_start src1)) d →
    sn (dstep logfile self route) d ∧
    (nf (dstep logfile self route) d →
      dr_calls d = [] ∧ PoolSteps.main (s_pool (dr_sys d)) = MDone ∧
      finished (s_pool (dr_sys d)) ≡ₚ job_for i <$> names ∧ dir_copied i entries src tgt (s_net (dr_sys d))).

Lemma traced_calls_copy t src1 :
  trace_inv t → trace_accepted t = job_for i <$> names → dir_setup route ws src tgt src1 →
  calls_copy (all_calls t) src1.
Proof.
  intros Ht Ha Hdir d Hr. rewrite <-all_calls_admitted in Ha.
  destruct (driven_works logfile self route ws [src1; tgt] first_source (source_fate route src) b []
    (dir_net_setup route ws i entries src tgt src1 Hsu Hdir) Hn Hb (t_calls t) d) as [Hsn Hend]; try done.
  - apply Ht.
  - apply Ht.
  - change (t_calls t ++ [CDestroy]) with (all_calls t). rewrite Ha. by eapply dir_jobs.
  - change (t_calls t ++ [CDestroy]) with (all_calls t). rewrite Ha. by eapply dir_consistent.
  - split; [done|]. intros Hnf. destruct (Hend Hnf) as (E1 & E2 & _ & E4 & Hlen & Hdel).
    change (t_calls t ++ [CDestroy]) with (all_calls t) in *. rewrite Ha in *.
    split_and!; [done..|]. by eapply delivered_copied.
Qed.

(** C1: a directory is copied, from the command to the last file: the source
    client answers the manager's LIST; its answer, arriving in one portion,
    makes [start_directory_sync] return 0, and [handle_shutdown_command] after
    it too; and when the calls that these two have made on the pool, and then
    [destroy_thread_pool], are made by the manager's thread, each when the one
    before has returned, then in every state that the threads of the pool, the
    workers' transfers and the clients can reach, spurious wakeups included,
    the runs from there with finitely many further spurious wakeups are finite,
    and where nobody can go on [destroy_thread_pool] has returned, every file
    of the listing has been processed once and is at the target with its
    content, and the other files of the target and all files of the source are
    as they were. *)
Theorem manager_copies_directory (s : gst trace) (a : loc) (ds : list (option sock))
    (Hi : infos (heap s) !! a = Some i) (Hsys : OS.sys (Manager.net s) = [])
    (Hdials : dials (Manager.net s) = Some (arriving [concat (listing names)]) :: ds)
    (Hlen : length (concat (listing names)) < MAX_BUFFER_SIZE)
    (Hpool : Manager.thread_pool s = Some new_trace) :
  ∃ src1 s1 s2 t,
    (∀ rest, serve (Some (arriving [list_command i]) :: rest) src = serve rest src1) ∧
    tx <$> closed (cos src1) = (tx <$> closed (cos src)) ++ [listing names] ∧
    start_directory_sync (Some a) s = Ret 0%Z s1 ∧ handle_shutdown_command s1 = Ret 0%Z s2 ∧
    Manager.thread_pool s2 = Some t ∧ calls_copy (all_calls t) src1.
Proof.
  assert (roomy s [] (length names)) as Hroom by (exists new_trace; split_and!; [done|apply new_trace_inv|done..]).
  destruct (directory_listed i entries src tgt s a ds [] Hsu Hi Hsys Hdials Hlen Hroom)
    as (src1 & s1 & E1 & Htx & F1 & F2 & F3 & F4 & F5 & E2 & Hacc & _).
  assert (wp handle_shutdown_command (λ r s2, r = 0%Z ∧ stopping s1 s2 ([] ++ (job_for i <$> names))) s1)
    as (r & s2 & E3 & -> & Hstop)%wp_returns by (eapply wp_handle_shutdown; [exact Hacc|by split]).
  destruct (sd_pool _ _ _ Hstop) as (t & Ht & Hinv & Ha & _).
  exists src1, s1, s2, t. split_and!; [done..|]. apply traced_calls_copy; [exact Hinv|exact Ha|].
  destruct Hready as [R1 R2]. split; [done|done|done| |done]. split_and!; [|done|rewrite F3; apply Hsu].
  split; [|unfold current_ok, is_file; by rewrite F4, F5]. unfold socks. by rewrite F4.
Qed.
End manager.
