(* ===== verification/NetDemo.v ===== *)
(** * Two workers and two clients

    The network of [Network.v] executed by the scheduler of [NetExec.v], on
    the two files of [Directory.v]: with queues that hold everything both
    files arrive; with queues that hold less than a file the two workers and
    the two clients can wait for each other for ever. *)
From S2P Require Import Prelude.
From S2P Require Import LinkedList.
From S2P Require Import CString.
From S2P Require Import Common.
From S2P Require Import JobSink.
From S2P Require Import JobQueue.
From S2P Require Import PoolSteps.
From S2P Require Import OS.
From S2P Require Import Utils.
From S2P Require Import DirSpec.
From S2P Require Import SyncInfo.
From S2P Require Import Client.
From S2P Require Import Transfer.
From S2P Require Import Manager.
From S2P Require Import ManagerSpec.
From S2P Require Import EndToEnd.
From S2P Require Import Directory.
From S2P Require Import Fate.
From S2P Require Import Programs.
From S2P Require Import Replay.
From S2P Require Import Protocol.
From S2P Require Import Network.
From S2P Require Import NetInv.
From S2P Require Import NetNode.
From S2P Require Import NetRuns.
From S2P Require Import NetFiles.
From S2P Require Import NetTerm.
From S2P Require Import NetDelivers.
From S2P Require Import NetRoom.
From S2P Require Import NetExec.
From S2P Require Import System.
From S2P Require Import Driver.
From S2P Require Import Recorder.
From S2P Require Import SystemDirectory.
From S2P Require Import ManagerTypes.
From S2P Require Import ManagerSystem.
From stdpp Require Import gmap strings list.
From Stdlib Require Import Ascii ZArith Lia.

Definition demo_self (i : nat) : Z := Z.of_nat i.
Definition demo_job (d : string) : sync_job := job_for (new_entry 7 pair_a) (lit d).

(** Both workers have taken their jobs. *)
Definition demo_begun (src : cst) : net :=
  let n := initial [demo_worker; demo_worker] [src; demo_tgt] in
  default n (run_schedule NULL demo_self None demo_route [CBegin 0 (demo_job "a"); CBegin 1 (demo_job "b")] n).

Definition demo_rest : net := run_out NULL demo_self None demo_route 200 (demo_begun demo_src).

Lemma demo_rests : can_go NULL demo_self None demo_route demo_rest = false.
Proof. vm_compute. reflexivity. Qed.

(** ** Queues that hold less than a file *)

Definition demo_large : bytes := replicate 100 (ascii_of_nat 120).
Definition large_src : cst :=
  Cst (Os ∅ (<[lit "src/a" := demo_large]> {[lit "src/b" := demo_large]})
         {[lit "src" := [lit "."; lit "a"; lit "b"]]} [] [] [] []
         (Tm 125 0 1 0 0 0) [] []) (-1).

(** Both workers connect to the source, then both to the target, the second
    worker first; the clients accept in that order. *)
Definition crossed : list netmove :=
  [CBegin 0 (demo_job "a"); CBegin 1 (demo_job "b"); CWorker 0; CWorker 1; CWorker 1; CWorker 0; CAccept 0; CAccept 2].

Definition crossed_net : net :=
  let n := initial [demo_worker; demo_worker] [large_src; demo_tgt] in
  run_out NULL demo_self (Some 64) demo_route 200
    (default n (run_schedule NULL demo_self (Some 64) demo_route crossed n)).

Lemma demo_workers : Forall worker_idle [demo_worker; demo_worker].
Proof. by repeat constructor. Qed.

Lemma large_setup : sync_setup (new_entry 7 pair_a) [lit "."; lit "a"; lit "b"] large_src demo_tgt.
Proof.
  assert (names_of (new_entry 7 pair_a) [lit "."; lit "a"; lit "b"] large_src = [lit "a"; lit "b"]) as E by (vm_compute; reflexivity).
  split; rewrite ?E; try done; try (apply (bool_decide_unpack _); vm_compute; exact I).
Qed.

(** A schedule, then the scheduler. *)
Lemma scheduled cap route n cs fuel :
  (if run_schedule NULL demo_self cap route cs n is Some _ then true else false) = true →
  rtc (nmove NULL demo_self cap route) n
    (run_out NULL demo_self cap route fuel (default n (run_schedule NULL demo_self cap route cs n))).
Proof.
  destruct (run_schedule _ _ _ _ cs n) as [n1|] eqn:E; [|done]. intros _. apply run_schedule_sound in E.
  etrans; [exact E|]. by apply settles_moves, run_out_runs.
Qed.

Lemma demo_job_ok src entries d :
  sync_setup (new_entry 7 pair_a) entries src demo_tgt → d ∈ names_of (new_entry 7 pair_a) entries src →
  NetFiles.job_ok demo_route first_source (source_fate demo_route src) [src; demo_tgt] (job_for (new_entry 7 pair_a) d).
Proof. intros Hsu Hd. by apply (directory_job demo_route (new_entry 7 pair_a) entries src demo_tgt src Hsu). Qed.

(** C38: two workers and two clients can wait for each other for ever when a
    connection's queue does not hold a whole file: both workers connect to the
    same source and target, each client accepts in the order in which it was
    connected to, and the source serves the worker that the target makes
    wait.  The source has both files, and with larger queues
    [network_delivers] holds for the two jobs. *)
Theorem crossed_connections_deadlock :
  rtc (nmove NULL demo_self (Some 64) demo_route) (initial [demo_worker; demo_worker] [large_src; demo_tgt]) crossed_net ∧
  nf (settles (Some 64) demo_route) crossed_net ∧ xfers crossed_net = [] ∧
  jobs_of crossed_net = [demo_job "a"; demo_job "b"] ∧
  ∀ job, job ∈ jobs_of crossed_net →
    NetFiles.job_ok demo_route first_source (source_fate demo_route large_src) [large_src; demo_tgt] job.
Proof.
  assert (jobs_of crossed_net = [demo_job "a"; demo_job "b"]) as Hj by (vm_compute; reflexivity).
  split_and!; [|apply (stuck_nf NULL demo_self); vm_compute; reflexivity|by vm_compute|done|].
  - apply scheduled. vm_compute. reflexivity.
  - rewrite Hj. intros job [->|[->|[]%elem_of_nil]%elem_of_cons]%elem_of_cons;
      (apply (demo_job_ok large_src [lit "."; lit "a"; lit "b"]); [apply large_setup|apply (bool_decide_unpack _); vm_compute; exact I]).
Qed.

(** A pair whose source and target are the same client. *)
Definition to_itself (host : bytes) (port : Z) : option nat := Some 0.

Definition itself_net : net :=
  let n := initial [demo_worker] [large_src] in
  run_out NULL demo_self (Some 64) to_itself 200
    (default n (run_schedule NULL demo_self (Some 64) to_itself [CBegin 0 (demo_job "a")] n)).

(** One worker is enough to wait for ever if it copies a file, larger than a
    queue, within a client: the client sends the file on the connection it
    serves, and the worker waits for room on the other one. *)
Theorem same_client_deadlock :
  rtc (nmove NULL demo_self (Some 64) to_itself) (initial [demo_worker] [large_src]) itself_net ∧
  nf (settles (Some 64) to_itself) itself_net ∧ xfers itself_net = [] ∧ jobs_of itself_net = [demo_job "a"].
Proof.
  split; [apply scheduled; vm_compute; reflexivity|].
  split; [apply (stuck_nf NULL demo_self); vm_compute; reflexivity|].
  split; vm_compute; reflexivity.
Qed.

(** ** Queues that hold everything *)

Lemma demo_worker_idle : Forall worker_idle [demo_worker].
Proof. by repeat constructor. Qed.

Lemma demo_rest_run : rtc (nmove NULL demo_self None demo_route) (initial [demo_worker; demo_worker] [demo_src; demo_tgt]) demo_rest.
Proof. apply (scheduled None _ _ [CBegin 0 (demo_job "a"); CBegin 1 (demo_job "b")] 200). vm_compute. reflexivity. Qed.

Lemma demo_route_clients (cs : list cst) host port j : length cs = 2 → demo_route host port = Some j → j < length cs.
Proof. intros ->. unfold demo_route. do 2 (case_bool_decide; [intros [= <-]; lia|]). done. Qed.

Lemma demo_net_setup src ws :
  src = demo_src ∨ src = large_src → Forall worker_idle ws → net_setup demo_route first_source ws [src; demo_tgt].
Proof.
  intros Hsrc Hws. split; [done| |intros host port j; by apply demo_route_clients].
  destruct Hsrc as [->| ->]; intros [|[|j]] s; simpl; intros [= <-]; (split; [split; [done|intros H; simpl in H; lia]|done|by simpl; auto]).
Qed.

(** A job whose file the source has not, and jobs with an address at which
    nobody listens, or which is none, for the target and for the source. *)
Definition to_host (h : string) (j : sync_job) : sync_job :=
  SyncJob (job_source_host j) (job_source_port j) (job_source_dir j) (lit h) (job_target_port j) (job_target_dir j)
    (job_filename j) (job_next j).
Definition from_host (h : string) (j : sync_job) : sync_job :=
  SyncJob (lit h) (job_source_port j) (job_source_dir j) (job_target_host j) (job_target_port j) (job_target_dir j)
    (job_filename j) (job_next j).

Definition demo_lost : list sync_job :=
  [demo_job "x"; to_host "10.0.0.9" (demo_job "a"); to_host "nowhere" (demo_job "a");
   from_host "10.0.0.9" (demo_job "b"); from_host "nowhere" (demo_job "b")].

Lemma demo_fates :
  Forall2 (λ j f, source_fate demo_route demo_src j = f) demo_lost [Missing; NoTarget; NoTarget; NoSource; NoSource].
Proof. repeat constructor. Qed.

Lemma demo_lost_ok job :
  job ∈ demo_lost → NetFiles.job_ok demo_route first_source (source_fate demo_route demo_src) [demo_src; demo_tgt] job.
Proof.
  intros (i & Hi)%list_elem_of_lookup_1. destruct (Forall2_lookup_l _ _ _ _ _ demo_fates Hi) as (f & Hf & E).
  split; rewrite E; destruct i as [|[|[|[|[|i]]]]]; try done; injection Hi as <-; injection Hf as <-; try done;
    try (split; [done|]; by exists 0, demo_src).
  - split; [done|]. exists 0, demo_src. split_and!; [done..|]. split_and!; [|by vm_compute..].
    apply (bool_decide_unpack _). vm_compute. exact I.
  - intros _. split; [done|]. by exists 1, demo_tgt.
Qed.

Definition demo_all : list sync_job := [demo_job "a"; demo_job "b"] ++ demo_lost.

Lemma demo_jobs_ok job :
  job ∈ demo_all → NetFiles.job_ok demo_route first_source (source_fate demo_route demo_src) [demo_src; demo_tgt] job.
Proof.
  intros [Hj|Hj]%elem_of_app; [|by apply demo_lost_ok]. revert Hj.
  intros [->|[->|[]%elem_of_nil]%elem_of_cons]%elem_of_cons;
    (eapply demo_job_ok; [apply demo_setup|apply (bool_decide_unpack _); vm_compute; exact I]).
Qed.

Lemma demo_found job data :
  job ∈ demo_all → source_fate demo_route demo_src job = Copied data → job = demo_job "a" ∨ job = demo_job "b".
Proof.
  intros [H|(i & Hi)%list_elem_of_lookup_1]%elem_of_app E; [set_solver|].
  destruct (Forall2_lookup_l _ _ _ _ _ demo_fates Hi) as (f & Hf & E').
  rewrite E in E'. subst f. by destruct i as [|[|[|[|[|i]]]]].
Qed.

Lemma demo_consistent js : (∀ job, job ∈ js → job ∈ demo_all) → consistent demo_route (source_fate demo_route demo_src) js.
Proof.
  intros Hp j1 j2 d1 d2 H1%Hp H2%Hp F1 F2 _ E.
  destruct (demo_found _ _ H1 F1) as [->| ->], (demo_found _ _ H2 F2) as [->| ->]; try congruence;
    exfalso; revert E; apply (bool_decide_unpack (_ ≠ _)); vm_compute; exact I.
Qed.

Lemma demo_pair_all job : job ∈ [demo_job "a"; demo_job "b"] → job ∈ demo_all.
Proof. set_solver. Qed.

Lemma network_refines_scripts_witness :
  (x_worker <$> xfers demo_rest = [0; 1]) ∧
  (∀ x, x ∈ xfers demo_rest → ∃ o,
     sync_single_file NULL (demo_self (x_worker x)) (x_job x)
       (set_dial (λ _, answer (links demo_rest) <$> x_dials x) id (x_start x)) = Ret (x_result x) o).
Proof.
  split; [vm_compute; reflexivity|].
  destruct (network_refines_scripts NULL demo_self None demo_route 2
    (λ host port j, demo_route_clients [demo_src; demo_tgt] host port j eq_refl)
    [demo_worker; demo_worker] [demo_src; demo_tgt] demo_rest demo_workers) as [H _].
  - by repeat (constructor; [split; [done|intros H; simpl in H; lia]|]).
  - done.
  - apply demo_rest_run.
  - intros x Hx. destruct (H x Hx) as (o & E & _). by exists o.
Defined.

(** Six workers, of whose jobs one succeeds. *)
Definition lost_workers : list os := replicate 6 demo_worker.
Definition lost_begun : net :=
  let n := initial lost_workers [demo_src; demo_tgt] in
  run_out NULL demo_self None demo_route 0
    (default n (run_schedule NULL demo_self None demo_route (imap CBegin (demo_job "a" :: demo_lost)) n)).

Definition lost_rest : net := run_out NULL demo_self None demo_route 200 lost_begun.

Lemma network_delivers_witness :
  sn (settles None demo_route) lost_begun ∧
  delivered demo_route (source_fate demo_route demo_src) [demo_src; demo_tgt] (jobs_of lost_begun) lost_rest.
Proof.
  assert (jobs_of lost_begun = demo_job "a" :: demo_lost) as Hj by (vm_compute; reflexivity).
  destruct (network_delivers NULL demo_self demo_route first_source (source_fate demo_route demo_src)
    lost_workers [demo_src; demo_tgt]) with (n := lost_begun) as [H1 H2].
  - apply demo_net_setup; [by left|by repeat constructor].
  - apply scheduled. vm_compute. reflexivity.
  - intros job. rewrite Hj. intros H. apply demo_jobs_ok. unfold demo_all. set_solver.
  - apply demo_consistent. intros job. rewrite Hj. unfold demo_all. set_solver.
  - split; [exact H1|]. apply (H2 lost_rest); [apply run_out_runs|apply (stuck_nf NULL demo_self); vm_compute; reflexivity].
Defined.

(** The first worker's file has arrived; the others have given up, and the
    target's other file is as it was. *)
Example lost_results :
  (λ x, (x_worker x, x_result x)) <$> xfers lost_rest = [(0, 0%Z); (1, (-1)%Z); (2, (-1)%Z); (3, (-1)%Z); (4, (-1)%Z); (5, (-1)%Z)] ∧
  map_to_list ∘ files ∘ cos ∘ n_st <$> nds lost_rest !! 1 = Some [(lit "dst/b", lit "old"); (lit "dst/a", lit "one")].
Proof. split; vm_compute; reflexivity. Qed.

Definition one_begun : net :=
  let n := initial [demo_worker] [large_src; demo_tgt] in
  run_out NULL demo_self (Some 64) demo_route 0
    (default n (run_schedule NULL demo_self (Some 64) demo_route [CBegin 0 (demo_job "a")] n)).

Definition one_rest : net := run_out NULL demo_self (Some 64) demo_route 200 one_begun.

(** One worker, and queues that hold less than a file. *)
Lemma bounded_queues_deliver_witness :
  sn (settles (Some 64) demo_route) one_begun ∧
  delivered demo_route (source_fate demo_route large_src) [large_src; demo_tgt] (jobs_of one_begun) one_rest.
Proof.
  assert (jobs_of one_begun = [demo_job "a"]) as Hj by (vm_compute; reflexivity).
  destruct (bounded_queues_deliver NULL demo_self (Some 64) demo_route first_source (source_fate demo_route large_src)
    [demo_worker] [large_src; demo_tgt] (demo_net_setup _ _ (or_intror eq_refl) demo_worker_idle) one_begun) as [H1 H2].
  - apply scheduled. vm_compute. reflexivity.
  - rewrite Hj. intros job ->%list_elem_of_singleton.
    apply (demo_job_ok large_src [lit "."; lit "a"; lit "b"]); [apply large_setup|apply (bool_decide_unpack _); vm_compute; exact I].
  - rewrite Hj. intros j1 j2 d1 d2 ->%list_elem_of_singleton ->%list_elem_of_singleton. congruence.
  - apply exclusive_one. vm_compute. lia.
  - split; [exact H1|]. apply (H2 one_rest); [apply run_out_runs|apply (stuck_nf NULL demo_self); vm_compute; reflexivity].
Defined.

(** Both files have arrived. *)
Example demo_files :
  map_to_list ∘ files ∘ cos ∘ n_st <$> nds demo_rest !! 1 = Some [(lit "dst/b", lit "two words"); (lit "dst/a", lit "one")].
Proof. vm_compute. reflexivity. Qed.

(** ** The whole system *)

Definition demo_start : system := Sy (init 1 2 []) (initial [demo_worker] [demo_src; demo_tgt]).

Lemma demo_system :
  ∃ y, rtc (sstep NULL demo_self demo_route) demo_start y ∧ PoolSteps.main (s_pool y) = JJoin ∧
    accepted (s_pool y) = [demo_job "a"; demo_job "b"].
Proof.
  destruct demo_accepts as (p & Hr & Hm & Ha). exists (Sy p (initial [demo_worker] [demo_src; demo_tgt])).
  split; [|done]. by apply idle_steps.
Qed.

Lemma system_synchronises_witness :
  ∃ y, PoolSteps.main (s_pool y) = JJoin ∧ sn (sstep NULL demo_self demo_route) y ∧
    ∀ y', rtc (sstep NULL demo_self demo_route) y y' → nf (sstep NULL demo_self demo_route) y' →
      finished (s_pool y') ≡ₚ [demo_job "a"; demo_job "b"].
Proof.
  destruct demo_system as (y & Hr & Hm & Ha). exists y. split; [exact Hm|].
  destruct (system_synchronises NULL demo_self demo_route [demo_worker] [demo_src; demo_tgt] first_source (source_fate demo_route demo_src)
    2 [] (demo_net_setup _ _ (or_introl eq_refl) demo_worker_idle)) with (y := y) as [H1 H2]; [simpl; lia|done|exact Hr|exact Hm|..].
  - intros job. rewrite Ha. intros H. by apply demo_jobs_ok, demo_pair_all.
  - apply demo_consistent. rewrite Ha. apply demo_pair_all.
  - split; [exact H1|]. intros y' Hs Hnf. rewrite <-Ha. by apply (H2 y' Hs Hnf).
Defined.

Definition demo_info : sync_info := new_entry 7 pair_a.
Definition demo_entries : list bytes := [lit "."; lit "sub"; lit "a"; lit ".."; lit "b"].

Lemma demo_target_a : files (cos demo_src) !! relative_path (source_file demo_info (lit "a")) = Some (lit "one").
Proof. vm_compute. reflexivity. Qed.

Lemma demo_name_a : lit "a" ∈ names_of demo_info demo_entries demo_src.
Proof. apply (bool_decide_unpack _). vm_compute. exact I. Qed.

(** Where the directory has been copied, its first file is at the target. *)
Lemma demo_copied n :
  dir_copied demo_info demo_entries demo_src demo_tgt n →
  ∃ t, nds n !! 1 = Some t ∧ files (cos (n_st t)) !! lit "dst/a" = Some (lit "one").
Proof.
  intros (s & t & _ & Ht & _ & Hf & _). exists t. split; [exact Ht|]. specialize (Hf (lit "a") demo_name_a).
  rewrite demo_target_a in Hf. rewrite <-Hf. f_equal.
Qed.

Lemma demo_dir_setup : dir_setup demo_route [demo_worker] demo_src demo_tgt demo_src.
Proof.
  split; [exact demo_worker_idle| |done| |done].
  - intros host port j. by apply (demo_route_clients [demo_src; demo_tgt]).
  - split; [split; [done|intros H; simpl in H; lia]|done].
Qed.

Lemma demo_delivered :
  ∃ y, sn (sstep NULL demo_self demo_route) y ∧
    ∀ y', rtc (sstep NULL demo_self demo_route) y y' → nf (sstep NULL demo_self demo_route) y' →
      ∃ t, nds (s_net y') !! 1 = Some t ∧ files (cos (n_st t)) !! lit "dst/a" = Some (lit "one").
Proof.
  destruct demo_system as (y & Hr & Hm & Ha). exists y.
  destruct (directory_delivered NULL demo_self demo_route [demo_worker] 2 [] demo_info demo_entries
    demo_src demo_tgt demo_src demo_setup eq_refl eq_refl demo_dir_setup) with (y := y) as [H1 H2];
    [done|simpl; lia|exact Hr|exact Hm|by rewrite Ha|].
  split; [exact H1|]. intros y' Hs Hnf. destruct (H2 y' Hs Hnf) as (_ & Hc). by apply demo_copied.
Qed.

(** ** The driven system *)

(** A file, five jobs that fail, one for which there is no memory, another
    file, and one job after the shutdown. *)
Definition demo_calls : list mcall :=
  [CAdd (demo_job "a")] ++ (CAdd <$> demo_lost) ++ [CAdd (demo_job "z"); CAdd (demo_job "b"); CShutdown; CAdd (demo_job "y")].

Definition demo_av : list bool := [true; true; true; true; true; true; false; true].

Lemma demo_admitted : admitted demo_av (demo_calls ++ [CDestroy]) = [demo_job "a"] ++ demo_lost ++ [demo_job "b"].
Proof. reflexivity. Qed.

Lemma demo_admitted_all job : job ∈ admitted demo_av (demo_calls ++ [CDestroy]) → job ∈ demo_all.
Proof. rewrite demo_admitted. unfold demo_all. set_solver. Qed.

Lemma driver_synchronises_witness :
  ∃ d0, dr_calls d0 = demo_calls ++ [CDestroy] ∧
    ∀ d, rtc (drun NULL demo_self demo_route) d0 d →
      sn (dstep NULL demo_self demo_route) d ∧
      (nf (dstep NULL demo_self demo_route) d → accepted (s_pool (dr_sys d)) = [demo_job "a"] ++ demo_lost ++ [demo_job "b"] ∧
        ∃ t, nds (s_net (dr_sys d)) !! 1 = Some t ∧ files (cos (n_st t)) !! lit "dst/a" = Some (lit "one")).
Proof.
  exists (Dr (demo_calls ++ [CDestroy]) (Sy (init 1 2 demo_av) (initial [demo_worker] [demo_src; demo_tgt]))).
  split; [reflexivity|]. intros d Hr.
  destruct (driver_synchronises NULL demo_self demo_route [demo_worker] [demo_src; demo_tgt] first_source (source_fate demo_route demo_src)
    2 demo_av (demo_net_setup _ _ (or_introl eq_refl) demo_worker_idle)) with (l := demo_calls) (d := d) as [H1 H2];
    [simpl; lia|done|by repeat constructor|by repeat (apply not_elem_of_cons; split; [done|]); apply not_elem_of_nil| | |exact Hr|].
  - intros job H. by apply demo_jobs_ok, demo_admitted_all.
  - apply demo_consistent, demo_admitted_all.
  - split; [exact H1|]. intros Hnf. destruct (H2 Hnf) as (_ & _ & E & _ & [_ D _]). split; [by rewrite <-demo_admitted|].
    destruct (D (demo_job "a") (lit "one")) as (j & nd & Hj & Hnd & Hf); [rewrite demo_admitted; by left|by vm_compute|].
    assert (target_of_a : demo_route (job_target_host (demo_job "a")) (job_target_port (demo_job "a")) = Some 1) by reflexivity.
    rewrite target_of_a in Hj. injection Hj as <-. by exists nd.
Defined.

(** ** The manager *)

(** The manager of the example, with a new pool whose calls are written down. *)
Definition demo_traced : gst trace :=
  Gst demo_manager (demo_net [] [Some (arriving [list_text [lit "a"; lit "b"]])]) demo_heap_a (Some new_trace) 0
    (Some 3%Z) [] true.

Lemma manager_copies_directory_witness :
  ∃ src1 s1 s2 t, start_directory_sync (Some 2%positive) demo_traced = Ret 0%Z s1 ∧
    handle_shutdown_command s1 = Ret 0%Z s2 ∧ Manager.thread_pool s2 = Some t ∧
    ∀ d, rtc (drun NULL demo_self demo_route) (Dr (all_calls t) (sys_start [demo_worker] 2 demo_tgt src1)) d →
      nf (dstep NULL demo_self demo_route) d →
      ∃ t, nds (s_net (dr_sys d)) !! 1 = Some t ∧ files (cos (n_st t)) !! lit "dst/a" = Some (lit "one").
Proof.
  destruct (manager_copies_directory NULL demo_self demo_route [demo_worker] 2) with (i := demo_info)
    (entries := demo_entries) (src := demo_src) (tgt := demo_tgt) (s := demo_traced) (a := 2%positive) (ds := @nil (option sock))
    as (src1 & s1 & s2 & t & _ & _ & E1 & E2 & Ht & Hcopy).
  1: done. 1: simpl; lia. 1: exact demo_worker_idle. 1: exact demo_setup. 1-2: reflexivity.
  1: apply demo_dir_setup. 1: split; [done|intros H; simpl in H; lia]. 1-3: reflexivity. 1: reflexivity.
  1: vm_compute; lia. 1: reflexivity.
  exists src1, s1, s2, t. split; [exact E1|]. split; [exact E2|]. split; [exact Ht|].
  intros d Hr Hnf. destruct (Hcopy d Hr) as [_ Hend]. destruct (Hend Hnf) as (_ & _ & _ & Hc). by apply demo_copied.
Defined.

(** What the manager has its pool do: the two jobs of the listing, the shutdown and the end. *)
Example demo_all_calls :
  match (start_directory_sync (Some 2%positive) ;;; handle_shutdown_command)%prog demo_traced with
  | Ret _ s => all_calls <$> Manager.thread_pool s
  | _ => NULL
  end = Some [CAdd (demo_job "a"); CAdd (demo_job "b"); CShutdown; CDestroy].
Proof. vm_compute. reflexivity. Qed.

(** Requests: a pair, a text that is none, a cancellation, a signal and the shutdown. *)
Definition demo_requests : list request :=
  [RAdd (Some (lit "/src@10.0.0.1:8001")) (Some (lit "/dst@10.0.0.2:8002")); RAdd (Some (lit "nonsense")) NULL;
   RCancel (Some (lit "/src@10.0.0.1:8001")); RSignal; RShutdown].

Definition demo_asked : gst trace :=
  Gst demo_manager (demo_net [] [Some (arriving [list_text [lit "a"; lit "b"; lit "x"]])]) demo_heap (Some new_trace) 0
    (Some 3%Z) [] true.

Lemma demo_asked_calls :
  match run_requests demo_requests demo_asked with Ret _ s => all_calls <$> Manager.thread_pool s | _ => NULL end =
    Some [CAdd (demo_job "a"); CAdd (demo_job "b"); CAdd (demo_job "x"); CShutdown; CDestroy].
Proof. vm_compute. reflexivity. Qed.

